(* ===== verification/_CoqProject ===== *)
-Q . S2P
Prelude.v
Model.v
Instances.v
Encoding.v
Segment.v
SegmentSpec.v
DedupeIndex.v
SegmentApi.v
Memtable.v
Dedupe.v
Wal.v
Manifest.v
Period.v
Flusher.v
Compaction.v
State.v
Ingest.v
Recovery.v
System.v
FastMode.v
Rollup.v
RollupWorker.v
Shutdown.v
Query.v
Sql.v
Api.v
Periods.v
Lifecycle.v
Admin.v
Billing.v
Late.v
Kill.v
Snapshot.v
Process.v
Server.v
