(* ===== verification/Prelude.v ===== *)
(** * usageDb: a verification development

    usageDb is an append-only store of usage events for billing: clients post
    batches of events, the server acknowledges them after they are in a
    write-ahead log, background workers turn them into immutable segments and
    hourly rollups, and queries, invoices (closed periods) and an audit trail
    are answered from both.

    ** The parts and how they interact

    A batch request ([handle_ingest] of [src/api/http_server.rs]) validates the
    events, classifies them against the dedupe cache, appends the new ones to
    the log ([src/ingest/wal.rs]), commits them to the cache
    ([src/ingest/dedupe.rs]) and inserts them into the memtable
    ([src/ingest/memtable.rs]).  A full memtable is drained, the log is rotated
    and, when the locks are released, the events are sent with the id of the
    sealed log file to the flusher ([src/ingest/flusher.rs]), which writes one raw segment per bucket
    ([src/storage/]) with a dedupe sidecar, commits all of them in one manifest
    save ([src/storage/manifest.rs]) and deletes the sealed log files.  The
    rollup worker ([src/rollup/]) summarises completed hours and advances the
    watermark; the compaction worker ([src/compact/]) merges the segments of a
    bucket; queries ([src/query/]) read rollups below the watermark and raw
    events above it.  After a crash, recovery ([src/runtime/recovery.rs])
    rebuilds memtable and cache from the manifest, the sidecars and the log.
    The server and the admin commands ([src/main.rs], [src/admin.rs]) are
    processes that exclude each other by a file lock ([src/runtime/lock.rs]).

    ** Files

    - [Prelude]: the [outcome] of fallible code ([Ok], [Err], [Panic]),
      machine-width integers, byte strings, decimal text, ordered insertion and
      sorting, first-occurrence deduplication, sums; the tactics and hint
      databases.
    - [Model]: [src/model/] - events, ids, dimensions, buckets and hashes; the
      interfaces [Blake3], [Bincode], [SerdeJson], [Compressors] of the crates
      the program calls, each with a class of the laws it relies on ([Blake3Ok],
      ...).  [Instances]: a concrete implementation of every interface with its
      laws proved, so that every hypothesis is satisfiable and examples run.
    - [Encoding]: [src/storage/encoding.rs] and the column loops - dictionary,
      delta, zigzag, varint and run-length.  [Segment]: the raw segment file,
      writer and reader, byte for byte ([src/storage/segment_format.rs],
      [segment_writer.rs], [segment_reader.rs], [compression.rs]).
      [SegmentSpec]: its round trip and what it rejects.  [DedupeIndex]: the
      sidecar ([src/storage/dedupe_index.rs]).  [SegmentApi]: the interface
      [RawSegments]/[RawSegmentsOk] the other components are proved against,
      and the instance by the file format.
    - [Memtable], [Dedupe], [Wal]: [src/ingest/memtable.rs], [dedupe.rs],
      [wal.rs].  The log is a directory of bytes with a synced prefix per file;
      a crash keeps any prefix beyond it.
    - [Manifest]: [src/storage/manifest.rs].  A save is the list of its file
      operations, so that it can stop anywhere.  [Period]: [src/period.rs].
    - [Flusher], [Compaction], [State], [Ingest], [Recovery]: the files of the
      same names, [src/runtime/state.rs], [config.rs] and [lock.rs], the ingest
      handler, [src/runtime/recovery.rs] and the start of [src/main.rs].
    - [System]: the write path as a step relation (request, forced drain, send,
      flush, crash and restart) with its invariant [sys_inv].  [FastMode]: the same path
      with the fast durability mode, which does not sync the log, against the
      log as far as it has been synced.
    - [Rollup], [RollupWorker]: [src/rollup/].  [Shutdown]: the end of
      [run_server].
    - [Query], [Sql], [Api]: [src/query/plan.rs] and [executor.rs],
      [src/query/sql.rs], and the read endpoints of [src/api/http_server.rs].
    - [Periods]: the closing, reopening and reading of billing periods.
      [Lifecycle]: all requests and workers interleaved around a closed period.
    - [Admin]: [src/admin.rs], [src/export/parquet.rs],
      [src/storage/columns.rs].
    - [Billing]: the whole server as one step relation, and what clients are
      billed in terms of what they were told was accepted.  [Late]: the same for
      what is answered from rollups, with events that arrive after their hour.
    - [Kill]: the directory at every point of a flush, a rollup tick, a
      compaction, a sweep, a closing or reopening and a rebuild at which the
      process can die.  [Snapshot]: queries whose reads of the manifest, the
      files and the memtable have other work between them.
    - [Process]: [main] - servers and admin commands on one directory, each
      with its own memory, and the lock between them; the clean-up of [tmp/].
    - [Server]: the routes and the status of every answer
      ([build_router] and [AppError] of [src/api/http_server.rs]).

    ** How effects are modelled

    State is passed explicitly.  A section the code runs under its locks is one
    function from state to state; where the code takes locks one after the
    other ([RollupWorker::tick], closing a period, validation before the
    critical section of a request, the reads of a query) the values it read are
    separate arguments,
    or the request is in flight in the state, so that other steps may come in
    between.  A drained message is first in the hands of the task that drained
    it ([as_sending]) and reaches the channel ([as_queue]) by a step of its own
    ([send]), in any order or not at all.  The clock, drawn uuids and the failure of any file operation are
    arguments.  Integers are [Z] with their width written out where the code
    can reach it: [wrapu], [wraps], saturating arithmetic, [as] casts;
    [Panic] is kept apart from [Err].  Counters that cannot reach their width
    (log ids, row counts) are exact and the file says so; a manifest generation
    is bounded explicitly ([generation < u64_max]).

    ** The histories of the cross-component theorems

    Every operation is modelled with its faults, and its own theorems hold for
    all of them.  The theorems that follow a server through a history
    ([System], [FastMode], [Billing], [Late], [Kill], [Snapshot], [Process] and
    the drain of [Shutdown]) are about histories in which no call on a file
    fails (a request, flush, tick or save that fails is not a step), drained
    messages are sent in the order of their drains, drawn segment names are
    new, rows fit the format and counters stay within u64; where
    compaction is a step, it does not merge two rows with one event id (it
    drops such a row by design); and a machine failure keeps the directory
    entries of files that were synced.  Each property says which of these it
    assumes.  They are needed: [Sys.overtaken_message_lost] (sends out
    of order), [RecoveryExample.failed_sync_counts_twice] and
    [Flush.flush_failure_forgets_buckets] (failed calls),
    [SystemExample.unsynced_log_entry_lost] (directory entries) prove what
    happens without them.  [Life.closed_period_sealed] and
    [Proc.one_process_at_a_time] need none of them.

    ** What the theorems show

    - Durability and exactness of the write path: [Sys.acked_events_kept],
      [Sys.crash_recovers], [Kill.death_recovers],
      [Ing.ingest_admits_exactly], [Ing.ingest_retry_adds_nothing],
      [Flush.flush_commits], [Shut.shutdown_stores_acked], and the theorems
      [Rec.recovery_restores], [Ing.ingest_ack_durable] and
      [WalOps.wal_synced_events_survive] below them.  Without syncing, a crash
      loses only the newest accepted events ([Unsynced.fast_crash_loses_tail]).
    - Files and the catalogue: [Files.segment_roundtrip],
      [Files.opened_segment_reads_safely], [Files.encodings_lossless],
      [Man.manifest_save_atomic], [Man.manifest_load_newest_valid],
      [Compact.compaction_preserves_events].
    - Answers: a raw query is the filter and aggregation of all stored events,
      whatever is pruned ([Exec.raw_query_exact], [Exec.aggregate_exact]); the
      rollup path answers the same on whole hours
      ([Exec.rollup_query_agrees], with [RW.tick_exact] and [Admin.rebuild_exact]
      for its hypothesis); SQL, audit, explain, periods,
      the deep check and export ([Sql.sql_query_exact],
      [Sql.sql_accepts_subset], [Api.account_events_exact],
      [Roll.rollup_rows_exact], ...).
    - Across components, in the histories above: every accepted event is
      billed, once ([Bill.accepted_is_billed]); rollup queries, verify and closed periods
      give the totals of the accepted events but for late ones, which verify
      reports exactly ([Late.rollups_bill_all_but_late]) and a rebuild brings
      in ([Late.rebuild_repairs_late]);
      only validated events within their types exist
      ([Bill.stored_events_typed]); [Life.closed_period_sealed]; a query that
      overlaps other work answers from events that were stored, and which ones
      it may miss ([Snap.overlapping_raw_query], [Snap.overlapping_rollup_query]).
    - Processes and requests: at most one process works on a directory
      ([Proc.one_process_at_a_time], whatever fails); after a history of
      servers, crashes, also inside a flush, and admin commands the server
      starts with exactly the accepted events ([Proc.server_comes_back]); a reading request is always answered and a
      500 is about its own parameters ([Http.reads_always_answered]).
    - Where the code does less than it says: [Shut.shutdown_never_exits],
      [Sys.overtaken_message_lost], and the lemmas
      [ManExample.torn_save_loads_left_over],
      [Close.net_total_counts_adjustments_twice],
      [RW.tick_race_passes_drained], [RW.rebuild_unaligned_leaves_hole],
      [Life.close_race_admits_usage].

    Examples are in the [...Example] module at the end of each file: the
    theorems are applied there to concrete states.

    ** Fuel and bounds

    Recursion is structural except for: the varint encoder (19 groups of seven
    bits hold a u128), decimal printing (a step per bit of the number),
    [decode_records] of the rollup reader (every record consumes at least four
    bytes, so the length of the input; [decode_records_no_panic] shows that
    the fuel is never the reason for stopping), the trimming of text (a byte
    per step) and the hours of a rollup tick (one more than the hours in the
    range).  The theorems about these functions have no fuel in their
    statements.

    ** Not modelled, and why

    - The tokio runtime (timers, [select!], signals), socket handling and the
      JSON syntax of requests and responses.  The handlers are modelled from
      their parsed request to the fields and the status of their response;
      axum's extractors are a parameter.
    - Third-party algorithms: blake3, bincode, serde_json, zstd, lz4, chrono,
      sqlparser, arrow, parquet and clap are parameters, or only called.
    - The text that [src/admin.rs] prints and the log messages (the values they
      print are).
    - [src/ingest/writer.rs] and [src/model/query.rs]: declared and unused.

    - In the accounting of [Late]: a tick that races with a drain and a rebuild
      that stops short of the watermark.  Both are modelled where they are
      defined ([RollupWorker], [Admin]), and [RW.tick_race_passes_drained] and
      [RW.rebuild_unaligned_leaves_hole] show why the totals of [Late] do not
      hold with them. *)

From Stdlib Require Import Ascii.
From stdpp Require Import sorting numbers strings base gmap list.

#[global] Open Scope Z_scope.
#[global] Set Default Goal Selector "!".
#[global] Generalizable All Variables.

(** ** Results of fallible Rust code

    [Ok]/[Err] are the constructors of [Result]; [Panic] is the outcome of an
    out-of-bounds index, an overflow in a checked build or an [unwrap] of
    [None].  Keeping it apart from [Err] lets a theorem say that a reader
    reports corruption instead of aborting the process. *)
Inductive outcome (E A : Type) : Type :=
| Ok (a : A)
| Err (e : E)
| Panic.
Arguments Ok {E A} a.
Arguments Err {E A} e.
Arguments Panic {E A}.

#[export] Instance outcome_ret {E} : MRet (outcome E) := λ A a, Ok a.
#[export] Instance outcome_bind {E} : MBind (outcome E) := λ A B f m,
  match m with
  | Ok a => f a
  | Err e => Err e
  | Panic => Panic
  end.

Definition ok_or {E A} (e : E) (o : option A) : outcome E A :=
  match o with Some a => Ok a | None => Err e end.

(** An indexing expression [v[i]]: panics when the index is out of range. *)
Definition index_or_panic {E A} (l : list A) (i : nat) : outcome E A :=
  match l !! i with Some a => Ok a | None => Panic end.

Definition guard_err {E} (b : bool) (e : E) : outcome E unit :=
  if b then Ok tt else Err e.

(** ** Machine integers

    A w-bit integer is a [Z]; [wrapu] and [wraps] write the wrap-around out. *)
Definition wrapu (w z : Z) : Z := z mod 2 ^ w.
Definition wraps (w z : Z) : Z := (z + 2 ^ (w - 1)) mod 2 ^ w - 2 ^ (w - 1).

Definition inu (w z : Z) : Prop := 0 ≤ z < 2 ^ w.
Definition ins (w z : Z) : Prop := - 2 ^ (w - 1) ≤ z < 2 ^ (w - 1).

#[export] Instance inu_dec w z : Decision (inu w z).
Proof. unfold inu. apply _. Defined.
#[export] Instance ins_dec w z : Decision (ins w z).
Proof. unfold ins. apply _. Defined.

Definition i64_max : Z := 9223372036854775807.
Definition i64_min : Z := -9223372036854775808.
Definition i128_max : Z := 170141183460469231731687303715884105727.
Definition i128_min : Z := -170141183460469231731687303715884105728.

(** [i128::saturating_add], [i128::saturating_sub] and [i64::saturating_add]. *)
Definition sat_add_i128 (a b : Z) : Z := Z.max i128_min (Z.min i128_max (a + b)).
Definition sat_sub_i128 (a b : Z) : Z := Z.max i128_min (Z.min i128_max (a - b)).
Definition sat_add_i64 (a b : Z) : Z := Z.max i64_min (Z.min i64_max (a + b)).
Definition sat_sub_i64 (a b : Z) : Z := Z.max i64_min (Z.min i64_max (a - b)).

(** ** Little-endian byte strings ([to_le_bytes] / [from_le_bytes]) *)
Abbreviation bytes := (list Z) (only parsing).

Fixpoint le_bytes (n : nat) (z : Z) : bytes :=
  match n with
  | O => []
  | S n => z mod 256 :: le_bytes n (z / 256)
  end.

Fixpoint le_value (bs : bytes) : Z :=
  match bs with
  | [] => 0
  | b :: bs => b + 256 * le_value bs
  end.

Definition is_byte (b : Z) : Prop := 0 ≤ b < 256.
#[export] Instance is_byte_dec b : Decision (is_byte b).
Proof. unfold is_byte. apply _. Defined.

(** [&buf[off..off + len]] for a range already known to be in bounds. *)
Definition slice (off len : nat) (l : bytes) : bytes := take len (drop off l).

(** ** Strings

    A Rust [String] is its UTF-8 bytes; [len] is the byte length and the
    order is the bytewise lexicographic one. *)
Definition str_bytes (s : string) : bytes :=
  (λ a, Z.of_N (N_of_ascii a)) <$> String.list_ascii_of_string s.

Definition bytes_str (bs : bytes) : string :=
  String.string_of_list_ascii ((λ z, ascii_of_N (Z.to_N z)) <$> bs).

(** [std::str::from_utf8]. *)
Definition is_cont (b : Z) : bool := (0x80 <=? b) && (b <=? 0xBF).

Fixpoint utf8_valid (l : bytes) : bool :=
  match l with
  | [] => true
  | b :: l =>
      if b <? 0x80 then utf8_valid l
      else if (0xC2 <=? b) && (b <=? 0xDF) then
        match l with c1 :: l => is_cont c1 && utf8_valid l | _ => false end
      else if (0xE0 <=? b) && (b <=? 0xEF) then
        match l with
        | c1 :: c2 :: l =>
            is_cont c1 && is_cont c2
            && ((negb (b =? 0xE0)) || (0xA0 <=? c1))
            && ((negb (b =? 0xED)) || (c1 <=? 0x9F))
            && utf8_valid l
        | _ => false
        end
      else if (0xF0 <=? b) && (b <=? 0xF4) then
        match l with
        | c1 :: c2 :: c3 :: l =>
            is_cont c1 && is_cont c2 && is_cont c3
            && ((negb (b =? 0xF0)) || (0x90 <=? c1))
            && ((negb (b =? 0xF4)) || (c1 <=? 0x8F))
            && utf8_valid l
        | _ => false
        end
      else false
  end.

(** [str::trim], on the UTF-8 encodings of the characters with the
    White_Space property. *)
Definition white_space : list (list Z) :=
  [[9]; [10]; [11]; [12]; [13]; [32]; [0xC2; 0x85]; [0xC2; 0xA0]; [0xE1; 0x9A; 0x80];
   [0xE2; 0x80; 0x80]; [0xE2; 0x80; 0x81]; [0xE2; 0x80; 0x82]; [0xE2; 0x80; 0x83];
   [0xE2; 0x80; 0x84]; [0xE2; 0x80; 0x85]; [0xE2; 0x80; 0x86]; [0xE2; 0x80; 0x87];
   [0xE2; 0x80; 0x88]; [0xE2; 0x80; 0x89]; [0xE2; 0x80; 0x8A]; [0xE2; 0x80; 0xA8];
   [0xE2; 0x80; 0xA9]; [0xE2; 0x80; 0xAF]; [0xE2; 0x81; 0x9F]; [0xE3; 0x80; 0x80]].

Fixpoint strip_bytes (p l : bytes) : option bytes :=
  match p, l with
  | [], _ => Some l
  | a :: p, b :: l => if a =? b then strip_bytes p l else None
  | _ :: _, [] => None
  end.

Fixpoint strip_any (ps : list (list Z)) (l : bytes) : option bytes :=
  match ps with
  | [] => None
  | p :: ps => match strip_bytes p l with Some r => Some r | None => strip_any ps l end
  end.

(** Every step consumes a byte: the length is enough fuel. *)
Fixpoint strip_all (fuel : nat) (ps : list (list Z)) (l : bytes) : bytes :=
  match fuel with
  | O => l
  | S fuel => match strip_any ps l with Some r => strip_all fuel ps r | None => l end
  end.

Definition trim_start (l : bytes) : bytes := strip_all (length l) white_space l.
Definition trim_end (l : bytes) : bytes :=
  reverse (strip_all (length l) (reverse <$> white_space) (reverse l)).
Definition trim (l : bytes) : bytes := trim_end (trim_start l).

Definition str_len (s : string) : Z := Z.of_nat (String.length s).

Fixpoint lex_cmp {A} (cmp : A → A → comparison) (l1 l2 : list A) : comparison :=
  match l1, l2 with
  | [], [] => Eq
  | [], _ :: _ => Lt
  | _ :: _, [] => Gt
  | x :: l1, y :: l2 => match cmp x y with Eq => lex_cmp cmp l1 l2 | c => c end
  end.

Definition str_cmp (s1 s2 : string) : comparison :=
  lex_cmp Z.compare (str_bytes s1) (str_bytes s2).

Definition str_ltb (s1 s2 : string) : bool :=
  match str_cmp s1 s2 with Lt => true | _ => false end.

(** [Ordering::then_with]. *)
Definition then_with {A} (c1 c2 : A → A → comparison) (x y : A) : comparison :=
  match c1 x y with Eq => c2 x y | c => c end.

Definition cmp_on {A B} (f : A → B) (cmp : B → B → comparison) (x y : A) : comparison :=
  cmp (f x) (f y).

(** What [slice::sort_by] asks of its comparator. *)
Class CmpOk {A} (cmp : A → A → comparison) : Prop := {
  cmp_antisym x y : cmp y x = CompOpp (cmp x y);
  cmp_lt_trans x y z : cmp x y = Lt → cmp y z = Lt → cmp x z = Lt;
  cmp_eq_l x y z : cmp x y = Eq → cmp x z = cmp y z;
}.

(** [slice::sort_by] is a stable sort; insertion from the right keeps equal
    elements in their original order. *)
Fixpoint insert_by {A} (cmp : A → A → comparison) (x : A) (l : list A) : list A :=
  match l with
  | [] => [x]
  | y :: l' => match cmp x y with Gt => y :: insert_by cmp x l' | _ => x :: l end
  end.

Definition sort_by {A} (cmp : A → A → comparison) (l : list A) : list A :=
  foldr (insert_by cmp) [] l.

Definition cmp_le {A} (cmp : A → A → comparison) (x y : A) : Prop := cmp x y ≠ Gt.

(** ** Sums of integers over lists *)
Definition sumZ {A} (f : A → Z) (l : list A) : Z := foldr (λ a acc, f a + acc) 0 l.

(** [Vec::retain] with a set of already-seen keys: keep the first element of
    every key. *)
Fixpoint dedup_by {A K} `{Countable K} (key : A → K) (seen : gset K) (l : list A) : list A :=
  match l with
  | [] => []
  | x :: l =>
      if decide (key x ∈ seen) then dedup_by key seen l
      else x :: dedup_by key ({[key x]} ∪ seen) l
  end.

(** ** Decimal numerals: [u64::to_string], [{:06}] and [str::parse::<u64>] *)
Definition digit_ascii (d : Z) : ascii := ascii_of_N (Z.to_N (48 + d)).

Fixpoint dec_digits (fuel : nat) (n : Z) (acc : list Z) : list Z :=
  match fuel with
  | O => n :: acc
  | S fuel => if n <? 10 then n :: acc else dec_digits fuel (n / 10) (n mod 10 :: acc)
  end.

Definition digits_of (n : Z) : list Z := dec_digits (Z.to_nat (Z.log2 n)) n [].

Definition digits_string (ds : list Z) : string :=
  String.string_of_list_ascii (digit_ascii <$> ds).

Definition to_string_u (n : Z) : string := digits_string (digits_of n).

Definition to_string_i (n : Z) : string :=
  if n <? 0 then String "-"%char (to_string_u (- n)) else to_string_u n.

(** [format!("{:0w$}", n)] for an unsigned [n]. *)
Definition pad_zero (w : nat) (n : Z) : string :=
  let ds := digits_of n in digits_string (replicate (w - length ds) 0 ++ ds).

Definition digit_value (a : ascii) : option Z :=
  let z := Z.of_N (N_of_ascii a) - 48 in
  if (0 <=? z) && (z <=? 9) then Some z else None.

Fixpoint parse_digits (maxv acc : Z) (l : list ascii) : option Z :=
  match l with
  | [] => Some acc
  | a :: l =>
      d ← digit_value a;
      let acc := acc * 10 + d in
      if maxv <? acc then None else parse_digits maxv acc l
  end.

(** [str::parse] for an unsigned type with maximum [maxv]: an optional [+],
    then at least one digit, and an error on overflow. *)
Definition parse_unsigned (maxv : Z) (s : string) : option Z :=
  match String.list_ascii_of_string s with
  | [] => None
  | "+"%char :: [] => None
  | "+"%char :: l => parse_digits maxv 0 l
  | l => parse_digits maxv 0 l
  end.

(** [str::parse] for a signed type: the sign, then digits within the bound of
    that side. *)
Definition parse_signed (minv maxv : Z) (s : string) : option Z :=
  match String.list_ascii_of_string s with
  | [] => None
  | "+"%char :: [] => None
  | "-"%char :: [] => None
  | "+"%char :: l => parse_digits maxv 0 l
  | "-"%char :: l => Z.opp <$> parse_digits (- minv) 0 l
  | l => parse_digits maxv 0 l
  end.

Definition parse_i64 : string → option Z := parse_signed i64_min i64_max.
Definition parse_i128 : string → option Z := parse_signed i128_min i128_max.

Fixpoint strip_prefix (p s : list ascii) : option (list ascii) :=
  match p, s with
  | [], s => Some s
  | a :: p, b :: s => if Ascii.eqb a b then strip_prefix p s else None
  | _ :: _, [] => None
  end.

(** [str::strip_prefix] and [str::strip_suffix]. *)
Definition str_strip_prefix (p s : string) : option string :=
  String.string_of_list_ascii
    <$> strip_prefix (String.list_ascii_of_string p) (String.list_ascii_of_string s).

Definition str_strip_suffix (p s : string) : option string :=
  (λ l, String.string_of_list_ascii (reverse l))
    <$> strip_prefix (reverse (String.list_ascii_of_string p))
                     (reverse (String.list_ascii_of_string s)).

Definition u64_max : Z := 18446744073709551615.
Definition u16_max : Z := 65535.
Definition u8_max : Z := 255.

(** ** Automation *)
Create HintDb udb discriminated.
Create HintDb no_panic discriminated.

(** Case analysis on the boolean integer tests of the code. *)
Ltac zbool :=
  repeat match goal with
  | H : (_ && _) = true |- _ => apply andb_true_iff in H as [? ?]
  | H : (_ || _) = false |- _ => apply orb_false_iff in H as [? ?]
  | H : negb _ = true |- _ => apply negb_true_iff in H
  | H : negb _ = false |- _ => apply negb_false_iff in H
  | H : (_ <? _) = true |- _ => apply Z.ltb_lt in H
  | H : (_ <? _) = false |- _ => apply Z.ltb_ge in H
  | H : (_ <=? _) = true |- _ => apply Z.leb_le in H
  | H : (_ <=? _) = false |- _ => apply Z.leb_gt in H
  | H : (_ =? _) = true |- _ => apply Z.eqb_eq in H
  | H : (_ =? _) = false |- _ => apply Z.eqb_neq in H
  end.

(** Split the first boolean integer test of the goal. *)
Ltac zcase :=
  match goal with
  | |- context [?a <? ?b] => destruct (Z.ltb_spec a b)
  | |- context [?a <=? ?b] => destruct (Z.leb_spec a b)
  | |- context [?a =? ?b] => destruct (Z.eqb_spec a b)
  end.

(** Invert a successful bind. *)
Ltac outcome_inv :=
  repeat match goal with
  | H : mbind _ ?m = Ok _ |- _ =>
      let E := fresh "E" in destruct m eqn:E; cbn in H; try discriminate H
  | H : Ok _ = Ok _ |- _ => injection H as H; try subst
  | H : guard_err ?b _ = Ok _ |- _ =>
      let E := fresh "E" in destruct b eqn:E; cbn in H; try discriminate H
  end.

(** ** Machine integer lemmas *)
(** ** Code that reports its errors instead of panicking *)
Lemma bind_no_panic {E A B} (m : outcome E A) (f : A → outcome E B) :
  m ≠ Panic → (∀ a, m = Ok a → f a ≠ Panic) → (m ≫= f) ≠ Panic.
Proof. destruct m as [a|e|]; cbn; [by intros _ H; apply H|done|done]. Qed.

Lemma ok_or_no_panic {E A} (e : E) (o : option A) : ok_or e o ≠ Panic.
Proof. by destruct o. Qed.

Lemma guard_no_panic {E} b (e : E) : guard_err b e ≠ Panic.
Proof. by destruct b. Qed.

#[export] Hint Resolve ok_or_no_panic guard_no_panic : no_panic.

(** Follows the binds and matches of a goal [m ≠ Panic]. *)
Ltac no_panic :=
  repeat first [discriminate | solve [auto with no_panic] | apply bind_no_panic; [|intros ? _] | case_match].

Lemma wrapu_small w z : inu w z → wrapu w z = z.
Proof. unfold inu, wrapu. intros. by apply Z.mod_small. Qed.

Lemma wrapu_range w z : 0 ≤ w → inu w (wrapu w z).
Proof. intros. unfold inu, wrapu. apply Z.mod_pos_bound. lia. Qed.

Lemma wraps_range w z : 1 ≤ w → ins w (wraps w z).
Proof.
  intros. unfold ins, wraps.
  pose proof (Z.mod_pos_bound (z + 2 ^ (w - 1)) (2 ^ w) ltac:(lia)).
  assert (2 ^ w = 2 * 2 ^ (w - 1)).
  { rewrite <- Z.pow_succ_r by lia. f_equal; lia. }
  lia.
Qed.

Lemma wraps_small w z : 1 ≤ w → ins w z → wraps w z = z.
Proof.
  unfold ins, wraps. intros.
  assert (2 ^ w = 2 * 2 ^ (w - 1)).
  { rewrite <- Z.pow_succ_r by lia. f_equal; lia. }
  rewrite Z.mod_small by lia. lia.
Qed.

(** Wrapping a sum only depends on its terms modulo the width. *)
Lemma wraps_add_sub w a b : 1 ≤ w → ins w b → wraps w (a + wraps w (b - a)) = b.
Proof.
  intros Hw Hb. rewrite <- (wraps_small w b) at 2 by done.
  unfold wraps. f_equal.
  rewrite Z.add_sub_assoc, Z.sub_add.
  rewrite Zplus_mod_idemp_r. f_equal. lia.
Qed.

Lemma sat_add_i128_exact a b :
  i128_min ≤ a + b ≤ i128_max → sat_add_i128 a b = a + b.
Proof. unfold sat_add_i128. lia. Qed.

Lemma sat_add_i128_range a b : i128_min ≤ sat_add_i128 a b ≤ i128_max.
Proof. unfold sat_add_i128, i128_min, i128_max. lia. Qed.

(** ** Little-endian lemmas *)
Lemma length_le_bytes n z : length (le_bytes n z) = n.
Proof. revert z. induction n; intros; cbn; auto. Qed.

Lemma le_value_le_bytes n z : inu (8 * Z.of_nat n) z → le_value (le_bytes n z) = z.
Proof.
  unfold inu. revert z. induction n as [|n IH]; intros z Hz; cbn [le_bytes le_value].
  { rewrite Z.mul_0_r, Z.pow_0_r in Hz. lia. }
  assert (2 ^ (8 * Z.of_nat (S n)) = 256 * 2 ^ (8 * Z.of_nat n)) as E.
  { rewrite Nat2Z.inj_succ, <- Z.add_1_r, Z.mul_add_distr_l, Z.pow_add_r by lia.
    change (2 ^ (8 * 1)) with 256. lia. }
  rewrite E in Hz.
  rewrite IH.
  - pose proof (Z.div_mod z 256). lia.
  - split; [apply Z.div_pos; lia|]. apply Z.div_lt_upper_bound; lia.
Qed.

Lemma le_value_le_bytes_wrap n z :
  le_value (le_bytes n z) = wrapu (8 * Z.of_nat n) z.
Proof.
  unfold wrapu. revert z. induction n as [|n IH]; intros z; cbn [le_bytes le_value].
  { rewrite Z.mul_0_r, Z.pow_0_r, Z.mod_1_r. done. }
  rewrite IH, Nat2Z.inj_succ, <- Z.add_1_r, Z.mul_add_distr_l, Z.pow_add_r by lia.
  change (2 ^ (8 * 1)) with 256. rewrite (Z.mul_comm (2 ^ _) 256).
  rewrite Z.rem_mul_r by lia. done.
Qed.

Lemma le_value_range bs :
  Forall is_byte bs → inu (8 * Z.of_nat (length bs)) (le_value bs).
Proof.
  unfold inu. induction 1 as [|b bs Hb _ IH]; cbn [le_value length].
  { rewrite Z.mul_0_r, Z.pow_0_r. lia. }
  rewrite Nat2Z.inj_succ, <- Z.add_1_r, Z.mul_add_distr_l, Z.pow_add_r by lia.
  change (2 ^ (8 * 1)) with 256. unfold is_byte in Hb. nia.
Qed.

Lemma le_bytes_is_byte n z : Forall is_byte (le_bytes n z).
Proof.
  revert z. induction n; intros; cbn; constructor; auto.
  unfold is_byte. apply Z.mod_pos_bound. lia.
Qed.

(** ** String and byte lemmas *)
Lemma bytes_str_bytes s : bytes_str (str_bytes s) = s.
Proof.
  unfold bytes_str, str_bytes. rewrite <- list_fmap_compose.
  rewrite <- (String.string_of_list_ascii_of_string s) at 2. f_equal.
  rewrite <- list_fmap_id. apply list_fmap_ext. intros ? a _. cbn.
  rewrite N2Z.id. apply ascii_N_embedding.
Qed.

Lemma str_bytes_inj s1 s2 : str_bytes s1 = str_bytes s2 → s1 = s2.
Proof. intros H. rewrite <- (bytes_str_bytes s1), H. apply bytes_str_bytes. Qed.

Lemma length_str_bytes s : length (str_bytes s) = String.length s.
Proof.
  unfold str_bytes. rewrite length_fmap. induction s; cbn; auto.
Qed.

Lemma utf8_valid_ascii l : Forall (λ b, b < 128) l → utf8_valid l = true.
Proof.
  induction 1 as [|b l Hb _ IH]; cbn; [done|]. by rewrite (proj2 (Z.ltb_lt b 128) Hb).
Qed.

Lemma str_bytes_is_byte s : Forall is_byte (str_bytes s).
Proof.
  unfold str_bytes. apply Forall_fmap, Forall_forall. intros a _. cbn.
  unfold is_byte. pose proof (N_ascii_bounded a). lia.
Qed.

(** ** Comparators *)
#[export] Instance Zcompare_ok : CmpOk Z.compare.
Proof.
  split.
  - intros. apply Z.compare_antisym.
  - intros x y z. rewrite !Z.compare_lt_iff. lia.
  - intros x y z ->%Z.compare_eq. done.
Qed.

#[export] Instance cmp_on_ok {A B} (f : A → B) cmp `{!CmpOk cmp} : CmpOk (cmp_on f cmp).
Proof.
  split; unfold cmp_on; intros.
  - apply cmp_antisym.
  - by eapply cmp_lt_trans.
  - by apply cmp_eq_l.
Qed.

Lemma cmp_eq_r {A} cmp `{!CmpOk cmp} (x y z : A) :
  cmp x y = Eq → cmp z x = cmp z y.
Proof.
  intros H. rewrite (cmp_antisym x z), (cmp_antisym y z).
  by rewrite (cmp_eq_l x y z H).
Qed.

#[export] Instance then_with_ok {A} (c1 c2 : A → A → comparison) `{!CmpOk c1, !CmpOk c2} :
  CmpOk (then_with c1 c2).
Proof.
  split; unfold then_with.
  - intros x y. rewrite (cmp_antisym (cmp := c1) x y).
    destruct (c1 x y); cbn; auto. apply cmp_antisym.
  - intros x y z H1 H2.
    destruct (c1 x y) eqn:E1; try discriminate.
    + rewrite (cmp_eq_l x y z E1).
      destruct (c1 y z) eqn:E2; auto. by eapply cmp_lt_trans.
    + destruct (c1 y z) eqn:E2; try discriminate.
      * by rewrite <- (cmp_eq_r c1 y z x E2), E1.
      * by rewrite (cmp_lt_trans x y z E1 E2).
  - intros x y z H. destruct (c1 x y) eqn:E1; try discriminate.
    rewrite (cmp_eq_l x y z E1). destruct (c1 y z); auto. by apply cmp_eq_l.
Qed.

#[export] Instance lex_cmp_ok {A} (cmp : A → A → comparison) `{!CmpOk cmp} :
  CmpOk (lex_cmp cmp).
Proof.
  split.
  - induction x as [|x l1 IH]; intros [|y l2]; cbn; auto.
    rewrite (cmp_antisym x y). destruct (cmp x y); cbn; auto.
  - induction x as [|x l1 IH]; intros [|y l2] [|z l3]; cbn; try done.
    destruct (cmp x y) eqn:E1; try done.
    + rewrite (cmp_eq_l x y z E1). destruct (cmp y z); try done. apply IH.
    + intros _. destruct (cmp y z) eqn:E2; try done.
      * by rewrite <- (cmp_eq_r cmp y z x E2), E1.
      * by rewrite (cmp_lt_trans x y z E1 E2).
  - induction x as [|x l1 IH]; intros [|y l2] l3; cbn; try done.
    destruct (cmp x y) eqn:E1; try done. intros H.
    destruct l3 as [|z l3]; [done|].
    rewrite (cmp_eq_l x y z E1). destruct (cmp y z); auto.
Qed.

#[export] Instance str_cmp_ok : CmpOk str_cmp.
Proof. apply (cmp_on_ok str_bytes (lex_cmp Z.compare)). Qed.

Lemma cmp_refl {A} cmp `{!CmpOk cmp} (x : A) : cmp x x = Eq.
Proof. pose proof (cmp_antisym x x). by destruct (cmp x x). Qed.

Lemma lex_cmp_Zeq l1 l2 : lex_cmp Z.compare l1 l2 = Eq → l1 = l2.
Proof.
  revert l2. induction l1 as [|x l1 IH]; intros [|y l2]; cbn; try done.
  destruct (Z.compare_spec x y); try done. intros. subst. f_equal. auto.
Qed.

Lemma str_cmp_eq s1 s2 : str_cmp s1 s2 = Eq → s1 = s2.
Proof. intros H. by apply str_bytes_inj, lex_cmp_Zeq. Qed.

Lemma cmp_le_trans {A} cmp `{!CmpOk cmp} (x y z : A) :
  cmp_le cmp x y → cmp_le cmp y z → cmp_le cmp x z.
Proof.
  unfold cmp_le. intros H1 H2.
  destruct (cmp x y) eqn:E1; try done.
  - by rewrite (cmp_eq_l x y z E1).
  - destruct (cmp y z) eqn:E2; try done.
    + by rewrite <- (cmp_eq_r cmp y z x E2), E1.
    + by rewrite (cmp_lt_trans x y z E1 E2).
Qed.

Lemma cmp_gt_le {A} cmp `{!CmpOk cmp} (x y : A) : cmp x y = Gt → cmp_le cmp y x.
Proof. unfold cmp_le. rewrite (cmp_antisym (cmp := cmp) x y). by intros ->. Qed.

(** ** The stable sort *)
Lemma insert_by_perm {A} (cmp : A → A → comparison) x l : insert_by cmp x l ≡ₚ x :: l.
Proof.
  induction l as [|y l IH]; cbn; [done|].
  destruct (cmp x y); try done. rewrite IH. apply Permutation_swap.
Qed.

Lemma sort_by_perm {A} (cmp : A → A → comparison) l : sort_by cmp l ≡ₚ l.
Proof.
  induction l as [|x l IH]; [done|]. change (insert_by cmp x (sort_by cmp l) ≡ₚ x :: l).
  by rewrite insert_by_perm, IH.
Qed.

Lemma insert_by_sorted {A} cmp `{!CmpOk cmp} (x : A) l :
  StronglySorted (cmp_le cmp) l → StronglySorted (cmp_le cmp) (insert_by cmp x l).
Proof.
  induction 1 as [|y l Hl IH Hy]; cbn; [by repeat constructor|].
  destruct (cmp x y) eqn:E.
  3: { constructor; [done|]. rewrite insert_by_perm. constructor; [|done].
       by apply cmp_gt_le. }
  all: constructor; [by constructor|].
  all: constructor; [unfold cmp_le; congruence|].
  all: eapply list.Forall_impl; [exact Hy|]; intros z Hz.
  all: eapply cmp_le_trans; [done| |exact Hz]; unfold cmp_le; congruence.
Qed.

Lemma sort_by_sorted {A} cmp `{!CmpOk cmp} (l : list A) :
  StronglySorted (cmp_le cmp) (sort_by cmp l).
Proof. induction l; cbn; [constructor|]. by apply insert_by_sorted. Qed.

Lemma insert_by_id {A} cmp (x : A) l :
  Forall (cmp_le cmp x) l → insert_by cmp x l = x :: l.
Proof. destruct 1 as [|y l Hy]; cbn; [done|]. unfold cmp_le in Hy. by destruct (cmp x y). Qed.

(** Sorting sorted data changes nothing (sort-on-flush makes the sort of a
    later compaction of one segment the identity). *)
Lemma sort_by_id {A} cmp (l : list A) :
  StronglySorted (cmp_le cmp) l → sort_by cmp l = l.
Proof.
  induction 1 as [|x l Hl IH Hx]; [done|]. change (insert_by cmp x (sort_by cmp l) = x :: l).
  rewrite IH. by apply insert_by_id.
Qed.

Lemma insert_by_stable {A} cmp `{!CmpOk cmp} (k x : A) l :
  filter (λ y, cmp k y = Eq) (insert_by cmp x l)
  = filter (λ y, cmp k y = Eq) (x :: l).
Proof.
  induction l as [|y l IH]; [done|]. cbn [insert_by].
  destruct (cmp x y) eqn:E; try done.
  rewrite filter_cons, IH, !filter_cons.
  destruct (decide (cmp k x = Eq)) as [Hx|], (decide (cmp k y = Eq)) as [Hy|]; try done.
  exfalso. rewrite <- (cmp_eq_l k x y Hx) in E. congruence.
Qed.

(** Elements that compare equal keep their relative order. *)
Lemma sort_by_stable {A} cmp `{!CmpOk cmp} (k : A) l :
  filter (λ y, cmp k y = Eq) (sort_by cmp l) = filter (λ y, cmp k y = Eq) l.
Proof.
  induction l as [|x l IH]; [done|]. cbn [sort_by foldr].
  rewrite insert_by_stable by done. fold (sort_by cmp l).
  by rewrite !filter_cons, IH.
Qed.

(** ** Sums *)
Lemma sumZ_nil {A} (f : A → Z) : sumZ f [] = 0.
Proof. done. Qed.

Lemma sumZ_cons {A} (f : A → Z) x l : sumZ f (x :: l) = f x + sumZ f l.
Proof. done. Qed.

Lemma sumZ_app {A} (f : A → Z) l1 l2 : sumZ f (l1 ++ l2) = sumZ f l1 + sumZ f l2.
Proof. induction l1 as [|x l1 IH]; cbn [app]; [done|]. rewrite !sumZ_cons, IH. lia. Qed.

#[export] Instance sumZ_perm {A} (f : A → Z) : Proper ((≡ₚ) ==> (=)) (sumZ f).
Proof. induction 1; rewrite ?sumZ_cons in *; lia. Qed.

Lemma sumZ_ext {A} (f g : A → Z) l : (∀ x, x ∈ l → f x = g x) → sumZ f l = sumZ g l.
Proof.
  induction l as [|x l IH]; intros H; [done|]. rewrite !sumZ_cons, IH, (H x); [done|..].
  - set_solver.
  - intros. apply H. set_solver.
Qed.

Lemma sumZ_fmap {A B} (g : A → B) (f : B → Z) l : sumZ f (g <$> l) = sumZ (f ∘ g) l.
Proof. induction l as [|x l IH]; [done|]. rewrite fmap_cons, !sumZ_cons, IH. done. Qed.

Lemma sumZ_split {A} (f : A → Z) (P : A → Prop) `{∀ x, Decision (P x)} l :
  sumZ f l = sumZ f (filter P l) + sumZ f (filter (λ x, ¬ P x) l).
Proof.
  induction l as [|x l IH]; [done|]. rewrite !filter_cons, sumZ_cons.
  destruct (decide (P x)), (decide (¬ P x)); try done; rewrite ?sumZ_cons; lia.
Qed.

(** ** Deduplication by key *)
Section dedup.
Context {A K : Type} `{Countable K} (key : A → K).

Lemma dedup_by_sublist seen l : dedup_by key seen l `sublist_of` l.
Proof.
  revert seen. induction l as [|x l IH]; intros seen; cbn; [constructor|].
  case_decide; [by apply sublist_cons|by apply sublist_skip].
Qed.

Lemma elem_of_dedup_by_key seen l k :
  k ∈ key <$> dedup_by key seen l ↔ k ∈ key <$> l ∧ k ∉ seen.
Proof.
  revert seen. induction l as [|x l IH]; intros seen; cbn [dedup_by].
  { set_solver. }
  case_decide as Hx.
  - rewrite IH, fmap_cons, elem_of_cons. naive_solver.
  - rewrite !fmap_cons, !elem_of_cons, IH, not_elem_of_union, not_elem_of_singleton.
    destruct (decide (k = key x)); naive_solver.
Qed.

Lemma NoDup_dedup_by seen l : NoDup (key <$> dedup_by key seen l).
Proof.
  revert seen. induction l as [|x l IH]; intros seen; cbn [dedup_by]; [constructor|].
  case_decide; [done|]. rewrite fmap_cons. constructor; [|done].
  rewrite elem_of_dedup_by_key. set_solver.
Qed.

Lemma dedup_by_first seen pre x post :
  key x ∉ seen → key x ∉ key <$> pre → x ∈ dedup_by key seen (pre ++ x :: post).
Proof.
  revert seen. induction pre as [|y pre IH]; intros seen Hs Hp; cbn [dedup_by app].
  - rewrite decide_False by done. by left.
  - rewrite fmap_cons, not_elem_of_cons in Hp. destruct Hp as [Hy Hp].
    case_decide; [by apply IH|]. right. apply IH; [|done]. set_solver.
Qed.

Lemma dedup_by_id seen l :
  NoDup (key <$> l) → (∀ x, x ∈ l → key x ∉ seen) → dedup_by key seen l = l.
Proof.
  revert seen. induction l as [|x l IH]; intros seen Hnd Hs; cbn [dedup_by]; [done|].
  rewrite fmap_cons in Hnd. apply NoDup_cons in Hnd as [Hx Hnd].
  rewrite decide_False by (apply Hs; set_solver). f_equal. apply IH; [done|].
  intros y Hy. apply not_elem_of_union. split; [|apply Hs; set_solver].
  intros Heq%elem_of_singleton. apply Hx. rewrite <- Heq. by apply list_elem_of_fmap_2.
Qed.
End dedup.

(** ** Decimal round trips *)
Definition digits_value (acc : Z) (ds : list Z) : Z := foldl (λ a d, a * 10 + d) acc ds.

Lemma dec_digits_spec fuel n acc :
  0 ≤ n → n < 2 ^ Z.of_nat (S fuel) → Forall (λ d, 0 ≤ d ≤ 9) acc →
  Forall (λ d, 0 ≤ d ≤ 9) (dec_digits fuel n acc)
  ∧ digits_value 0 (dec_digits fuel n acc) = digits_value n acc
  ∧ dec_digits fuel n acc ≠ [].
Proof.
  revert n acc. induction fuel as [|fuel IH]; intros n acc Hn Hlt Hacc; cbn [dec_digits].
  { change (2 ^ Z.of_nat 1) with 2 in Hlt. split_and!; [constructor; [lia|done]|done|done]. }
  destruct (Z.ltb_spec n 10).
  { split_and!; [constructor; [lia|done]|done|done]. }
  destruct (IH (n / 10) (n mod 10 :: acc)) as (H1 & H2 & H3).
  - apply Z.div_pos; lia.
  - rewrite Nat2Z.inj_succ, Z.pow_succ_r in Hlt by lia.
    apply Z.div_lt_upper_bound; lia.
  - constructor; [|done]. pose proof (Z.mod_pos_bound n 10). lia.
  - split_and!; [done| |done]. rewrite H2. cbn. f_equal.
    pose proof (Z.div_mod n 10). lia.
Qed.

Lemma digits_of_spec n :
  0 ≤ n →
  Forall (λ d, 0 ≤ d ≤ 9) (digits_of n) ∧ digits_value 0 (digits_of n) = n ∧ digits_of n ≠ [].
Proof.
  intros Hn. unfold digits_of.
  destruct (dec_digits_spec (Z.to_nat (Z.log2 n)) n []) as (H1 & H2 & H3);
    [done| |constructor|done].
  rewrite Nat2Z.inj_succ, Z2Nat.id by apply Z.log2_nonneg.
  destruct (decide (n = 0)) as [->|]; [done|]. apply Z.log2_spec. lia.
Qed.

Lemma digit_value_ascii d : 0 ≤ d ≤ 9 → digit_value (digit_ascii d) = Some d.
Proof.
  intros Hd. assert (d ∈ [0;1;2;3;4;5;6;7;8;9]) as Hin.
  { repeat (rewrite elem_of_cons). lia. }
  repeat (apply elem_of_cons in Hin as [->|Hin]; [reflexivity|]). set_solver.
Qed.

Lemma digits_value_mono acc ds :
  0 ≤ acc → Forall (λ d, 0 ≤ d ≤ 9) ds → acc ≤ digits_value acc ds.
Proof.
  intros Hacc H. revert acc Hacc. induction H as [|d ds Hd _ IH]; intros acc Hacc; cbn; [lia|].
  etrans; [|apply IH]; lia.
Qed.

Lemma parse_digits_value maxv acc ds :
  0 ≤ acc → Forall (λ d, 0 ≤ d ≤ 9) ds → digits_value acc ds ≤ maxv →
  parse_digits maxv acc (digit_ascii <$> ds) = Some (digits_value acc ds).
Proof.
  intros Hacc H. revert acc Hacc. induction H as [|d ds Hd Hds IH]; intros acc Hacc Hmax;
    cbn [fmap list_fmap parse_digits]; [done|].
  rewrite digit_value_ascii by done. cbn [mbind option_bind].
  assert (acc * 10 + d ≤ digits_value (acc * 10 + d) ds) by (apply digits_value_mono; auto; lia).
  cbn in Hmax. change (foldl _ (acc * 10 + d) ds) with (digits_value (acc * 10 + d) ds) in Hmax.
  destruct (Z.ltb_spec maxv (acc * 10 + d)); [lia|]. apply IH; [lia|done].
Qed.

Lemma digit_ascii_not_plus d : 0 ≤ d ≤ 9 → digit_ascii d ≠ "+"%char.
Proof. intros Hd E. apply digit_value_ascii in Hd. rewrite E in Hd. discriminate. Qed.

Lemma parse_unsigned_digits maxv ds :
  Forall (λ d, 0 ≤ d ≤ 9) ds → ds ≠ [] → digits_value 0 ds ≤ maxv →
  parse_unsigned maxv (digits_string ds) = Some (digits_value 0 ds).
Proof.
  intros H Hne Hmax. unfold parse_unsigned, digits_string.
  rewrite String.list_ascii_of_string_of_list_ascii.
  rewrite <- (parse_digits_value maxv 0 ds) by (auto; lia).
  destruct H as [|d ds Hd Hds]; [done|]. cbn [fmap list_fmap].
  pose proof (digit_ascii_not_plus d Hd) as Hp.
  destruct (digit_ascii d) as [[] [] [] [] [] [] [] []]; try done.
Qed.

(** Printing a number and parsing it back. *)
Lemma parse_to_string_u maxv n : 0 ≤ n ≤ maxv → parse_unsigned maxv (to_string_u n) = Some n.
Proof.
  intros Hn. destruct (digits_of_spec n) as (H1 & H2 & H3); [lia|].
  unfold to_string_u. rewrite parse_unsigned_digits; [by rewrite H2|done|done|lia].
Qed.

Lemma digit_ascii_not_minus d : 0 ≤ d ≤ 9 → digit_ascii d ≠ "-"%char.
Proof. intros Hd E. apply digit_value_ascii in Hd. rewrite E in Hd. discriminate. Qed.

Lemma parse_signed_digits minv maxv ds :
  Forall (λ d, 0 ≤ d ≤ 9) ds → ds ≠ [] → digits_value 0 ds ≤ maxv →
  parse_signed minv maxv (digits_string ds) = Some (digits_value 0 ds).
Proof.
  intros H Hne Hmax. unfold parse_signed, digits_string.
  rewrite String.list_ascii_of_string_of_list_ascii.
  rewrite <- (parse_digits_value maxv 0 ds) by (auto; lia).
  destruct H as [|d ds Hd Hds]; [done|]. cbn [fmap list_fmap].
  pose proof (digit_ascii_not_plus d Hd) as Hp. pose proof (digit_ascii_not_minus d Hd) as Hm.
  destruct (digit_ascii d) as [[] [] [] [] [] [] [] []]; try done.
Qed.

Lemma parse_digits_range maxv acc l v : 0 ≤ acc ≤ maxv → parse_digits maxv acc l = Some v → 0 ≤ v ≤ maxv.
Proof.
  revert acc. induction l as [|a l IH]; intros acc Hacc E; cbn [parse_digits] in E; [by injection E as <-|].
  unfold digit_value in E. destruct ((0 <=? _) && _) eqn:Hd; [|done]. cbn [mbind option_bind] in E.
  destruct (Z.ltb_spec maxv (acc * 10 + (Z.of_N (N_of_ascii a) - 48))); [done|].
  apply IH in E; [done|]. apply andb_true_iff in Hd as [Hd%Z.leb_le _]. lia.
Qed.

Lemma parse_unsigned_bounds maxv s n : 0 ≤ maxv → parse_unsigned maxv s = Some n → 0 ≤ n ≤ maxv.
Proof.
  intros Hm. unfold parse_unsigned. intros H. repeat case_match; try discriminate;
    (eapply parse_digits_range; [|exact H]; lia).
Qed.

Lemma parse_signed_range minv maxv s v : minv ≤ 0 ≤ maxv → parse_signed minv maxv s = Some v → minv ≤ v ≤ maxv.
Proof.
  intros Hb. unfold parse_signed. destruct (String.list_ascii_of_string s) as [|a l]; [done|].
  assert (∀ l, parse_digits maxv 0 l = Some v → minv ≤ v ≤ maxv) as Hp.
  { intros l' E. apply parse_digits_range in E; lia. }
  assert (∀ l, Z.opp <$> parse_digits (- minv) 0 l = Some v → minv ≤ v ≤ maxv) as Hn.
  { intros l' E. destruct (parse_digits (- minv) 0 l') as [x|] eqn:Ex; [|done]. injection E as <-.
    apply parse_digits_range in Ex; lia. }
  destruct a as [[] [] [] [] [] [] [] []]; try apply Hp; destruct l; try done; try apply Hp; apply Hn.
Qed.

(** Printing a signed number and parsing it back. *)
Lemma parse_to_string_i minv maxv n : minv ≤ n ≤ maxv → parse_signed minv maxv (to_string_i n) = Some n.
Proof.
  intros Hn. unfold to_string_i. destruct (Z.ltb_spec n 0) as [Hneg|Hpos].
  - destruct (digits_of_spec (- n)) as (H1 & H2 & H3); [lia|].
    unfold parse_signed, to_string_u, digits_string. cbn [String.list_ascii_of_string].
    rewrite String.list_ascii_of_string_of_list_ascii.
    assert (parse_digits (- minv) 0 (digit_ascii <$> digits_of (- n)) = Some (- n)) as Hp.
    { rewrite parse_digits_value; [by rewrite H2|lia|done|lia]. }
    destruct (digits_of (- n)) as [|d ds]; [done|]. cbn [fmap list_fmap] in *.
    rewrite Hp. cbn. f_equal. lia.
  - destruct (digits_of_spec n) as (H1 & H2 & H3); [lia|].
    unfold to_string_u. rewrite parse_signed_digits; [by rewrite H2|done|done|lia].
Qed.

Lemma digits_value_zeros k ds : digits_value 0 (replicate k 0 ++ ds) = digits_value 0 ds.
Proof. induction k; cbn; auto. Qed.

Lemma parse_pad_zero maxv w n : 0 ≤ n ≤ maxv → parse_unsigned maxv (pad_zero w n) = Some n.
Proof.
  intros Hn. destruct (digits_of_spec n) as (H1 & H2 & H3); [lia|].
  unfold pad_zero. rewrite parse_unsigned_digits; rewrite ?digits_value_zeros, ?H2; auto; [| |lia].
  - apply Forall_app. split; [|done]. apply Forall_replicate. lia.
  - intros [_ ?]%app_eq_nil. done.
Qed.

Lemma strip_prefix_app p s : strip_prefix p (p ++ s) = Some s.
Proof. induction p as [|a p IH]; cbn; [done|]. by rewrite Ascii.eqb_refl. Qed.

Lemma list_ascii_append s1 s2 :
  String.list_ascii_of_string (s1 +:+ s2)
  = String.list_ascii_of_string s1 ++ String.list_ascii_of_string s2.
Proof.
  induction s1 as [|a s1 IH]; [done|].
  change (a :: String.list_ascii_of_string (s1 +:+ s2)
          = a :: String.list_ascii_of_string s1 ++ String.list_ascii_of_string s2).
  by rewrite IH.
Qed.

Lemma str_strip_prefix_app p s : str_strip_prefix p (p +:+ s) = Some s.
Proof.
  unfold str_strip_prefix. rewrite list_ascii_append, strip_prefix_app. cbn.
  by rewrite String.string_of_list_ascii_of_string.
Qed.

Lemma str_strip_suffix_app s p : str_strip_suffix p (s +:+ p) = Some s.
Proof.
  unfold str_strip_suffix. rewrite list_ascii_append, reverse_app, strip_prefix_app. cbn.
  by rewrite reverse_involutive, String.string_of_list_ascii_of_string.
Qed.

Lemma str_app_assoc (s1 s2 s3 : string) : s1 +:+ (s2 +:+ s3) = (s1 +:+ s2) +:+ s3.
Proof.
  induction s1 as [|a s1 IH]; [done|].
  change (String a (s1 +:+ (s2 +:+ s3)) = String a ((s1 +:+ s2) +:+ s3)). by rewrite IH.
Qed.

(** ** Trimming *)
Lemma strip_bytes_snoc p x b r :
  b ∉ p → strip_bytes p (x ++ [b]) = Some r → ∃ r', r = r' ++ [b].
Proof.
  revert x. induction p as [|a p IH]; intros x Hb; cbn; [intros [= <-]; eauto|].
  apply not_elem_of_cons in Hb as [Hab Hb]. destruct x as [|y x]; cbn.
  - rewrite (proj2 (Z.eqb_neq a b)) by done. done.
  - destruct (a =? y); [|done]. by apply IH.
Qed.

Lemma strip_any_snoc ps x b r :
  Forall (λ p, b ∉ p) ps → strip_any ps (x ++ [b]) = Some r → ∃ r', r = r' ++ [b].
Proof.
  intros H. induction H as [|p ps Hp _ IH]; cbn; [done|].
  destruct (strip_bytes p (x ++ [b])) as [r1|] eqn:E; [|done]. intros [= <-].
  by eapply strip_bytes_snoc.
Qed.

Lemma strip_all_snoc fuel ps x b :
  Forall (λ p, b ∉ p) ps → ∃ r, strip_all fuel ps (x ++ [b]) = r ++ [b].
Proof.
  intros H. revert x. induction fuel as [|fuel IH]; intros x; cbn; [eauto|].
  destruct (strip_any ps (x ++ [b])) as [r|] eqn:E; [|eauto].
  destruct (strip_any_snoc ps x b r H E) as [r' ->]. apply IH.
Qed.

(** A line that starts with a visible ASCII character is not blank. *)
Lemma trim_end_nonblank b l : Forall (λ p, b ∉ p) (reverse <$> white_space) → trim_end (b :: l) ≠ [].
Proof.
  intros H E. unfold trim_end in E. rewrite reverse_cons in E.
  destruct (strip_all_snoc (length (b :: l)) _ (reverse l) b H) as [r Er].
  rewrite Er, reverse_app in E. discriminate.
Qed.

Definition is_digit_byte (b : Z) : Prop := 48 ≤ b ≤ 57.

Lemma digit_byte_cases b : is_digit_byte b → b ∈ [48;49;50;51;52;53;54;55;56;57].
Proof. unfold is_digit_byte. intros. rewrite !elem_of_cons. lia. Qed.

Lemma strip_all_digit fuel ps b l :
  is_digit_byte b → ps = white_space ∨ ps = reverse <$> white_space →
  strip_all fuel ps (b :: l) = b :: l.
Proof.
  intros Hb%digit_byte_cases Hps. destruct fuel as [|fuel]; [done|]. cbn [strip_all].
  assert (strip_any ps (b :: l) = None) as ->; [|done].
  repeat (apply elem_of_cons in Hb as [->|Hb]; [by destruct Hps as [->| ->]|]). set_solver.
Qed.

Lemma trim_digits l : Forall is_digit_byte l → trim l = l.
Proof.
  intros H. destruct H as [|b l Hb Hl]; [done|]. unfold trim, trim_start.
  rewrite strip_all_digit by auto. unfold trim_end.
  assert (Forall is_digit_byte (reverse (b :: l))) as Hr by (apply Forall_reverse; by constructor).
  rewrite <- (reverse_involutive (b :: l)) at 3.
  destruct (reverse (b :: l)) as [|c r]; [by destruct (length _)|].
  apply Forall_cons in Hr as [Hc _]. by rewrite strip_all_digit by auto.
Qed.

Lemma digits_string_bytes ds :
  Forall (λ d, 0 ≤ d ≤ 9) ds → Forall is_digit_byte (str_bytes (digits_string ds)).
Proof.
  intros H. unfold str_bytes, digits_string. rewrite String.list_ascii_of_string_of_list_ascii.
  induction H as [|d ds Hd _ IH]; cbn [fmap list_fmap]; constructor; [|exact IH].
  unfold is_digit_byte, digit_ascii. rewrite N_ascii_embedding; lia.
Qed.

Lemma to_string_u_bytes n : 0 ≤ n → Forall is_digit_byte (str_bytes (to_string_u n)).
Proof. intros Hn. apply digits_string_bytes. by destruct (digits_of_spec n). Qed.

(** ** Filters *)
Lemma NoDup_fmap_eq {A B} (f : A → B) l x y : NoDup (f <$> l) → x ∈ l → y ∈ l → f x = f y → x = y.
Proof.
  induction l as [|z l IH]; [by intros _ ?%not_elem_of_nil|]. rewrite fmap_cons.
  intros [Hz Hnd]%NoDup_cons [->|Hx]%elem_of_cons [->|Hy]%elem_of_cons E; [done| | |by apply IH].
  - destruct Hz. rewrite E. by apply list_elem_of_fmap_2.
  - destruct Hz. rewrite <- E. by apply list_elem_of_fmap_2.
Qed.

Lemma filter_all {A} (P : A → Prop) `{∀ x, Decision (P x)} l : Forall P l → filter P l = l.
Proof. induction 1 as [|x l Hx _ IH]; [done|]. by rewrite filter_cons_True, IH. Qed.

Lemma filter_none {A} (P : A → Prop) `{∀ x, Decision (P x)} l : Forall (λ x, ¬ P x) l → filter P l = [].
Proof. induction 1 as [|x l Hx _ IH]; [done|]. by rewrite filter_cons_False. Qed.

Lemma sumZ_filter {A} (f : A → Z) (b : A → bool) l :
  sumZ f (filter (λ x, b x = true) l) = sumZ (λ x, if b x then f x else 0) l.
Proof.
  induction l as [|x l IH]; [done|]. rewrite filter_cons, sumZ_cons.
  destruct (b x); [rewrite decide_True by done|rewrite decide_False by done];
    rewrite ?sumZ_cons, IH; lia.
Qed.

Lemma sumZ_mjoin {A} (f : A → Z) (l : list (list A)) : sumZ f (mjoin l) = sumZ (sumZ f) l.
Proof.
  induction l as [|x l IH]; [done|]. change (mjoin (x :: l)) with (x ++ mjoin l).
  by rewrite sumZ_app, sumZ_cons, IH.
Qed.

Lemma sumZ_elem_le {A} (f : A → Z) l x : (∀ y, 0 ≤ f y) → x ∈ l → f x ≤ sumZ f l.
Proof.
  intros Hf. induction l as [|y l IH]; [by intros ?%not_elem_of_nil|].
  assert (0 ≤ sumZ f l) by (clear IH; induction l as [|z l IH]; [done|]; rewrite sumZ_cons; specialize (Hf z); lia).
  rewrite sumZ_cons. intros [->|Hx]%elem_of_cons; [lia|]. specialize (IH Hx). specialize (Hf y). lia.
Qed.

Lemma sumZ_add {A} (f g : A → Z) l : sumZ (λ x, f x + g x) l = sumZ f l + sumZ g l.
Proof. induction l as [|x l IH]; [done|]. rewrite !sumZ_cons, IH. lia. Qed.

Lemma sumZ_mono {A} (f g : A → Z) l : (∀ x, x ∈ l → f x ≤ g x) → sumZ f l ≤ sumZ g l.
Proof.
  induction l as [|x l IH]; intros H; [done|]. rewrite !sumZ_cons.
  apply Z.add_le_mono; [apply H; by left|]. apply IH. intros y Hy. apply H. by right.
Qed.

Lemma sumZ_zero {A} (f : A → Z) l : (∀ x, x ∈ l → f x = 0) → sumZ f l = 0.
Proof.
  induction l as [|x l IH]; intros H; [done|].
  rewrite sumZ_cons, (H x), IH by set_solver. done.
Qed.

(** ** Joins *)
Lemma mjoin_perm_elem {A} (l : list (list A)) x : x ∈ l → ∃ rest, mjoin l ≡ₚ x ++ rest.
Proof.
  intros Hin. apply list_elem_of_split in Hin as (l1 & l2 & ->). exists (mjoin l1 ++ mjoin l2).
  rewrite join_app. cbn. apply Permutation_app_swap_app.
Qed.

Lemma filter_fmap_filter {A B} (f : A → B) (P : B → Prop) (Q R : A → Prop)
    `{∀ x, Decision (P x)} `{∀ x, Decision (Q x)} `{∀ x, Decision (R x)} (l : list A) :
  (∀ x, x ∈ l → R x ↔ Q x ∧ P (f x)) → filter P (f <$> filter Q l) = f <$> filter R l.
Proof.
  induction l as [|x l IH]; intros HR; [done|].
  assert (R x ↔ Q x ∧ P (f x)) as Hx by (apply HR; by left).
  pose proof (IH (λ y Hy, HR y (list_elem_of_further _ _ _ Hy))) as IH'.
  rewrite !filter_cons. destruct (decide (Q x)), (decide (R x)); rewrite ?fmap_cons, ?filter_cons, <- IH';
    try case_decide; naive_solver.
Qed.

Lemma sumZ_nonneg_in {A} (f : A → Z) l : (∀ x, x ∈ l → 0 ≤ f x) → 0 ≤ sumZ f l.
Proof.
  induction l as [|x l IH]; intros H; [done|]. rewrite sumZ_cons.
  pose proof (H x ltac:(by left)). assert (0 ≤ sumZ f l) by (apply IH; intros; apply H; by right). lia.
Qed.

Lemma sumZ_app_le {A} (f : A → Z) l k : (∀ x, 0 ≤ f x) → sumZ f l ≤ sumZ f (l ++ k).
Proof. intros H. rewrite sumZ_app. pose proof (sumZ_nonneg_in f k (λ x _, H x)). lia. Qed.

Lemma sumZ_pos {A} (f : A → Z) l : (∀ x, x ∈ l → 0 ≤ f x) → 0 < sumZ f l ↔ ∃ x, x ∈ l ∧ 0 < f x.
Proof.
  induction l as [|x l IH]; intros H; [split; [done|by intros (? & ?%not_elem_of_nil & _)]|].
  assert (0 ≤ f x) as Hx by (apply H; by left).
  assert (∀ y, y ∈ l → 0 ≤ f y) as Hl by (intros; apply H; by right).
  pose proof (sumZ_nonneg_in f l Hl). rewrite sumZ_cons. specialize (IH Hl). split.
  - intros Hs. destruct (Z_lt_le_dec 0 (f x)); [exists x; split; [by left|done]|].
    destruct (proj1 IH) as (y & Hy & Hf); [lia|]. exists y. split; [by right|done].
  - intros (y & [->|Hy]%elem_of_cons & Hf); [lia|]. assert (0 < sumZ f l) by (apply IH; eauto). lia.
Qed.

(** A filter that drops nothing. *)
Lemma filter_full {A} (P : A → Prop) `{∀ x, Decision (P x)} l : (length l ≤ length (filter P l))%nat → filter P l = l.
Proof.
  induction l as [|x l IH]; [done|]. rewrite filter_cons. pose proof (length_filter P l). case_decide; cbn [length].
  - intros Hl. by rewrite IH by lia.
  - lia.
Qed.
