(* ===== verification/Model.v ===== *)
(** * The data model

    The event schema of [src/model/], the rollup row of
    [src/rollup/hourly.rs], the bucket of an account
    ([model::ids::bucket_for_account]), the content hashes of
    [runtime::recovery] and [storage::segment_format::checksum].

    Four third-party crates appear as interfaces: [blake3], [bincode], the
    zstd/lz4 codecs and [serde_json].  Each is a class of operations and, apart
    from it, a class of the laws the code relies on. *)

From Stdlib Require Import Ascii.
From stdpp Require Import sorting numbers strings base gmap list.
From S2P Require Import Prelude.

(** ** Events ([model/event.rs], [model/dimensions.rs]) *)
Inductive EventKind := Usage | Correction | Retraction.

Record CorrectionRef := MkCorrectionRef {
  original_event_id : string;
  reason : string;
}.

Record SmallDimensions := MkSmallDimensions { inner : gmap string string }.

Record UsageEvent := MkUsageEvent {
  ev_event_id : string;
  ev_kind : EventKind;
  ev_correction_ref : option CorrectionRef;
  ev_account_id : string;
  ev_subscription_id : option string;
  ev_product_id : string;
  ev_meter_id : string;
  ev_timestamp_ms : Z;
  ev_quantity : Z;
  ev_unit : string;
  ev_source : string;
  ev_model_id : option string;
  ev_dimensions : SmallDimensions;
  ev_ingested_at_ms : Z;
}.

(** [event.ingested_at_ms = t]. *)
Definition set_ingested_at (t : Z) (e : UsageEvent) : UsageEvent :=
  MkUsageEvent (ev_event_id e) (ev_kind e) (ev_correction_ref e) (ev_account_id e)
    (ev_subscription_id e) (ev_product_id e) (ev_meter_id e) (ev_timestamp_ms e)
    (ev_quantity e) (ev_unit e) (ev_source e) (ev_model_id e) (ev_dimensions e) t.

(** The integer fields hold values of their Rust types. *)
Definition event_wf (e : UsageEvent) : Prop :=
  ins 64 (ev_timestamp_ms e) ∧ ins 128 (ev_quantity e) ∧ ins 64 (ev_ingested_at_ms e).

(** ** Rollup rows ([rollup/hourly.rs]) *)
Record HourlyRollupRecord := MkRollupRecord {
  rr_account_id : string;
  rr_subscription_id : option string;
  rr_product_id : string;
  rr_meter_id : string;
  rr_model_id : option string;
  rr_source : string;
  rr_unit : string;
  rr_hour_start_ms : Z;
  rr_dimensions_canonical : string;
  rr_quantity_sum : Z;
  rr_event_count : Z;
  rr_first_event_ms : Z;
  rr_last_event_ms : Z;
}.

Definition record_wf (r : HourlyRollupRecord) : Prop :=
  ins 64 (rr_hour_start_ms r) ∧ ins 128 (rr_quantity_sum r) ∧ inu 64 (rr_event_count r)
  ∧ ins 64 (rr_first_event_ms r) ∧ ins 64 (rr_last_event_ms r).

#[export] Instance EventKind_eq_dec : EqDecision EventKind.
Proof. solve_decision. Defined.
#[export] Instance CorrectionRef_eq_dec : EqDecision CorrectionRef.
Proof. solve_decision. Defined.
#[export] Instance SmallDimensions_eq_dec : EqDecision SmallDimensions.
Proof. solve_decision. Defined.
#[export] Instance UsageEvent_eq_dec : EqDecision UsageEvent.
Proof. solve_decision. Defined.
#[export] Instance HourlyRollupRecord_eq_dec : EqDecision HourlyRollupRecord.
Proof. solve_decision. Defined.
#[export] Instance event_wf_dec e : Decision (event_wf e).
Proof. unfold event_wf. apply _. Defined.

(** ** blake3 *)
Class Blake3 := blake3_hash : bytes → bytes.

Class Blake3Ok `{!Blake3} : Prop := {
  blake3_length d : length (blake3_hash d) = 32%nat;
  blake3_bytes d : Forall is_byte (blake3_hash d);
}.

(** ** bincode

    [bty] names the Rust types the code hands to [bincode::serialize]. *)
Inductive bty :=
| BString | BU8 | BU32 | BI64 | BU128 | BI128
| BCorrectionRef | BDimensions | BEvent | BRollup
| BVec (t : bty) | BOption (t : bty) | BPair (a b : bty).

Fixpoint interp (t : bty) : Type :=
  match t with
  | BString => string
  | BU8 | BU32 | BI64 | BU128 | BI128 => Z
  | BCorrectionRef => CorrectionRef
  | BDimensions => SmallDimensions
  | BEvent => UsageEvent
  | BRollup => HourlyRollupRecord
  | BVec t => list (interp t)
  | BOption t => option (interp t)
  | BPair a b => (interp a * interp b)%type
  end.

(** The values of [interp t] that a Rust value of the type can have. *)
Fixpoint bvalid (t : bty) : interp t → Prop :=
  match t return interp t → Prop with
  | BU8 => inu 8
  | BU32 => inu 32
  | BI64 => ins 64
  | BU128 => inu 128
  | BI128 => ins 128
  | BEvent => event_wf
  | BRollup => record_wf
  | BVec t => Forall (bvalid t)
  | BOption t => λ o, match o with Some x => bvalid t x | None => True end
  | BPair a b => λ p, bvalid a p.1 ∧ bvalid b p.2
  | BString | BCorrectionRef | BDimensions => λ _, True
  end.

(** [serialize] and [deserialize]; [None] is their error. *)
Class Bincode := {
  bser : ∀ t : bty, interp t → option bytes;
  bde : ∀ t : bty, bytes → option (interp t);
}.

Class BincodeOk `{!Bincode} : Prop :=
  bde_bser : ∀ (t : bty) (x : interp t), bvalid t x → ∃ b, bser t x = Some b ∧ bde t b = Some x.

(** ** zstd and lz4 *)
Class Compressors := {
  zstd_encode : bytes → option bytes;
  zstd_decode : bytes → option bytes;
  lz4_encode : bytes → option bytes;
  lz4_decode : bytes → option bytes;
}.

Class CompressorsOk `{!Compressors} : Prop := {
  zstd_total d : is_Some (zstd_encode d);
  zstd_roundtrip d c : zstd_encode d = Some c → zstd_decode c = Some d;
  lz4_total d : is_Some (lz4_encode d);
  lz4_roundtrip d c : lz4_encode d = Some c → lz4_decode c = Some d;
}.

(** ** serde_json, on events *)
Class SerdeJson := {
  json_to : UsageEvent → option bytes;
  json_from : bytes → option UsageEvent;
}.

(** A compact document is one line of UTF-8 that opens with a brace, escapes
    control characters, reads back, and is no longer a document once its end
    is cut off. *)
Class SerdeJsonOk `{!SerdeJson} : Prop := {
  json_total e : is_Some (json_to e);
  json_roundtrip e b : event_wf e → json_to e = Some b → json_from b = Some e;
  json_line e b : json_to e = Some b →
    utf8_valid b = true ∧ (10 ∉ b) ∧ (13 ∉ b) ∧ head b = Some 123;
  json_cut e b n : json_to e = Some b → (n < length b)%nat → json_from (take n b) = None;
}.

(** ** Buckets, checksums and identity hashes *)
Section hashing.
Context {BL : Blake3}.

Definition bucket_for_account (account_id : string) (bucket_count : Z) : Z :=
  if bucket_count =? 0 then 0
  else le_value (take 4 (blake3_hash (str_bytes account_id))) mod bucket_count.

Definition checksum (data : bytes) : Z := le_value (take 8 (blake3_hash data)).

Definition blake3_u128 (data : bytes) : Z := le_value (take 16 (blake3_hash data)).

Context {BN : Bincode}.

(** The payload hash zeroes [ingested_at_ms]; a serialization failure
    degrades to the hash 0. *)
Definition compute_event_hashes (event : UsageEvent) : Z * Z :=
  let event_id_hash := blake3_u128 (str_bytes (ev_event_id event)) in
  let ev_clone := set_ingested_at 0 event in
  let payload_hash :=
    match bser BEvent ev_clone with
    | Some b => blake3_u128 b
    | None => 0
    end in
  (event_id_hash, payload_hash).

Context {BLok : Blake3Ok}.

Lemma prefix_hash_range n d :
  (n ≤ 32)%nat → inu (8 * Z.of_nat n) (le_value (take n (blake3_hash d))).
Proof.
  intros Hn.
  assert (length (take n (blake3_hash d)) = n) as Hlen.
  { rewrite length_take, blake3_length. lia. }
  rewrite <- Hlen at 1. apply le_value_range, Forall_take, blake3_bytes.
Qed.

Lemma checksum_range d : inu 64 (checksum d).
Proof. apply (prefix_hash_range 8). lia. Qed.

Lemma blake3_u128_range d : inu 128 (blake3_u128 d).
Proof. apply (prefix_hash_range 16). lia. Qed.

(** A bucket is a valid index below a positive bucket count, and always the
    same one for the same account and count. *)
Lemma bucket_range a n : 0 < n → 0 ≤ bucket_for_account a n < n.
Proof.
  intros Hn. unfold bucket_for_account. zcase; [lia|]. by apply Z.mod_pos_bound.
Qed.

Lemma compute_event_hashes_range e :
  inu 128 (compute_event_hashes e).1 ∧ inu 128 (compute_event_hashes e).2.
Proof.
  unfold compute_event_hashes. cbn [fst snd]. split; [apply blake3_u128_range|].
  destruct (bser BEvent _); [apply blake3_u128_range|]. unfold inu. lia.
Qed.

(** Restamping an event at ingest does not change its identity. *)
Lemma compute_event_hashes_restamp t e :
  compute_event_hashes (set_ingested_at t e) = compute_event_hashes e.
Proof. done. Qed.
End hashing.

#[export] Hint Resolve checksum_range blake3_u128_range : udb.
