(* ===== verification/Instances.v ===== *)
(** * Concrete instances of the interfaces

    One executable implementation of each third-party interface of [Model],
    with its laws proved: the interfaces are satisfiable, and examples can be
    evaluated.  None of them claims to be the real crate's algorithm; the
    theorems of the development are proved against the interfaces only. *)

From Stdlib Require Import Ascii.
From stdpp Require Import countable sorting numbers strings base gmap list.
From S2P Require Import Prelude Model.

(** ** A polynomial digest, padded to 32 bytes *)
Definition poly_digest : Blake3 :=
  λ d, le_bytes 4 (foldl (λ h b, Z.land (h * 33 + b + 1) 0xFFFFFFFF) 5381 d) ++ replicate 28 0.

Lemma poly_digest_ok : @Blake3Ok poly_digest.
Proof.
  split; intros d; unfold blake3_hash, poly_digest.
  - by rewrite length_app, length_le_bytes, length_replicate.
  - apply Forall_app. split; [apply le_bytes_is_byte|]. by repeat constructor.
Qed.

(** ** Stored (uncompressed) codecs *)
Definition stored_codecs : Compressors := {|
  zstd_encode := Some; zstd_decode := Some; lz4_encode := Some; lz4_decode := Some
|}.

Lemma stored_codecs_ok : @CompressorsOk stored_codecs.
Proof. split; cbn; intros; try done; congruence. Qed.

(** ** A serializer through [Countable]

    A value is encoded as the digits of its code number. *)
#[export] Instance EventKind_countable : Countable EventKind.
Proof.
  apply (inj_countable' (λ k, match k with Usage => 0 | Correction => 1 | Retraction => 2 end%nat)
    (λ n, match n with 0 => Usage | 1 => Correction | _ => Retraction end%nat)).
  by intros [].
Defined.

#[export] Instance CorrectionRef_countable : Countable CorrectionRef.
Proof.
  apply (inj_countable' (λ c, (original_event_id c, reason c)) (λ p, MkCorrectionRef p.1 p.2)).
  by intros [].
Defined.

#[export] Instance SmallDimensions_countable : Countable SmallDimensions.
Proof.
  apply (inj_countable' inner MkSmallDimensions).
  by intros [].
Defined.

(** Records are coded as the list of their fields' codes. *)
Definition event_fields (e : UsageEvent) : list positive :=
  [encode (ev_event_id e); encode (ev_kind e); encode (ev_correction_ref e);
   encode (ev_account_id e); encode (ev_subscription_id e); encode (ev_product_id e);
   encode (ev_meter_id e); encode (ev_timestamp_ms e); encode (ev_quantity e);
   encode (ev_unit e); encode (ev_source e); encode (ev_model_id e);
   encode (ev_dimensions e); encode (ev_ingested_at_ms e)].

Definition event_of_fields (l : list positive) : option UsageEvent :=
  match l with
  | [a; b; c; d; e; f; g; h; i; j; k; l; m; n] =>
      a ← decode a; b ← decode b; c ← decode c; d ← decode d; e ← decode e;
      f ← decode f; g ← decode g; h ← decode h; i ← decode i; j ← decode j;
      k ← decode k; l ← decode l; m ← decode m; n ← decode n;
      Some (MkUsageEvent a b c d e f g h i j k l m n)
  | _ => None
  end.

#[export] Instance UsageEvent_countable : Countable UsageEvent.
Proof.
  apply (inj_countable event_fields event_of_fields).
  intros e. unfold event_of_fields, event_fields. rewrite !decode_encode. by destruct e.
Defined.

Definition record_fields (r : HourlyRollupRecord) : list positive :=
  [encode (rr_account_id r); encode (rr_subscription_id r); encode (rr_product_id r);
   encode (rr_meter_id r); encode (rr_model_id r); encode (rr_source r); encode (rr_unit r);
   encode (rr_hour_start_ms r); encode (rr_dimensions_canonical r); encode (rr_quantity_sum r);
   encode (rr_event_count r); encode (rr_first_event_ms r); encode (rr_last_event_ms r)].

Definition record_of_fields (l : list positive) : option HourlyRollupRecord :=
  match l with
  | [a; b; c; d; e; f; g; h; i; j; k; l; m] =>
      a ← decode a; b ← decode b; c ← decode c; d ← decode d; e ← decode e;
      f ← decode f; g ← decode g; h ← decode h; i ← decode i; j ← decode j;
      k ← decode k; l ← decode l; m ← decode m;
      Some (MkRollupRecord a b c d e f g h i j k l m)
  | _ => None
  end.

#[export] Instance HourlyRollupRecord_countable : Countable HourlyRollupRecord.
Proof.
  apply (inj_countable record_fields record_of_fields).
  intros r. unfold record_of_fields, record_fields. rewrite !decode_encode. by destruct r.
Defined.

Fixpoint interp_eq_dec (t : bty) : EqDecision (interp t) :=
  match t return EqDecision (interp t) with
  | BString => (_ : EqDecision string)
  | BU8 | BU32 | BI64 | BU128 | BI128 => (_ : EqDecision Z)
  | BCorrectionRef => CorrectionRef_eq_dec
  | BDimensions => SmallDimensions_eq_dec
  | BEvent => UsageEvent_eq_dec
  | BRollup => HourlyRollupRecord_eq_dec
  | BVec t => @list_eq_dec _ (interp_eq_dec t)
  | BOption t => @option_eq_dec _ (interp_eq_dec t)
  | BPair a b => @prod_eq_dec _ (interp_eq_dec a) _ (interp_eq_dec b)
  end.

Fixpoint interp_countable (t : bty) : @Countable (interp t) (interp_eq_dec t) :=
  match t return @Countable (interp t) (interp_eq_dec t) with
  | BString => (_ : Countable string)
  | BU8 | BU32 | BI64 | BU128 | BI128 => (_ : Countable Z)
  | BCorrectionRef => CorrectionRef_countable
  | BDimensions => SmallDimensions_countable
  | BEvent => UsageEvent_countable
  | BRollup => HourlyRollupRecord_countable
  | BVec t => @list_countable _ _ (interp_countable t)
  | BOption t => @option_countable _ _ (interp_countable t)
  | BPair a b => @prod_countable _ _ (interp_countable a) _ _ (interp_countable b)
  end.

(** A code number is written bit by bit, lowest first, with an end mark. *)
Fixpoint pos_digits (p : positive) : bytes :=
  match p with
  | xH => [50; 125]
  | xO p => 48 :: pos_digits p
  | xI p => 49 :: pos_digits p
  end.

Fixpoint digits_pos (l : bytes) : option positive :=
  match l with
  | [] => None
  | d :: l =>
      if d =? 48 then xO <$> digits_pos l
      else if d =? 49 then xI <$> digits_pos l
      else if (d =? 50) && bool_decide (l = [125]) then Some xH
      else None
  end.

Lemma digits_pos_digits p : digits_pos (pos_digits p) = Some p.
Proof. induction p as [p IH|p IH|]; cbn; rewrite ?IH; done. Qed.

Definition code_bincode : Bincode := {|
  bser t x := Some (pos_digits (@encode _ _ (interp_countable t) x));
  bde t b := p ← digits_pos b; @decode _ _ (interp_countable t) p
|}.

Lemma code_bincode_ok : @BincodeOk code_bincode.
Proof.
  intros t x _. eexists. split; [reflexivity|]. cbn -[pos_digits digits_pos]. rewrite digits_pos_digits. cbn.
  apply decode_encode.
Qed.

(** ** A one-line text code for events, standing for serde_json

    An opening brace, the digits of the event's code, a closing brace. *)
Definition text_json : SerdeJson := {|
  json_to e := Some (123 :: pos_digits (encode e));
  json_from l :=
    match l with
    | b :: l => if b =? 123 then p ← digits_pos l; decode p else None
    | [] => None
    end
|}.

Lemma digits_pos_cut p n : (n < length (pos_digits p))%nat → digits_pos (take n (pos_digits p)) = None.
Proof.
  revert n. induction p as [p IH|p IH|]; intros [|n] Hn; cbn in *; try done.
  - rewrite IH; [done|lia].
  - rewrite IH; [done|lia].
  - destruct n; [done|lia].
Qed.

Lemma pos_digits_ascii p : Forall (λ b, b = 48 ∨ b = 49 ∨ b = 50 ∨ b = 125) (pos_digits p).
Proof. induction p; cbn; repeat constructor; auto; lia. Qed.

Lemma text_json_ok : @SerdeJsonOk text_json.
Proof.
  split; cbn.
  - by eexists.
  - intros e b _ [= <-]. cbn. rewrite digits_pos_digits. cbn. apply decode_encode.
  - intros e b [= <-]. pose proof (pos_digits_ascii (encode e)) as H.
    rewrite list.Forall_forall in H. split_and!; [| | |done].
    + apply utf8_valid_ascii. constructor; [done|]. apply Forall_forall. intros x Hx%H. lia.
    + intros [?|Hx%H]%elem_of_cons; lia.
    + intros [?|Hx%H]%elem_of_cons; lia.
  - intros e b [|n] [= <-] Hn; [done|]. cbn in *. rewrite digits_pos_cut; [done|lia].
Qed.

(** A sample event, for examples. *)
Definition sample_event (id account : string) (ts qty : Z) : UsageEvent :=
  MkUsageEvent id Usage None account (Some "sub_1") "ai_gateway" "tokens.input" ts qty
    "token" "test" (Some "m1") (MkSmallDimensions {["region" := "eu"]}) 0.
