(* ===== verification/Encoding.v ===== *)
(** * Column encodings

    [src/storage/encoding.rs] and the per-column loops of
    [src/storage/segment_writer.rs] and [src/storage/segment_reader.rs]:
    dictionary, delta, zigzag + varint, and run-length encoding, each with its
    decoder and the round trip at the width the code uses. *)

From Stdlib Require Import Ascii.
From stdpp Require Import sorting numbers strings base gmap list.
From S2P Require Import Prelude.

(** ** Zigzag *)
Definition zigzag_encode (n : Z) : Z :=
  wrapu 128 (Z.lxor (wraps 128 (Z.shiftl n 1)) (Z.shiftr n 127)).

Definition zigzag_decode (n : Z) : Z :=
  Z.lxor (wraps 128 (Z.shiftr n 1)) (- Z.land n 1).

(** ** Delta encoding of [encoding.rs]

    [v - last] and [last + d] are plain [i64] arithmetic: a build with overflow
    checks panics where a release build wraps. *)
Inductive Profile := Debug | Release.

Definition i64_arith (p : Profile) (z : Z) : outcome unit Z :=
  match p with
  | Release => Ok (wraps 64 z)
  | Debug => if decide (ins 64 z) then Ok z else Panic
  end.

Fixpoint encode_deltas_from (p : Profile) (last : Z) (values : list Z) : outcome unit (list Z) :=
  match values with
  | [] => Ok []
  | v :: values =>
      d ← i64_arith p (v - last);
      ds ← encode_deltas_from p v values;
      Ok (d :: ds)
  end.

Definition encode_deltas (p : Profile) (values : list Z) : outcome unit (list Z) :=
  encode_deltas_from p 0 values.

Fixpoint decode_deltas_from (p : Profile) (last : Z) (deltas : list Z) : outcome unit (list Z) :=
  match deltas with
  | [] => Ok []
  | d :: deltas =>
      v ← i64_arith p (last + d);
      vs ← decode_deltas_from p v deltas;
      Ok (v :: vs)
  end.

Definition decode_deltas (p : Profile) (deltas : list Z) : outcome unit (list Z) :=
  decode_deltas_from p 0 deltas.

(** ** Delta encoding of the segment columns ([wrapping_sub]/[wrapping_add]) *)
Fixpoint delta_i64_from (prev : Z) (values : list Z) : list Z :=
  match values with
  | [] => []
  | v :: values => wraps 64 (v - prev) :: delta_i64_from v values
  end.

Fixpoint undelta_i64_from (prev : Z) (deltas : list Z) : list Z :=
  match deltas with
  | [] => []
  | d :: deltas => let v := wraps 64 (prev + d) in v :: undelta_i64_from v deltas
  end.

(** ** Dictionary encoding *)
Record DictionaryEncoder := MkDict {
  dict : gmap string Z;
  reverse_dict : list string;
}.

Definition dict_new : DictionaryEncoder := MkDict ∅ [].

Definition dict_encode (self : DictionaryEncoder) (value : string) : DictionaryEncoder * Z :=
  match dict self !! value with
  | Some id => (self, id)
  | None =>
      let id := wrapu 32 (Z.of_nat (length (reverse_dict self))) in
      (MkDict (<[value := id]> (dict self)) (reverse_dict self ++ [value]), id)
  end.

(** The loop of [encode_dict_strings]: the dictionary and one index per row. *)
Fixpoint dict_encode_all (enc : DictionaryEncoder) (values : list string)
    : DictionaryEncoder * list Z :=
  match values with
  | [] => (enc, [])
  | v :: values =>
      let '(enc, i) := dict_encode enc v in
      let '(enc, ids) := dict_encode_all enc values in
      (enc, i :: ids)
  end.

(** The loop of [encode_dict_option_strings]: [None] takes no entry. *)
Fixpoint dict_encode_all_opt (enc : DictionaryEncoder) (values : list (option string))
    : DictionaryEncoder * list (option Z) :=
  match values with
  | [] => (enc, [])
  | None :: values =>
      let '(enc, ids) := dict_encode_all_opt enc values in (enc, None :: ids)
  | Some v :: values =>
      let '(enc, i) := dict_encode enc v in
      let '(enc, ids) := dict_encode_all_opt enc values in
      (enc, Some i :: ids)
  end.

(** [dict.get(i as usize)]. *)
Definition dict_get (d : list string) (i : Z) : option string := d !! Z.to_nat i.

Definition dict_get_opt (d : list string) (i : option Z) : option (option string) :=
  match i with
  | None => Some None
  | Some i => Some <$> dict_get d i
  end.

(** ** Varints

    The encoder loop runs until the value is below 128; a [u128] shifted by 7
    bits gets there within 19 rounds. *)
Definition varint_fuel : nat := 19.

Fixpoint varint_encode_loop (fuel : nat) (x : Z) : bytes :=
  match fuel with
  | O => []
  | S fuel =>
      if x <? 128 then [x]
      else Z.lor (Z.land x 0x7F) 0x80 :: varint_encode_loop fuel (Z.shiftr x 7)
  end.

Definition varint_encode (x : Z) : bytes := varint_encode_loop varint_fuel x.

Inductive varint_error := VarintTruncated | VarintOverflow | VarintMissingCount.

(** One varint: the accumulated value, the shift and the unread bytes. *)
Fixpoint varint_decode_loop (x shift : Z) (bs : bytes) : outcome varint_error (Z * bytes) :=
  match bs with
  | [] => Err VarintTruncated
  | b :: bs =>
      let x := Z.lor x (wrapu 128 (Z.shiftl (Z.land b 0x7F) shift)) in
      if Z.land b 0x80 =? 0 then Ok (x, bs)
      else
        let shift := shift + 7 in
        if 128 <=? shift then Err VarintOverflow else varint_decode_loop x shift bs
  end.

(** [encode_zigzag_varint_i128]: a [u32] count, then one varint per value. *)
Definition encode_zigzag_varint_i128 (values : list Z) : bytes :=
  le_bytes 4 (wrapu 32 (Z.of_nat (length values)))
  ++ mjoin ((λ v, varint_encode (zigzag_encode v)) <$> values).

Fixpoint decode_varints (count : nat) (bs : bytes) : outcome varint_error (list Z) :=
  match count with
  | O => Ok []
  | S count =>
      '(x, bs) ← varint_decode_loop 0 0 bs;
      vs ← decode_varints count bs;
      Ok (zigzag_decode x :: vs)
  end.

Definition decode_zigzag_varint (bs : bytes) : outcome varint_error (list Z) :=
  if (length bs <? 4)%nat then Err VarintMissingCount
  else decode_varints (Z.to_nat (le_value (take 4 bs))) (drop 4 bs).

(** ** Run-length encoding *)
Fixpoint rle_loop (current count : Z) (values : list Z) : list (Z * Z) :=
  match values with
  | [] => [(current, count)]
  | v :: values =>
      if v =? current then rle_loop current (Z.min (2 ^ 32 - 1) (count + 1)) values
      else (current, count) :: rle_loop v 1 values
  end.

Definition rle_runs (values : list Z) : list (Z * Z) :=
  match values with
  | [] => []
  | first :: values => rle_loop first 1 values
  end.

Inductive rle_error := RleBound.

Definition rle_bound : Z := 10000000000.

(** The expansion loop with its guard on the accumulated length. *)
Fixpoint rle_expand (len : Z) (runs : list (Z * Z)) : outcome rle_error (list Z) :=
  match runs with
  | [] => Ok []
  | (v, c) :: runs =>
      if rle_bound <? len + c then Err RleBound
      else
        rest ← rle_expand (len + c) runs;
        Ok (replicate (Z.to_nat c) v ++ rest)
  end.

(** [runs.iter().map(|(_, c)| *c as usize).sum()] and the
    [Vec::with_capacity] of the total, which panics above [isize::MAX]. *)
Definition rle_total (runs : list (Z * Z)) : Z := sumZ snd runs.

Definition decode_rle_runs (runs : list (Z * Z)) : outcome rle_error (list Z) :=
  if i64_max <? rle_total runs then Panic else rle_expand 0 runs.

(** ** Zigzag: closed form and inverse *)
Lemma wrapu_wraps w z : 1 ≤ w → wrapu w (wraps w z) = wrapu w z.
Proof.
  intros. unfold wrapu, wraps. rewrite Zminus_mod_idemp_l. f_equal. lia.
Qed.

Lemma zigzag_encode_nonneg n : 0 ≤ n < 2 ^ 127 → zigzag_encode n = 2 * n.
Proof.
  intros Hn. unfold zigzag_encode.
  rewrite (Z.shiftr_div_pow2 n) by lia. rewrite Z.div_small by lia.
  rewrite Z.lxor_0_r, wrapu_wraps, Z.shiftl_mul_pow2 by lia.
  rewrite wrapu_small; [lia|]. unfold inu. lia.
Qed.

Lemma zigzag_encode_neg n : - 2 ^ 127 ≤ n < 0 → zigzag_encode n = - 2 * n - 1.
Proof.
  intros Hn. unfold zigzag_encode.
  rewrite (Z.shiftr_div_pow2 n) by lia.
  replace (n / 2 ^ 127) with (-1) by (apply (Z.div_unique _ _ _ (n + 2 ^ 127)); lia).
  rewrite Z.lxor_m1_r, Z.shiftl_mul_pow2 by lia. unfold Z.lnot.
  unfold wrapu, wraps.
  replace (2 * n) with (n * 2 ^ 1) by lia.
  set (m := n * 2 ^ 1).
  rewrite <- Z.sub_1_r, <- (Zminus_mod_idemp_l (- _)).
  replace (- ((m + 2 ^ (128 - 1)) mod 2 ^ 128 - 2 ^ (128 - 1)))
    with (2 ^ (128 - 1) - (m + 2 ^ (128 - 1)) mod 2 ^ 128) by lia.
  rewrite Zminus_mod_idemp_r, Zminus_mod_idemp_l.
  rewrite Z.mod_small; lia.
Qed.

Lemma zigzag_encode_range n : ins 128 n → inu 128 (zigzag_encode n).
Proof.
  unfold ins, inu. change (128 - 1) with 127. intros Hn. destruct (decide (0 ≤ n)).
  - rewrite zigzag_encode_nonneg; lia.
  - rewrite zigzag_encode_neg; lia.
Qed.

Lemma zigzag_decode_even k : 0 ≤ k < 2 ^ 127 → zigzag_decode (2 * k) = k.
Proof.
  intros Hk. unfold zigzag_decode.
  rewrite (Z.land_ones _ 1), Z.pow_1_r by lia.
  replace (2 * k) with (k * 2) by lia. rewrite Z_mod_mult.
  rewrite Z.shiftr_div_pow2, Z.pow_1_r, Z.div_mul, Z.lxor_0_r by lia.
  apply wraps_small; unfold ins; lia.
Qed.

Lemma zigzag_decode_odd k : 0 ≤ k < 2 ^ 127 → zigzag_decode (2 * k + 1) = - k - 1.
Proof.
  intros Hk. unfold zigzag_decode.
  rewrite (Z.land_ones _ 1), Z.pow_1_r by lia.
  replace ((2 * k + 1) mod 2) with 1 by (apply (Z.mod_unique _ _ k); lia).
  change (- (1)) with (-1). rewrite Z.lxor_m1_r, Z.shiftr_div_pow2, Z.pow_1_r by lia.
  replace ((2 * k + 1) / 2) with k by (apply (Z.div_unique _ _ _ 1); lia).
  rewrite wraps_small; unfold ins, Z.lnot; lia.
Qed.

Lemma zigzag_decode_encode n : ins 128 n → zigzag_decode (zigzag_encode n) = n.
Proof.
  unfold ins. change (128 - 1) with 127. intros Hn. destruct (decide (0 ≤ n)).
  - rewrite zigzag_encode_nonneg by lia. apply zigzag_decode_even. lia.
  - rewrite zigzag_encode_neg by lia.
    replace (-2 * n - 1) with (2 * (- n - 1) + 1) by lia.
    rewrite zigzag_decode_odd; lia.
Qed.

Lemma zigzag_encode_decode u : inu 128 u → zigzag_encode (zigzag_decode u) = u ∧ ins 128 (zigzag_decode u).
Proof.
  unfold inu, ins. change (128 - 1) with 127. intros Hu. pose proof (Z.div_mod u 2).
  pose proof (Z.mod_pos_bound u 2 ltac:(lia)).
  destruct (decide (u mod 2 = 0)).
  - replace u with (2 * (u / 2)) by lia. rewrite zigzag_decode_even by lia.
    rewrite zigzag_encode_nonneg; lia.
  - replace u with (2 * (u / 2) + 1) by lia. rewrite zigzag_decode_odd by lia.
    rewrite zigzag_encode_neg; lia.
Qed.

(** ** Delta round trips *)
Lemma deltas_release_from last values :
  Forall (ins 64) values →
  ∃ ds, encode_deltas_from Release last values = Ok ds
    ∧ decode_deltas_from Release last ds = Ok values.
Proof.
  intros H. revert last. induction H as [|v values Hv _ IH]; intros last; [by exists []|].
  destruct (IH v) as (ds & E1 & E2). exists (wraps 64 (v - last) :: ds).
  cbn. rewrite E1. cbn. split; [done|]. rewrite wraps_add_sub by (done || lia).
  by rewrite E2.
Qed.

Lemma deltas_debug_from last values ds :
  encode_deltas_from Debug last values = Ok ds →
  Forall (ins 64) values →
  decode_deltas_from Debug last ds = Ok values.
Proof.
  intros E H. revert last ds E. induction H as [|v values Hv _ IH]; intros last ds E.
  { cbn in E. by injection E as <-. }
  cbn in E. case_decide as Hd; [|discriminate]. cbn in E.
  destruct (encode_deltas_from Debug v values) as [ds'| |] eqn:E'; [|discriminate..].
  injection E as <-. cbn. replace (last + (v - last)) with v by lia.
  rewrite decide_True by done. cbn. by rewrite (IH v ds' E').
Qed.

(** With non-negative values, as every validated timestamp is, the checked
    build never panics. *)
Lemma deltas_debug_total last values :
  0 ≤ last < 2 ^ 63 → Forall (λ v, 0 ≤ v < 2 ^ 63) values →
  ∃ ds, encode_deltas_from Debug last values = Ok ds.
Proof.
  intros Hl H. revert last Hl. induction H as [|v values Hv _ IH]; intros last Hl; [by exists []|].
  destruct (IH v Hv) as [ds E]. cbn. rewrite decide_True by (unfold ins; lia). cbn.
  rewrite E. by eexists.
Qed.

Lemma undelta_delta_from prev values :
  Forall (ins 64) values → undelta_i64_from prev (delta_i64_from prev values) = values.
Proof.
  intros H. revert prev. induction H as [|v values Hv _ IH]; intros prev; cbn; [done|].
  rewrite wraps_add_sub by (done || lia). by rewrite IH.
Qed.

Lemma delta_i64_valid prev values : Forall (ins 64) (delta_i64_from prev values).
Proof.
  revert prev. induction values as [|v values IH]; intros prev; cbn; constructor; [|done].
  apply wraps_range. lia.
Qed.

Lemma length_delta_i64 prev values : length (delta_i64_from prev values) = length values.
Proof. revert prev. induction values; intros; cbn; auto. Qed.

(** ** Dictionary round trips

    The reverse dictionary lists the interned values in order of first
    occurrence and [dict] is its inverse. *)
Definition dict_wf (enc : DictionaryEncoder) : Prop :=
  Z.of_nat (length (reverse_dict enc)) ≤ 2 ^ 32
  ∧ (∀ s i, dict enc !! s = Some i → inu 32 i ∧ reverse_dict enc !! Z.to_nat i = Some s)
  ∧ (∀ (i : nat) s, reverse_dict enc !! i = Some s → dict enc !! s = Some (Z.of_nat i)).

Lemma dict_new_wf : dict_wf dict_new.
Proof.
  split_and!; cbn; [lia|intros s i H; by simplify_map_eq|intros i s H; by rewrite lookup_nil in H].
Qed.

Lemma dict_encode_spec enc v enc' i :
  dict_wf enc → Z.of_nat (length (reverse_dict enc)) < 2 ^ 32 →
  dict_encode enc v = (enc', i) →
  dict_wf enc' ∧ reverse_dict enc `prefix_of` reverse_dict enc'
  ∧ (length (reverse_dict enc') ≤ S (length (reverse_dict enc)))%nat
  ∧ inu 32 i ∧ dict_get (reverse_dict enc') i = Some v.
Proof.
  intros Hwf Hlt. pose proof Hwf as (Hlen & H1 & H2). unfold dict_encode, dict_get.
  destruct (dict enc !! v) as [j|] eqn:E; intros [= <- <-].
  { destruct (H1 _ _ E). do 2 (split; [done|]). split; [lia|done]. }
  cbn [reverse_dict]. rewrite wrapu_small by (unfold inu; lia).
  rewrite Nat2Z.id, length_app.
  split; [|split; [by apply prefix_app_r|split; [cbn; lia|split; [unfold inu; lia|]]]].
  2: by rewrite lookup_app_r, Nat.sub_diag by lia.
  split_and!; cbn [reverse_dict dict].
  - rewrite length_app. cbn. lia.
  - intros s i. destruct (decide (s = v)) as [->|Hne].
    + rewrite lookup_insert_eq. intros [= <-]. split; [unfold inu; lia|].
      by rewrite Nat2Z.id, lookup_app_r, Nat.sub_diag by lia.
    + rewrite lookup_insert_ne by done. intros [? Hs]%H1. split; [done|].
      apply lookup_app_l_Some. done.
  - intros i s [Hs|[Hge Hs]]%lookup_app_Some.
    + rewrite lookup_insert_ne; [by apply H2|]. intros ->. apply H2 in Hs. congruence.
    + apply list_lookup_singleton_Some in Hs as [Hi <-].
      rewrite lookup_insert_eq. do 2 f_equal. lia.
Qed.

Lemma dict_get_prefix d d' i s : d `prefix_of` d' → dict_get d i = Some s → dict_get d' i = Some s.
Proof. unfold dict_get. intros. by eapply prefix_lookup_Some. Qed.

Lemma dict_encode_all_spec enc values enc' ids :
  dict_wf enc → Z.of_nat (length (reverse_dict enc)) + Z.of_nat (length values) ≤ 2 ^ 32 →
  dict_encode_all enc values = (enc', ids) →
  dict_wf enc' ∧ reverse_dict enc `prefix_of` reverse_dict enc'
  ∧ Forall (inu 32) ids ∧ mapM (dict_get (reverse_dict enc')) ids = Some values.
Proof.
  revert enc enc' ids. induction values as [|v values IH]; intros enc enc' ids Hwf Hlen;
    cbn [dict_encode_all length] in *.
  { intros [= <- <-]. do 3 (split; [done|]). done. }
  destruct (dict_encode enc v) as [enc1 i] eqn:E1.
  destruct (dict_encode_all enc1 values) as [enc2 ids'] eqn:E2. intros [= <- <-].
  destruct (dict_encode_spec _ _ _ _ Hwf ltac:(lia) E1) as (Hwf1 & Hp1 & Hl1 & Hi & Hg).
  destruct (IH _ _ _ Hwf1 ltac:(lia) E2) as (Hwf2 & Hp2 & Hids & Hm).
  do 3 (split; [done || by etrans || by constructor|]).
  cbn. rewrite (dict_get_prefix _ _ _ _ Hp2 Hg). cbn. by rewrite Hm.
Qed.

Lemma dict_encode_all_opt_spec enc values enc' ids :
  dict_wf enc → Z.of_nat (length (reverse_dict enc)) + Z.of_nat (length values) ≤ 2 ^ 32 →
  dict_encode_all_opt enc values = (enc', ids) →
  dict_wf enc' ∧ reverse_dict enc `prefix_of` reverse_dict enc'
  ∧ Forall (λ o, match o with Some i => inu 32 i | None => True end) ids
  ∧ mapM (dict_get_opt (reverse_dict enc')) ids = Some values.
Proof.
  revert enc enc' ids. induction values as [|[v|] values IH]; intros enc enc' ids Hwf Hlen;
    cbn [dict_encode_all_opt length] in *.
  { intros [= <- <-]. do 3 (split; [done|]). done. }
  - destruct (dict_encode enc v) as [enc1 i] eqn:E1.
    destruct (dict_encode_all_opt enc1 values) as [enc2 ids'] eqn:E2. intros [= <- <-].
    destruct (dict_encode_spec _ _ _ _ Hwf ltac:(lia) E1) as (Hwf1 & Hp1 & Hl1 & Hi & Hg).
    destruct (IH _ _ _ Hwf1 ltac:(lia) E2) as (Hwf2 & Hp2 & Hids & Hm).
    do 3 (split; [done || by etrans || by constructor|]).
    cbn. rewrite (dict_get_prefix _ _ _ _ Hp2 Hg). cbn. by rewrite Hm.
  - destruct (dict_encode_all_opt enc values) as [enc2 ids'] eqn:E2. intros [= <- <-].
    destruct (IH _ _ _ Hwf ltac:(lia) E2) as (Hwf2 & Hp2 & Hids & Hm).
    do 3 (split; [done || by constructor|]). cbn. by rewrite Hm.
Qed.

(** ** Varint round trip *)
Lemma land_shifted_zero a b s : 0 ≤ s → 0 ≤ a < 2 ^ s → Z.land a (b * 2 ^ s) = 0.
Proof.
  intros Hs Ha. apply Z.bits_inj'. intros i Hi. rewrite Z.land_spec, Z.bits_0.
  destruct (decide (i < s)).
  - rewrite (Z.mul_pow2_bits_low b s i) by lia. apply andb_false_r.
  - destruct (decide (a = 0)) as [->|]; [by rewrite Z.bits_0|].
    rewrite Z.bits_above_log2; [done|lia|].
    apply Z.log2_lt_pow2; [lia|]. eapply Z.lt_le_trans; [apply Ha|].
    apply Z.pow_le_mono_r; lia.
Qed.

Lemma lor_shifted_add a b s : 0 ≤ s → 0 ≤ a < 2 ^ s → Z.lor a (b * 2 ^ s) = a + b * 2 ^ s.
Proof.
  intros Hs Ha. pose proof (Z.add_lor_land a (b * 2 ^ s)) as E.
  rewrite land_shifted_zero in E by done. lia.
Qed.

Lemma varint_byte x :
  0 ≤ x →
  let b := Z.lor (Z.land x 0x7F) 0x80 in
  Z.land b 0x7F = x mod 128 ∧ Z.land b 0x80 = 0x80.
Proof.
  intros Hx. cbn zeta. change 0x7F with (Z.ones 7). rewrite !Z.land_ones by lia.
  change (2 ^ 7) with 128. pose proof (Z.mod_pos_bound x 128 ltac:(lia)) as Hr.
  split.
  - pose proof (lor_shifted_add (x mod 128) 1 7) as E. rewrite Z.mul_1_l in E.
    change (2 ^ 7) with 128 in E. rewrite E by lia.
    replace (x mod 128 + 128) with (x mod 128 + 1 * 128) by lia.
    rewrite Z_mod_plus_full. apply Z.mod_mod. lia.
  - rewrite Z.land_lor_distr_l.
    pose proof (land_shifted_zero (x mod 128) 1 7) as E. rewrite Z.mul_1_l in E.
    change (2 ^ 7) with 128 in E. rewrite E by lia. done.
Qed.

Lemma varint_decode_encode_loop fuel x acc shift rest :
  0 ≤ x < 2 ^ (7 * Z.of_nat fuel) → (0 < fuel)%nat →
  0 ≤ shift → 0 ≤ acc < 2 ^ shift → x * 2 ^ shift < 2 ^ 128 → shift < 128 →
  varint_decode_loop acc shift (varint_encode_loop fuel x ++ rest) = Ok (acc + x * 2 ^ shift, rest).
Proof.
  revert x acc shift. induction fuel as [|fuel IH]; intros x acc shift Hx Hf Hs Hacc Hmax Hs128; [lia|].
  assert (0 < 2 ^ shift) by lia.
  cbn [varint_encode_loop]. destruct (Z.ltb_spec x 128) as [Hlt|Hge]; cbn [app varint_decode_loop].
  - change 0x7F with (Z.ones 7). rewrite Z.land_ones, Z.mod_small by (change (2 ^ 7) with 128; lia).
    pose proof (land_shifted_zero x 1 7) as E. rewrite Z.mul_1_l in E.
    change (2 ^ 7) with 128 in E. rewrite E by lia. cbn [Z.eqb].
    rewrite Z.shiftl_mul_pow2, wrapu_small, lor_shifted_add by (unfold inu; nia). done.
  - destruct (varint_byte x ltac:(lia)) as [E1 E2]. rewrite E1, E2. cbn [Z.eqb].
    pose proof (Z.mod_pos_bound x 128 ltac:(lia)) as Hr.
    pose proof (Z.div_mod x 128 ltac:(lia)) as Hdm.
    assert (2 ^ (shift + 7) = 2 ^ shift * 128) as E7 by (by rewrite Z.pow_add_r by lia).
    assert (shift + 7 < 128) as Hs7.
    { apply (Z.pow_lt_mono_r_iff 2); [lia|lia|]. nia. }
    destruct (Z.leb_spec 128 (shift + 7)); [lia|].
    rewrite Z.shiftl_mul_pow2, wrapu_small, lor_shifted_add by (unfold inu; nia).
    rewrite Z.shiftr_div_pow2 by lia. change (2 ^ 7) with 128.
    assert (2 ^ (7 * Z.of_nat (S fuel)) = 128 * 2 ^ (7 * Z.of_nat fuel)) as Ep.
    { rewrite Nat2Z.inj_succ, <- Z.add_1_r, Z.mul_add_distr_l, Z.pow_add_r by lia.
      change (2 ^ (7 * 1)) with 128. lia. }
    rewrite Ep in Hx.
    assert (0 < fuel)%nat.
    { destruct fuel; [|lia]. change (2 ^ (7 * Z.of_nat 0)) with 1 in Hx. lia. }
    rewrite IH.
    + f_equal. f_equal. rewrite E7. nia.
    + split; [apply Z.div_pos; lia|apply Z.div_lt_upper_bound; lia].
    + done.
    + lia.
    + rewrite E7. nia.
    + rewrite E7. nia.
    + done.
Qed.

(** Nineteen rounds are enough for every [u128]. *)
Lemma varint_decode_encode x rest :
  inu 128 x → varint_decode_loop 0 0 (varint_encode x ++ rest) = Ok (x, rest).
Proof.
  unfold inu. intros Hx. unfold varint_encode, varint_fuel.
  rewrite varint_decode_encode_loop; [f_equal; f_equal; lia|..]; lia.
Qed.

Lemma decode_varints_spec values :
  Forall (ins 128) values →
  decode_varints (length values) (mjoin ((λ v, varint_encode (zigzag_encode v)) <$> values)) = Ok values.
Proof.
  induction 1 as [|v values Hv _ IH]; [done|].
  rewrite fmap_cons. cbn [length decode_varints].
  change (mjoin (?x :: ?l)) with (x ++ mjoin l).
  rewrite varint_decode_encode by (by apply zigzag_encode_range). cbn [mbind outcome_bind].
  rewrite IH. cbn. by rewrite zigzag_decode_encode.
Qed.

Lemma zigzag_varint_roundtrip values :
  Forall (ins 128) values → Z.of_nat (length values) < 2 ^ 32 →
  decode_zigzag_varint (encode_zigzag_varint_i128 values) = Ok values.
Proof.
  intros Hv Hlen. unfold decode_zigzag_varint, encode_zigzag_varint_i128.
  rewrite length_app, length_le_bytes.
  destruct (Nat.ltb_spec (4 + length (mjoin ((λ v, varint_encode (zigzag_encode v)) <$> values))) 4); [lia|].
  rewrite take_app_length', drop_app_length' by (by rewrite length_le_bytes).
  rewrite le_value_le_bytes; rewrite wrapu_small by (unfold inu; lia); [|unfold inu; cbn; lia].
  rewrite Nat2Z.id. by apply decode_varints_spec.
Qed.

(** ** Run-length round trip *)
Lemma rle_loop_expand cur cnt values len :
  1 ≤ cnt → cnt + Z.of_nat (length values) < 2 ^ 32 →
  0 ≤ len → len + cnt + Z.of_nat (length values) ≤ rle_bound →
  rle_expand len (rle_loop cur cnt values) = Ok (replicate (Z.to_nat cnt) cur ++ values).
Proof.
  revert cur cnt len. induction values as [|v values IH]; intros cur cnt len Hc Hl Hlen Hb;
    cbn [rle_loop length] in *.
  { cbn. destruct (Z.ltb_spec rle_bound (len + cnt)); [lia|]. done. }
  destruct (Z.eqb_spec v cur) as [->|].
  - rewrite Z.min_r by lia. rewrite IH by lia. f_equal.
    replace (Z.to_nat (cnt + 1)) with (Z.to_nat cnt + 1)%nat by lia.
    rewrite replicate_add, <- app_assoc. done.
  - cbn. destruct (Z.ltb_spec rle_bound (len + cnt)); [lia|].
    rewrite IH by lia. done.
Qed.

Lemma rle_loop_total cur cnt values :
  1 ≤ cnt → cnt + Z.of_nat (length values) < 2 ^ 32 →
  rle_total (rle_loop cur cnt values) = cnt + Z.of_nat (length values)
  ∧ (inu 8 cur → Forall (inu 8) values → Forall (λ p, inu 8 p.1 ∧ inu 32 p.2) (rle_loop cur cnt values)).
Proof.
  unfold rle_total. revert cur cnt. induction values as [|v values IH]; intros cur cnt Hc Hl;
    cbn [rle_loop length] in *.
  { split; [cbn; lia|]. intros. constructor; [|done]. unfold inu in *. cbn. lia. }
  destruct (Z.eqb_spec v cur) as [->|].
  - rewrite Z.min_r by lia. destruct (IH cur (cnt + 1)) as [E H]; [lia..|].
    split; [lia|]. intros ? ?%Forall_cons. naive_solver.
  - destruct (IH v 1) as [E H]; [lia..|]. rewrite sumZ_cons. cbn [snd].
    split; [lia|]. intros ? [? ?]%Forall_cons. constructor; [|auto]. unfold inu in *. cbn. lia.
Qed.

Lemma rle_runs_roundtrip values :
  Z.of_nat (length values) < 2 ^ 32 → decode_rle_runs (rle_runs values) = Ok values.
Proof.
  intros Hl. unfold decode_rle_runs. destruct values as [|v values]; [done|].
  cbn [rle_runs length] in *. destruct (rle_loop_total v 1 values) as [-> _]; [lia..|].
  destruct (Z.ltb_spec i64_max (1 + Z.of_nat (length values))) as [Hgt|_].
  { unfold i64_max in Hgt. lia. }
  rewrite rle_loop_expand by (unfold rle_bound; lia). done.
Qed.

Lemma rle_runs_valid values :
  Z.of_nat (length values) < 2 ^ 32 → Forall (inu 8) values →
  Forall (λ p, inu 8 p.1 ∧ inu 32 p.2) (rle_runs values).
Proof.
  destruct 2 as [|v values]; [constructor|]. cbn [rle_runs length] in *.
  apply rle_loop_total; auto; lia.
Qed.

#[export] Hint Resolve dict_new_wf zigzag_encode_range delta_i64_valid : udb.
