(* ===== verification/Segment.v ===== *)
(** * Raw segment files

    The columnar format of [src/storage/segment_format.rs], the writer of
    [src/storage/segment_writer.rs], the reader of
    [src/storage/segment_reader.rs] and [src/storage/compression.rs], down to
    the bytes of the file.  The reader distinguishes an [Err] (reported
    corruption) from a [Panic] (an index out of range). *)

From Stdlib Require Import Ascii.
From stdpp Require Import sorting numbers strings base gmap list.
From S2P Require Import Prelude Model Encoding.

(** ** Format constants and tags *)
Definition MAGIC : bytes := str_bytes "UDBRAW1" ++ [10].
Definition MAGIC_END : bytes := str_bytes "UDBEND01".
Definition VERSION : Z := 1.

Inductive Encoding := Plain | Dictionary | Delta | Zigzag | Rle.

#[export] Instance Encoding_eq_dec : EqDecision Encoding.
Proof. solve_decision. Defined.

Definition encoding_byte (e : Encoding) : Z :=
  match e with Plain => 0 | Dictionary => 1 | Delta => 2 | Zigzag => 3 | Rle => 4 end.

Definition encoding_from_byte (b : Z) : option Encoding :=
  if b =? 0 then Some Plain
  else if b =? 1 then Some Dictionary
  else if b =? 2 then Some Delta
  else if b =? 3 then Some Zigzag
  else if b =? 4 then Some Rle
  else None.

Inductive Codec := CodecNone | CodecZstd | CodecLz4.

Definition codec_byte (c : Codec) : Z :=
  match c with CodecNone => 0 | CodecZstd => 1 | CodecLz4 => 2 end.

Definition codec_from_byte (b : Z) : option Codec :=
  if b =? 0 then Some CodecNone
  else if b =? 1 then Some CodecZstd
  else if b =? 2 then Some CodecLz4
  else None.

Module col.
Definition EVENT_ID : string := "event_id".
Definition KIND : string := "kind".
Definition CORRECTION_REF : string := "correction_ref".
Definition ACCOUNT_ID : string := "account_id".
Definition SUBSCRIPTION_ID : string := "subscription_id".
Definition PRODUCT_ID : string := "product_id".
Definition METER_ID : string := "meter_id".
Definition TIMESTAMP_MS : string := "timestamp_ms".
Definition QUANTITY : string := "quantity".
Definition UNIT : string := "unit".
Definition SOURCE : string := "source".
Definition MODEL_ID : string := "model_id".
Definition DIMENSIONS : string := "dimensions".
Definition INGESTED_AT_MS : string := "ingested_at_ms".
Definition ORDER : list string :=
  [EVENT_ID; KIND; CORRECTION_REF; ACCOUNT_ID; SUBSCRIPTION_ID; PRODUCT_ID; METER_ID;
   TIMESTAMP_MS; QUANTITY; UNIT; SOURCE; MODEL_ID; DIMENSIONS; INGESTED_AT_MS].
End col.

(** The reasons of the [InvalidData] errors of the writer and the reader. *)
Inductive seg_error :=
| SerializeFailed | CompressFailed
| FileTooSmall | MissingEndMagic | ChecksumMismatch (stored computed : Z)
| MissingStartMagic | UnsupportedVersion (v : Z) | UnexpectedEof
| NameOverrun | NameNotUtf8 | UnknownEncoding (b : Z) (name : string)
| UnknownCodec (b : Z) (name : string) | PayloadOverrun (name : string)
| DecompressFailed | MissingColumn (name : string)
| WrongEncoding (name : string) | DeserializeFailed
| DictIndexOutOfBounds (name : string) | ZigzagError (name : string) (e : varint_error)
| RleOverflow (name : string) | RowCountMismatch (name : string) (rows : nat)
| UnknownKind (k : Z).

(** ** [compression.rs] *)
Inductive CompressionCodec := CompZstd | CompLz4 | CompNone.

Section codec.
Context {CM : Compressors}.

Definition compress (data : bytes) (codec : CompressionCodec) : outcome seg_error bytes :=
  match codec with
  | CompZstd => ok_or CompressFailed (zstd_encode data)
  | CompLz4 => ok_or CompressFailed (lz4_encode data)
  | CompNone => Ok data
  end.

Definition decompress (data : bytes) (codec : CompressionCodec) : outcome seg_error bytes :=
  match codec with
  | CompZstd => ok_or DecompressFailed (zstd_decode data)
  | CompLz4 => ok_or DecompressFailed (lz4_decode data)
  | CompNone => Ok data
  end.
End codec.

(** ** The writer *)
Record RawSegmentWriter := MkWriter {
  w_event_id : list string;
  w_kind : list Z;
  w_correction_ref : list (option CorrectionRef);
  w_account_id : list string;
  w_subscription_id : list (option string);
  w_product_id : list string;
  w_meter_id : list string;
  w_timestamp_ms : list Z;
  w_quantity : list Z;
  w_unit : list string;
  w_source : list string;
  w_model_id : list (option string);
  w_dimensions : list SmallDimensions;
  w_ingested_at_ms : list Z;
}.

Definition writer_new : RawSegmentWriter := MkWriter [] [] [] [] [] [] [] [] [] [] [] [] [] [].

Definition encode_kind (k : EventKind) : Z :=
  match k with Usage => 0 | Correction => 1 | Retraction => 2 end.

Definition write_event (w : RawSegmentWriter) (e : UsageEvent) : RawSegmentWriter :=
  MkWriter
    (w_event_id w ++ [ev_event_id e])
    (w_kind w ++ [encode_kind (ev_kind e)])
    (w_correction_ref w ++ [ev_correction_ref e])
    (w_account_id w ++ [ev_account_id e])
    (w_subscription_id w ++ [ev_subscription_id e])
    (w_product_id w ++ [ev_product_id e])
    (w_meter_id w ++ [ev_meter_id e])
    (w_timestamp_ms w ++ [ev_timestamp_ms e])
    (w_quantity w ++ [ev_quantity e])
    (w_unit w ++ [ev_unit e])
    (w_source w ++ [ev_source e])
    (w_model_id w ++ [ev_model_id e])
    (w_dimensions w ++ [ev_dimensions e])
    (w_ingested_at_ms w ++ [ev_ingested_at_ms e]).

Section segment.
Context {BL : Blake3} {BN : Bincode} {CM : Compressors}.

Definition ser (t : bty) (x : interp t) : outcome seg_error bytes :=
  ok_or SerializeFailed (bser t x).

Definition de (t : bty) (b : bytes) : outcome seg_error (interp t) :=
  ok_or DeserializeFailed (bde t b).

Definition encode_dict_strings (values : list string) : outcome seg_error bytes :=
  let '(enc, indices) := dict_encode_all dict_new values in
  ser (BPair (BVec BString) (BVec BU32)) (reverse_dict enc, indices).

Definition encode_dict_option_strings (values : list (option string)) : outcome seg_error bytes :=
  let '(enc, indices) := dict_encode_all_opt dict_new values in
  ser (BPair (BVec BString) (BVec (BOption BU32))) (reverse_dict enc, indices).

Definition encode_delta_i64 (values : list Z) : outcome seg_error bytes :=
  ser (BVec BI64) (delta_i64_from 0 values).

Definition encode_rle_u8 (values : list Z) : outcome seg_error bytes :=
  ser (BVec (BPair BU8 BU32)) (rle_runs values).

(** The [column_chunks] of [finish], in file order. *)
Definition column_chunks (w : RawSegmentWriter)
    : outcome seg_error (list (string * Encoding * bytes)) :=
  c_event_id ← ser (BVec BString) (w_event_id w);
  c_kind ← encode_rle_u8 (w_kind w);
  c_correction_ref ← ser (BVec (BOption BCorrectionRef)) (w_correction_ref w);
  c_account_id ← encode_dict_strings (w_account_id w);
  c_subscription_id ← encode_dict_option_strings (w_subscription_id w);
  c_product_id ← encode_dict_strings (w_product_id w);
  c_meter_id ← encode_dict_strings (w_meter_id w);
  c_timestamp_ms ← encode_delta_i64 (w_timestamp_ms w);
  let c_quantity := encode_zigzag_varint_i128 (w_quantity w) in
  c_unit ← encode_dict_strings (w_unit w);
  c_source ← encode_dict_strings (w_source w);
  c_model_id ← encode_dict_option_strings (w_model_id w);
  c_dimensions ← ser (BVec BDimensions) (w_dimensions w);
  c_ingested_at_ms ← encode_delta_i64 (w_ingested_at_ms w);
  Ok [ (col.EVENT_ID, Plain, c_event_id);
       (col.KIND, Rle, c_kind);
       (col.CORRECTION_REF, Plain, c_correction_ref);
       (col.ACCOUNT_ID, Dictionary, c_account_id);
       (col.SUBSCRIPTION_ID, Dictionary, c_subscription_id);
       (col.PRODUCT_ID, Dictionary, c_product_id);
       (col.METER_ID, Dictionary, c_meter_id);
       (col.TIMESTAMP_MS, Delta, c_timestamp_ms);
       (col.QUANTITY, Zigzag, c_quantity);
       (col.UNIT, Dictionary, c_unit);
       (col.SOURCE, Dictionary, c_source);
       (col.MODEL_ID, Dictionary, c_model_id);
       (col.DIMENSIONS, Plain, c_dimensions);
       (col.INGESTED_AT_MS, Delta, c_ingested_at_ms) ].

Fixpoint compress_chunks (l : list (string * Encoding * bytes))
    : outcome seg_error (list (string * Encoding * bytes)) :=
  match l with
  | [] => Ok []
  | (name, encoding, raw) :: l =>
      compressed ← compress raw CompZstd;
      rest ← compress_chunks l;
      Ok ((name, encoding, compressed) :: rest)
  end.

Definition column_entry (c : string * Encoding * bytes) : bytes :=
  let '(name, encoding, compressed) := c in
  let name_bytes := str_bytes name in
  le_bytes 2 (wrapu 16 (Z.of_nat (length name_bytes)))
  ++ name_bytes
  ++ [encoding_byte encoding; codec_byte CodecZstd]
  ++ le_bytes 4 (wrapu 32 (Z.of_nat (length compressed)))
  ++ compressed.

Definition segment_body (row_count : Z) (compressed : list (string * Encoding * bytes)) : bytes :=
  MAGIC ++ [VERSION]
  ++ le_bytes 4 row_count
  ++ le_bytes 2 (wrapu 16 (Z.of_nat (length compressed)))
  ++ mjoin (column_entry <$> compressed).

(** [finish]: the file contents, the row count and the checksum. *)
Definition finish (w : RawSegmentWriter) : outcome seg_error (bytes * Z * Z) :=
  let row_count := wrapu 32 (Z.of_nat (length (w_event_id w))) in
  chunks ← column_chunks w;
  compressed ← compress_chunks chunks;
  let body := segment_body row_count compressed in
  let checksum_val := checksum body in
  Ok (body ++ le_bytes 8 checksum_val ++ MAGIC_END, row_count, checksum_val).

(** The use every caller makes of the writer: all events, then [finish]. *)
Definition write_segment (events : list UsageEvent) : outcome seg_error (bytes * Z * Z) :=
  finish (foldl write_event writer_new events).

(** ** The reader *)
Record RawSegmentReader := MkReader {
  r_event_id : list string;
  r_kind : list Z;
  r_correction_ref : list (option CorrectionRef);
  r_account_id : list string;
  r_subscription_id : list (option string);
  r_product_id : list string;
  r_meter_id : list string;
  r_timestamp_ms : list Z;
  r_quantity : list Z;
  r_unit : list string;
  r_source : list string;
  r_model_id : list (option string);
  r_dimensions : list SmallDimensions;
  r_ingested_at_ms : list Z;
  r_row_count : nat;
  r_cursor : nat;
}.

Definition read_u32 (buf : bytes) (off : nat) : outcome seg_error Z :=
  if (length buf <? off + 4)%nat then Err UnexpectedEof else Ok (le_value (slice off 4 buf)).

Definition read_u16 (buf : bytes) (off : nat) : outcome seg_error Z :=
  if (length buf <? off + 2)%nat then Err UnexpectedEof else Ok (le_value (slice off 2 buf)).

(** One round of the column loop: the column's name, its encoding and
    decompressed bytes, and the next offset. *)
Definition read_column (body : bytes) (off : nat)
    : outcome seg_error (string * (Encoding * bytes) * nat) :=
  name_len ← read_u16 body off;
  let off := (off + 2)%nat in
  let name_len := Z.to_nat name_len in
  _ ← guard_err (negb (length body <? off + name_len)%nat) NameOverrun;
  let name_bytes := slice off name_len body in
  _ ← guard_err (utf8_valid name_bytes) NameNotUtf8;
  let name := bytes_str name_bytes in
  let off := (off + name_len)%nat in
  encoding_b ← index_or_panic body off;
  let off := (off + 1)%nat in
  codec_b ← index_or_panic body off;
  let off := (off + 1)%nat in
  encoding ← ok_or (UnknownEncoding encoding_b name) (encoding_from_byte encoding_b);
  codec ← ok_or (UnknownCodec codec_b name) (codec_from_byte codec_b);
  compressed_len ← read_u32 body off;
  let off := (off + 4)%nat in
  let compressed_len := Z.to_nat compressed_len in
  _ ← guard_err (negb (length body <? off + compressed_len)%nat) (PayloadOverrun name);
  let compressed := slice off compressed_len body in
  let off := (off + compressed_len)%nat in
  raw ← match codec with
        | CodecNone => Ok compressed
        | CodecZstd => decompress compressed CompZstd
        | CodecLz4 => decompress compressed CompLz4
        end;
  Ok (name, (encoding, raw), off).

Fixpoint read_columns (n : nat) (body : bytes) (off : nat) (chunks : gmap string (Encoding * bytes))
    : outcome seg_error (gmap string (Encoding * bytes)) :=
  match n with
  | O => Ok chunks
  | S n =>
      '(name, chunk, off) ← read_column body off;
      read_columns n body off (<[name := chunk]> chunks)
  end.

(** [take] removes the column from the map. *)
Definition take_column (map : gmap string (Encoding * bytes)) (name : string)
    : outcome seg_error (Encoding * bytes * gmap string (Encoding * bytes)) :=
  match map !! name with
  | Some c => Ok (c, delete name map)
  | None => Err (MissingColumn name)
  end.

Definition decode_plain (t : bty) map name :=
  '(encoding, bs, map) ← take_column map name;
  _ ← guard_err (bool_decide (encoding = Plain)) (WrongEncoding name);
  v ← de (BVec t) bs;
  Ok (v, map).

Definition decode_strings map name : outcome seg_error (list string * gmap string (Encoding * bytes)) :=
  '(encoding, bs, map) ← take_column map name;
  match encoding with
  | Plain => v ← de (BVec BString) bs; Ok (v, map)
  | Dictionary =>
      '(dict, indices) ← de (BPair (BVec BString) (BVec BU32)) bs;
      v ← ok_or (DictIndexOutOfBounds name) (mapM (dict_get dict) indices);
      Ok (v, map)
  | _ => Err (WrongEncoding name)
  end.

Definition decode_option_strings map name
    : outcome seg_error (list (option string) * gmap string (Encoding * bytes)) :=
  '(encoding, bs, map) ← take_column map name;
  match encoding with
  | Plain => v ← de (BVec (BOption BString)) bs; Ok (v, map)
  | Dictionary =>
      '(dict, indices) ← de (BPair (BVec BString) (BVec (BOption BU32))) bs;
      v ← ok_or (DictIndexOutOfBounds name) (mapM (dict_get_opt dict) indices);
      Ok (v, map)
  | _ => Err (WrongEncoding name)
  end.

Definition decode_i64 map name : outcome seg_error (list Z * gmap string (Encoding * bytes)) :=
  '(encoding, bs, map) ← take_column map name;
  match encoding with
  | Plain => v ← de (BVec BI64) bs; Ok (v, map)
  | Delta => ds ← de (BVec BI64) bs; Ok (undelta_i64_from 0 ds, map)
  | _ => Err (WrongEncoding name)
  end.

Definition decode_i128 map name : outcome seg_error (list Z * gmap string (Encoding * bytes)) :=
  '(encoding, bs, map) ← take_column map name;
  match encoding with
  | Plain => v ← de (BVec BI128) bs; Ok (v, map)
  | Zigzag =>
      match decode_zigzag_varint bs with
      | Ok v => Ok (v, map)
      | Err e => Err (ZigzagError name e)
      | Panic => Panic
      end
  | _ => Err (WrongEncoding name)
  end.

Definition decode_rle_u8 (bs : bytes) (name : string) : outcome seg_error (list Z) :=
  runs ← de (BVec (BPair BU8 BU32)) bs;
  match decode_rle_runs runs with
  | Ok v => Ok v
  | Err RleBound => Err (RleOverflow name)
  | Panic => Panic
  end.

Definition decode_u8 map name : outcome seg_error (list Z * gmap string (Encoding * bytes)) :=
  '(encoding, bs, map) ← take_column map name;
  match encoding with
  | Plain => v ← de (BVec BU8) bs; Ok (v, map)
  | Rle => v ← decode_rle_u8 bs name; Ok (v, map)
  | _ => Err (WrongEncoding name)
  end.

Fixpoint check_row_counts (rc : nat) (l : list (string * nat)) : outcome seg_error unit :=
  match l with
  | [] => Ok tt
  | (name, len) :: l =>
      _ ← guard_err (len =? rc)%nat (RowCountMismatch name len);
      check_row_counts rc l
  end.

(** The column section of [RawSegmentReader::new]. *)
Definition decode_columns (row_count : Z) (chunks : gmap string (Encoding * bytes))
    : outcome seg_error RawSegmentReader :=
  '(event_id, chunks) ← decode_strings chunks col.EVENT_ID;
  '(kind, chunks) ← decode_u8 chunks col.KIND;
  '(correction_ref, chunks) ← decode_plain (BOption BCorrectionRef) chunks col.CORRECTION_REF;
  '(account_id, chunks) ← decode_strings chunks col.ACCOUNT_ID;
  '(subscription_id, chunks) ← decode_option_strings chunks col.SUBSCRIPTION_ID;
  '(product_id, chunks) ← decode_strings chunks col.PRODUCT_ID;
  '(meter_id, chunks) ← decode_strings chunks col.METER_ID;
  '(timestamp_ms, chunks) ← decode_i64 chunks col.TIMESTAMP_MS;
  '(quantity, chunks) ← decode_i128 chunks col.QUANTITY;
  '(unit, chunks) ← decode_strings chunks col.UNIT;
  '(source, chunks) ← decode_strings chunks col.SOURCE;
  '(model_id, chunks) ← decode_option_strings chunks col.MODEL_ID;
  '(dimensions, chunks) ← decode_plain BDimensions chunks col.DIMENSIONS;
  '(ingested_at_ms, _) ← decode_i64 chunks col.INGESTED_AT_MS;
  let rc := Z.to_nat row_count in
  _ ← check_row_counts rc
        [ (col.EVENT_ID, length event_id); (col.KIND, length kind);
          (col.CORRECTION_REF, length correction_ref); (col.ACCOUNT_ID, length account_id);
          (col.SUBSCRIPTION_ID, length subscription_id); (col.PRODUCT_ID, length product_id);
          (col.METER_ID, length meter_id); (col.TIMESTAMP_MS, length timestamp_ms);
          (col.QUANTITY, length quantity); (col.UNIT, length unit);
          (col.SOURCE, length source); (col.MODEL_ID, length model_id);
          (col.DIMENSIONS, length dimensions); (col.INGESTED_AT_MS, length ingested_at_ms) ];
  Ok (MkReader event_id kind correction_ref account_id subscription_id product_id meter_id
        timestamp_ms quantity unit source model_id dimensions ingested_at_ms rc 0).

Definition HEADER_LEN : nat := length MAGIC + 1 + 4 + 2.
Definition FOOTER_LEN : nat := 8 + length MAGIC_END.

Definition reader_new (bs : bytes) : outcome seg_error RawSegmentReader :=
  _ ← guard_err (negb (length bs <? HEADER_LEN + FOOTER_LEN)%nat) FileTooSmall;
  let end_magic_off := (length bs - length MAGIC_END)%nat in
  _ ← guard_err (bool_decide (drop end_magic_off bs = MAGIC_END)) MissingEndMagic;
  let stored_checksum_off := (end_magic_off - 8)%nat in
  let stored_checksum := le_value (slice stored_checksum_off 8 bs) in
  let body := take stored_checksum_off bs in
  let computed := checksum body in
  _ ← guard_err (computed =? stored_checksum) (ChecksumMismatch stored_checksum computed);
  _ ← guard_err (bool_decide (take (length MAGIC) body = MAGIC)) MissingStartMagic;
  let off := length MAGIC in
  version ← index_or_panic body off;
  let off := (off + 1)%nat in
  _ ← guard_err (version =? VERSION) (UnsupportedVersion version);
  row_count ← read_u32 body off;
  let off := (off + 4)%nat in
  num_columns ← read_u16 body off;
  let off := (off + 2)%nat in
  chunks ← read_columns (Z.to_nat num_columns) body off ∅;
  decode_columns row_count chunks.

Definition decode_kind (k : Z) : option EventKind :=
  if k =? 0 then Some Usage
  else if k =? 1 then Some Correction
  else if k =? 2 then Some Retraction
  else None.

(** [read_next]: the event at the cursor and the advanced reader. *)
Definition read_next (r : RawSegmentReader)
    : outcome seg_error (option (UsageEvent * RawSegmentReader)) :=
  if (r_row_count r <=? r_cursor r)%nat then Ok None
  else
    let i := r_cursor r in
    let r' := MkReader (r_event_id r) (r_kind r) (r_correction_ref r) (r_account_id r)
      (r_subscription_id r) (r_product_id r) (r_meter_id r) (r_timestamp_ms r) (r_quantity r)
      (r_unit r) (r_source r) (r_model_id r) (r_dimensions r) (r_ingested_at_ms r)
      (r_row_count r) (S (r_cursor r)) in
    k ← index_or_panic (r_kind r) i;
    kind ← ok_or (UnknownKind k) (decode_kind k);
    event_id ← index_or_panic (r_event_id r) i;
    correction_ref ← index_or_panic (r_correction_ref r) i;
    account_id ← index_or_panic (r_account_id r) i;
    subscription_id ← index_or_panic (r_subscription_id r) i;
    product_id ← index_or_panic (r_product_id r) i;
    meter_id ← index_or_panic (r_meter_id r) i;
    timestamp_ms ← index_or_panic (r_timestamp_ms r) i;
    quantity ← index_or_panic (r_quantity r) i;
    unit ← index_or_panic (r_unit r) i;
    source ← index_or_panic (r_source r) i;
    model_id ← index_or_panic (r_model_id r) i;
    dimensions ← index_or_panic (r_dimensions r) i;
    ingested_at_ms ← index_or_panic (r_ingested_at_ms r) i;
    Ok (Some (MkUsageEvent event_id kind correction_ref account_id subscription_id product_id
                meter_id timestamp_ms quantity unit source model_id dimensions ingested_at_ms, r')).

(** The loop [while let Some(event) = reader.read_next()?]: the events read
    before it ends and how it ended.  It makes at most [row_count] rounds. *)
Fixpoint drain_loop (fuel : nat) (r : RawSegmentReader) : list UsageEvent * outcome seg_error unit :=
  match fuel with
  | O => ([], Ok tt)
  | S fuel =>
      match read_next r with
      | Ok None => ([], Ok tt)
      | Ok (Some (e, r)) => let '(es, st) := drain_loop fuel r in (e :: es, st)
      | Err e => ([], Err e)
      | Panic => ([], Panic)
      end
  end.

Definition drain_reader (r : RawSegmentReader) : list UsageEvent * outcome seg_error unit :=
  drain_loop (r_row_count r - r_cursor r) r.

(** Opening a file and draining it, as [read_segments] of the compactor does:
    any error aborts. *)
Definition read_segment (bs : bytes) : outcome seg_error (list UsageEvent) :=
  r ← reader_new bs;
  let '(es, st) := drain_reader r in
  _ ← st;
  Ok es.

(** [scan_by_account] consumes the reader and keeps one account's events. *)
Definition scan_by_account (r : RawSegmentReader) (target_account : string)
    : outcome seg_error (list UsageEvent) :=
  let '(es, st) := drain_reader r in
  _ ← st;
  Ok (filter (λ e, ev_account_id e = target_account) es).
End segment.
