(* ===== verification/SegmentSpec.v ===== *)
(** * Raw segment files: round trip and corruption

    The reader inverts the writer on every batch of well-formed events, and
    what the reader accepts has the magic numbers and the checksum of the
    format.  The section states the laws of bincode, blake3 and zstd once. *)

From Stdlib Require Import Ascii.
From stdpp Require Import sorting numbers strings base gmap list.
From S2P Require Import Prelude Model Encoding Segment.

Section spec.
Context {BL : Blake3} {BN : Bincode} {CM : Compressors}.

(** ** Reading at an offset

    [drop off body] is what is left to read at offset [off]. *)
Lemma drop_split (body x rest : bytes) off n :
  drop off body = x ++ rest → length x = n → (off ≤ length body)%nat →
  slice off n body = x ∧ drop (off + n) body = rest ∧ (off + n ≤ length body)%nat.
Proof.
  intros E Hx Hoff. unfold slice. rewrite E, <- drop_drop, E. subst n.
  rewrite take_app_length, drop_app_length. split_and!; [done..|].
  apply (f_equal length) in E. rewrite length_drop, length_app in E. lia.
Qed.

Lemma read_u16_ok body off v rest :
  drop off body = le_bytes 2 v ++ rest → (off ≤ length body)%nat → inu 16 v →
  read_u16 body off = Ok v ∧ drop (off + 2) body = rest ∧ (off + 2 ≤ length body)%nat.
Proof.
  intros E Hoff Hv. unfold read_u16.
  destruct (drop_split _ _ _ _ 2 E) as (-> & -> & H); [apply length_le_bytes|done|].
  destruct (Nat.ltb_spec (length body) (off + 2)); [lia|].
  by rewrite le_value_le_bytes.
Qed.

Lemma read_u32_ok body off v rest :
  drop off body = le_bytes 4 v ++ rest → (off ≤ length body)%nat → inu 32 v →
  read_u32 body off = Ok v ∧ drop (off + 4) body = rest ∧ (off + 4 ≤ length body)%nat.
Proof.
  intros E Hoff Hv. unfold read_u32.
  destruct (drop_split _ _ _ _ 4 E) as (-> & -> & H); [apply length_le_bytes|done|].
  destruct (Nat.ltb_spec (length body) (off + 4)); [lia|].
  by rewrite le_value_le_bytes.
Qed.

Lemma index_ok (body : bytes) off x rest :
  drop off body = x :: rest → (off ≤ length body)%nat →
  index_or_panic (E := seg_error) body off = Ok x
  ∧ drop (off + 1) body = rest ∧ (off + 1 ≤ length body)%nat.
Proof.
  intros E Hoff. destruct (drop_split body [x] rest off 1 E eq_refl Hoff) as (_ & H2 & H3).
  split_and!; [|done..]. unfold index_or_panic.
  assert (body !! off = Some x) as ->; [|done].
  rewrite <- (Nat.add_0_r off), <- lookup_drop, E. done.
Qed.

Lemma encoding_byte_inv e : encoding_from_byte (encoding_byte e) = Some e.
Proof. by destruct e. Qed.

(** A column entry as the reader meets it. *)
Definition entry_ok (c : string * Encoding * bytes) : Prop :=
  let '(name, _, compressed) := c in
  Forall (λ b, b < 128) (str_bytes name)
  ∧ Z.of_nat (length (str_bytes name)) < 2 ^ 16
  ∧ Z.of_nat (length compressed) < 2 ^ 32.

Lemma read_column_ok body off name enc compressed raw rest :
  drop off body = column_entry (name, enc, compressed) ++ rest → (off ≤ length body)%nat →
  entry_ok (name, enc, compressed) → zstd_decode compressed = Some raw →
  ∃ off', read_column body off = Ok (name, (enc, raw), off')
    ∧ drop off' body = rest ∧ (off' ≤ length body)%nat.
Proof.
  intros E Hoff (Ha & Hn & Hc) Hraw. unfold column_entry in E. cbn zeta beta iota in E.
  rewrite !wrapu_small in E by (unfold inu; lia). rewrite <- !app_assoc in E.
  apply read_u16_ok in E as (E1 & E & H1); [|done|unfold inu; lia].
  unfold read_column. rewrite E1. cbn [mbind outcome_bind].
  destruct (drop_split _ _ _ _ _ E eq_refl H1) as (E2 & E' & H2). clear E. rename E' into E.
  rewrite Nat2Z.id, E2.
  destruct (Nat.ltb_spec (length body) (off + 2 + length (str_bytes name))); [lia|].
  rewrite utf8_valid_ascii, bytes_str_bytes by done. cbn [negb guard_err mbind outcome_bind].
  cbn [app] in E. apply index_ok in E as (-> & E & H3); [|done]. cbn [mbind outcome_bind].
  apply index_ok in E as (-> & E & H4); [|done]. cbn [mbind outcome_bind].
  rewrite encoding_byte_inv. cbn [ok_or mbind outcome_bind codec_byte codec_from_byte Z.eqb].
  cbn [Pos.eqb ok_or mbind outcome_bind].
  apply read_u32_ok in E as (-> & E & H5); [|done|unfold inu; lia]. cbn [mbind outcome_bind].
  destruct (drop_split _ _ _ _ _ E eq_refl H5) as (E6 & E' & H6). clear E. rename E' into E.
  rewrite Nat2Z.id, E6.
  match goal with |- context [(length body <? ?n)%nat] => destruct (Nat.ltb_spec (length body) n) end; [lia|].
  cbn [negb guard_err mbind outcome_bind decompress]. rewrite Hraw. cbn [ok_or mbind outcome_bind].
  by eexists.
Qed.

(** ** The column table *)
Definition chunk_rel (c d : string * Encoding * bytes) : Prop :=
  c.1 = d.1 ∧ zstd_decode d.2 = Some c.2.

Definition insert_chunk (m : gmap string (Encoding * bytes)) (c : string * Encoding * bytes) :=
  <[c.1.1 := (c.1.2, c.2)]> m.

Lemma read_columns_ok chunks compressed body off m rest :
  Forall2 chunk_rel chunks compressed → Forall entry_ok compressed →
  drop off body = mjoin (column_entry <$> compressed) ++ rest → (off ≤ length body)%nat →
  read_columns (length compressed) body off m = Ok (foldl insert_chunk m chunks).
Proof.
  intros H. revert off m. induction H as [|[[n1 e1] raw] [[n2 e2] cmp] chunks compressed Hr _ IH];
    intros off m Hok E Hoff; [done|].
  destruct Hr as [Heq Hz]. cbn in Heq, Hz. injection Heq as -> ->.
  apply Forall_cons in Hok as [Hok1 Hok].
  rewrite fmap_cons in E. change (mjoin (?x :: ?l)) with (x ++ mjoin l) in E.
  rewrite <- app_assoc in E.
  destruct (read_column_ok _ _ _ _ _ _ _ E Hoff Hok1 Hz) as (off' & E1 & E2 & H2).
  cbn [length read_columns]. rewrite E1. cbn [mbind outcome_bind].
  by rewrite (IH _ _ Hok E2 H2).
Qed.

Lemma foldl_insert_chunk_lookup chunks m name enc raw :
  NoDup ((λ c, c.1.1) <$> chunks) → (name, enc, raw) ∈ chunks →
  foldl insert_chunk m chunks !! name = Some (enc, raw).
Proof.
  assert (∀ cs m', name ∉ (λ c : string * Encoding * bytes, c.1.1) <$> cs →
            foldl insert_chunk m' cs !! name = m' !! name) as Hout.
  { induction cs as [|[[n e] r] cs IH]; intros m' Hn; [done|].
    rewrite fmap_cons, not_elem_of_cons in Hn. cbn. rewrite IH by naive_solver.
    unfold insert_chunk. cbn in *. apply lookup_insert_ne. naive_solver. }
  revert m. induction chunks as [|[[n e] r] chunks IH]; intros m Hnd Hin; [set_solver|].
  rewrite fmap_cons in Hnd. apply NoDup_cons in Hnd as [Hn Hnd].
  apply elem_of_cons in Hin as [[= -> -> ->]|Hin]; [|cbn; by apply IH].
  cbn [foldl]. rewrite Hout by done. unfold insert_chunk. cbn. apply lookup_insert_eq.
Qed.

(** ** The writer buffers exactly the columns of the batch *)
Definition columns_of (evs : list UsageEvent) : RawSegmentWriter :=
  MkWriter (ev_event_id <$> evs) (encode_kind ∘ ev_kind <$> evs) (ev_correction_ref <$> evs)
    (ev_account_id <$> evs) (ev_subscription_id <$> evs) (ev_product_id <$> evs)
    (ev_meter_id <$> evs) (ev_timestamp_ms <$> evs) (ev_quantity <$> evs) (ev_unit <$> evs)
    (ev_source <$> evs) (ev_model_id <$> evs) (ev_dimensions <$> evs) (ev_ingested_at_ms <$> evs).

Lemma write_events_columns evs : foldl write_event writer_new evs = columns_of evs.
Proof.
  induction evs as [|e evs IH] using rev_ind; [done|].
  rewrite foldl_snoc, IH. unfold write_event, columns_of. cbn.
  by rewrite !fmap_app.
Qed.

Context {BLok : Blake3Ok} {BNok : BincodeOk} {CMok : CompressorsOk}.

Lemma ser_de t x : bvalid t x → ∃ b, ser t x = Ok b ∧ de t b = Ok x.
Proof.
  intros Hx. destruct (bde_bser t x Hx) as (b & E1 & E2). exists b.
  unfold ser, de. by rewrite E1, E2.
Qed.

Lemma Forall_bvalid_trivial t (l : list (interp t)) :
  (∀ x, bvalid t x) → bvalid (BVec t) l.
Proof. intros H. cbn. by apply Forall_true. Qed.

(** Each encoder, and the decoder its tag selects. *)
Lemma strings_col vs :
  Z.of_nat (length vs) < 2 ^ 32 →
  ∃ b, encode_dict_strings vs = Ok b ∧
    ∀ m name, m !! name = Some (Dictionary, b) → decode_strings m name = Ok (vs, delete name m).
Proof.
  intros Hl. unfold encode_dict_strings.
  destruct (dict_encode_all dict_new vs) as [enc ids] eqn:E.
  destruct (dict_encode_all_spec dict_new vs enc ids dict_new_wf ltac:(change (length (reverse_dict dict_new)) with 0%nat; lia) E) as (_ & _ & Hids & Hm).
  destruct (ser_de (BPair (BVec BString) (BVec BU32)) (reverse_dict enc, ids)) as (b & E1 & E2).
  { split; cbn; [by apply Forall_true|done]. }
  exists b. split; [done|]. intros m name Hlk. unfold decode_strings, take_column.
  rewrite Hlk. cbn [mbind outcome_bind]. rewrite E2. cbn. rewrite Hm. done.
Qed.

Lemma option_strings_col vs :
  Z.of_nat (length vs) < 2 ^ 32 →
  ∃ b, encode_dict_option_strings vs = Ok b ∧
    ∀ m name, m !! name = Some (Dictionary, b) →
      decode_option_strings m name = Ok (vs, delete name m).
Proof.
  intros Hl. unfold encode_dict_option_strings.
  destruct (dict_encode_all_opt dict_new vs) as [enc ids] eqn:E.
  destruct (dict_encode_all_opt_spec dict_new vs enc ids dict_new_wf ltac:(change (length (reverse_dict dict_new)) with 0%nat; lia) E) as (_ & _ & Hids & Hm).
  destruct (ser_de (BPair (BVec BString) (BVec (BOption BU32))) (reverse_dict enc, ids)) as (b & E1 & E2).
  { split; cbn; [by apply Forall_true|done]. }
  exists b. split; [done|]. intros m name Hlk. unfold decode_option_strings, take_column.
  rewrite Hlk. cbn [mbind outcome_bind]. rewrite E2. cbn. rewrite Hm. done.
Qed.

Lemma i64_col vs :
  Forall (ins 64) vs →
  ∃ b, encode_delta_i64 vs = Ok b ∧
    ∀ m name, m !! name = Some (Delta, b) → decode_i64 m name = Ok (vs, delete name m).
Proof.
  intros Hv. destruct (ser_de (BVec BI64) (delta_i64_from 0 vs)) as (b & E1 & E2).
  { cbn. apply delta_i64_valid. }
  exists b. split; [done|]. intros m name Hlk. unfold decode_i64, take_column.
  rewrite Hlk. cbn [mbind outcome_bind]. rewrite E2. cbn. by rewrite undelta_delta_from.
Qed.

Lemma i128_col vs m name :
  Forall (ins 128) vs → Z.of_nat (length vs) < 2 ^ 32 →
  m !! name = Some (Zigzag, encode_zigzag_varint_i128 vs) →
  decode_i128 m name = Ok (vs, delete name m).
Proof.
  intros Hv Hl Hlk. unfold decode_i128, take_column. rewrite Hlk. cbn [mbind outcome_bind].
  by rewrite zigzag_varint_roundtrip.
Qed.

Lemma u8_col vs :
  Forall (inu 8) vs → Z.of_nat (length vs) < 2 ^ 32 →
  ∃ b, encode_rle_u8 vs = Ok b ∧
    ∀ m name, m !! name = Some (Rle, b) → decode_u8 m name = Ok (vs, delete name m).
Proof.
  intros Hv Hl. destruct (ser_de (BVec (BPair BU8 BU32)) (rle_runs vs)) as (b & E1 & E2).
  { cbn. by apply rle_runs_valid. }
  exists b. split; [done|]. intros m name Hlk. unfold decode_u8, take_column.
  rewrite Hlk. cbn [mbind outcome_bind]. unfold decode_rle_u8. rewrite E2. cbn [mbind outcome_bind].
  by rewrite rle_runs_roundtrip.
Qed.

Lemma plain_col t (vs : list (interp t)) :
  Forall (bvalid t) vs →
  ∃ b, ser (BVec t) vs = Ok b ∧
    ∀ m name, m !! name = Some (Plain, b) → decode_plain t m name = Ok (vs, delete name m).
Proof.
  intros Hv. destruct (ser_de (BVec t) vs Hv) as (b & E1 & E2).
  exists b. split; [done|]. intros m name Hlk. unfold decode_plain, take_column.
  rewrite Hlk. cbn [mbind outcome_bind]. rewrite bool_decide_true by done.
  cbn [guard_err mbind outcome_bind]. by rewrite E2.
Qed.

Lemma plain_strings_col vs :
  ∃ b, ser (BVec BString) vs = Ok b ∧
    ∀ m name, m !! name = Some (Plain, b) → decode_strings m name = Ok (vs, delete name m).
Proof.
  destruct (ser_de (BVec BString) vs) as (b & E1 & E2); [by apply Forall_true|].
  exists b. split; [done|]. intros m name Hlk. unfold decode_strings, take_column.
  rewrite Hlk. cbn [mbind outcome_bind]. by rewrite E2.
Qed.

(** ** All columns *)
Definition reader_of (evs : list UsageEvent) (cursor : nat) : RawSegmentReader :=
  MkReader (ev_event_id <$> evs) (encode_kind ∘ ev_kind <$> evs) (ev_correction_ref <$> evs)
    (ev_account_id <$> evs) (ev_subscription_id <$> evs) (ev_product_id <$> evs)
    (ev_meter_id <$> evs) (ev_timestamp_ms <$> evs) (ev_quantity <$> evs) (ev_unit <$> evs)
    (ev_source <$> evs) (ev_model_id <$> evs) (ev_dimensions <$> evs) (ev_ingested_at_ms <$> evs)
    (length evs) cursor.

Lemma encode_kind_u8 k : inu 8 (encode_kind k).
Proof. unfold inu. by destruct k. Qed.

(** Find the chunk of the next column in the table and decode it. *)
Ltac find_col Hm :=
  rewrite ?lookup_delete_ne by done; apply Hm;
  repeat first [apply list_elem_of_here | apply list_elem_of_further].
Ltac next_col Hm :=
  match goal with
  | D : ∀ m n, m !! n = Some (_, _) → _ = Ok _ |- _ => rewrite D by (find_col Hm)
  end; cbn [mbind outcome_bind].

Lemma column_chunks_ok evs :
  Forall event_wf evs → Z.of_nat (length evs) < 2 ^ 32 →
  ∃ chunks, column_chunks (columns_of evs) = Ok chunks
    ∧ (λ c, c.1.1) <$> chunks = col.ORDER
    ∧ ∀ m, (∀ n e r, (n, e, r) ∈ chunks → m !! n = Some (e, r)) →
        decode_columns (Z.of_nat (length evs)) m = Ok (reader_of evs 0).
Proof.
  intros Hwf Hl.
  assert (∀ A (f : UsageEvent → A), Z.of_nat (length (f <$> evs)) < 2 ^ 32) as Hlen.
  { intros. by rewrite length_fmap. }
  assert (∀ (f : UsageEvent → Z) w, (∀ e, event_wf e → ins w (f e)) → Forall (ins w) (f <$> evs)) as Hint.
  { intros f w Hf. apply Forall_fmap. eapply Forall_impl; [done|]. auto. }
  destruct (plain_strings_col (ev_event_id <$> evs)) as (b1 & E1 & D1).
  destruct (u8_col (encode_kind ∘ ev_kind <$> evs)) as (b2 & E2 & D2).
  { apply Forall_fmap, Forall_true. intros. apply encode_kind_u8. }
  { done. }
  destruct (plain_col (BOption BCorrectionRef) (ev_correction_ref <$> evs)) as (b3 & E3 & D3).
  { apply Forall_true. by intros []. }
  destruct (strings_col (ev_account_id <$> evs)) as (b4 & E4 & D4); [done|].
  destruct (option_strings_col (ev_subscription_id <$> evs)) as (b5 & E5 & D5); [done|].
  destruct (strings_col (ev_product_id <$> evs)) as (b6 & E6 & D6); [done|].
  destruct (strings_col (ev_meter_id <$> evs)) as (b7 & E7 & D7); [done|].
  destruct (i64_col (ev_timestamp_ms <$> evs)) as (b8 & E8 & D8).
  { apply Hint. by intros e (?&?&?). }
  destruct (strings_col (ev_unit <$> evs)) as (b10 & E10 & D10); [done|].
  destruct (strings_col (ev_source <$> evs)) as (b11 & E11 & D11); [done|].
  destruct (option_strings_col (ev_model_id <$> evs)) as (b12 & E12 & D12); [done|].
  destruct (plain_col BDimensions (ev_dimensions <$> evs)) as (b13 & E13 & D13).
  { by apply Forall_true. }
  destruct (i64_col (ev_ingested_at_ms <$> evs)) as (b14 & E14 & D14).
  { apply Hint. by intros e (?&?&?). }
  assert (Forall (ins 128) (ev_quantity <$> evs)) as Hq by (apply Hint; by intros e (?&?&?)).
  pose proof (λ m n, i128_col (ev_quantity <$> evs) m n Hq (Hlen _ _)) as D9.
  unfold column_chunks, columns_of.
  cbn [w_event_id w_kind w_correction_ref w_account_id w_subscription_id w_product_id w_meter_id
       w_timestamp_ms w_quantity w_unit w_source w_model_id w_dimensions w_ingested_at_ms].
  rewrite E1, E2, E3, E4, E5, E6, E7, E8, E10, E11, E12, E13, E14. cbn [mbind outcome_bind].
  eexists. split; [reflexivity|]. split; [reflexivity|]. intros m Hm.
  unfold decode_columns. do 14 next_col Hm.
  cbn [check_row_counts]. rewrite Nat2Z.id. cbn [interp]. rewrite !length_fmap, !Nat.eqb_refl. done.
Qed.

(** ** Rows *)
Lemma decode_kind_encode k : decode_kind (encode_kind k) = Some k.
Proof. by destruct k. Qed.

Lemma read_next_ok evs i e :
  evs !! i = Some e → read_next (reader_of evs i) = Ok (Some (e, reader_of evs (S i))).
Proof.
  intros He. pose proof (lookup_lt_Some _ _ _ He). unfold read_next, reader_of.
  cbn [r_row_count r_cursor r_event_id r_kind r_correction_ref r_account_id r_subscription_id
       r_product_id r_meter_id r_timestamp_ms r_quantity r_unit r_source r_model_id
       r_dimensions r_ingested_at_ms].
  destruct (Nat.leb_spec (length evs) i); [lia|].
  unfold index_or_panic. rewrite !list_lookup_fmap, He. cbn. rewrite decode_kind_encode. cbn.
  by destruct e.
Qed.

Lemma drain_loop_ok evs i :
  (i ≤ length evs)%nat → drain_loop (length evs - i) (reader_of evs i) = (drop i evs, Ok tt).
Proof.
  intros Hi. remember (length evs - i)%nat as n eqn:Hn. revert i Hi Hn.
  induction n as [|n IH]; intros i Hi Hn.
  { by rewrite drop_ge by lia. }
  destruct (lookup_lt_is_Some_2 evs i) as [e He]; [lia|].
  cbn [drain_loop]. rewrite (read_next_ok _ _ _ He), (IH (S i)) by lia.
  by rewrite (drop_S _ _ _ He).
Qed.

Lemma compress_chunks_ok chunks :
  ∃ compressed, compress_chunks chunks = Ok compressed ∧ Forall2 chunk_rel chunks compressed.
Proof.
  induction chunks as [|[[n e] raw] chunks (cs & E & H)]; [by exists []|].
  destruct (zstd_total raw) as [c Hc]. exists ((n, e, c) :: cs). cbn.
  rewrite Hc. cbn. rewrite E. split; [done|]. constructor; [|done].
  split; [done|]. by apply zstd_roundtrip.
Qed.

Lemma length_entry_le c compressed :
  c ∈ compressed → (length c.2 ≤ length (mjoin (column_entry <$> compressed)))%nat.
Proof.
  induction 1 as [[[n e] b] l|c d l Hin IH]; rewrite fmap_cons;
    change (mjoin (?x :: ?l)) with (x ++ mjoin l); rewrite length_app; [|lia].
  cbn. rewrite !length_app. cbn. lia.
Qed.

Lemma order_ascii name :
  name ∈ col.ORDER → Forall (λ b, b < 128) (str_bytes name) ∧ Z.of_nat (length (str_bytes name)) < 2 ^ 16.
Proof.
  assert (Forall (λ name, Forall (λ b, b < 128) (str_bytes name)
            ∧ Z.of_nat (length (str_bytes name)) < 2 ^ 16) col.ORDER) as H.
  { apply (bool_decide_unpack _). vm_compute. done. }
  rewrite Forall_forall in H. apply H.
Qed.

Lemma chunk_rel_names chunks compressed :
  Forall2 chunk_rel chunks compressed → (λ c, c.1.1) <$> compressed = (λ c, c.1.1) <$> chunks.
Proof. induction 1 as [|c d ? ? [Hc _] _ IH]; [done|]. rewrite !fmap_cons, IH. by rewrite Hc. Qed.

(** Every chunk of a file below 4 GiB has an exact [u32] length. *)
Lemma entries_ok chunks compressed n :
  Forall2 chunk_rel chunks compressed → (λ c, c.1.1) <$> chunks = col.ORDER →
  Z.of_nat (length (segment_body n compressed)) < 2 ^ 32 → Forall entry_ok compressed.
Proof.
  intros Hrel Hnames Hlen. apply Forall_forall. intros [[name e] c] Hin.
  assert (name ∈ col.ORDER) as Hn.
  { rewrite <- Hnames, <- (chunk_rel_names _ _ Hrel).
    by apply (list_elem_of_fmap_2 (λ c, c.1.1) compressed (name, e, c)). }
  destruct (order_ascii _ Hn). split_and!; [done..|].
  pose proof (length_entry_le _ _ Hin) as Hle. cbn [snd] in Hle.
  unfold segment_body in Hlen. rewrite !length_app in Hlen. lia.
Qed.

(** ** The whole file *)
Lemma reader_new_body row_count chunks compressed :
  Forall2 chunk_rel chunks compressed → Forall entry_ok compressed →
  length compressed = 14%nat → inu 32 row_count →
  let body := segment_body row_count compressed in
  reader_new (body ++ le_bytes 8 (checksum body) ++ MAGIC_END)
  = decode_columns row_count (foldl insert_chunk ∅ chunks).
Proof.
  intros Hrel Hok H14 Hrc body. unfold reader_new.
  assert (8 ≤ length body ∧ 15 ≤ length body)%nat as [_ Hb].
  { unfold body, segment_body. rewrite !length_app, !length_le_bytes. cbn. lia. }
  rewrite !length_app, length_le_bytes. change (length MAGIC_END) with 8%nat.
  change (HEADER_LEN + FOOTER_LEN)%nat with 31%nat.
  destruct (Nat.ltb_spec (length body + (8 + 8)) 31); [lia|]. cbn [negb guard_err mbind outcome_bind].
  replace (length body + (8 + 8) - 8)%nat with (length body + 8)%nat by lia.
  replace (length body + 8 - 8)%nat with (length body) by lia.
  rewrite <- drop_drop, drop_app_length.
  rewrite (drop_app_length' (le_bytes 8 (checksum body))) by (by rewrite length_le_bytes).
  rewrite (bool_decide_true (MAGIC_END = MAGIC_END)) by done. cbn [guard_err mbind outcome_bind].
  unfold slice. rewrite drop_app_length.
  rewrite (take_app_length' (le_bytes 8 (checksum body))) by (by rewrite length_le_bytes).
  rewrite take_app_length, le_value_le_bytes by apply checksum_range.
  rewrite Z.eqb_refl. cbn [guard_err mbind outcome_bind].
  assert (take (length MAGIC) body = MAGIC) as -> by (unfold body, segment_body; by apply take_app_length').
  rewrite bool_decide_true by done. cbn [guard_err mbind outcome_bind].
  assert (drop (length MAGIC) body = VERSION :: le_bytes 4 row_count
    ++ le_bytes 2 14 ++ mjoin (column_entry <$> compressed)) as E.
  { unfold body, segment_body. rewrite H14. by apply (drop_app_length' MAGIC). }
  apply index_ok in E as (-> & E & H1); [|change (length MAGIC) with 8%nat; lia]. cbn [mbind outcome_bind].
  change (VERSION =? VERSION) with true. cbn [guard_err mbind outcome_bind].
  apply read_u32_ok in E as (-> & E & H2); [|done|done]. cbn [mbind outcome_bind].
  apply read_u16_ok in E as (-> & E & H3); [|done|done]. cbn [mbind outcome_bind].
  change (Z.to_nat 14) with 14%nat. rewrite <- H14.
  rewrite <- (app_nil_r (mjoin _)) in E.
  by rewrite (read_columns_ok _ _ _ _ _ _ Hrel Hok E H3).
Qed.

Lemma write_read_segment evs :
  Forall event_wf evs → Z.of_nat (length evs) < 2 ^ 32 →
  ∃ bs cs, write_segment evs = Ok (bs, Z.of_nat (length evs), cs)
    ∧ (Z.of_nat (length bs) < 2 ^ 32 →
       reader_new bs = Ok (reader_of evs 0) ∧ read_segment bs = Ok evs).
Proof.
  intros Hwf Hl. destruct (column_chunks_ok evs Hwf Hl) as (chunks & E1 & Hnames & Hdec).
  destruct (compress_chunks_ok chunks) as (compressed & E2 & Hrel).
  unfold write_segment, finish. rewrite write_events_columns, E1. cbn [mbind outcome_bind].
  rewrite E2. cbn [mbind outcome_bind]. change (w_event_id (columns_of evs)) with (ev_event_id <$> evs).
  rewrite length_fmap, wrapu_small by (unfold inu; lia).
  do 2 eexists. split; [reflexivity|]. intros Hlen. rewrite length_app in Hlen.
  assert (Forall entry_ok compressed) as Hok.
  { apply (entries_ok chunks compressed (Z.of_nat (length evs))); [done..|lia]. }
  assert (length compressed = 14%nat) as H14.
  { rewrite <- (Forall2_length _ _ _ Hrel), <- (length_fmap (λ c, c.1.1) chunks), Hnames. done. }
  assert (reader_new (segment_body (Z.of_nat (length evs)) compressed
    ++ le_bytes 8 (checksum (segment_body (Z.of_nat (length evs)) compressed)) ++ MAGIC_END)
    = Ok (reader_of evs 0)) as Hnew.
  { rewrite (reader_new_body _ _ _ Hrel Hok H14) by (unfold inu; lia).
    apply Hdec. intros n e r. apply foldl_insert_chunk_lookup. rewrite Hnames.
    apply (bool_decide_unpack _). vm_compute. done. }
  split; [done|]. unfold read_segment. rewrite Hnew. cbn [mbind outcome_bind].
  unfold drain_reader. change (r_row_count (reader_of evs 0)) with (length evs).
  change (r_cursor (reader_of evs 0)) with 0%nat. rewrite drain_loop_ok by lia. done.
Qed.
End spec.

Section reject.
Context {BL : Blake3} {BN : Bincode} {CM : Compressors}.

(** Every column of an opened reader has one value per row. *)
Definition reader_lengths (r : RawSegmentReader) : list nat :=
  [length (r_event_id r); length (r_kind r); length (r_correction_ref r); length (r_account_id r);
   length (r_subscription_id r); length (r_product_id r); length (r_meter_id r);
   length (r_timestamp_ms r); length (r_quantity r); length (r_unit r); length (r_source r);
   length (r_model_id r); length (r_dimensions r); length (r_ingested_at_ms r)].

Definition reader_wf (r : RawSegmentReader) : Prop :=
  Forall (λ n, n = r_row_count r) (reader_lengths r).

Lemma check_row_counts_inv rc l :
  check_row_counts rc l = Ok tt → Forall (λ n, n = rc) (snd <$> l).
Proof.
  induction l as [|[name len] l IH]; cbn [check_row_counts]; intros H; [constructor|].
  outcome_inv. constructor; [by apply Nat.eqb_eq|by apply IH].
Qed.

Lemma decode_columns_wf row_count chunks r :
  decode_columns row_count chunks = Ok r →
  reader_wf r ∧ r_cursor r = 0%nat ∧ r_row_count r = Z.to_nat row_count.
Proof.
  unfold decode_columns. intros H.
  repeat match goal with
  | H : mbind _ ?m = Ok _ |- _ => destruct m eqn:?; cbn [mbind outcome_bind] in H; try discriminate H
  | H : (let '(_, _) := ?p in _) = Ok _ |- _ => destruct p
  end.
  injection H as <-.
  match goal with H : check_row_counts _ _ = Ok _ |- _ => rename H into Hc end.
  match type of Hc with _ = Ok ?u => destruct u end.
  apply check_row_counts_inv in Hc. done.
Qed.

Lemma read_next_wf r :
  reader_wf r →
  match read_next r with
  | Ok None => (r_row_count r ≤ r_cursor r)%nat
  | Ok (Some (_, r')) =>
      (r_cursor r < r_row_count r)%nat ∧ reader_wf r' ∧ r_row_count r' = r_row_count r
      ∧ r_cursor r' = S (r_cursor r)
  | Err (UnknownKind _) => True
  | Err _ => False
  | Panic => False
  end.
Proof.
  intros Hwf. unfold read_next. destruct (Nat.leb_spec (r_row_count r) (r_cursor r)) as [|Hlt]; [done|].
  assert (∀ A (l : list A), length l = r_row_count r → is_Some (l !! r_cursor r)) as Hin.
  { intros A l Hl. apply lookup_lt_is_Some_2. lia. }
  pose proof Hwf as Hwf'. unfold reader_wf, reader_lengths in Hwf'.
  repeat (apply Forall_cons in Hwf' as [?H Hwf']).
  unfold index_or_panic.
  repeat match goal with
  | H : length ?l = r_row_count r |- _ =>
      destruct (Hin _ l H) as [? ->]; clear H
  end.
  cbn. destruct (decode_kind _); cbn; done.
Qed.

Lemma drain_loop_wf fuel r :
  reader_wf r → fuel = (r_row_count r - r_cursor r)%nat →
  match (drain_loop fuel r).2 with
  | Ok _ => length (drain_loop fuel r).1 = fuel
  | Err (UnknownKind _) => (length (drain_loop fuel r).1 < fuel)%nat
  | _ => False
  end.
Proof.
  revert r. induction fuel as [|fuel IH]; intros r Hwf Hf; [done|].
  cbn [drain_loop]. pose proof (read_next_wf r Hwf) as Hn.
  destruct (read_next r) as [[[e r']|]|err|].
  - destruct Hn as (Hlt & Hwf' & Hrc & Hcur). specialize (IH r' Hwf' ltac:(lia)).
    destruct (drain_loop fuel r') as [es st]. cbn in *.
    destruct st as [|err'|]; [lia| |done]. destruct err'; done || lia.
  - lia.
  - cbn. destruct err; done || lia.
  - done.
Qed.

(** ** What the reader accepts *)
Lemma reader_new_inv bs r :
  reader_new bs = Ok r →
  let body := take (length bs - 16) bs in
  (31 ≤ length bs)%nat
  ∧ drop (length bs - 8) bs = MAGIC_END
  ∧ le_value (slice (length bs - 16) 8 bs) = checksum body
  ∧ take 8 body = MAGIC ∧ body !! 8%nat = Some VERSION
  ∧ reader_wf r ∧ r_cursor r = 0%nat.
Proof.
  unfold reader_new. intros H. cbn zeta in *. outcome_inv.
  repeat match goal with
  | H : bool_decide _ = true |- _ => apply bool_decide_eq_true in H
  | H : negb _ = true |- _ => apply negb_true_iff in H
  | H : (_ <? _)%nat = false |- _ => apply Nat.ltb_ge in H
  | H : (_ =? _) = true |- _ => apply Z.eqb_eq in H
  end.
  change (length MAGIC_END) with 8%nat in *. change (length MAGIC) with 8%nat in *.
  change (HEADER_LEN + FOOTER_LEN)%nat with 31%nat in *.
  replace (length bs - 8 - 8)%nat with (length bs - 16)%nat in * by lia.
  apply decode_columns_wf in H as (Hwf & Hc & _).
  split_and!; try done. unfold index_or_panic in *.
  destruct (take (length bs - 16) bs !! 8%nat); congruence.
Qed.

(** ** Files the reader aborts on

    A body that ends right after a column's name: the header is complete and
    the checksum is right, but the encoding byte is read by an unchecked
    index. *)
Definition truncated_column_body : bytes :=
  MAGIC ++ [VERSION] ++ le_bytes 4 0 ++ le_bytes 2 1 ++ le_bytes 2 0.

Definition truncated_column_file : bytes :=
  truncated_column_body ++ le_bytes 8 (checksum truncated_column_body) ++ MAGIC_END.

Lemma truncated_column_panics `{!Blake3Ok} : reader_new truncated_column_file = Panic.
Proof.
  unfold reader_new, truncated_column_file. set (body := truncated_column_body).
  rewrite !length_app, length_le_bytes. change (length body) with 17%nat.
  change (17 + (8 + length MAGIC_END) <? HEADER_LEN + FOOTER_LEN)%nat with false.
  cbn [negb guard_err mbind outcome_bind].
  change (17 + (8 + length MAGIC_END) - length MAGIC_END)%nat with (length body + 8)%nat.
  replace (length body + 8 - 8)%nat with (length body) by lia.
  rewrite <- drop_drop, drop_app_length.
  rewrite (drop_app_length' (le_bytes 8 (checksum body))) by (by rewrite length_le_bytes).
  rewrite (bool_decide_true (MAGIC_END = MAGIC_END)) by done. cbn [guard_err mbind outcome_bind].
  unfold slice. rewrite drop_app_length.
  rewrite (take_app_length' (le_bytes 8 (checksum body))) by (by rewrite length_le_bytes).
  rewrite take_app_length, le_value_le_bytes by apply checksum_range.
  rewrite Z.eqb_refl. cbn [guard_err mbind outcome_bind]. reflexivity.
Qed.
End reject.
