(* ===== verification/DedupeIndex.v ===== *)
(** * The dedupe sidecar

    [src/storage/dedupe_index.rs]: the [.idx] file written next to a raw
    segment, with its checksum, and the reader recovery tries first. *)

From Stdlib Require Import Ascii.
From stdpp Require Import sorting numbers strings base gmap list.
From S2P Require Import Prelude Model.

Module Idx.
Definition MAGIC : bytes := str_bytes "UDBIDX01".

(** [(event_id_hash, payload_hash, ingested_at_ms)]. *)
Definition DedupeEntry : Type := Z * Z * Z.

Definition entries_ty : bty := BVec (BPair (BPair BU128 BU128) BI64).

Inductive idx_error :=
| IdxSerialize | IdxTooSmall | IdxMissingMagic | IdxChecksum (stored computed : Z)
| IdxDeserialize | IdxCountMismatch (header : Z) (decoded : nat).

Definition index_path (segment_id : string) : string := segment_id +:+ ".idx".

Section index.
Context {BL : Blake3} {BN : Bincode}.

(** [write_dedupe_index]: the contents of the file. *)
Definition write_dedupe_index (entries : list DedupeEntry) : outcome idx_error bytes :=
  body ← ok_or IdxSerialize (bser entries_ty entries);
  let buf := MAGIC ++ le_bytes 4 (wrapu 32 (Z.of_nat (length entries))) ++ body in
  let cs := checksum buf in
  Ok (buf ++ le_bytes 8 cs).

Definition MIN_LEN : nat := 8 + 4 + 8.

(** [read_dedupe_index]: [None] for a missing file. *)
Definition read_dedupe_index (file : option bytes) : outcome idx_error (option (list DedupeEntry)) :=
  match file with
  | None => Ok None
  | Some bs =>
      _ ← guard_err (negb (length bs <? MIN_LEN)%nat) IdxTooSmall;
      _ ← guard_err (bool_decide (take (length MAGIC) bs = MAGIC)) IdxMissingMagic;
      let cs_off := (length bs - 8)%nat in
      let stored_cs := le_value (slice cs_off 8 bs) in
      let body := take cs_off bs in
      let computed_cs := checksum body in
      _ ← guard_err (computed_cs =? stored_cs) (IdxChecksum stored_cs computed_cs);
      let count := le_value (slice (length MAGIC) 4 bs) in
      let entries_bytes := drop (length MAGIC + 4) (take cs_off bs) in
      entries ← ok_or IdxDeserialize (bde entries_ty entries_bytes);
      _ ← guard_err (Z.of_nat (length entries) =? count) (IdxCountMismatch count (length entries));
      Ok (Some entries)
  end.

Definition entry_wf (en : DedupeEntry) : Prop :=
  let '(id, payload, ingested) := en in inu 128 id ∧ inu 128 payload ∧ ins 64 ingested.

(** Recovery's reading of a sidecar: a corrupt one counts as missing. *)
Definition usable_index (file : option bytes) : option (list DedupeEntry) :=
  match read_dedupe_index file with Ok o => o | _ => None end.

Lemma entries_valid entries : Forall entry_wf entries → bvalid entries_ty entries.
Proof.
  intros H. cbn. eapply Forall_impl; [exact H|].
  intros [[id payload] t] (? & ? & ?). done.
Qed.

Context {BLok : Blake3Ok} {BNok : BincodeOk}.

Lemma write_read_index entries :
  Forall entry_wf entries → Z.of_nat (length entries) < 2 ^ 32 →
  ∃ bs, write_dedupe_index entries = Ok bs ∧ read_dedupe_index (Some bs) = Ok (Some entries).
Proof.
  intros Hwf Hl. destruct (bde_bser entries_ty entries (entries_valid _ Hwf)) as (body & E1 & E2).
  unfold write_dedupe_index. rewrite E1. cbn [ok_or mbind outcome_bind].
  rewrite wrapu_small by (unfold inu; lia). eexists. split; [reflexivity|].
  set (hd := le_bytes 4 (Z.of_nat (length entries))).
  assert (length hd = 4%nat) as Hhd by apply length_le_bytes.
  set (buf := MAGIC ++ hd ++ body).
  assert (length buf = 12 + length body)%nat as Hbuf.
  { unfold buf. rewrite !length_app, Hhd. change (length MAGIC) with 8%nat. lia. }
  unfold read_dedupe_index. rewrite length_app, length_le_bytes.
  destruct (Nat.ltb_spec (length buf + 8) MIN_LEN) as [Hlt|_]; [unfold MIN_LEN in Hlt; lia|].
  cbn [negb guard_err mbind outcome_bind].
  assert (take (length MAGIC) (buf ++ le_bytes 8 (checksum buf)) = MAGIC) as ->.
  { unfold buf. rewrite <- app_assoc. apply take_app_length. }
  rewrite bool_decide_true by done. cbn [guard_err mbind outcome_bind].
  replace (length buf + 8 - 8)%nat with (length buf) by lia.
  unfold slice. rewrite drop_app_length, take_app_length.
  rewrite (take_ge (le_bytes 8 _)) by (rewrite length_le_bytes; lia).
  rewrite le_value_le_bytes, Z.eqb_refl by apply checksum_range. cbn [guard_err mbind outcome_bind].
  assert (drop (length MAGIC) (buf ++ le_bytes 8 (checksum buf)) = hd ++ body ++ le_bytes 8 (checksum buf)) as ->.
  { unfold buf at 1. rewrite <- !app_assoc. apply drop_app_length. }
  assert (drop (length MAGIC + 4) buf = body) as ->.
  { rewrite <- drop_drop. unfold buf. rewrite drop_app_length. by apply drop_app_length'. }
  rewrite (take_app_length' hd) by done.
  unfold entries_ty in *. rewrite E2. cbn [ok_or mbind outcome_bind].
  unfold hd. rewrite le_value_le_bytes, Z.eqb_refl by (unfold inu; cbn; lia). done.
Qed.

(** Whatever the file holds, reading it never aborts the process. *)
Lemma read_index_no_panic file : read_dedupe_index file ≠ Panic.
Proof.
  destruct file as [bs|]; [|done]. unfold read_dedupe_index, guard_err, ok_or.
  repeat (case_match; cbn [mbind outcome_bind] in *; try discriminate).
Qed.
End index.
End Idx.
