(* ===== verification/SegmentApi.v ===== *)
(** * Raw segments as a service

    What the flusher, the compactor, the rollup worker, recovery and the query
    executor rely on: the interface [RawSegments] with its law, and the proof
    that the file format of [Segment] discharges it.  Also the properties of
    the format and of the encodings that a user of the files can see. *)

From Stdlib Require Import Ascii.
From stdpp Require Import sorting numbers strings base gmap list.
From S2P Require Import Prelude Model Instances Encoding Segment SegmentSpec DedupeIndex.

(** [seg_write]: [RawSegmentWriter::new], [write_event] for each event,
    [finish].  [seg_open]: [RawSegmentReader::new] and the [read_next] loop:
    the rows read and how the loop ended. *)
Class RawSegments := {
  seg_write : list UsageEvent → outcome seg_error (bytes * Z * Z);
  seg_open : bytes → outcome seg_error (list UsageEvent * outcome seg_error unit);
  seg_fits : list UsageEvent → Prop;
}.

(** What fits is written, and comes back row for row. *)
Class RawSegmentsOk `{!RawSegments} : Prop := {
  seg_roundtrip evs : seg_fits evs →
    ∃ bs cs, seg_write evs = Ok (bs, Z.of_nat (length evs), cs) ∧ seg_open bs = Ok (evs, Ok tt);
  seg_fits_wf evs : seg_fits evs → Forall event_wf evs;
}.

(** [while let Some(e) = reader.read_next()? { ... }]: all rows or an error. *)
Definition seg_read_all `{!RawSegments} (bs : bytes) : outcome seg_error (list UsageEvent) :=
  '(es, st) ← seg_open bs;
  _ ← st;
  Ok es.

Lemma seg_read_all_written `{!RawSegments, !RawSegmentsOk} evs bs n cs :
  seg_fits evs → seg_write evs = Ok (bs, n, cs) → seg_read_all bs = Ok evs.
Proof.
  intros Hf Hw. destruct (seg_roundtrip evs Hf) as (bs' & cs' & Ew & Eo).
  rewrite Hw in Ew. injection Ew as -> _ _. unfold seg_read_all. by rewrite Eo.
Qed.

Module Files.
Section files.
Context {BL : Blake3} {BN : Bincode} {CM : Compressors}.

(** Lengths are stored in 32 bits. *)
Definition fits (evs : list UsageEvent) : Prop :=
  Forall event_wf evs ∧ Z.of_nat (length evs) < 2 ^ 32
  ∧ match write_segment evs with
    | Ok (bs, _, _) => Z.of_nat (length bs) < 2 ^ 32
    | _ => True
    end.

#[export] Instance file_segments : RawSegments := {|
  seg_write := write_segment;
  seg_open bs := r ← reader_new bs; Ok (drain_reader r);
  seg_fits := fits;
|}.

Context {BLok : Blake3Ok} {BNok : BincodeOk} {CMok : CompressorsOk}.

#[export] Instance file_segments_ok : RawSegmentsOk.
Proof.
  split; [|by intros evs [? _]].
  intros evs (Hwf & Hl & Hs). destruct (write_read_segment evs Hwf Hl) as (bs & cs & Ew & Hr).
  exists bs, cs. split; [done|]. cbn in *. rewrite Ew in Hs. destruct (Hr Hs) as [-> Hread].
  unfold read_segment in Hread. rewrite (proj1 (Hr Hs)) in Hread. cbn [mbind outcome_bind] in *.
  destruct (drain_reader (reader_of evs 0)) as [es st]. destruct st as [[]| |]; cbn in Hread; try done.
  by injection Hread as ->.
Qed.

(** C17: a segment file read back is the batch that was written: every field
    of every event, in order; and a scan for one account returns exactly that
    account's events. *)
Theorem segment_roundtrip (evs : list UsageEvent) (account : string) :
  fits evs →
  ∃ bs cs r, write_segment evs = Ok (bs, Z.of_nat (length evs), cs)
    ∧ read_segment bs = Ok evs
    ∧ reader_new bs = Ok r
    ∧ scan_by_account r account = Ok (filter (λ e, ev_account_id e = account) evs).
Proof.
  intros (Hwf & Hl & Hs). destruct (write_read_segment evs Hwf Hl) as (bs & cs & Ew & Hr).
  rewrite Ew in Hs. destruct (Hr Hs) as [Hn Hread]. exists bs, cs, (reader_of evs 0).
  split; [done|]. split; [done|]. split; [done|].
  unfold read_segment in Hread. rewrite Hn in Hread. unfold scan_by_account. cbn [mbind outcome_bind] in *.
  destruct (drain_reader (reader_of evs 0)) as [es st]. destruct st as [[]| |]; cbn in Hread; try done.
  injection Hread as ->. reflexivity.
Qed.

(** C37: what the reader opens is a complete, checksummed file, and reading it
    to the end terminates without a panic: it yields the header's row count of
    events, or stops at an unknown kind byte. *)
Theorem opened_segment_reads_safely (bs : bytes) (r : RawSegmentReader) :
  reader_new bs = Ok r →
  (31 ≤ length bs)%nat
  ∧ drop (length bs - 8) bs = MAGIC_END
  ∧ le_value (slice (length bs - 16) 8 bs) = checksum (take (length bs - 16) bs)
  ∧ match (drain_reader r).2 with
    | Ok _ => length (drain_reader r).1 = r_row_count r
    | Err (UnknownKind _) => (length (drain_reader r).1 < r_row_count r)%nat
    | _ => False
    end.
Proof.
  intros (H1 & H2 & H3 & _ & _ & Hwf & Hc)%reader_new_inv. split; [done|]. split; [done|].
  split; [done|]. pose proof (drain_loop_wf _ r Hwf eq_refl) as Hd. unfold drain_reader.
  replace (r_row_count r - r_cursor r)%nat with (r_row_count r) in * by lia. exact Hd.
Qed.

(** The reader does not report every malformed file as an error: a file
    whose magics, version and checksum are right but whose body ends behind a
    column name aborts the process on an index out of range. *)
Theorem truncated_segment_panics :
  ∃ file, drop (length file - 8) file = MAGIC_END
    ∧ le_value (slice (length file - 16) 8 file) = checksum (take (length file - 16) file)
    ∧ reader_new file = Panic.
Proof.
  exists truncated_column_file. pose proof truncated_column_panics as Hp. split; [|split; [|exact Hp]].
  - unfold truncated_column_file. rewrite !length_app, length_le_bytes.
    change (length MAGIC_END) with 8%nat. rewrite app_assoc. rewrite drop_app_length'; [done|].
    rewrite length_app, length_le_bytes. lia.
  - unfold truncated_column_file. rewrite !length_app, length_le_bytes.
    change (length MAGIC_END) with 8%nat. unfold slice. set (b := truncated_column_body).
    rewrite (take_app_length' b), (drop_app_length' b) by lia.
    rewrite take_app_length' by (by rewrite length_le_bytes). apply le_value_le_bytes, checksum_range.
Qed.

(** The sidecar of a segment holds what was put in it, and whatever bytes
    the file holds instead, reading it never aborts recovery. *)
Theorem dedupe_index_roundtrip (entries : list Idx.DedupeEntry) :
  Forall Idx.entry_wf entries → Z.of_nat (length entries) < 2 ^ 32 →
  (∃ bs, Idx.write_dedupe_index entries = Ok bs
         ∧ Idx.read_dedupe_index (Some bs) = Ok (Some entries))
  ∧ ∀ file, Idx.read_dedupe_index file ≠ Panic.
Proof.
  intros H1 H2. split; [by apply Idx.write_read_index|]. intros. apply Idx.read_index_no_panic.
Qed.
End files.

(** ** Encodings *)

(** C38: the column encodings are lossless on their types: zigzag is a
    bijection between i128 and u128, the varint block of quantities, the
    wrapping timestamp deltas and the run lengths decode to what was encoded. *)
Theorem encodings_lossless (quantities times kinds : list Z) :
  Forall (ins 128) quantities → Forall (ins 64) times → Forall (inu 8) kinds →
  Z.of_nat (length quantities) < 2 ^ 32 → Z.of_nat (length kinds) < 2 ^ 32 →
  decode_zigzag_varint (encode_zigzag_varint_i128 quantities) = Ok quantities
  ∧ undelta_i64_from 0 (delta_i64_from 0 times) = times
  ∧ decode_rle_runs (rle_runs kinds) = Ok kinds
  ∧ (∀ n, ins 128 n → inu 128 (zigzag_encode n) ∧ zigzag_decode (zigzag_encode n) = n)
  ∧ (∀ u, inu 128 u → zigzag_encode (zigzag_decode u) = u).
Proof.
  intros Hq Ht Hk Hlq Hlk. split; [by apply zigzag_varint_roundtrip|].
  split; [by apply undelta_delta_from|]. split; [by apply rle_runs_roundtrip|]. split.
  - intros n Hn. split; [by apply zigzag_encode_range|by apply zigzag_decode_encode].
  - intros u Hu. by apply zigzag_encode_decode.
Qed.

Lemma encodings_lossless_witness :
  decode_zigzag_varint (encode_zigzag_varint_i128 [-1; 300]) = Ok [-1; 300]
  ∧ undelta_i64_from 0 (delta_i64_from 0 [i64_max; i64_min]) = [i64_max; i64_min]
  ∧ decode_rle_runs (rle_runs [0; 0; 2]) = Ok [0; 0; 2].
Proof.
  destruct (encodings_lossless [-1; 300] [i64_max; i64_min] [0; 0; 2]) as (H1 & H2 & H3 & _);
    [refine (bool_decide_unpack _ _); by vm_compute..|by vm_compute|by vm_compute|].
  split; [exact H1|]. split; [exact H2|exact H3].
Defined.

(** C39: [encode_deltas] of [storage/encoding.rs] subtracts without wrapping:
    a release build wraps and decodes back, a debug build either panics in
    the encoder or also round-trips, and it cannot panic on timestamps at or
    after the epoch. *)
Theorem deltas_by_profile (values : list Z) :
  Forall (ins 64) values →
  (∃ ds, encode_deltas Release values = Ok ds ∧ decode_deltas Release ds = Ok values)
  ∧ (∀ ds, encode_deltas Debug values = Ok ds → decode_deltas Debug ds = Ok values)
  ∧ (Forall (λ v, 0 ≤ v) values → ∃ ds, encode_deltas Debug values = Ok ds).
Proof.
  intros H. split; [by apply deltas_release_from|]. split.
  - intros ds E. by apply deltas_debug_from.
  - intros Hp. apply deltas_debug_total; [lia|]. apply Forall_forall. intros v Hv.
    rewrite Forall_forall in H, Hp. specialize (H v Hv). specialize (Hp v Hv). unfold ins in H. lia.
Qed.

Lemma deltas_by_profile_witness :
  ∃ ds, encode_deltas Release [i64_max; i64_min] = Ok ds ∧ decode_deltas Release ds = Ok [i64_max; i64_min].
Proof. apply (deltas_by_profile [i64_max; i64_min]). by repeat constructor; vm_compute. Defined.

(** ** Witnesses *)
Definition two_events : list UsageEvent :=
  [sample_event "a" "acct_1" 1000 5; sample_event "b" "acct_2" 2000 (-7)].

Definition two_fit : @fits poly_digest code_bincode stored_codecs two_events.
Proof. split; [by repeat constructor; vm_compute|]. by vm_compute. Qed.

Lemma segment_roundtrip_witness :
  ∃ bs cs r, @write_segment poly_digest code_bincode stored_codecs two_events = Ok (bs, 2, cs)
    ∧ @read_segment poly_digest code_bincode stored_codecs bs = Ok two_events
    ∧ @reader_new poly_digest code_bincode stored_codecs bs = Ok r
    ∧ scan_by_account r "acct_2" = Ok [sample_event "b" "acct_2" 2000 (-7)].
Proof.
  apply (@segment_roundtrip poly_digest code_bincode stored_codecs poly_digest_ok code_bincode_ok
           stored_codecs_ok two_events "acct_2"). exact two_fit.
Defined.

Definition one_reader : outcome seg_error RawSegmentReader :=
  Eval vm_compute in
    ('(bs, _, _) ← @write_segment poly_digest code_bincode stored_codecs [sample_event "a" "acct_1" 1000 5];
     @reader_new poly_digest code_bincode stored_codecs bs).

Definition one_file : bytes :=
  Eval vm_compute in
    match @write_segment poly_digest code_bincode stored_codecs [sample_event "a" "acct_1" 1000 5] with
    | Ok (bs, _, _) => bs
    | _ => []
    end.

Lemma opened_segment_reads_safely_witness :
  drop (length one_file - 8) one_file = MAGIC_END.
Proof.
  destruct one_reader as [r| |] eqn:E; [|discriminate E|discriminate E].
  destruct (@opened_segment_reads_safely poly_digest code_bincode stored_codecs one_file r) as (_ & H & _);
    [rewrite <- E; vm_compute; reflexivity|exact H].
Defined.

Lemma truncated_segment_panics_witness : ∃ file, @reader_new poly_digest code_bincode stored_codecs file = Panic.
Proof.
  destruct (@truncated_segment_panics poly_digest code_bincode stored_codecs poly_digest_ok) as (file & _ & _ & H).
  by exists file.
Defined.

Lemma dedupe_index_roundtrip_witness :
  ∃ bs, @Idx.write_dedupe_index poly_digest code_bincode [(1, 2, 3)] = Ok bs
        ∧ @Idx.read_dedupe_index poly_digest code_bincode (Some bs) = Ok (Some [(1, 2, 3)]).
Proof.
  apply (@dedupe_index_roundtrip poly_digest code_bincode poly_digest_ok code_bincode_ok [(1, 2, 3)]).
  - by repeat constructor; vm_compute.
  - by vm_compute.
Defined.
End Files.
