(* ===== verification/Memtable.v ===== *)
(** * The memtable

    [src/ingest/memtable.rs]: the buffer of accepted, not yet flushed events.
    [size_of_event] is [std::mem::size_of::<UsageEvent>()], a constant of the
    compiled layout; the clock is an argument of [insert]. *)

From Stdlib Require Import Ascii.
From stdpp Require Import sorting numbers strings base gmap list.
From S2P Require Import Prelude Model.

Record Memtable := MkMemtable {
  mt_events : list UsageEvent;
  mt_approx_size_bytes : Z;
  mt_oldest_insert_at_ms : option Z;
}.

Module Mem.
Section memtable.
Context (size_of_event : Z).

Definition new : Memtable := MkMemtable [] 0 None.

Definition estimate_event_size (e : UsageEvent) : Z :=
  let strings :=
    str_len (ev_event_id e) + str_len (ev_account_id e)
    + default 0 (str_len <$> ev_subscription_id e)
    + str_len (ev_product_id e) + str_len (ev_meter_id e)
    + str_len (ev_source e) + str_len (ev_unit e)
    + default 0 (str_len <$> ev_model_id e)
    + default 0 ((λ c, str_len (original_event_id c) + str_len (reason c)) <$> ev_correction_ref e) in
  let dims := sumZ (λ kv, str_len kv.1 + str_len kv.2 + 64) (map_to_list (inner (ev_dimensions e))) in
  size_of_event + strings + dims.

Definition is_empty (m : Memtable) : bool := bool_decide (mt_events m = []).

Definition insert (now : Z) (m : Memtable) (e : UsageEvent) : Memtable :=
  MkMemtable
    (mt_events m ++ [e])
    (mt_approx_size_bytes m + estimate_event_size e)
    (if is_empty m then Some now else mt_oldest_insert_at_ms m).

Definition size_bytes (m : Memtable) : Z := mt_approx_size_bytes m.
Definition len (m : Memtable) : nat := length (mt_events m).
Definition oldest_insert_at_ms (m : Memtable) : option Z := mt_oldest_insert_at_ms m.

(** [Iterator::min]. *)
Definition min_list (l : list Z) : option Z :=
  match l with [] => None | x :: l => Some (foldl Z.min x l) end.

Definition min_event_timestamp_ms (m : Memtable) : option Z :=
  min_list (ev_timestamp_ms <$> mt_events m).

Definition drain_all (m : Memtable) : list UsageEvent * Memtable :=
  (mt_events m, MkMemtable [] 0 None).

Definition snapshot (m : Memtable) : list UsageEvent := mt_events m.

(** Inserting a batch in order, each event at its own time. *)
Definition insert_all (now : Z) (m : Memtable) (es : list UsageEvent) : Memtable :=
  foldl (insert now) m es.

(** The size is the sum of the estimates and the age is known exactly when
    something is buffered. *)
Definition wf (m : Memtable) : Prop :=
  mt_approx_size_bytes m = sumZ estimate_event_size (mt_events m)
  ∧ (mt_oldest_insert_at_ms m = None ↔ mt_events m = []).

Lemma new_wf : wf new.
Proof. done. Qed.

Lemma insert_wf now m e : wf m → wf (insert now m e).
Proof.
  intros [Hs Ho]. split; unfold insert; cbn [mt_events mt_approx_size_bytes mt_oldest_insert_at_ms].
  - rewrite sumZ_app, Hs, sumZ_cons. change (sumZ _ []) with 0. lia.
  - unfold is_empty. case_bool_decide as He.
    + split; [done|]. by intros [_ ?]%app_eq_nil.
    + split; [|by intros [_ ?]%app_eq_nil]. intros ?%Ho. done.
Qed.

Lemma insert_all_events now m es : mt_events (insert_all now m es) = mt_events m ++ es.
Proof.
  revert m. induction es as [|e es IH]; intros m; cbn; [by rewrite app_nil_r|].
  change (foldl (insert now) ?m es) with (insert_all now m es). rewrite IH. cbn.
  by rewrite <- app_assoc.
Qed.

Lemma insert_all_wf now m es : wf m → wf (insert_all now m es).
Proof. revert m. induction es; intros; cbn; [done|]. by apply IHes, insert_wf. Qed.

Lemma foldl_min_spec x l : foldl Z.min x l ≤ x ∧ (∀ y, y ∈ l → foldl Z.min x l ≤ y)
  ∧ foldl Z.min x l ∈ x :: l.
Proof.
  revert x. induction l as [|y l IH]; intros x; cbn.
  { split_and!; [lia|set_solver|set_solver]. }
  destruct (IH (Z.min x y)) as (H1 & H2 & H3). split_and!.
  - lia.
  - intros z [->|Hz]%elem_of_cons; [lia|by apply H2].
  - apply elem_of_cons in H3 as [->|H3]; [|set_solver].
    destruct (Z.min_dec x y) as [->| ->]; set_solver.
Qed.

(** The watermark cap reads the exact minimum of the buffered timestamps. *)
Lemma min_event_timestamp_spec m ts :
  min_event_timestamp_ms m = Some ts →
  (∀ e, e ∈ mt_events m → ts ≤ ev_timestamp_ms e)
  ∧ ∃ e, e ∈ mt_events m ∧ ev_timestamp_ms e = ts.
Proof.
  unfold min_event_timestamp_ms, min_list.
  destruct (mt_events m) as [|e es]; cbn; [done|]. intros [= <-].
  destruct (foldl_min_spec (ev_timestamp_ms e) (ev_timestamp_ms <$> es)) as (H1 & H2 & H3).
  split.
  - intros e' [->|Hin]%elem_of_cons; [done|]. apply H2. by apply list_elem_of_fmap_2.
  - apply elem_of_cons in H3 as [H3|(e' & H3 & Hin)%list_elem_of_fmap].
    + exists e. split; [set_solver|congruence].
    + exists e'. split; [set_solver|congruence].
Qed.

Lemma min_event_timestamp_none m : min_event_timestamp_ms m = None ↔ mt_events m = [].
Proof. unfold min_event_timestamp_ms, min_list. by destruct (mt_events m). Qed.
End memtable.
End Mem.
