(* ===== verification/Dedupe.v ===== *)
(** * The hot dedupe cache

    [src/ingest/dedupe.rs]: the bounded, time-limited cache of event
    identities the ingest path classifies against.  The code keeps a hash map
    and a queue of insertions that must agree; the abstract specification is
    the queue alone ([fifo]).  The clock readings ([now_ms()]) are arguments;
    the subtraction [now - ttl] is exact, as it is for any wall-clock time and
    any configured TTL (both far below 2^62). *)

From Stdlib Require Import Ascii.
From stdpp Require Import sorting numbers strings base gmap list.
From S2P Require Import Prelude Model.

Definition DEFAULT_TTL_MS : Z := 7 * 24 * 3600 * 1000.

Record DedupeEntry := MkDedupeEntry { payload_hash : Z; first_seen_ms : Z }.

Record HotDedupe := MkHotDedupe {
  hd_cache : gmap Z DedupeEntry;
  hd_order : list (Z * Z);
  hd_max_capacity : nat;
  hd_ttl_ms : Z;
}.

Inductive DedupeResult := NewEvent | ExactDuplicate | PayloadConflict.

#[export] Instance DedupeResult_eq_dec : EqDecision DedupeResult.
Proof. solve_decision. Defined.

Module Hot.
Definition new (max_capacity : nat) : HotDedupe :=
  MkHotDedupe ∅ [] max_capacity DEFAULT_TTL_MS.

Definition with_ttl (ttl : Z) (d : HotDedupe) : HotDedupe :=
  MkHotDedupe (hd_cache d) (hd_order d) (hd_max_capacity d) ttl.

Definition classify (d : HotDedupe) (event_id_hash payload : Z) : DedupeResult :=
  match hd_cache d !! event_id_hash with
  | Some existing =>
      if payload_hash existing =? payload then ExactDuplicate else PayloadConflict
  | None => NewEvent
  end.

(** The [while let Some(front)] loop of [evict_expired]. *)
Fixpoint evict_loop (cutoff : Z) (cache : gmap Z DedupeEntry) (order : list (Z * Z))
    : gmap Z DedupeEntry * list (Z * Z) :=
  match order with
  | [] => (cache, [])
  | (hash, inserted_at) :: rest =>
      if cutoff <=? inserted_at then (cache, order)
      else evict_loop cutoff (delete hash cache) rest
  end.

Definition evict_expired (now : Z) (d : HotDedupe) : HotDedupe :=
  let cutoff := now - hd_ttl_ms d in
  let '(cache, order) := evict_loop cutoff (hd_cache d) (hd_order d) in
  MkHotDedupe cache order (hd_max_capacity d) (hd_ttl_ms d).

(** The [while self.cache.len() > self.max_capacity] loop of [commit]. *)
Fixpoint capacity_loop (cap : nat) (cache : gmap Z DedupeEntry) (order : list (Z * Z))
    : gmap Z DedupeEntry * list (Z * Z) :=
  if (cap <? size cache)%nat then
    match order with
    | [] => (cache, [])
    | (oldest, _) :: rest => capacity_loop cap (delete oldest cache) rest
    end
  else (cache, order).

(** [now_evict] and [now] are the two clock readings of one call. *)
Definition commit (now_evict now : Z) (event_id_hash payload : Z) (d : HotDedupe) : HotDedupe :=
  let d := evict_expired now_evict d in
  if bool_decide (is_Some (hd_cache d !! event_id_hash)) then d
  else
    let '(cache, order) :=
      capacity_loop (hd_max_capacity d)
        (<[event_id_hash := MkDedupeEntry payload now]> (hd_cache d))
        (hd_order d ++ [(event_id_hash, now)]) in
    MkHotDedupe cache order (hd_max_capacity d) (hd_ttl_ms d).

Definition check_and_insert (now_evict now : Z) (event_id_hash payload : Z) (d : HotDedupe)
    : DedupeResult * HotDedupe :=
  let result := classify d event_id_hash payload in
  (result,
   if bool_decide (result = NewEvent) then commit now_evict now event_id_hash payload d else d).

Definition insert_known (event_id_hash payload first_seen : Z) (d : HotDedupe) : HotDedupe :=
  if bool_decide (is_Some (hd_cache d !! event_id_hash)) then d
  else MkHotDedupe
         (<[event_id_hash := MkDedupeEntry payload first_seen]> (hd_cache d))
         (hd_order d ++ [(event_id_hash, first_seen)])
         (hd_max_capacity d) (hd_ttl_ms d).

Definition len (d : HotDedupe) : nat := size (hd_cache d).

(** ** The abstract cache: one queue of [(hash, payload, first_seen)] *)
Definition fifo : Type := list (Z * DedupeEntry).

Fixpoint q_evict (cutoff : Z) (q : fifo) : fifo :=
  match q with
  | [] => []
  | (h, en) :: rest => if cutoff <=? first_seen_ms en then q else q_evict cutoff rest
  end.

Definition q_commit (cap : nat) (ttl now_evict now h p : Z) (q : fifo) : fifo :=
  let q := q_evict (now_evict - ttl) q in
  if bool_decide (h ∈ q.*1) then q
  else let q := q ++ [(h, MkDedupeEntry p now)] in drop (length q - cap) q.

Definition q_insert_known (h p seen : Z) (q : fifo) : fifo :=
  if bool_decide (h ∈ q.*1) then q else q ++ [(h, MkDedupeEntry p seen)].

(** The map and the queue hold the same entries, each once. *)
Definition repr (d : HotDedupe) (q : fifo) : Prop :=
  NoDup q.*1
  ∧ hd_cache d = list_to_map q
  ∧ hd_order d = (λ x : Z * DedupeEntry, (x.1, first_seen_ms x.2)) <$> q.

(** ** Refinement *)
Lemma repr_lookup d q h : repr d q → is_Some (hd_cache d !! h) ↔ h ∈ q.*1.
Proof.
  intros (_ & -> & _). rewrite <- not_eq_None_Some, <- not_elem_of_list_to_map.
  split; [apply dec_stable|tauto].
Qed.

Lemma list_to_map_snoc (q : fifo) h en :
  h ∉ q.*1 → (list_to_map (q ++ [(h, en)]) : gmap Z DedupeEntry) = <[h := en]> (list_to_map q).
Proof.
  intros Hn. rewrite list_to_map_app, list_to_map_cons, list_to_map_nil.
  rewrite <- insert_union_r by (by apply not_elem_of_list_to_map). f_equal. apply (right_id_L ∅ (∪)).
Qed.

Lemma delete_head (q : fifo) h en :
  NoDup (h :: q.*1) → delete h (list_to_map ((h, en) :: q) : gmap Z DedupeEntry) = list_to_map q.
Proof.
  intros [Hn _]%NoDup_cons. cbn. apply delete_insert_id. by apply not_elem_of_list_to_map.
Qed.

Lemma size_list_to_map (q : fifo) :
  NoDup q.*1 → size (list_to_map q : gmap Z DedupeEntry) = length q.
Proof.
  induction q as [|[h en] q IH]; cbn; [by rewrite map_size_empty|].
  intros [Hn Hq]%NoDup_cons. rewrite map_size_insert_None, IH; [done|done|].
  by apply not_elem_of_list_to_map.
Qed.

Definition order_of (q : fifo) : list (Z * Z) :=
  (λ x : Z * DedupeEntry, (x.1, first_seen_ms x.2)) <$> q.

Lemma evict_loop_spec cutoff (q : fifo) :
  NoDup q.*1 →
  evict_loop cutoff (list_to_map q) (order_of q)
  = (list_to_map (q_evict cutoff q), order_of (q_evict cutoff q)).
Proof.
  induction q as [|[h en] q IH]; [done|]. intros Hnd.
  change (order_of ((h, en) :: q)) with ((h, first_seen_ms en) :: order_of q).
  cbn [evict_loop q_evict]. destruct (cutoff <=? first_seen_ms en); [done|].
  rewrite delete_head by done. apply IH. by apply NoDup_cons in Hnd as [_ ?].
Qed.

Lemma capacity_loop_spec cap (q : fifo) :
  NoDup q.*1 →
  capacity_loop cap (list_to_map q) (order_of q)
  = (list_to_map (drop (length q - cap) q), order_of (drop (length q - cap) q)).
Proof.
  induction q as [|[h en] q IH]; intros Hnd.
  - cbn. by rewrite map_size_empty, drop_nil.
  - change (order_of ((h, en) :: q)) with ((h, first_seen_ms en) :: order_of q).
    cbn [capacity_loop]. rewrite size_list_to_map by done.
    destruct (Nat.ltb_spec cap (length ((h, en) :: q))) as [Hlt|Hge].
    + rewrite delete_head by done. rewrite IH by (by apply NoDup_cons in Hnd as [_ ?]).
      cbn [length] in *. by replace (S (length q) - cap)%nat with (S (length q - cap)) by lia.
    + by replace (length ((h, en) :: q) - cap)%nat with 0%nat by lia.
Qed.

Lemma q_evict_suffix cutoff q : ∃ n, q_evict cutoff q = drop n q ∧ (n ≤ length q)%nat
  ∧ Forall (λ x : Z * DedupeEntry, first_seen_ms x.2 < cutoff) (take n q).
Proof.
  induction q as [|[h en] q (n & E & Hn & Hf)]; [exists 0%nat; done|]. cbn.
  destruct (Z.leb_spec cutoff (first_seen_ms en)); [exists 0%nat; split; [done|]; split; [lia|constructor]|].
  exists (S n). split; [done|]. split; [lia|]. by constructor.
Qed.

Lemma NoDup_fst_drop n (q : fifo) : NoDup q.*1 → NoDup (drop n q).*1.
Proof. rewrite fmap_drop. intros H. eapply sublist_NoDup; [exact H|apply sublist_drop]. Qed.

Lemma q_evict_NoDup cutoff q : NoDup q.*1 → NoDup (q_evict cutoff q).*1.
Proof. destruct (q_evict_suffix cutoff q) as (n & -> & _). apply NoDup_fst_drop. Qed.

Lemma evict_expired_repr now d q :
  repr d q → repr (evict_expired now d) (q_evict (now - hd_ttl_ms d) q).
Proof.
  intros (Hnd & Hc & Ho). unfold evict_expired. rewrite Hc, Ho.
  fold (order_of q). rewrite evict_loop_spec by done.
  split; [by apply q_evict_NoDup|]. done.
Qed.

Lemma evict_expired_params now d :
  hd_max_capacity (evict_expired now d) = hd_max_capacity d
  ∧ hd_ttl_ms (evict_expired now d) = hd_ttl_ms d.
Proof. unfold evict_expired. by destruct (evict_loop _ _ _). Qed.

Lemma NoDup_snoc_fst (q : fifo) h en : NoDup q.*1 → h ∉ q.*1 → NoDup (q ++ [(h, en)]).*1.
Proof.
  intros Hq Hh. rewrite fmap_app. apply NoDup_app. split; [done|]. split; [|apply NoDup_singleton].
  intros x Hx ->%list_elem_of_singleton. done.
Qed.

Lemma commit_repr now_evict now h p d q :
  repr d q →
  repr (commit now_evict now h p d) (q_commit (hd_max_capacity d) (hd_ttl_ms d) now_evict now h p q).
Proof.
  intros Hr. apply (evict_expired_repr now_evict) in Hr. unfold commit, q_commit.
  destruct (evict_expired_params now_evict d) as [Ecap Ettl]. rewrite Ecap, Ettl.
  set (d' := evict_expired now_evict d) in *. set (q' := q_evict (now_evict - hd_ttl_ms d) q) in *.
  rewrite (bool_decide_ext _ _ (repr_lookup d' q' h Hr)).
  case_bool_decide as Hin; [done|]. destruct Hr as (Hnd & Hc & Ho). rewrite Hc, Ho.
  rewrite <- list_to_map_snoc by done. fold (order_of q').
  change (order_of q' ++ [(h, now)]) with (order_of q' ++ order_of [(h, MkDedupeEntry p now)]).
  unfold order_of. rewrite <- fmap_app. fold (order_of (q' ++ [(h, MkDedupeEntry p now)])).
  assert (NoDup (q' ++ [(h, MkDedupeEntry p now)]).*1) by by apply NoDup_snoc_fst.
  rewrite capacity_loop_spec by done. split; [by apply NoDup_fst_drop|]. done.
Qed.

Lemma commit_params now_evict now h p d :
  hd_max_capacity (commit now_evict now h p d) = hd_max_capacity d
  ∧ hd_ttl_ms (commit now_evict now h p d) = hd_ttl_ms d.
Proof.
  unfold commit. destruct (evict_expired_params now_evict d) as [<- <-].
  case_bool_decide; [done|]. by destruct (capacity_loop _ _ _).
Qed.

Lemma insert_known_repr h p seen d q :
  repr d q → repr (insert_known h p seen d) (q_insert_known h p seen q).
Proof.
  intros Hr. unfold insert_known, q_insert_known.
  rewrite (bool_decide_ext _ _ (repr_lookup d q h Hr)). case_bool_decide as Hin; [done|].
  destruct Hr as (Hnd & Hc & Ho). split; [by apply NoDup_snoc_fst|]. cbn.
  rewrite Hc, Ho, list_to_map_snoc, fmap_app by done. done.
Qed.

Lemma new_repr cap : repr (new cap) [].
Proof. split; [constructor|done]. Qed.

Lemma classify_repr d q h p :
  repr d q →
  classify d h p
  = match (list_to_map q : gmap Z DedupeEntry) !! h with
    | Some en => if payload_hash en =? p then ExactDuplicate else PayloadConflict
    | None => NewEvent
    end.
Proof. intros (_ & E & _). unfold classify. by rewrite E. Qed.

(** ** A run of the cache *)
Inductive op :=
| OpCommit (now_evict now h p : Z)
| OpKnown (h p seen : Z).

Definition apply_op (d : HotDedupe) (o : op) : HotDedupe :=
  match o with
  | OpCommit now_evict now h p => commit now_evict now h p d
  | OpKnown h p seen => insert_known h p seen d
  end.

Definition q_op (cap : nat) (ttl : Z) (q : fifo) (o : op) : fifo :=
  match o with
  | OpCommit now_evict now h p => q_commit cap ttl now_evict now h p q
  | OpKnown h p seen => q_insert_known h p seen q
  end.

Definition run (d : HotDedupe) (ops : list op) : HotDedupe := foldl apply_op d ops.
Definition q_run (cap : nat) (ttl : Z) (q : fifo) (ops : list op) : fifo := foldl (q_op cap ttl) q ops.

Lemma apply_op_repr d q o :
  repr d q → repr (apply_op d o) (q_op (hd_max_capacity d) (hd_ttl_ms d) q o).
Proof. destruct o; [apply commit_repr|apply insert_known_repr]. Qed.

Lemma apply_op_params d o :
  hd_max_capacity (apply_op d o) = hd_max_capacity d ∧ hd_ttl_ms (apply_op d o) = hd_ttl_ms d.
Proof.
  destruct o; [apply commit_params|]. cbn. unfold insert_known. by case_bool_decide.
Qed.

Lemma run_repr_gen d q ops :
  repr d q → repr (run d ops) (q_run (hd_max_capacity d) (hd_ttl_ms d) q ops).
Proof.
  revert d q. induction ops as [|o ops IH]; intros d q Hr; [done|]. cbn.
  pose proof (apply_op_repr d q o Hr) as Ho. apply IH in Ho.
  destruct (apply_op_params d o) as [E1 E2]. by rewrite E1, E2 in Ho.
Qed.

(** *** An entry stays while it is fresh and capacity allows *)
Lemma q_evict_keep cutoff ql h en qr :
  cutoff ≤ first_seen_ms en →
  ∃ ql', q_evict cutoff (ql ++ (h, en) :: qr) = ql' ++ (h, en) :: qr.
Proof.
  intros Hc. induction ql as [|[h' en'] ql IH]; cbn.
  - exists []. apply Z.leb_le in Hc. by rewrite Hc.
  - destruct (cutoff <=? first_seen_ms en'); [by exists ((h', en') :: ql)|]. exact IH.
Qed.

(** The clock of an operation is at most [limit]. *)
Definition op_by (limit : Z) (o : op) : Prop :=
  match o with OpCommit now_evict _ _ _ => now_evict ≤ limit | OpKnown _ _ _ => True end.

Lemma drop_keep {A} n (ql qr : list A) x :
  (n ≤ length ql)%nat → drop n (ql ++ x :: qr) = drop n ql ++ x :: qr.
Proof. intros H. by rewrite drop_app_le. Qed.

Lemma q_op_keep cap ttl o ql h en qr :
  op_by (first_seen_ms en + ttl) o → (S (length qr) < cap)%nat →
  ∃ ql' qr', q_op cap ttl (ql ++ (h, en) :: qr) o = ql' ++ (h, en) :: qr'
             ∧ (length qr' ≤ S (length qr))%nat.
Proof.
  intros Hby Hcap. destruct o as [ne now h' p'|h' p' seen]; cbn in *.
  - unfold q_commit. destruct (q_evict_keep (ne - ttl) ql h en qr) as [ql' ->]; [lia|].
    case_bool_decide; [exists ql', qr; split; [done|lia]|].
    rewrite <- app_assoc, <- app_comm_cons, drop_keep.
    + eexists _, _. split; [done|]. rewrite length_app. cbn. lia.
    + rewrite length_app. cbn. rewrite length_app. cbn. lia.
  - unfold q_insert_known. case_bool_decide; [exists ql, qr; split; [done|lia]|].
    rewrite <- app_assoc, <- app_comm_cons. eexists _, _. split; [done|]. rewrite length_app. cbn. lia.
Qed.

Lemma q_run_keep cap ttl ops ql h en qr :
  Forall (op_by (first_seen_ms en + ttl)) ops → (length qr + length ops < cap)%nat →
  ∃ ql' qr', q_run cap ttl (ql ++ (h, en) :: qr) ops = ql' ++ (h, en) :: qr'.
Proof.
  revert ql qr. induction ops as [|o ops IH]; intros ql qr Hf Hl; [by exists ql, qr|].
  apply Forall_cons in Hf as [Ho Hf]. cbn [length] in Hl. cbn.
  destruct (q_op_keep cap ttl o ql h en qr) as (ql' & qr' & -> & ?); [done|lia|].
  apply IH; [done|lia].
Qed.

Lemma lookup_mid (ql qr : fifo) h en :
  NoDup (ql ++ (h, en) :: qr).*1 → (list_to_map (ql ++ (h, en) :: qr) : gmap Z DedupeEntry) !! h = Some en.
Proof. intros H. apply elem_of_list_to_map_1; [done|]. set_solver. Qed.

Lemma q_commit_last cap ttl now_evict now h p q :
  (h ∉ q.*1) → (0 < cap)%nat →
  ∃ ql, q_commit cap ttl now_evict now h p q = ql ++ [(h, MkDedupeEntry p now)].
Proof.
  intros El Hcap. unfold q_commit. rewrite bool_decide_false.
  - rewrite drop_keep; [eauto|]. rewrite length_app. cbn. lia.
  - destruct (q_evict_suffix (now_evict - ttl) q) as (n & -> & _).
    rewrite fmap_drop. intros Hin. apply El. eapply subseteq_drop, Hin.
Qed.

Lemma commit_new_last now_evict now h p d q :
  repr d q → (0 < hd_max_capacity d)%nat → classify d h p = NewEvent →
  ∃ ql, q_commit (hd_max_capacity d) (hd_ttl_ms d) now_evict now h p q
        = ql ++ [(h, MkDedupeEntry p now)].
Proof.
  intros Hr Hcap Hnew. rewrite (classify_repr d q) in Hnew by done.
  destruct (list_to_map q !! h) as [en|] eqn:El; [by destruct (payload_hash en =? p)|].
  apply not_elem_of_list_to_map in El. by apply q_commit_last.
Qed.

(** ** What the cache promises *)

(** C21: whatever sequence of commits and recovery insertions is run, the hash
    map and the insertion queue of the cache stay in step: together they are
    exactly the abstract queue, and [classify] answers from it. *)
Theorem dedupe_refines_fifo (cap : nat) (ops : list op) :
  repr (run (new cap) ops) (q_run cap DEFAULT_TTL_MS [] ops)
  ∧ ∀ h p,
      classify (run (new cap) ops) h p
      = match (list_to_map (q_run cap DEFAULT_TTL_MS [] ops) : gmap Z DedupeEntry) !! h with
        | Some en => if payload_hash en =? p then ExactDuplicate else PayloadConflict
        | None => NewEvent
        end.
Proof.
  pose proof (run_repr_gen (new cap) [] ops (new_repr cap)) as Hr. cbn in Hr.
  split; [exact Hr|]. intros h p. by apply classify_repr.
Qed.

(** An identity committed as new is remembered: as long as fewer than
    [max_capacity] further operations follow and none reads a clock later than
    the TTL allows, a resubmission is an exact duplicate when the payload is
    the same and a conflict when it differs. *)
Theorem dedupe_remembers (d : HotDedupe) (q : fifo) (ops : list op) (now_evict now h p p' : Z) :
  repr d q →
  classify d h p = NewEvent →
  (length ops < hd_max_capacity d)%nat →
  Forall (op_by (now + hd_ttl_ms d)) ops →
  classify (run (commit now_evict now h p d) ops) h p'
  = if p =? p' then ExactDuplicate else PayloadConflict.
Proof.
  intros Hr Hnew Hl Hf. pose proof (commit_repr now_evict now h p d q Hr) as Hr1.
  destruct (commit_params now_evict now h p d) as [Ec Et].
  destruct (commit_new_last now_evict now h p d q) as [ql Eq]; [done|lia|done|].
  rewrite Eq in Hr1. pose proof (run_repr_gen _ _ ops Hr1) as Hr2. rewrite Ec, Et in Hr2.
  destruct (q_run_keep (hd_max_capacity d) (hd_ttl_ms d) ops ql h (MkDedupeEntry p now) [])
    as (ql' & qr' & E); [done|cbn; lia|]. rewrite E in Hr2.
  rewrite (classify_repr _ _ h p' Hr2), lookup_mid; [done|]. by destruct Hr2.
Qed.

Lemma dedupe_remembers_witness :
  classify (run (commit 1000 1000 7 70 (new 2)) [OpCommit 2000 2000 8 80]) 7 70 = ExactDuplicate
  ∧ classify (run (commit 1000 1000 7 70 (new 2)) [OpCommit 2000 2000 8 80]) 7 71 = PayloadConflict.
Proof.
  split.
  - apply (dedupe_remembers (new 2) [] [OpCommit 2000 2000 8 80] 1000 1000 7 70 70);
      [apply new_repr|reflexivity|cbn; lia|repeat constructor; vm_compute; discriminate].
  - apply (dedupe_remembers (new 2) [] [OpCommit 2000 2000 8 80] 1000 1000 7 70 71);
      [apply new_repr|reflexivity|cbn; lia|repeat constructor; vm_compute; discriminate].
Defined.

(** A commit of a new identity leaves at most [max_capacity] entries,
    however many recovery inserted, drops only the oldest entries of the
    queue, and keeps everything else in order. *)
Theorem commit_bounded (d : HotDedupe) (q : fifo) (now_evict now h p : Z) :
  repr d q → classify d h p = NewEvent →
  (len (commit now_evict now h p d) ≤ hd_max_capacity d)%nat
  ∧ ∃ n, repr (commit now_evict now h p d) (drop n (q ++ [(h, MkDedupeEntry p now)])).
Proof.
  intros Hr Hnew. pose proof (commit_repr now_evict now h p d q Hr) as Hr1.
  rewrite (classify_repr d q) in Hnew by done.
  destruct (list_to_map q !! h) as [en|] eqn:El; [by destruct (payload_hash en =? p)|].
  apply not_elem_of_list_to_map in El.
  destruct (q_evict_suffix (now_evict - hd_ttl_ms d) q) as (n & E & Hn & _).
  unfold q_commit in Hr1. rewrite E, bool_decide_false in Hr1.
  2:{ rewrite fmap_drop. intros Hin. eapply El, subseteq_drop, Hin. }
  split.
  - unfold len. destruct Hr1 as (Hnd & -> & _). rewrite size_list_to_map by done.
    rewrite length_drop. lia.
  - rewrite <- drop_app_le, drop_drop in Hr1 by lia. eauto.
Qed.

Lemma commit_bounded_witness : (len (commit 5 5 3 30 (commit 4 4 2 20 (new 1))) ≤ 1)%nat.
Proof.
  apply (commit_bounded (commit 4 4 2 20 (new 1)) [(2, MkDedupeEntry 20 4)] 5 5 3 30);
    [|reflexivity].
  split; [apply NoDup_singleton|]. split; reflexivity.
Defined.

(** The queue is not monotone in time, unlike the comment on
    [evict_expired] says: recovery inserts entries in replay order, so an
    entry past its TTL survives eviction behind a fresh one. *)
Theorem stale_entry_survives_eviction :
  let d := evict_expired 2000000000 (run (new 10) [OpKnown 1 10 1999999999; OpKnown 2 20 0]) in
  ¬ StronglySorted Z.le (hd_order d).*2
  ∧ classify d 2 20 = ExactDuplicate ∧ 0 < 2000000000 - hd_ttl_ms d.
Proof.
  split_and!; [|reflexivity|reflexivity].
  intros H. vm_compute in H. apply StronglySorted_inv in H as [_ H].
  apply Forall_inv in H. by apply H.
Qed.
End Hot.
