(* ===== verification/Wal.v ===== *)
(** * The write-ahead log

    [src/ingest/wal.rs]: numbered append-only files of one JSON document per
    line, written through an 8 KiB [BufWriter].

    The directory is a map from file names to the bytes the kernel holds,
    beside the length of each file that [sync_data] has made durable; bytes
    still in the [BufWriter] are part of the process state.  A [budget] bounds
    the bytes the kernel accepts during one call ([None]: no failure), so that
    a short write, and what it leaves behind, is an input of the model.  File
    ids are exact: wrapping one takes 2^64 rotations. *)

From Stdlib Require Import Ascii.
From stdpp Require Import sorting numbers strings base gmap list.
From S2P Require Import Prelude Model Instances.

Record WalFs := MkWalFs {
  wf_files : gmap string bytes;
  wf_synced : gmap string nat;
}.

Record Wal := MkWal {
  active_id : Z;
  wal_file : string;
  wal_buf : bytes;
}.

Inductive io_error := IoInvalidData | IoWrite | IoSync | IoOpen.

Definition budget : Type := option nat.

Module WalOps.
Definition wal_filename (id : Z) : string := "wal-" +:+ pad_zero 6 id +:+ ".log".

Definition parse_wal_id (name : string) : option Z :=
  stem ← str_strip_suffix ".log" name;
  num ← str_strip_prefix "wal-" stem;
  parse_unsigned u64_max num.

Arguments parse_wal_id : simpl never.
Arguments wal_filename : simpl never.

(** ** The directory *)
Definition file_bytes (fs : WalFs) (name : string) : bytes := default [] (wf_files fs !! name).

(** [OpenOptions::new().create(true).append(true).open]: existing bytes are kept. *)
Definition open_append (fs : WalFs) (name : string) : WalFs :=
  MkWalFs (<[name := file_bytes fs name]> (wf_files fs)) (wf_synced fs).

Definition kernel_append (fs : WalFs) (name : string) (data : bytes) : WalFs :=
  MkWalFs (<[name := file_bytes fs name ++ data]> (wf_files fs)) (wf_synced fs).

(** [File::write_all]: what fits the budget is written, then the call fails. *)
Definition file_write_all (bud : budget) (fs : WalFs) (name : string) (data : bytes)
    : budget * WalFs * outcome io_error nat :=
  match bud with
  | None => (None, kernel_append fs name data, Ok (length data))
  | Some k =>
      if (length data <=? k)%nat then (Some (k - length data)%nat, kernel_append fs name data, Ok (length data))
      else (Some 0%nat, kernel_append fs name (take k data), Err IoWrite)
  end.

(** ** [std::io::BufWriter] *)
Definition BUF_CAPACITY : nat := 8 * 1024.

Definition set_buf (w : Wal) (buf : bytes) : Wal := MkWal (active_id w) (wal_file w) buf.

(** [flush_buf]: on failure the unwritten tail stays in the buffer. *)
Definition flush_buf (bud : budget) (fs : WalFs) (w : Wal) : budget * WalFs * Wal * outcome io_error unit :=
  match file_write_all bud fs (wal_file w) (wal_buf w) with
  | (bud', fs', Ok _) => (bud', fs', set_buf w [], Ok tt)
  | (bud', fs', _) => (bud', fs', set_buf w (drop (default 0%nat bud) (wal_buf w)), Err IoWrite)
  end.

Definition spare_capacity (w : Wal) : nat := BUF_CAPACITY - length (wal_buf w).

Definition write_all (bud : budget) (fs : WalFs) (w : Wal) (data : bytes)
    : budget * WalFs * Wal * outcome io_error unit :=
  if (length data <? spare_capacity w)%nat then (bud, fs, set_buf w (wal_buf w ++ data), Ok tt)
  else
    let '(bud, fs, w, res) :=
      if (spare_capacity w <? length data)%nat then flush_buf bud fs w else (bud, fs, w, Ok tt) in
    match res with
    | Ok _ =>
        if (BUF_CAPACITY <=? length data)%nat then
          match file_write_all bud fs (wal_file w) data with
          | (bud, fs, Ok _) => (bud, fs, w, Ok tt)
          | (bud, fs, _) => (bud, fs, w, Err IoWrite)
          end
        else (bud, fs, set_buf w (wal_buf w ++ data), Ok tt)
    | _ => (bud, fs, w, Err IoWrite)
    end.

Section json.
Context {SJ : SerdeJson}.

(** [writeln!(self.file, "{}", json)] is two writes. *)
Definition write_line (bud : budget) (fs : WalFs) (w : Wal) (json : bytes)
    : budget * WalFs * Wal * outcome io_error unit :=
  match write_all bud fs w json with
  | (bud, fs, w, Ok _) => write_all bud fs w [10]
  | r => r
  end.

Fixpoint append_batch (bud : budget) (fs : WalFs) (w : Wal) (events : list UsageEvent)
    : budget * WalFs * Wal * outcome io_error unit :=
  match events with
  | [] => (bud, fs, w, Ok tt)
  | event :: events =>
      match json_to event with
      | None => (bud, fs, w, Err IoInvalidData)
      | Some json =>
          match write_line bud fs w json with
          | (bud, fs, w, Ok _) => append_batch bud fs w events
          | r => r
          end
      end
  end.

Definition mark_synced (fs : WalFs) (name : string) : WalFs :=
  MkWalFs (wf_files fs) (<[name := length (file_bytes fs name)]> (wf_synced fs)).

(** [sync]; [fsync_ok] is the outcome of [sync_data]. *)
Definition sync (bud : budget) (fsync_ok : bool) (fs : WalFs) (w : Wal)
    : WalFs * Wal * outcome io_error unit :=
  match flush_buf bud fs w with
  | (_, fs, w, Ok _) =>
      if fsync_ok then (mark_synced fs (wal_file w), w, Ok tt) else (fs, w, Err IoSync)
  | (_, fs, w, _) => (fs, w, Err IoWrite)
  end.

Definition flush_buffer (bud : budget) (fs : WalFs) (w : Wal) : WalFs * Wal * outcome io_error unit :=
  let '(_, fs, w, r) := flush_buf bud fs w in (fs, w, r).

(** [rotate]: a failure to open the next file comes after [active_id] has
    been advanced. *)
Definition rotate (bud : budget) (fsync_ok open_ok : bool) (fs : WalFs) (w : Wal)
    : WalFs * Wal * outcome io_error Z :=
  match sync bud fsync_ok fs w with
  | (fs, w, Ok _) =>
      let sealed_id := active_id w in
      let w := MkWal (active_id w + 1) (wal_file w) (wal_buf w) in
      if open_ok then
        let new_path := wal_filename (active_id w) in
        (open_append fs new_path, MkWal (active_id w) new_path [], Ok sealed_id)
      else (fs, w, Err IoOpen)
  | (fs, w, Err e) => (fs, w, Err e)
  | (fs, w, Panic) => (fs, w, Panic)
  end.

(** ** Directory scans *)
Definition names (fs : WalFs) : list string := (map_to_list (wf_files fs)).*1.

Definition wal_ids (fs : WalFs) : list Z := omap parse_wal_id (names fs).

(** [open]. *)
Definition highest_unsealed (fs : WalFs) (last_sealed_id : Z) : option Z :=
  foldl (λ acc id, if last_sealed_id <? id then Some (from_option (Z.max id) id acc) else acc)
    None (wal_ids fs).

Definition open (fs : WalFs) (last_sealed_id : Z) : WalFs * Wal :=
  let id := default (last_sealed_id + 1) (highest_unsealed fs last_sealed_id) in
  (open_append fs (wal_filename id), MkWal id (wal_filename id) []).

Definition list_files_after (fs : WalFs) (last_sealed_id : Z) : list Z :=
  sort_by Z.compare (filter (λ id, last_sealed_id < id) (wal_ids fs)).

Definition id_through (up_to_id : Z) (name : string) : bool :=
  match parse_wal_id name with Some id => id <=? up_to_id | None => false end.

Definition delete_files_through (fs : WalFs) (up_to_id : Z) : WalFs :=
  MkWalFs
    (filter (λ kv : string * bytes, id_through up_to_id kv.1 = false) (wf_files fs))
    (filter (λ kv : string * nat, id_through up_to_id kv.1 = false) (wf_synced fs)).

(** ** Replay *)

(** [BufRead::lines]: a final line needs no terminator; ["\r\n"] is one. *)
Definition chomp_cr (rev_line : bytes) : bytes :=
  match rev_line with
  | b :: l => if b =? 13 then reverse l else reverse rev_line
  | [] => []
  end.

Fixpoint lines_from (rev_line : bytes) (l : bytes) : list bytes :=
  match l with
  | [] => match rev_line with [] => [] | _ => [reverse rev_line] end
  | b :: l =>
      if b =? 10 then chomp_cr rev_line :: lines_from [] l
      else lines_from (b :: rev_line) l
  end.

Definition lines (l : bytes) : list bytes := lines_from [] l.

(** [line.trim().is_empty()]. *)
Definition blank (l : bytes) : bool := bool_decide (trim l = []).

(** One turn of the replay loop: an undecodable line is skipped. *)
Definition replay_line (line : bytes) : option UsageEvent :=
  if utf8_valid line then if blank line then None else json_from line else None.

Definition replay_bytes (content : bytes) : list UsageEvent := omap replay_line (lines content).

Definition replay_file (fs : WalFs) (id : Z) : list UsageEvent :=
  match wf_files fs !! wal_filename id with
  | None => []
  | Some content => replay_bytes content
  end.

(** ** Crashes

    A crash of the process drops the [BufWriter]; a power failure also cuts
    each file to some length not below the synced one.  A file that was synced
    is taken to keep its directory entry, which [rotate] sees to by syncing the
    directory and [open] does not. *)
Definition crash_keeps (fs : WalFs) (fs' : WalFs) : Prop :=
  ∀ name, match wf_files fs !! name, wf_files fs' !! name with
          | Some content, Some content' =>
              ∃ n, content' = take n content
                   ∧ (default 0%nat (wf_synced fs !! name) ≤ n)%nat
          | Some _, None => wf_synced fs !! name = None
          | None, None => True
          | None, Some _ => False
          end.

(** The bytes a batch becomes. *)
Fixpoint encode_lines (events : list UsageEvent) : option bytes :=
  match events with
  | [] => Some []
  | e :: events => j ← json_to e; rest ← encode_lines events; Some (j ++ 10 :: rest)
  end.

(** What the file will hold once the buffer has drained. *)
Definition logical (fs : WalFs) (w : Wal) : bytes := file_bytes fs (wal_file w) ++ wal_buf w.

(** ** Lemmas: names *)
Lemma parse_wal_filename id : 0 ≤ id ≤ u64_max → parse_wal_id (wal_filename id) = Some id.
Proof.
  intros Hid. unfold parse_wal_id, wal_filename.
  assert ("wal-" +:+ pad_zero 6 id +:+ ".log" = ("wal-" +:+ pad_zero 6 id) +:+ ".log") as ->.
  { apply str_app_assoc. }
  rewrite str_strip_suffix_app. cbn [mbind option_bind].
  rewrite str_strip_prefix_app. cbn [mbind option_bind]. by apply parse_pad_zero.
Qed.

Lemma wal_filename_inj i j :
  0 ≤ i ≤ u64_max → 0 ≤ j ≤ u64_max → wal_filename i = wal_filename j → i = j.
Proof.
  intros Hi Hj E. apply (f_equal parse_wal_id) in E. rewrite !parse_wal_filename in E by done.
  congruence.
Qed.

(** ** Lemmas: writing *)
Lemma file_bytes_append fs name data name' :
  file_bytes (kernel_append fs name data) name'
  = if decide (name' = name) then file_bytes fs name ++ data else file_bytes fs name'.
Proof.
  unfold file_bytes, kernel_append. cbn. case_decide as Hn.
  - subst. by rewrite lookup_insert_eq.
  - by rewrite lookup_insert_ne.
Qed.

(** What the writing operations leave alone. *)
Definition same_elsewhere (name : string) (fs fs' : WalFs) : Prop :=
  wf_synced fs' = wf_synced fs
  ∧ (∀ n, n ≠ name → wf_files fs' !! n = wf_files fs !! n)
  ∧ (is_Some (wf_files fs !! name) → is_Some (wf_files fs' !! name))
  ∧ file_bytes fs name `prefix_of` file_bytes fs' name.

Lemma same_elsewhere_refl name fs : same_elsewhere name fs fs.
Proof. repeat (split; [done|]). done. Qed.

Lemma same_elsewhere_trans name fs1 fs2 fs3 :
  same_elsewhere name fs1 fs2 → same_elsewhere name fs2 fs3 → same_elsewhere name fs1 fs3.
Proof.
  intros (E1 & F1 & G1 & P1) (E2 & F2 & G2 & P2). split; [congruence|]. split; [|split; [by auto|by etrans]].
  intros n Hn. by rewrite F2, F1.
Qed.

Lemma same_elsewhere_append fs name data : same_elsewhere name fs (kernel_append fs name data).
Proof.
  split; [done|]. split; [|split]; cbn.
  - intros n Hn. by rewrite lookup_insert_ne.
  - intros _. rewrite lookup_insert_eq. eauto.
  - rewrite file_bytes_append, decide_True by done. by apply prefix_app_r.
Qed.

(** A write that does not fail extends the logical contents by its data. *)
Definition wrote (fs : WalFs) (w : Wal) (data : bytes) (fs' : WalFs) (w' : Wal) : Prop :=
  logical fs' w' = logical fs w ++ data
  ∧ wal_file w' = wal_file w ∧ active_id w' = active_id w
  ∧ same_elsewhere (wal_file w) fs fs'.

Lemma wrote_trans fs w d1 fs1 w1 d2 fs2 w2 :
  wrote fs w d1 fs1 w1 → wrote fs1 w1 d2 fs2 w2 → wrote fs w (d1 ++ d2) fs2 w2.
Proof.
  intros (L1 & F1 & A1 & S1) (L2 & F2 & A2 & S2). rewrite F1 in S2.
  split; [by rewrite L2, L1, app_assoc|]. split; [congruence|]. split; [congruence|].
  by eapply same_elsewhere_trans.
Qed.

Lemma flush_buf_ok fs w :
  ∃ fs', flush_buf None fs w = (None, fs', set_buf w [], Ok tt)
         ∧ wrote fs w [] fs' (set_buf w []) ∧ file_bytes fs' (wal_file w) = logical fs w.
Proof.
  eexists. split; [reflexivity|].
  assert (file_bytes (kernel_append fs (wal_file w) (wal_buf w)) (wal_file w) = logical fs w) as E.
  { rewrite file_bytes_append. by rewrite decide_True. }
  split; [|exact E]. unfold wrote, logical at 1. cbn [set_buf wal_file wal_buf active_id].
  rewrite E. split; [done|]. split; [done|]. split; [done|apply same_elsewhere_append].
Qed.

Lemma push_ok fs w data : wrote fs w data fs (set_buf w (wal_buf w ++ data)).
Proof.
  unfold wrote, logical. cbn. rewrite app_assoc. repeat (split; [done|]). apply same_elsewhere_refl.
Qed.

Lemma direct_ok fs w data :
  wal_buf w = [] → wrote fs w data (kernel_append fs (wal_file w) data) w.
Proof.
  intros Hb. unfold wrote, logical. rewrite Hb, !app_nil_r, file_bytes_append, decide_True by done.
  repeat (split; [done|]). apply same_elsewhere_append.
Qed.

Lemma write_all_ok fs w data :
  ∃ fs' w', write_all None fs w data = (None, fs', w', Ok tt) ∧ wrote fs w data fs' w'.
Proof.
  unfold write_all. destruct (Nat.ltb_spec (length data) (spare_capacity w)).
  { eexists _, _. split; [reflexivity|apply push_ok]. }
  destruct (Nat.ltb_spec (spare_capacity w) (length data)) as [Hlt|Hge].
  - destruct (flush_buf_ok fs w) as (fs1 & -> & W1 & _).
    destruct (Nat.leb_spec BUF_CAPACITY (length data)); cbn [file_write_all].
    + eexists _, _. split; [reflexivity|].
      apply (wrote_trans _ _ [] _ _ data _ _ W1). by apply direct_ok.
    + eexists _, _. split; [reflexivity|].
      apply (wrote_trans _ _ [] _ _ data _ _ W1). apply push_ok.
  - destruct (Nat.leb_spec BUF_CAPACITY (length data)) as [Hc|]; cbn [file_write_all].
    + eexists _, _. split; [reflexivity|]. apply direct_ok.
      unfold spare_capacity in *. destruct (wal_buf w); [done|]. cbn [length] in *.
      assert (0 < BUF_CAPACITY)%nat by (apply Nat.ltb_lt; reflexivity). lia.
    + eexists _, _. split; [reflexivity|apply push_ok].
Qed.

Lemma append_batch_ok fs w events data :
  encode_lines events = Some data →
  ∃ fs' w', append_batch None fs w events = (None, fs', w', Ok tt) ∧ wrote fs w data fs' w'.
Proof.
  revert fs w data. induction events as [|e events IH]; intros fs w data; cbn.
  { intros [= <-]. eexists _, _. split; [reflexivity|]. unfold wrote. rewrite app_nil_r.
    repeat (split; [done|]). apply same_elsewhere_refl. }
  destruct (json_to e) as [j|]; [|done]. cbn.
  destruct (encode_lines events) as [rest|] eqn:E; [|done]. cbn. intros [= <-].
  unfold write_line. destruct (write_all_ok fs w j) as (fs1 & w1 & -> & W1).
  destruct (write_all_ok fs1 w1 [10]) as (fs2 & w2 & -> & W2).
  destruct (IH fs2 w2 rest eq_refl) as (fs3 & w3 & -> & W3).
  eexists _, _. split; [reflexivity|]. change (j ++ 10 :: rest) with (j ++ [10] ++ rest).
  eapply wrote_trans; [exact W1|]. by eapply wrote_trans.
Qed.

(** ** Lemmas: replay *)
Context {SJok : SerdeJsonOk}.

Lemma blank_brace l : blank (123 :: l) = false.
Proof.
  unfold blank, trim. change (trim_start (123 :: l)) with (123 :: l).
  apply bool_decide_false, trim_end_nonblank. refine (bool_decide_unpack _ _). by vm_compute.
Qed.

Lemma replay_line_json e j : event_wf e → json_to e = Some j → replay_line j = Some e.
Proof.
  intros Hwf Hj. destruct (json_line e j Hj) as (Hu & _ & _ & Hh). unfold replay_line.
  destruct j as [|b j]; [done|]. injection Hh as ->. rewrite Hu, blank_brace.
  by apply json_roundtrip.
Qed.

Lemma lines_from_line acc line rest :
  10 ∉ line → lines_from acc (line ++ 10 :: rest) = chomp_cr (reverse line ++ acc) :: lines rest.
Proof.
  revert acc. induction line as [|b line IH]; intros acc Hn; cbn [app lines_from]; [done|].
  apply not_elem_of_cons in Hn as [Hb Hn]. rewrite (proj2 (Z.eqb_neq b 10)) by lia.
  rewrite IH by done. by rewrite reverse_cons, <- app_assoc.
Qed.

Lemma lines_from_tail acc line :
  10 ∉ line → lines_from acc line = match reverse line ++ acc with [] => [] | l => [reverse l] end.
Proof.
  revert acc. induction line as [|b line IH]; intros acc Hn; cbn [lines_from]; [by destruct acc|].
  apply not_elem_of_cons in Hn as [Hb Hn]. rewrite (proj2 (Z.eqb_neq b 10)) by lia.
  rewrite IH by done. by rewrite reverse_cons, <- app_assoc.
Qed.

Lemma chomp_plain line : 13 ∉ line → chomp_cr (reverse line) = line.
Proof.
  intros Hn. unfold chomp_cr. destruct (reverse line) as [|b l] eqn:E.
  { apply (f_equal reverse) in E. by rewrite reverse_involutive in E. }
  rewrite (proj2 (Z.eqb_neq b 13)).
  - rewrite <- E. apply reverse_involutive.
  - intros ->. apply Hn. rewrite <- (reverse_involutive line), E, elem_of_reverse. set_solver.
Qed.

Lemma replay_bytes_json e j rest :
  event_wf e → json_to e = Some j → replay_bytes (j ++ 10 :: rest) = e :: replay_bytes rest.
Proof.
  intros Hwf Hj. destruct (json_line e j Hj) as (_ & H10 & H13 & _).
  unfold replay_bytes, lines at 1. rewrite lines_from_line, app_nil_r, chomp_plain by done.
  cbn. by rewrite (replay_line_json e).
Qed.

(** A document cut short, or complete but not terminated. *)
Lemma replay_bytes_cut e j n :
  json_to e = Some j → (n < length j)%nat → replay_bytes (take n j) = [].
Proof.
  intros Hj Hn. destruct (json_line e j Hj) as (_ & H10 & _ & _).
  unfold replay_bytes, lines. rewrite lines_from_tail by (intros Hin; eapply H10, subseteq_take, Hin).
  rewrite app_nil_r. destruct (reverse (take n j)) as [|b l] eqn:E; [done|].
  rewrite <- E, reverse_involutive. cbn. unfold replay_line.
  rewrite (json_cut e j n) by done. by destruct (utf8_valid (take n j)), (blank (take n j)).
Qed.

Lemma replay_bytes_unterminated e j :
  event_wf e → json_to e = Some j → replay_bytes j = [e].
Proof.
  intros Hwf Hj. destruct (json_line e j Hj) as (_ & H10 & _ & Hh).
  unfold replay_bytes, lines. rewrite lines_from_tail, app_nil_r by done.
  destruct (reverse j) as [|b l] eqn:E.
  { apply (f_equal reverse) in E. rewrite reverse_involutive in E. by subst. }
  rewrite <- E, reverse_involutive. cbn. by rewrite (replay_line_json e).
Qed.

Lemma replay_encode events data rest :
  Forall event_wf events → encode_lines events = Some data →
  replay_bytes (data ++ rest) = events ++ replay_bytes rest.
Proof.
  intros Hwf. revert data. induction Hwf as [|e events He Hwf IH]; intros data; cbn.
  { by intros [= <-]. }
  destruct (json_to e) as [j|] eqn:Hj; [|done]. cbn.
  destruct (encode_lines events) as [d|] eqn:Hd; [|done]. cbn. intros [= <-].
  rewrite <- app_assoc, <- app_comm_cons, (replay_bytes_json e) by done. by rewrite IH.
Qed.

(** A log cut at any byte replays to a prefix of its events: nothing is made
    up, nothing before the cut is lost. *)
Lemma replay_torn events data n :
  Forall event_wf events → encode_lines events = Some data →
  ∃ k, replay_bytes (take n data) = take k events.
Proof.
  intros Hwf. revert data n. induction Hwf as [|e events He Hwf IH]; intros data n; cbn.
  { intros [= <-]. exists 0%nat. by rewrite take_nil. }
  destruct (json_to e) as [j|] eqn:Hj; [|done]. cbn.
  destruct (encode_lines events) as [d|] eqn:Hd; [|done]. cbn. intros [= <-].
  destruct (lt_eq_lt_dec n (length j)) as [[Hlt| ->]|Hgt].
  - rewrite take_app_le by lia. exists 0%nat. by apply (replay_bytes_cut e).
  - rewrite take_app_length. exists 1%nat. rewrite (replay_bytes_unterminated e) by done. done.
  - rewrite take_app_ge by lia. destruct (n - length j)%nat as [|m] eqn:Em; [lia|].
    rewrite firstn_cons. rewrite (replay_bytes_json e) by done.
    destruct (IH d m eq_refl) as (k & Ek). exists (S k). cbn. by rewrite Ek.
Qed.

Lemma encode_lines_total events : ∃ data, encode_lines events = Some data.
Proof.
  induction events as [|e events [d IH]]; cbn; [eauto|].
  destruct (json_total e) as [j ->]. cbn. rewrite IH. cbn. eauto.
Qed.

Lemma encode_lines_app l1 l2 :
  encode_lines (l1 ++ l2) = (d1 ← encode_lines l1; d2 ← encode_lines l2; Some (d1 ++ d2)).
Proof.
  induction l1 as [|e l1 IH]; cbn; [by destruct (encode_lines l2)|].
  destruct (json_to e); cbn; [|done]. rewrite IH. destruct (encode_lines l1); cbn; [|done].
  destruct (encode_lines l2); cbn; [|done]. by rewrite <- app_assoc.
Qed.

(** ** The log of an open WAL *)

(** [events] are the events appended to the active file, in order. *)
Definition holds (fs : WalFs) (w : Wal) (events : list UsageEvent) : Prop :=
  wal_file w = wal_filename (active_id w)
  ∧ is_Some (wf_files fs !! wal_file w)
  ∧ Forall event_wf events
  ∧ encode_lines events = Some (logical fs w).

Lemma holds_append fs w es0 es :
  holds fs w es0 → Forall event_wf es →
  ∃ fs' w', append_batch None fs w es = (None, fs', w', Ok tt)
            ∧ holds fs' w' (es0 ++ es) ∧ wal_file w' = wal_file w ∧ active_id w' = active_id w
            ∧ same_elsewhere (wal_file w) fs fs'.
Proof.
  intros (Hf & Hs & Hwf & He) Hes. destruct (encode_lines_total es) as [d Hd].
  destruct (append_batch_ok fs w es d Hd) as (fs' & w' & E & L & F & A & S).
  exists fs', w'. split; [exact E|]. split; [|done].
  split; [congruence|]. split; [rewrite F; by apply S|]. split; [by apply Forall_app|].
  by rewrite encode_lines_app, He, Hd, L.
Qed.

Lemma holds_sync fs w es :
  holds fs w es →
  ∃ fs', sync None true fs w = (fs', set_buf w [], Ok tt) ∧ holds fs' (set_buf w []) es
         ∧ wf_files fs' !! wal_file w = Some (logical fs w)
         ∧ wf_synced fs' !! wal_file w = Some (length (logical fs w))
         ∧ (∀ n, n ≠ wal_file w → wf_files fs' !! n = wf_files fs !! n ∧ wf_synced fs' !! n = wf_synced fs !! n).
Proof.
  intros (Hf & Hs & Hwf & He). unfold sync.
  destruct (flush_buf_ok fs w) as (fs1 & -> & (L & _ & _ & S1 & S2 & S3 & _) & Efile).
  assert (wf_files fs1 !! wal_file w = Some (logical fs w)) as El.
  { destruct (S3 Hs) as [c Ec]. unfold file_bytes in Efile. rewrite Ec in Efile. cbn in Efile. congruence. }
  exists (mark_synced fs1 (wal_file w)). split; [done|]. cbn. split.
  { split; [done|]. split; [cbn; eauto|]. split; [done|]. rewrite He. f_equal.
    unfold logical at 2, file_bytes. cbn. rewrite El. cbn. by rewrite app_nil_r. }
  split; [done|]. split; [rewrite lookup_insert_eq, Efile; done|].
  intros n Hn. rewrite lookup_insert_ne by done. rewrite S1. auto.
Qed.

Lemma holds_replay_file fs w es :
  holds fs w es → wal_buf w = [] → replay_file fs (active_id w) = es.
Proof.
  intros (Hf & [c Hs] & Hwf & He) Hb. unfold replay_file. rewrite <- Hf, Hs.
  unfold logical, file_bytes in He. rewrite Hs, Hb, app_nil_r in He. cbn in He.
  rewrite <- (app_nil_r c), (replay_encode es) by done. by rewrite app_nil_r.
Qed.

(** The durable part of a log survives whatever follows it. *)
Lemma crash_replay fs w es0 es1 d0 fs' :
  holds fs w (es0 ++ es1) → encode_lines es0 = Some d0 →
  wf_synced fs !! wal_file w = Some (length d0) →
  (length d0 ≤ length (file_bytes fs (wal_file w)))%nat →
  crash_keeps fs fs' → ∃ k, replay_file fs' (active_id w) = es0 ++ take k es1.
Proof.
  intros (Hf & [c Hc] & Hwf & He) Hd0 Hsy Hlen Hcr.
  unfold logical, file_bytes in *. rewrite Hc in *. cbn [default from_option id] in *.
  pose proof (Hcr (wal_file w)) as Hk. rewrite Hc, Hsy in Hk.
  destruct (wf_files fs' !! wal_file w) as [c'|] eqn:Ec'; [|done].
  destruct Hk as (n & -> & Hn). cbn in Hn. unfold replay_file. rewrite <- Hf, Ec'. clear Hcr.
  rewrite encode_lines_app, Hd0 in He. cbn in He.
  destruct (encode_lines es1) as [d1|] eqn:Hd1; [|done]. cbn in He. injection He as He.
  apply Forall_app in Hwf as [Hwf0 Hwf1].
  assert (∃ m, take n c = d0 ++ take m d1) as [m ->].
  { exists (min n (length c) - length d0)%nat.
    assert (take n c = take (min n (length c)) (c ++ wal_buf w)) as ->.
    { rewrite take_app_le by lia. destruct (Nat.min_spec n (length c)) as [[? ->]|[? ->]]; [done|].
      rewrite !take_ge by lia. done. }
    rewrite <- He, take_app_ge by lia. done. }
  rewrite (replay_encode es0) by done. destruct (replay_torn es1 d1 m Hwf1 Hd1) as [k ->]. eauto.
Qed.

(** What [append_batch] and a successful [sync] have acknowledged survives
    a crash: after any later appends and any loss of unsynced bytes, replay
    returns every synced event, in order, followed by a prefix of the later
    ones; nothing else appears. *)
Theorem wal_synced_events_survive fs w es0 es1 es2 :
  holds fs w es0 → Forall event_wf es1 → Forall event_wf es2 →
  ∃ fs1 w1 fs2 w2 fs3 w3,
    append_batch None fs w es1 = (None, fs1, w1, Ok tt)
    ∧ sync None true fs1 w1 = (fs2, w2, Ok tt)
    ∧ append_batch None fs2 w2 es2 = (None, fs3, w3, Ok tt)
    ∧ ∀ fs', crash_keeps fs3 fs' →
        ∃ k, replay_file fs' (active_id w) = (es0 ++ es1) ++ take k es2.
Proof.
  intros H0 H1 H2.
  destruct (holds_append fs w es0 es1 H0 H1) as (fs1 & w1 & E1 & Hh1 & F1 & A1 & S1).
  destruct (holds_sync fs1 w1 _ Hh1) as (fs2 & E2 & Hh2 & G1 & G2 & _).
  destruct (holds_append fs2 _ _ es2 Hh2 H2) as (fs3 & w3 & E3 & Hh3 & F3 & A3 & S3).
  exists fs1, w1, fs2, (set_buf w1 []), fs3, w3. repeat (split; [done|]).
  intros fs' Hcr. cbn in A3. rewrite <- A1, <- A3.
  destruct Hh1 as (_ & _ & _ & He). eapply crash_replay; [done|exact He| | |done].
  - rewrite F3. cbn. destruct S3 as (-> & _). done.
  - rewrite F3. destruct S3 as (_ & _ & _ & P). apply prefix_length in P.
    cbn in P |- *. unfold file_bytes in P at 1. rewrite G1 in P. done.
Qed.

(** Rotation seals exactly what was appended: the sealed file replays to
    the events of the log, the next id is active with an empty log, and every
    other file is untouched. *)
Theorem rotate_seals fs w es :
  holds fs w es → 0 ≤ active_id w < u64_max →
  wf_files fs !! wal_filename (active_id w + 1) = None →
  ∃ fs' w', rotate None true true fs w = (fs', w', Ok (active_id w))
    ∧ active_id w' = active_id w + 1
    ∧ replay_file fs' (active_id w) = es
    ∧ holds fs' w' []
    ∧ ∀ n, n ≠ wal_file w → n ≠ wal_file w' → wf_files fs' !! n = wf_files fs !! n.
Proof.
  intros Hh Hid Hnew. destruct (holds_sync fs w es Hh) as (fs1 & E1 & Hh1 & G1 & G2 & G3).
  unfold rotate. rewrite E1. cbn [set_buf active_id wal_file wal_buf].
  assert (wal_filename (active_id w + 1) ≠ wal_file w) as Hne.
  { destruct Hh as [-> _]. intros E. apply wal_filename_inj in E; lia. }
  eexists _, _. split; [reflexivity|]. cbn [active_id wal_file]. split; [done|].
  destruct (G3 _ Hne) as [Hn1 _]. rewrite Hnew in Hn1. split; [|split].
  - rewrite <- (holds_replay_file fs1 (set_buf w []) es) by done. unfold replay_file.
    cbn. rewrite lookup_insert_ne; [done|]. destruct Hh as [<- _]. done.
  - split; [done|]. cbn. split; [rewrite lookup_insert_eq; eauto|]. split; [constructor|].
    unfold logical, open_append, file_bytes. cbn. by rewrite Hn1, lookup_insert_eq.
  - intros n Hn1' Hn2. cbn. rewrite lookup_insert_ne by done. by apply G3.
Qed.

(** *** Directory scans *)
Lemma elem_of_wal_ids fs id :
  id ∈ wal_ids fs ↔ ∃ name, is_Some (wf_files fs !! name) ∧ parse_wal_id name = Some id.
Proof.
  unfold wal_ids, names. rewrite list_elem_of_omap. split.
  - intros (name & (kv & -> & Hin)%list_elem_of_fmap & Hp). exists kv.1. split; [|done].
    destruct kv as [k v]. apply elem_of_map_to_list in Hin. eauto.
  - intros (name & [c Hc] & Hp). exists name. split; [|done].
    apply list_elem_of_fmap. exists (name, c). split; [done|]. by apply elem_of_map_to_list.
Qed.

Lemma elem_of_list_files_after fs last id :
  id ∈ list_files_after fs last ↔ last < id ∧ id ∈ wal_ids fs.
Proof.
  unfold list_files_after. rewrite (sort_by_perm Z.compare), list_elem_of_filter. done.
Qed.

Lemma highest_unsealed_fold last l acc :
  let r := foldl (λ acc id, if last <? id then Some (from_option (Z.max id) id acc) else acc) acc l in
  (∀ x, r = Some x → acc = Some x ∨ (x ∈ l ∧ last < x))
  ∧ (∀ y, (acc = Some y ∨ (y ∈ l ∧ last < y)) → ∃ x, r = Some x ∧ y ≤ x).
Proof.
  revert acc. induction l as [|z l IH]; intros acc; cbn.
  { split; [auto|]. intros y [->|[?%not_elem_of_nil _]]; [|done]. eauto using Z.le_refl. }
  destruct (IH (if last <? z then Some (from_option (Z.max z) z acc) else acc)) as [I1 I2]. split.
  - intros x Hx. destruct (I1 x Hx) as [E|[Hin Hl]]; [|right; set_solver].
    destruct (Z.ltb_spec last z); [|auto]. injection E as <-. destruct acc as [a|]; cbn.
    + destruct (Z.max_dec z a) as [->| ->]; [right; set_solver|auto].
    + right; set_solver.
  - intros y Hy. destruct (Z.ltb_spec last z) as [Hz|Hz].
    + destruct Hy as [->|[[->|Hin]%elem_of_cons Hl]].
      * destruct (I2 (Z.max z y)) as (x & ? & ?); [auto|]. exists x. split; [done|lia].
      * destruct (I2 (from_option (Z.max z) z acc)) as (x & ? & ?); [auto|].
        exists x. split; [done|]. destruct acc; cbn in *; lia.
      * apply I2. auto.
    + apply I2. destruct Hy as [->|[[->|Hin]%elem_of_cons Hl]]; [auto|lia|auto].
Qed.

Lemma open_spec fs last :
  0 ≤ last < u64_max →
  let '(fs', w) := open fs last in
  last < active_id w
  ∧ (∀ id, id ∈ list_files_after fs last → id ≤ active_id w)
  ∧ (active_id w ∈ list_files_after fs last ∨ list_files_after fs last = [] ∧ active_id w = last + 1)
  ∧ (active_id w ≤ u64_max → active_id w ∈ list_files_after fs' last)
  ∧ ∀ id, replay_file fs' id = replay_file fs id.
Proof.
  intros Hlast. unfold open.
  destruct (highest_unsealed_fold last (wal_ids fs) None) as [I1 I2].
  fold (highest_unsealed fs last) in I1, I2. cbn [active_id].
  set (id0 := default (last + 1) (highest_unsealed fs last)).
  assert (last < id0) as Hgt.
  { unfold id0. destruct (highest_unsealed fs last) as [x|] eqn:E; cbn; [|lia].
    destruct (I1 x eq_refl) as [?|[_ ?]]; [done|lia]. }
  split; [done|]. split; [|split; [|split]].
  - intros id [Hl Hin]%elem_of_list_files_after. destruct (I2 id) as (x & E & Hle); [auto|].
    unfold id0. rewrite E. done.
  - unfold id0. destruct (highest_unsealed fs last) as [x|] eqn:E; cbn.
    + left. destruct (I1 x eq_refl) as [?|[? ?]]; [done|]. by apply elem_of_list_files_after.
    + right. split; [|done]. destruct (list_files_after fs last) as [|y l] eqn:El; [done|].
      assert (y ∈ list_files_after fs last) as [??]%elem_of_list_files_after by (rewrite El; set_solver).
      destruct (I2 y) as (x & ? & _); [auto|done].
  - intros Hmax. apply elem_of_list_files_after. split; [done|]. apply elem_of_wal_ids.
    exists (wal_filename id0). split; [cbn; rewrite lookup_insert_eq; eauto|].
    apply parse_wal_filename. lia.
  - intros id. unfold replay_file. cbn. destruct (decide (wal_filename id = wal_filename id0)) as [->|Hne].
    + rewrite lookup_insert_eq. unfold file_bytes. by destruct (wf_files fs !! _).
    + by rewrite lookup_insert_ne.
Qed.

(** On open the active id is the highest unsealed id on disk, or the one
    after the last sealed id when there is none: it is never a sealed id, no
    unsealed file is above it, and recovery's listing ends at it. *)
Theorem open_selects_active fs last :
  0 ≤ last < u64_max →
  let '(fs', w) := open fs last in
  last < active_id w
  ∧ (∀ id, id ∈ list_files_after fs last → id ≤ active_id w)
  ∧ (active_id w ∈ list_files_after fs last ∨ list_files_after fs last = [] ∧ active_id w = last + 1)
  ∧ (active_id w ≤ u64_max → active_id w ∈ list_files_after fs' last)
  ∧ ∀ id, replay_file fs' id = replay_file fs id.
Proof. apply open_spec. Qed.

Lemma id_through_filename up id :
  0 ≤ id ≤ u64_max → id_through up (wal_filename id) = (id <=? up).
Proof. intros. unfold id_through. by rewrite parse_wal_filename. Qed.

(** Deleting through an id removes exactly the files recovery would skip:
    listing after [last] afterwards gives the ids above both bounds, and a
    file above the bound replays as before. *)
Theorem delete_files_through_spec fs up last id :
  (id ∈ list_files_after (delete_files_through fs up) last
   ↔ id ∈ list_files_after fs last ∧ up < id)
  ∧ (0 ≤ id ≤ u64_max →
     replay_file (delete_files_through fs up) id = if id <=? up then [] else replay_file fs id).
Proof.
  split.
  - rewrite !elem_of_list_files_after, !elem_of_wal_ids. unfold delete_files_through. cbn [wf_files]. split.
    + intros [Hl (name & [c [Hc Hf]%map_lookup_filter_Some] & Hp)].
      cbn [fst] in Hf. unfold id_through in Hf. rewrite Hp in Hf. apply Z.leb_gt in Hf. eauto 6.
    + intros [[Hl (name & [c Hc] & Hp)] Hu]. split; [done|]. exists name. split; [|done].
      exists c. apply map_lookup_filter_Some. split; [done|]. cbn [fst]. unfold id_through. rewrite Hp.
      by apply Z.leb_gt.
  - intros Hid. unfold replay_file, delete_files_through. cbn [wf_files].
    destruct (Z.leb_spec id up) as [Hle|Hgt].
    + rewrite map_lookup_filter_None_2; [done|]. right. intros c Hc. cbn [fst].
      rewrite id_through_filename by done. apply Z.leb_le in Hle. by rewrite Hle.
    + destruct (wf_files fs !! wal_filename id) as [c|] eqn:E.
      * rewrite (map_lookup_filter_Some_2 _ _ _ c); [done|done|]. cbn [fst].
        rewrite id_through_filename by done. by apply Z.leb_gt.
      * by rewrite map_lookup_filter_None_2 by auto.
Qed.
End json.

(** ** Witnesses and the torn-tail example *)
Definition empty_fs : WalFs := MkWalFs ∅ ∅.

Lemma wal_synced_events_survive_witness :
  ∃ fs1 w1 fs2 w2 fs3 w3,
    @append_batch text_json None (open empty_fs 0).1 (open empty_fs 0).2 [sample_event "a" "acct" 1 5]
    = (None, fs1, w1, Ok tt)
    ∧ sync None true fs1 w1 = (fs2, w2, Ok tt)
    ∧ @append_batch text_json None fs2 w2 [sample_event "b" "acct" 2 7] = (None, fs3, w3, Ok tt)
    ∧ ∀ fs', crash_keeps fs3 fs' →
        ∃ k, @replay_file text_json fs' (active_id (open empty_fs 0).2)
             = ([] ++ [sample_event "a" "acct" 1 5]) ++ take k [sample_event "b" "acct" 2 7].
Proof.
  apply (@wal_synced_events_survive text_json text_json_ok).
  - split; [reflexivity|]. split; [by eexists|]. split; [constructor|reflexivity].
  - apply Forall_singleton. by vm_compute.
  - apply Forall_singleton. by vm_compute.
Defined.

Lemma rotate_seals_witness :
  ∃ fs' w', rotate None true true (open empty_fs 0).1 (open empty_fs 0).2 = (fs', w', Ok 1)
    ∧ active_id w' = 1 + 1
    ∧ @replay_file text_json fs' 1 = []
    ∧ @holds text_json fs' w' []
    ∧ ∀ n, n ≠ wal_file (open empty_fs 0).2 → n ≠ wal_file w' →
           wf_files fs' !! n = wf_files (open empty_fs 0).1 !! n.
Proof.
  apply (@rotate_seals text_json text_json_ok (open empty_fs 0).1 (open empty_fs 0).2 []).
  - split; [reflexivity|]. split; [by eexists|]. split; [constructor|reflexivity].
  - by vm_compute.
  - reflexivity.
Defined.

Lemma open_selects_active_witness :
  active_id (open (MkWalFs {[wal_filename 7 := []; wal_filename 3 := []]} ∅) 4).2 = 7
  ∧ 4 < active_id (open (MkWalFs {[wal_filename 7 := []; wal_filename 3 := []]} ∅) 4).2.
Proof.
  split; [by vm_compute|].
  apply (@open_selects_active text_json text_json_ok (MkWalFs {[wal_filename 7 := []; wal_filename 3 := []]} ∅) 4).
  by vm_compute.
Defined.

Lemma delete_files_through_spec_witness :
  @replay_file text_json (delete_files_through (MkWalFs {[wal_filename 2 := [65]]} ∅) 1) 2 = [].
Proof.
  rewrite (proj2 (@delete_files_through_spec text_json (MkWalFs {[wal_filename 2 := [65]]} ∅) 1 0 2));
    [by vm_compute|by vm_compute].
Defined.

(** Reopening the log after a torn write appends behind the torn bytes:
    the next event is appended and synced without an error, and replay then
    returns nothing, because the two documents share a line. *)
Theorem torn_tail_swallows_next_append :
  let torn := MkWalFs {[wal_filename 1 := [123; 49; 48]]} ∅ in
  let e := sample_event "next" "acct" 1 5 in
  let '(fs, w) := open torn 0 in
  ∃ fs1 w1 fs2 w2,
    @append_batch text_json None fs w [e] = (None, fs1, w1, Ok tt)
    ∧ sync None true fs1 w1 = (fs2, w2, Ok tt)
    ∧ @replay_file text_json fs2 1 = [].
Proof.
  cbv zeta. destruct (open _ _) as [fs w] eqn:E. vm_compute in E. injection E as <- <-.
  eexists _, _, _, _. split; [vm_compute; reflexivity|]. split; [vm_compute; reflexivity|].
  vm_compute. reflexivity.
Qed.
End WalOps.
