(* ===== verification/Manifest.v ===== *)
(** * The manifest

    [src/storage/manifest.rs]: the catalogue of segments, and its generations
    on disk.  [save] is the sequence of file-system calls the code makes, so
    that a failed call, a crash between two calls and a rename that did not
    reach the disk are all states of the model; [load] walks back from
    [CURRENT] to the newest generation that parses. *)

From Stdlib Require Import Ascii.
From stdpp Require Import countable sorting numbers strings base gmap list.
From S2P Require Import Prelude Model Instances.

Inductive SegmentKind := RawKind | RollupKind.

Record SegmentMeta := MkSegmentMeta {
  sm_segment_id : string;
  sm_kind : SegmentKind;
  sm_min_timestamp_ms : Z;
  sm_max_timestamp_ms : Z;
  sm_bucket : Z;
  sm_row_count : Z;
  sm_min_account_id : option string;
  sm_max_account_id : option string;
  sm_product_ids : gset string;
  sm_meter_ids : gset string;
  sm_model_ids : gset string;
  sm_quantity_sum : option Z;
  sm_checksum : Z;
  sm_input_segment_ids : list string;
}.

Record ReplacementRecord := MkReplacement {
  rp_old_segments : list string;
  rp_new_segments : list string;
  rp_committed_at_ms : Z;
}.

Record ClosedPeriod := MkClosedPeriod {
  cp_account_id : string;
  cp_year : Z;
  cp_month : Z;
  cp_closed_at_ms : Z;
  cp_frozen_quantity : option Z;
  cp_frozen_event_count : option Z;
  cp_watermark_at_close_ms : option Z;
}.

Record Manifest := MkManifest {
  m_db_version : Z;
  m_bucket_count : Z;
  m_raw_segments : list SegmentMeta;
  m_rollup_segments : list SegmentMeta;
  m_compacted_replacements : list ReplacementRecord;
  m_hourly_rollup_ms : Z;
  m_last_sealed_wal_id : Z;
  m_closed_periods : list ClosedPeriod;
  m_current_generation : Z;
}.

#[export] Instance SegmentKind_eq_dec : EqDecision SegmentKind.
Proof. solve_decision. Defined.
#[export] Instance SegmentMeta_eq_dec : EqDecision SegmentMeta.
Proof. solve_decision. Defined.
#[export] Instance ReplacementRecord_eq_dec : EqDecision ReplacementRecord.
Proof. solve_decision. Defined.
#[export] Instance ClosedPeriod_eq_dec : EqDecision ClosedPeriod.
Proof. solve_decision. Defined.
#[export] Instance Manifest_eq_dec : EqDecision Manifest.
Proof. solve_decision. Defined.

(** [Manifest::default()]. *)
Definition manifest_default : Manifest := MkManifest 0 0 [] [] [] 0 0 [] 0.

(** Field updates. *)
Definition set_generation (g : Z) (m : Manifest) : Manifest :=
  MkManifest (m_db_version m) (m_bucket_count m) (m_raw_segments m) (m_rollup_segments m)
    (m_compacted_replacements m) (m_hourly_rollup_ms m) (m_last_sealed_wal_id m)
    (m_closed_periods m) g.

Definition set_raw_segments (l : list SegmentMeta) (m : Manifest) : Manifest :=
  MkManifest (m_db_version m) (m_bucket_count m) l (m_rollup_segments m)
    (m_compacted_replacements m) (m_hourly_rollup_ms m) (m_last_sealed_wal_id m)
    (m_closed_periods m) (m_current_generation m).

Definition set_rollup_segments (l : list SegmentMeta) (m : Manifest) : Manifest :=
  MkManifest (m_db_version m) (m_bucket_count m) (m_raw_segments m) l
    (m_compacted_replacements m) (m_hourly_rollup_ms m) (m_last_sealed_wal_id m)
    (m_closed_periods m) (m_current_generation m).

Definition set_replacements (l : list ReplacementRecord) (m : Manifest) : Manifest :=
  MkManifest (m_db_version m) (m_bucket_count m) (m_raw_segments m) (m_rollup_segments m)
    l (m_hourly_rollup_ms m) (m_last_sealed_wal_id m)
    (m_closed_periods m) (m_current_generation m).

Definition set_watermark (t : Z) (m : Manifest) : Manifest :=
  MkManifest (m_db_version m) (m_bucket_count m) (m_raw_segments m) (m_rollup_segments m)
    (m_compacted_replacements m) t (m_last_sealed_wal_id m)
    (m_closed_periods m) (m_current_generation m).

Definition set_last_sealed (i : Z) (m : Manifest) : Manifest :=
  MkManifest (m_db_version m) (m_bucket_count m) (m_raw_segments m) (m_rollup_segments m)
    (m_compacted_replacements m) (m_hourly_rollup_ms m) i
    (m_closed_periods m) (m_current_generation m).

Definition set_closed_periods (l : list ClosedPeriod) (m : Manifest) : Manifest :=
  MkManifest (m_db_version m) (m_bucket_count m) (m_raw_segments m) (m_rollup_segments m)
    (m_compacted_replacements m) (m_hourly_rollup_ms m) (m_last_sealed_wal_id m)
    l (m_current_generation m).

(** serde_json on manifests; [current_generation] is [#[serde(skip)]]. *)
Class ManifestJson := {
  mjson_to : Manifest → option bytes;
  mjson_from : bytes → option Manifest;
}.

Class ManifestJsonOk `{!ManifestJson} : Prop := {
  mjson_total m : is_Some (mjson_to m);
  mjson_roundtrip m b : mjson_to m = Some b → mjson_from b = Some (set_generation 0 m);
  mjson_utf8 m b : mjson_to m = Some b → utf8_valid b = true;
}.

Module Man.
Definition KEEP_GENERATIONS : Z := 10.

Definition generation_filename (g : Z) : string := "manifest-" +:+ pad_zero 6 g +:+ ".json".

Definition parse_generation (name : string) : option Z :=
  stem ← str_strip_prefix "manifest-" name;
  stem ← str_strip_suffix ".json" stem;
  parse_unsigned u64_max stem.

Arguments generation_filename : simpl never.
Arguments parse_generation : simpl never.

(** ** The directory and its operations *)
Record ManFs := MkManFs {
  mf_dir : gmap string bytes;
  mf_legacy : option bytes;
}.

Inductive fs_op :=
| OCreate (name : string)
| OWrite (name : string) (data : bytes)
| OFsync (name : string)
| ORename (from to : string)
| OFsyncDir
| ORemove (name : string).

Definition run_op (d : gmap string bytes) (op : fs_op) : gmap string bytes :=
  match op with
  | OCreate n => <[n := []]> d
  | OWrite n data => <[n := default [] (d !! n) ++ data]> d
  | OFsync _ | OFsyncDir => d
  | ORename a b => match d !! a with Some c => <[b := c]> (delete a d) | None => d end
  | ORemove n => delete n d
  end.

Definition run_ops (d : gmap string bytes) (ops : list fs_op) : gmap string bytes := foldl run_op d ops.

(** A call that fails: a write may have got part of its data down. *)
Definition fail_op (written : nat) (d : gmap string bytes) (op : fs_op) : gmap string bytes :=
  match op with
  | OWrite n data => run_op d (OWrite n (take written data))
  | _ => d
  end.

(** ** [save] *)
Definition tmp_of (name : string) : string := name +:+ ".tmp".

Definition save_steps (next_gen : Z) (json : bytes) : list fs_op :=
  let gen_path := generation_filename next_gen in
  let gen_tmp := tmp_of (generation_filename next_gen) in
  [ OCreate gen_tmp; OWrite gen_tmp json; OFsync gen_tmp; ORename gen_tmp gen_path;
    OCreate "CURRENT.tmp"; OWrite "CURRENT.tmp" (str_bytes (to_string_u next_gen));
    OFsync "CURRENT.tmp"; ORename "CURRENT.tmp" "CURRENT"; OFsyncDir ].

Definition below (floor : Z) (name : string) : bool :=
  match parse_generation name with Some g => g <? floor | None => false end.

Definition prune_old_generations (current_gen : Z) (d : gmap string bytes) : gmap string bytes :=
  if current_gen <=? KEEP_GENERATIONS then d
  else
    let floor := current_gen - KEEP_GENERATIONS + 1 in
    filter (λ kv : string * bytes, below floor kv.1 = false) d.

(** [fault = Some (k, n)]: call [k] of the sequence fails, after [n] bytes if
    it is a write. *)
Definition save_fault : Type := option (nat * nat).

Inductive man_error := ManInvalidData | ManIo | ManCurrentCorrupt | ManNoGeneration | ManLegacyCorrupt.

Section json.
Context {MJ : ManifestJson}.

Definition save (fault : save_fault) (fs : ManFs) (m : Manifest) : ManFs * Manifest * outcome man_error unit :=
  let next_gen := m_current_generation m + 1 in
  match mjson_to m with
  | None => (fs, m, Err ManInvalidData)
  | Some json =>
      let steps := save_steps next_gen json in
      match fault with
      | Some (k, n) =>
          match steps !! k with
          | Some op =>
              (MkManFs (fail_op n (run_ops (mf_dir fs) (take k steps)) op) (mf_legacy fs), m, Err ManIo)
          | None => (fs, m, Err ManIo)
          end
      | None =>
          let d := run_ops (mf_dir fs) steps in
          (MkManFs (prune_old_generations next_gen d) (mf_legacy fs), set_generation next_gen m, Ok tt)
      end
  end.

(** ** [load] *)

Definition read_to_string (o : option bytes) : option bytes :=
  b ← o; if utf8_valid b then Some b else None.

Definition parse_manifest (o : option bytes) : option Manifest :=
  b ← read_to_string o; mjson_from b.

(** [for g in (1..=current_gen).rev()], with [g] the number of generations
    left to try. *)
Fixpoint walk_back (d : gmap string bytes) (g : nat) : outcome man_error Manifest :=
  match g with
  | O => Err ManNoGeneration
  | S g' =>
      match parse_manifest (d !! generation_filename (Z.of_nat g)) with
      | Some m => Ok (set_generation (Z.of_nat g) m)
      | None => walk_back d g'
      end
  end.

Definition parse_current (content : bytes) : option Z :=
  if utf8_valid content then parse_unsigned u64_max (bytes_str (trim content)) else None.

Definition load_from_generations (d : gmap string bytes) (content : bytes) : outcome man_error Manifest :=
  current_gen ← ok_or ManCurrentCorrupt (parse_current content);
  walk_back d (Z.to_nat current_gen).

Definition migrate_legacy (fault : save_fault) (fs : ManFs) (data : bytes)
    : ManFs * outcome man_error Manifest :=
  match parse_manifest (Some data) with
  | None => (fs, Err ManLegacyCorrupt)
  | Some m =>
      match save fault fs m with
      | (fs', m', Ok _) => (MkManFs (mf_dir fs') None, Ok m')
      | (fs', _, Err e) => (fs', Err e)
      | (fs', _, Panic) => (fs', Panic)
      end
  end.

Definition load (fault : save_fault) (fs : ManFs) : ManFs * outcome man_error (option Manifest) :=
  match mf_dir fs !! "CURRENT" with
  | Some content => (fs, m ← load_from_generations (mf_dir fs) content; Ok (Some m))
  | None =>
      match mf_legacy fs with
      | Some data => let '(fs, r) := migrate_legacy fault fs data in (fs, m ← r; Ok (Some m))
      | None => (fs, Ok None)
      end
  end.

(** ** Crashes during [save]

    The process stops before some call, or inside a write; and, until the
    directory has been synced, each rename may or may not have reached the
    disk. *)
Definition drop_renames (keep : list bool) (ops : list fs_op) : list fs_op :=
  omap (λ p : bool * fs_op, match p.2 with ORename _ _ => if p.1 then Some p.2 else None | _ => Some p.2 end)
    (zip keep ops).

Definition crash_image (k n : nat) (keep : list bool) (d : gmap string bytes) (steps : list fs_op) : gmap string bytes :=
  let d' := run_ops d (drop_renames keep (take k steps)) in
  match steps !! k with Some op => fail_op n d' op | None => d' end.

(** ** Lemmas: names *)
Lemma parse_generation_filename g :
  0 ≤ g ≤ u64_max → parse_generation (generation_filename g) = Some g.
Proof.
  intros Hg. unfold parse_generation, generation_filename.
  rewrite str_strip_prefix_app. cbn [mbind option_bind].
  rewrite str_strip_suffix_app. cbn [mbind option_bind]. by apply parse_pad_zero.
Qed.

Lemma generation_filename_inj g g' :
  0 ≤ g ≤ u64_max → 0 ≤ g' ≤ u64_max → generation_filename g = generation_filename g' → g = g'.
Proof.
  intros Hg Hg' E. apply (f_equal parse_generation) in E.
  rewrite !parse_generation_filename in E by done. congruence.
Qed.

Lemma parse_tmp g : parse_generation (tmp_of (generation_filename g)) = None.
Proof.
  unfold parse_generation, tmp_of, generation_filename.
  rewrite <- !str_app_assoc, str_strip_prefix_app. cbn [mbind option_bind].
  rewrite str_app_assoc. unfold str_strip_suffix. by rewrite list_ascii_append, reverse_app.
Qed.

Lemma tmp_ne_gen g g' :
  0 ≤ g' ≤ u64_max → tmp_of (generation_filename g) ≠ generation_filename g'.
Proof.
  intros Hg' E. apply (f_equal parse_generation) in E.
  rewrite parse_tmp, parse_generation_filename in E by done. done.
Qed.

Lemma gen_ne_of_parse g name :
  0 ≤ g ≤ u64_max → parse_generation name = None → generation_filename g ≠ name.
Proof. intros Hg Hp <-. by rewrite parse_generation_filename in Hp. Qed.

Lemma tmp_ne_starts g name :
  str_strip_prefix "manifest-" name = None → tmp_of (generation_filename g) ≠ name.
Proof.
  intros Hp <-. unfold tmp_of, generation_filename in Hp.
  by rewrite <- str_app_assoc, str_strip_prefix_app in Hp.
Qed.

(** ** Lemmas: the walk *)
Definition gen_valid (d : gmap string bytes) (g : Z) : option Manifest :=
  parse_manifest (d !! generation_filename g).

Lemma walk_back_hit d n g m :
  (1 ≤ g ≤ n)%nat → gen_valid d (Z.of_nat g) = Some m →
  (∀ g', (g < g' ≤ n)%nat → gen_valid d (Z.of_nat g') = None) →
  walk_back d n = Ok (set_generation (Z.of_nat g) m).
Proof.
  intros Hg Hm Habove. induction n as [|n IH]; [lia|]. cbn [walk_back].
  destruct (decide (g = S n)) as [->|Hne].
  - unfold gen_valid in Hm. by rewrite Hm.
  - pose proof (Habove (S n) ltac:(lia)) as Hn. unfold gen_valid in Hn. rewrite Hn.
    apply IH; [lia|]. intros. apply Habove. lia.
Qed.

Lemma walk_back_miss d n :
  (∀ g, (1 ≤ g ≤ n)%nat → gen_valid d (Z.of_nat g) = None) → walk_back d n = Err ManNoGeneration.
Proof.
  induction n as [|n IH]; intros H; [done|]. cbn [walk_back].
  pose proof (H (S n) ltac:(lia)) as Hn. unfold gen_valid in Hn. rewrite Hn. apply IH.
  intros. apply H. lia.
Qed.

Lemma walk_back_inv d n m :
  walk_back d n = Ok m →
  ∃ g m', (1 ≤ g ≤ n)%nat ∧ gen_valid d (Z.of_nat g) = Some m' ∧ m = set_generation (Z.of_nat g) m'
    ∧ ∀ g', (g < g' ≤ n)%nat → gen_valid d (Z.of_nat g') = None.
Proof.
  induction n as [|n IH]; cbn [walk_back]; [done|].
  destruct (parse_manifest _) as [m'|] eqn:E.
  - intros [= <-]. exists (S n), m'. repeat split; try done; lia.
  - intros (g & m' & Hg & Hv & -> & Ha)%IH. exists g, m'. split; [lia|]. split; [done|]. split; [done|].
    intros g' Hg'. destruct (decide (g' = S n)) as [->|]; [exact E|]. apply Ha. lia.
Qed.

Lemma walk_back_no_panic d n : walk_back d n ≠ Panic.
Proof. induction n as [|n IH]; cbn [walk_back]; [done|]. by destruct (parse_manifest _). Qed.

(** ** Lemmas: what [save] leaves in the directory *)

(** Two directories look the same to [load] apart from [CURRENT] and
    generation [g]. *)
Definition view_is (d d' : gmap string bytes) (g : Z) (current gen : option bytes) : Prop :=
  d' !! "CURRENT" = current
  ∧ d' !! generation_filename g = gen
  ∧ ∀ g', 0 ≤ g' ≤ u64_max → g' ≠ g → d' !! generation_filename g' = d !! generation_filename g'.

(** An operation on names [load] does not read. *)
Definition tmp_op (g : Z) (op : fs_op) : Prop :=
  match op with
  | OCreate n | OWrite n _ | ORemove n => n = tmp_of (generation_filename g) ∨ n = "CURRENT.tmp"
  | OFsync _ | OFsyncDir => True
  | ORename _ _ => False
  end.

Lemma run_tmp_op d d' g cur gen op :
  0 ≤ g ≤ u64_max → tmp_op g op → view_is d d' g cur gen → view_is d (run_op d' op) g cur gen.
Proof.
  intros Hg Hop (H1 & H2 & H3).
  assert (∀ n, n = tmp_of (generation_filename g) ∨ n = "CURRENT.tmp" →
          n ≠ "CURRENT" ∧ ∀ g', 0 ≤ g' ≤ u64_max → n ≠ generation_filename g') as Hne.
  { intros n [-> | ->].
    - split; [by apply tmp_ne_starts|]. intros. by apply tmp_ne_gen.
    - split; [done|]. intros g' Hg' E. by eapply gen_ne_of_parse; [exact Hg'| |symmetry; exact E]. }
  destruct op as [n|n data|n|a b| |n]; cbn in *; try done; destruct (Hne n Hop) as [N1 N2]; unfold view_is.
  - rewrite !lookup_insert_ne by auto. split; [done|]. split; [done|].
    intros. rewrite lookup_insert_ne by auto. auto.
  - rewrite !lookup_insert_ne by auto. split; [done|]. split; [done|].
    intros. rewrite lookup_insert_ne by auto. auto.
  - rewrite !lookup_delete_ne by auto. split; [done|]. split; [done|].
    intros. rewrite lookup_delete_ne by auto. auto.
Qed.

Lemma run_rename_gen d d' g cur gen c :
  0 ≤ g ≤ u64_max → d' !! tmp_of (generation_filename g) = Some c → view_is d d' g cur gen →
  view_is d (run_op d' (ORename (tmp_of (generation_filename g)) (generation_filename g))) g cur (Some c).
Proof.
  intros Hg Hc (H1 & H2 & H3). cbn. rewrite Hc. unfold view_is. split; [|split].
  - rewrite lookup_insert_ne by (by apply gen_ne_of_parse).
    rewrite lookup_delete_ne by (by apply tmp_ne_starts). done.
  - by rewrite lookup_insert_eq.
  - intros g' Hg' Hne. rewrite lookup_insert_ne by (intros E%generation_filename_inj; auto).
    rewrite lookup_delete_ne by (by apply tmp_ne_gen). auto.
Qed.

Lemma run_rename_current d d' g cur gen c :
  0 ≤ g ≤ u64_max → d' !! "CURRENT.tmp" = Some c → view_is d d' g cur gen →
  view_is d (run_op d' (ORename "CURRENT.tmp" "CURRENT")) g (Some c) gen.
Proof.
  intros Hg Hc (H1 & H2 & H3). cbn. rewrite Hc. unfold view_is. split; [|split].
  - by rewrite lookup_insert_eq.
  - rewrite lookup_insert_ne by (by apply not_eq_sym, gen_ne_of_parse).
    rewrite lookup_delete_ne by (by apply not_eq_sym, gen_ne_of_parse). done.
  - intros g' Hg' Hne. rewrite lookup_insert_ne by (by apply not_eq_sym, gen_ne_of_parse).
    rewrite lookup_delete_ne by (by apply not_eq_sym, gen_ne_of_parse). auto.
Qed.

Lemma view_refl d g : view_is d d g (d !! "CURRENT") (d !! generation_filename g).
Proof. done. Qed.

Lemma tmp_written d t data :
  run_op (run_op (run_op d (OCreate t)) (OWrite t data)) (OFsync t) !! t = Some data.
Proof. cbn. by rewrite !lookup_insert_eq. Qed.

Ltac view_steps :=
  repeat first
    [ eapply run_rename_gen; [eassumption|apply tmp_written|]
    | eapply run_rename_current; [eassumption|apply tmp_written|]
    | apply run_tmp_op; [eassumption|cbn; tauto|]
    | apply view_refl ].

Definition current_bytes (g : Z) : bytes := str_bytes (to_string_u g).

(** The possible views after a crash: either file is old or new, and a new
    [CURRENT] beside an old generation file only when [torn]. *)
Definition mixed (torn : Prop) (d d' : gmap string bytes) (g : Z) (json : bytes) : Prop :=
  ∃ cur gen, view_is d d' g cur gen
    ∧ (cur = d !! "CURRENT" ∨ cur = Some (current_bytes g))
    ∧ (gen = d !! generation_filename g ∨ gen = Some json)
    ∧ (cur = d !! "CURRENT" ∨ gen = Some json ∨ torn).

(** The machine keeps the rename of [CURRENT] and loses that of the
    generation file: calls 3 and 7 of [save_steps]. *)
Definition torn_renames (keep : list bool) : Prop :=
  keep !! 3%nat = Some false ∧ keep !! 7%nat = Some true.

Lemma fail_op_view d d' g cur gen n op json :
  0 ≤ g ≤ u64_max → op ∈ save_steps g json → view_is d d' g cur gen →
  view_is d (fail_op n d' op) g cur gen.
Proof.
  intros Hg Hop Hv. unfold save_steps in Hop.
  repeat (apply elem_of_cons in Hop as [->|Hop]; [cbn [fail_op]; first [done|apply run_tmp_op; cbn; tauto]|]).
  set_solver.
Qed.

Ltac mixed_case :=
  split; [auto|split; [auto|first [by left|by right; left|by right; right]]].

Lemma run_prefix_mixed d g json k keep :
  0 ≤ g ≤ u64_max → length keep = 9%nat →
  mixed (torn_renames keep) d (run_ops d (drop_renames keep (take k (save_steps g json)))) g json.
Proof.
  intros Hg Hk. unfold mixed, torn_renames.
  destruct keep as [|b0 [|b1 [|b2 [|b3 [|b4 [|b5 [|b6 [|b7 [|b8 [|]]]]]]]]]]; try discriminate Hk. clear Hk.
  do 10 (destruct k as [|k]; [destruct b3, b7; cbn [take save_steps drop_renames zip zip_with omap list_omap fst snd run_ops foldl];
    eexists _, _; (split; [view_steps|mixed_case])|]).
  destruct b3, b7; cbn [take save_steps drop_renames zip zip_with omap list_omap fst snd run_ops foldl];
    eexists _, _; (split; [view_steps|mixed_case]).
Qed.

Lemma crash_image_mixed d g json k n keep :
  0 ≤ g ≤ u64_max → length keep = 9%nat →
  mixed (torn_renames keep) d (crash_image k n keep d (save_steps g json)) g json.
Proof.
  intros Hg Hk. destruct (run_prefix_mixed d g json k keep Hg Hk) as (cur & gen & Hv & H).
  unfold crash_image. destruct (save_steps g json !! k) as [op|] eqn:E; [|by exists cur, gen].
  exists cur, gen. split; [|done]. eapply fail_op_view; [done| |done].
  by eapply list_elem_of_lookup_2.
Qed.

(** ** Lemmas: loading *)
Lemma parse_current_bytes g : 0 ≤ g ≤ u64_max → parse_current (current_bytes g) = Some g.
Proof.
  intros Hg. pose proof (to_string_u_bytes g ltac:(lia)) as Hd. unfold parse_current, current_bytes.
  rewrite utf8_valid_ascii.
  - rewrite trim_digits, bytes_str_bytes by done. by apply parse_to_string_u.
  - eapply Forall_impl; [exact Hd|]. unfold is_digit_byte. lia.
Qed.

Lemma load_current fault fs content :
  mf_dir fs !! "CURRENT" = Some content →
  load fault fs = (fs, m ← load_from_generations (mf_dir fs) content; Ok (Some m)).
Proof. intros E. unfold load. by rewrite E. Qed.

Lemma load_hit fault fs content c g m :
  mf_dir fs !! "CURRENT" = Some content → parse_current content = Some c →
  1 ≤ g ≤ c → gen_valid (mf_dir fs) g = Some m →
  (∀ g', g < g' ≤ c → gen_valid (mf_dir fs) g' = None) →
  load fault fs = (fs, Ok (Some (set_generation g m))).
Proof.
  intros E Ec Hg Hm Ha. rewrite (load_current fault fs content E). unfold load_from_generations.
  rewrite Ec. cbn [ok_or mbind outcome_bind].
  rewrite (walk_back_hit _ _ (Z.to_nat g) m); rewrite ?Z2Nat.id by lia; [done|lia|done|].
  intros g' Hg'. apply Ha. lia.
Qed.

Lemma load_inv fault fs content m :
  mf_dir fs !! "CURRENT" = Some content → (load fault fs).2 = Ok (Some m) →
  ∃ c g m', parse_current content = Some c ∧ 1 ≤ g ≤ c ∧ gen_valid (mf_dir fs) g = Some m'
    ∧ m = set_generation g m' ∧ ∀ g', g < g' ≤ c → gen_valid (mf_dir fs) g' = None.
Proof.
  intros E. rewrite (load_current fault fs content E). cbn [snd]. unfold load_from_generations.
  destruct (parse_current content) as [c|] eqn:Ec; [|done]. cbn [ok_or mbind outcome_bind].
  destruct (walk_back (mf_dir fs) (Z.to_nat c)) as [m0| |] eqn:Ew; [|done|done].
  cbn. intros [= <-]. apply walk_back_inv in Ew as (g & m' & Hg & Hv & -> & Ha).
  exists c, (Z.of_nat g), m'. split; [done|]. split; [lia|]. split; [done|]. split; [done|].
  intros g' Hg'. specialize (Ha (Z.to_nat g')). rewrite Z2Nat.id in Ha by lia. apply Ha. lia.
Qed.

Lemma parse_unsigned_range maxv s n : parse_unsigned maxv s = Some n → n ≤ maxv ∨ maxv < 0.
Proof.
  unfold parse_unsigned.
  assert (∀ l acc n, acc ≤ maxv → parse_digits maxv acc l = Some n → n ≤ maxv) as Hp.
  { induction l as [|a l IH]; intros acc n' Hacc; cbn; [intros [= <-]; done|].
    destruct (digit_value a); cbn; [|done]. zcase; [done|]. apply IH. lia. }
  destruct (decide (maxv < 0)); [auto|]. intros H. left.
  repeat case_match; try discriminate; (eapply Hp; [|exact H]; lia).
Qed.

Lemma parse_current_range content c : parse_current content = Some c → c ≤ u64_max.
Proof.
  unfold parse_current. destruct (utf8_valid content); [|done].
  intros [?|?]%parse_unsigned_range; [done|]. unfold u64_max in *. lia.
Qed.

Context {MJok : ManifestJsonOk}.

Lemma gen_valid_json d g m json :
  mjson_to m = Some json → d !! generation_filename g = Some json →
  gen_valid d g = Some (set_generation 0 m).
Proof.
  intros Hj Hd. unfold gen_valid, parse_manifest, read_to_string. rewrite Hd. cbn.
  rewrite (mjson_utf8 m json Hj). cbn. by apply mjson_roundtrip.
Qed.

(** From old and new files [load] finds the old or the new manifest, unless
    [CURRENT] is new and points to a complete file an earlier save left
    behind. *)
Lemma view_load fault fs d' m m0 json cur gen torn :
  is_Some (mf_dir fs !! "CURRENT") → (load fault fs).2 = Ok (Some m0) →
  m_current_generation m = m_current_generation m0 → m_current_generation m < u64_max →
  mjson_to m = Some json →
  view_is (mf_dir fs) d' (m_current_generation m + 1) cur gen →
  cur = mf_dir fs !! "CURRENT" ∨ cur = Some (current_bytes (m_current_generation m + 1)) →
  gen = mf_dir fs !! generation_filename (m_current_generation m + 1) ∨ gen = Some json →
  cur = mf_dir fs !! "CURRENT" ∨ gen = Some json ∨ torn →
  let r := (load fault (MkManFs d' (mf_legacy fs))).2 in
  r = Ok (Some m0) ∨ r = Ok (Some (set_generation (m_current_generation m + 1) m))
  ∨ torn ∧ ∃ old, gen_valid (mf_dir fs) (m_current_generation m + 1) = Some old
      ∧ r = Ok (Some (set_generation (m_current_generation m + 1) old)).
Proof.
  intros [content Hc] Hload Hgen Hmax Hj (V1 & V2 & V3) Hcur Hgenf Hfree.
  apply (load_inv fault fs content) in Hload as (c & g & m' & Hpc & Hg & Hv & -> & Ha); [|done].
  rewrite Hgen in *. cbn [set_generation m_current_generation] in *.
  pose proof (parse_current_range _ _ Hpc) as Hcmax.
  assert (∀ x, 0 ≤ x ≤ u64_max → x ≠ g + 1 → gen_valid d' x = gen_valid (mf_dir fs) x) as Hsame.
  { intros x Hx Hne. unfold gen_valid. by rewrite V3. }
  set (fs' := MkManFs d' (mf_legacy fs)). cbn zeta.
  assert (∀ content' c', d' !! "CURRENT" = Some content' → parse_current content' = Some c' →
    g ≤ c' ≤ u64_max → (∀ x, g < x ≤ c' → gen_valid d' x = None) →
    (load fault fs').2 = Ok (Some (set_generation g m'))) as Hold.
  { intros content' c' E1 E2 Hc' Hx. rewrite (load_hit fault fs' content' c' g m'); try done; [lia|].
    cbn. rewrite Hsame; [done|lia|lia]. }
  assert (∀ content' c', d' !! "CURRENT" = Some content' → parse_current content' = Some c' →
    g + 1 ≤ c' ≤ u64_max → gen = Some json → (∀ x, g + 1 < x ≤ c' → gen_valid d' x = None) →
    (load fault fs').2 = Ok (Some (set_generation (g + 1) m))) as Hnew.
  { intros content' c' E1 E2 Hc' -> Hx.
    rewrite (load_hit fault fs' content' c' (g + 1) (set_generation 0 m)); try done; [lia|].
    cbn. by apply (gen_valid_json _ _ _ json). }
  assert (gen = mf_dir fs !! generation_filename (g + 1) → gen_valid d' (g + 1) = gen_valid (mf_dir fs) (g + 1)) as Hkeep.
  { intros ->. unfold gen_valid. by rewrite V2. }
  destruct Hcur as [Hcur|Hcur].
  - rewrite Hcur, Hc in V1. destruct Hgenf as [Hgf|Hgf].
    + left. eapply Hold; [exact V1|exact Hpc|lia|]. intros x Hx.
      destruct (decide (x = g + 1)) as [->|Hne]; [rewrite (Hkeep Hgf)|rewrite Hsame by lia]; apply Ha; lia.
    + destruct (decide (g + 1 ≤ c)).
      * right; left. eapply Hnew; [exact V1|exact Hpc|lia|done|]. intros x Hx. rewrite Hsame by lia. apply Ha. lia.
      * left. eapply Hold; [exact V1|exact Hpc|lia|]. intros x Hx. lia.
  - pose proof (parse_current_bytes (g + 1) ltac:(lia)) as Hpn.
    destruct (decide (gen = Some json)) as [Hgn|Hgn].
    { right; left. rewrite Hcur in V1. eapply Hnew; [exact V1|exact Hpn|lia|done|]. intros x Hx. lia. }
    destruct Hgenf as [Hgf|]; [|done]. destruct Hfree as [Hcur'|[|Ht]]; [|done|].
    { left. rewrite Hcur', Hc in V1. eapply Hold; [exact V1|exact Hpc|lia|]. intros x Hx.
      destruct (decide (x = g + 1)) as [->|Hne]; [rewrite (Hkeep Hgf)|rewrite Hsame by lia]; apply Ha; lia. }
    rewrite Hcur in V1. destruct (gen_valid (mf_dir fs) (g + 1)) as [old|] eqn:Eo.
    + right; right. split; [done|]. exists old. split; [done|].
      rewrite (load_hit fault fs' (current_bytes (g + 1)) (g + 1) (g + 1) old); try done; [lia|cbn; by rewrite Hkeep|lia].
    + left. eapply Hold; [exact V1|exact Hpn|lia|]. intros x Hx.
      assert (x = g + 1) as -> by lia. by rewrite (Hkeep Hgf).
Qed.

Lemma mixed_load fault fs d' m m0 json torn :
  is_Some (mf_dir fs !! "CURRENT") → (load fault fs).2 = Ok (Some m0) →
  m_current_generation m = m_current_generation m0 → m_current_generation m < u64_max →
  mjson_to m = Some json →
  mixed torn (mf_dir fs) d' (m_current_generation m + 1) json →
  let r := (load fault (MkManFs d' (mf_legacy fs))).2 in
  r = Ok (Some m0) ∨ r = Ok (Some (set_generation (m_current_generation m + 1) m))
  ∨ torn ∧ ∃ old, gen_valid (mf_dir fs) (m_current_generation m + 1) = Some old
      ∧ r = Ok (Some (set_generation (m_current_generation m + 1) old)).
Proof. intros Hc Hl Hg Hmax Hj (cur & gen & Hv & Hcur & Hgen & Ht). by eapply view_load. Qed.

Lemma drop_renames_none (ops : list fs_op) k :
  (length ops ≤ k)%nat → drop_renames (replicate k true) ops = ops.
Proof.
  revert k. induction ops as [|op ops IH]; intros [|k] Hk; cbn in *; try done; [lia|].
  change (omap _ (zip (replicate k true) ops)) with (drop_renames (replicate k true) ops).
  rewrite IH by lia. by destruct op.
Qed.

Lemma not_torn : ¬ torn_renames (replicate 9 true).
Proof. by intros [? _]. Qed.

Lemma save_failed_mixed fs m json k n :
  mjson_to m = Some json → 0 ≤ m_current_generation m < u64_max →
  mixed False (mf_dir fs) (mf_dir (save (Some (k, n)) fs m).1.1) (m_current_generation m + 1) json.
Proof.
  intros Hj Hg. unfold save. rewrite Hj.
  pose proof (crash_image_mixed (mf_dir fs) (m_current_generation m + 1) json k n (replicate 9 true)
    ltac:(lia) eq_refl) as (cur & gen & Hv & H1 & H2 & H3). unfold crash_image in Hv. pose proof not_torn.
  destruct (save_steps _ json !! k) as [op|].
  - rewrite drop_renames_none in Hv by (rewrite length_take; cbn; lia). exists cur, gen. naive_solver.
  - eexists _, _. split; [apply view_refl|]. auto.
Qed.

Lemma save_view fs m json :
  mjson_to m = Some json → 0 ≤ m_current_generation m < u64_max →
  view_is (mf_dir fs) (run_ops (mf_dir fs) (save_steps (m_current_generation m + 1) json))
    (m_current_generation m + 1) (Some (current_bytes (m_current_generation m + 1))) (Some json).
Proof.
  intros Hj Hg. assert (0 ≤ m_current_generation m + 1 ≤ u64_max) as Hg1 by lia.
  cbn [run_ops save_steps foldl]. view_steps.
Qed.

Lemma prune_lookup g d name :
  prune_old_generations g d !! name
  = if negb (g <=? KEEP_GENERATIONS) && below (g - KEEP_GENERATIONS + 1) name then None else d !! name.
Proof.
  unfold prune_old_generations. destruct (g <=? KEEP_GENERATIONS); cbn [negb andb]; [done|].
  destruct (below _ name) eqn:Eb.
  - apply map_lookup_filter_None_2. right. intros c _. cbn. by rewrite Eb.
  - destruct (d !! name) as [c|] eqn:E.
    + by apply map_lookup_filter_Some_2.
    + apply map_lookup_filter_None_2. auto.
Qed.

Lemma below_gen floor g : 0 ≤ g ≤ u64_max → below floor (generation_filename g) = (g <? floor).
Proof. intros. unfold below. by rewrite parse_generation_filename. Qed.

Lemma save_then_load fault fs m :
  0 ≤ m_current_generation m < u64_max →
  ∃ fs', save None fs m = (fs', set_generation (m_current_generation m + 1) m, Ok tt)
    ∧ load fault fs' = (fs', Ok (Some (set_generation (m_current_generation m + 1) m))).
Proof.
  intros Hg. destruct (mjson_total m) as [json Hj]. unfold save. rewrite Hj.
  destruct (save_view fs m json Hj Hg) as (V1 & V2 & _). set (g := m_current_generation m + 1) in *.
  assert (0 ≤ g ≤ u64_max) as Hg1 by lia.
  eexists. split; [reflexivity|].
  rewrite (load_hit _ _ (current_bytes g) g g (set_generation 0 m)); cbn [mf_dir].
  - done.
  - rewrite prune_lookup. unfold below. change (parse_generation "CURRENT") with (@None Z).
    by rewrite andb_false_r.
  - by apply parse_current_bytes.
  - unfold g. lia.
  - apply (gen_valid_json _ _ _ json); [done|]. rewrite prune_lookup, below_gen by done.
    destruct (Z.ltb_spec g (g - KEEP_GENERATIONS + 1)) as [Hlt|_]; [unfold KEEP_GENERATIONS in Hlt; lia|].
    by rewrite andb_false_r.
  - lia.
Qed.

(** ** Lemmas: a save that stops anywhere *)

(** The loaded generation is on disk, and nothing was migrated. *)
Lemma load_settled fs m : load None fs = (fs, Ok (Some m)) → is_Some (mf_dir fs !! "CURRENT").
Proof.
  intros H. destruct (mf_dir fs !! "CURRENT") as [c|] eqn:E; [by eexists|]. exfalso.
  unfold load in H. rewrite E in H. destruct (mf_legacy fs) as [data|] eqn:El; [|done].
  unfold migrate_legacy in H. destruct (parse_manifest (Some data)) as [m1|]; [|done].
  destruct (save None fs m1) as [[fs1 m2] [u|e|]]; [|done..]. injection H as Hfs _. by rewrite <- Hfs in El.
Qed.

(** The directory after a crash inside a save: [k] calls are done, the next
    one perhaps in part; when renames may be lost, no complete file of the
    generation to be written may be left over from before. *)
Definition interrupted (fs : ManFs) (m : Manifest) (fs' : ManFs) : Prop :=
  ∃ json k n keep, mjson_to m = Some json ∧ length keep = 9%nat
    ∧ (keep = replicate 9 true ∨ gen_valid (mf_dir fs) (m_current_generation m + 1) = None)
    ∧ fs' = MkManFs (crash_image k n keep (mf_dir fs) (save_steps (m_current_generation m + 1) json)) (mf_legacy fs).

(** Pruning deletes one old generation after the other. *)
Definition partly_pruned (gone : gset string) (current_gen : Z) (d : gmap string bytes) : gmap string bytes :=
  if current_gen <=? KEEP_GENERATIONS then d
  else
    let floor := current_gen - KEEP_GENERATIONS + 1 in
    filter (λ kv : string * bytes, below floor kv.1 && bool_decide (kv.1 ∈ gone) = false) d.

Lemma interrupted_load fs m m0 fs' :
  load None fs = (fs, Ok (Some m0)) → m_current_generation m = m_current_generation m0 →
  0 ≤ m_current_generation m < u64_max → interrupted fs m fs' →
  ∃ m', load None fs' = (fs', Ok (Some m')) ∧ (m' = m0 ∨ m' = set_generation (m_current_generation m + 1) m).
Proof.
  intros Hl Hg Hr (json & k & n & keep & Hj & Hk & Hkeep & ->). pose proof (load_settled fs m0 Hl) as Hc.
  set (fs' := MkManFs _ _). enough (is_Some (mf_dir fs' !! "CURRENT") ∧
    ((load None fs').2 = Ok (Some m0) ∨ (load None fs').2 = Ok (Some (set_generation (m_current_generation m + 1) m))))
    as [[c Hc'] H].
  { rewrite (load_current None fs' c Hc') in H |- *. cbn [snd] in H. destruct H as [->| ->]; eauto. }
  assert ((load None fs).2 = Ok (Some m0)) as Hl2 by (by rewrite Hl).
  destruct (crash_image_mixed (mf_dir fs) (m_current_generation m + 1) json k n keep ltac:(lia) Hk)
    as (cur & gen & Hv & Hcur & Hgen & Ht).
  split.
  - destruct Hv as (Hv & _). rewrite <- Hv in Hcur. unfold fs'. cbn [mf_dir]. destruct Hcur as [->| ->]; [done|by eexists].
  - destruct (view_load None fs (mf_dir fs') m m0 json cur gen (torn_renames keep)) as [H|[H|(T & old & Ho & _)]];
      try done; [lia|by left|by right|]. destruct Hkeep as [->|Hfree]; [by apply not_torn in T|congruence].
Qed.

Lemma partly_pruned_lookup gone g d name :
  partly_pruned gone g d !! name
  = if negb (g <=? KEEP_GENERATIONS) && (below (g - KEEP_GENERATIONS + 1) name && bool_decide (name ∈ gone)) then None else d !! name.
Proof.
  unfold partly_pruned. destruct (g <=? KEEP_GENERATIONS); cbn [negb andb]; [done|].
  destruct (below _ name && bool_decide (name ∈ gone)) eqn:Eb.
  - apply map_lookup_filter_None_2. right. intros c _. cbn. by rewrite Eb.
  - destruct (d !! name) as [c|] eqn:E.
    + by apply map_lookup_filter_Some_2.
    + apply map_lookup_filter_None_2. auto.
Qed.

Lemma partly_pruned_load fs m json gone :
  mjson_to m = Some json → 0 ≤ m_current_generation m < u64_max →
  let g := m_current_generation m + 1 in
  let fs' := MkManFs (partly_pruned gone g (run_ops (mf_dir fs) (save_steps g json))) (mf_legacy fs) in
  load None fs' = (fs', Ok (Some (set_generation g m))).
Proof.
  intros Hj Hg g. destruct (save_view fs m json Hj Hg) as (V1 & V2 & _). fold g in V1, V2.
  assert (0 ≤ g ≤ u64_max) as Hg1 by lia. cbv zeta.
  rewrite (load_hit _ _ (current_bytes g) g g (set_generation 0 m)); cbn [mf_dir].
  - done.
  - rewrite partly_pruned_lookup. unfold below. change (parse_generation "CURRENT") with (@None Z).
    by rewrite andb_false_r.
  - by apply parse_current_bytes.
  - unfold g. lia.
  - apply (gen_valid_json _ _ _ json); [done|]. rewrite partly_pruned_lookup, below_gen by done.
    destruct (Z.ltb_spec g (g - KEEP_GENERATIONS + 1)) as [Hlt|_]; [unfold KEEP_GENERATIONS in Hlt; lia|].
    by rewrite andb_false_r.
  - lia.
Qed.

(** ** What the manifest store promises *)

(** A saved manifest is what the next start loads: a successful [save]
    bumps the generation by one and [load] returns exactly the saved value,
    whatever other generations are on disk. *)
Theorem manifest_save_load fault fs m :
  0 ≤ m_current_generation m < u64_max →
  ∃ fs', save None fs m = (fs', set_generation (m_current_generation m + 1) m, Ok tt)
    ∧ load fault fs' = (fs', Ok (Some (set_generation (m_current_generation m + 1) m))).
Proof. apply save_then_load. Qed.

(** C20: how atomic a save is. If a call of [save] fails at any point, also in
    the middle of a write, the next start loads either the previous manifest
    or the new one. If the machine stops at any point, the same holds, with
    one exception, which is an outcome of the statement: when a complete file
    of the new generation was left by an earlier save that failed, and the
    machine keeps the rename of CURRENT but loses the rename of the generation
    file (the directory is synced once, after both), the next start loads the
    manifest of that left-over file. Hypotheses: a CURRENT file exists and
    loads, the manifest saved has the loaded generation number, below
    [u64::MAX], and its JSON exists. *)
Theorem manifest_save_atomic fault fs m m0 json k n keep :
  is_Some (mf_dir fs !! "CURRENT") → (load fault fs).2 = Ok (Some m0) →
  m_current_generation m = m_current_generation m0 → 0 ≤ m_current_generation m < u64_max →
  mjson_to m = Some json → length keep = 9%nat →
  let g := m_current_generation m + 1 in
  let loads d := (load fault (MkManFs d (mf_legacy fs))).2 in
  (let r := loads (mf_dir (save (Some (k, n)) fs m).1.1) in
   r = Ok (Some m0) ∨ r = Ok (Some (set_generation g m)))
  ∧ (let r := loads (crash_image k n keep (mf_dir fs) (save_steps g json)) in
     r = Ok (Some m0) ∨ r = Ok (Some (set_generation g m))
     ∨ torn_renames keep
       ∧ ∃ old, gen_valid (mf_dir fs) g = Some old ∧ r = Ok (Some (set_generation g old))).
Proof.
  intros Hc Hl Hg Hr Hj Hk g loads. split.
  - destruct (mixed_load fault fs (mf_dir (save (Some (k, n)) fs m).1.1) m m0 json False) as [H|[H|[[] _]]];
      try done; [lia|by apply save_failed_mixed|by left|by right].
  - eapply (mixed_load fault fs _ m m0 json); try done; [lia|]. apply crash_image_mixed; [lia|done].
Qed.

(** C36: with [CURRENT] readable, [load] returns the newest generation at or
    below it that parses, numbered by its file, and fails closed, never
    starting an empty database, when there is none. *)
Theorem manifest_load_newest_valid fault fs content c :
  mf_dir fs !! "CURRENT" = Some content → parse_current content = Some c →
  (∀ m, (load fault fs).2 = Ok (Some m) ↔
     ∃ g m', 1 ≤ g ≤ c ∧ gen_valid (mf_dir fs) g = Some m' ∧ m = set_generation g m'
       ∧ ∀ g', g < g' ≤ c → gen_valid (mf_dir fs) g' = None)
  ∧ ((∀ g, 1 ≤ g ≤ c → gen_valid (mf_dir fs) g = None) →
     (load fault fs).2 = Err ManNoGeneration).
Proof.
  intros Hc Hp. split.
  - intros m. split.
    + intros (c' & g & m' & Hp' & H)%(load_inv fault fs content); [|done].
      rewrite Hp in Hp'. injection Hp' as <-. eauto.
    + intros (g & m' & Hg & Hv & -> & Ha). by rewrite (load_hit fault fs content c g m').
  - intros Hn. rewrite (load_current fault fs content Hc). unfold load_from_generations.
    rewrite Hp. cbn [snd ok_or mbind outcome_bind]. rewrite walk_back_miss; [done|].
    intros g Hg. apply Hn. lia.
Qed.

(** A save keeps the ten newest generations and the others go: the
    contents of generations [g - 9 .. g - 1] are untouched and no older
    generation file is left. *)
Theorem manifest_save_prunes fs m fs' g :
  0 ≤ m_current_generation m < u64_max →
  save None fs m = (fs', set_generation g m, Ok tt) →
  ∀ x, 0 ≤ x ≤ u64_max →
    (g - 10 < x → x ≠ g → mf_dir fs' !! generation_filename x = mf_dir fs !! generation_filename x)
    ∧ (10 < g → x ≤ g - 10 → mf_dir fs' !! generation_filename x = None).
Proof.
  intros Hg Hs x Hx. destruct (mjson_total m) as [json Hj]. unfold save in Hs. rewrite Hj in Hs.
  destruct (save_view fs m json Hj Hg) as (_ & _ & V3). injection Hs as <- Eg. subst g.
  cbn [mf_dir]. rewrite prune_lookup, below_gen by done. unfold KEEP_GENERATIONS. split.
  - intros Hw Hne. rewrite (proj2 (Z.ltb_ge _ _)) by lia. rewrite andb_false_r. by apply V3.
  - intros H10 Hle. rewrite (proj2 (Z.leb_gt _ _)), (proj2 (Z.ltb_lt _ _)) by lia. done.
Qed.
End json.
End Man.

(** ** An executable manifest code, standing for serde_json, and witnesses *)
Module ManExample.
Definition meta_fields (s : SegmentMeta) : list positive :=
  [encode (sm_segment_id s); encode (bool_decide (sm_kind s = RawKind)); encode (sm_min_timestamp_ms s);
   encode (sm_max_timestamp_ms s); encode (sm_bucket s); encode (sm_row_count s);
   encode (sm_min_account_id s); encode (sm_max_account_id s); encode (sm_product_ids s);
   encode (sm_meter_ids s); encode (sm_model_ids s); encode (sm_quantity_sum s);
   encode (sm_checksum s); encode (sm_input_segment_ids s)].

Definition meta_of_fields (l : list positive) : option SegmentMeta :=
  match l with
  | [a; b; c; d; e; f; g; h; i; j; k; l; m; n] =>
      a ← decode a; b ← decode b; c ← decode c; d ← decode d; e ← decode e;
      f ← decode f; g ← decode g; h ← decode h; i ← decode i; j ← decode j;
      k ← decode k; l ← decode l; m ← decode m; n ← decode n;
      Some (MkSegmentMeta a (if b : bool then RawKind else RollupKind) c d e f g h i j k l m n)
  | _ => None
  end.

#[export] Instance SegmentMeta_countable : Countable SegmentMeta.
Proof.
  apply (inj_countable meta_fields meta_of_fields).
  intros s. unfold meta_of_fields, meta_fields. rewrite !decode_encode. by destruct s as [? []].
Defined.

#[export] Instance ReplacementRecord_countable : Countable ReplacementRecord.
Proof.
  apply (inj_countable' (λ r, (rp_old_segments r, rp_new_segments r, rp_committed_at_ms r))
           (λ p, MkReplacement p.1.1 p.1.2 p.2)).
  by intros [].
Defined.

#[export] Instance ClosedPeriod_countable : Countable ClosedPeriod.
Proof.
  apply (inj_countable'
    (λ c, (cp_account_id c, (cp_year c, cp_month c, cp_closed_at_ms c),
           (cp_frozen_quantity c, cp_frozen_event_count c, cp_watermark_at_close_ms c)))
    (λ p, MkClosedPeriod p.1.1 p.1.2.1.1 p.1.2.1.2 p.1.2.2 p.2.1.1 p.2.1.2 p.2.2)).
  by intros [].
Defined.

#[export] Instance Manifest_countable : Countable Manifest.
Proof.
  apply (inj_countable'
    (λ m, (m_db_version m, m_bucket_count m, (m_raw_segments m, m_rollup_segments m),
           (m_compacted_replacements m, m_hourly_rollup_ms m),
           (m_last_sealed_wal_id m, m_closed_periods m, m_current_generation m)))
    (λ p, MkManifest p.1.1.1.1 p.1.1.1.2 p.1.1.2.1 p.1.1.2.2 p.1.2.1 p.1.2.2 p.2.1.1 p.2.1.2 p.2.2)).
  by intros [].
Defined.

Definition text_manifest : ManifestJson := {|
  mjson_to m := Some (pos_digits (encode (set_generation 0 m)));
  mjson_from b := p ← digits_pos b; decode p
|}.

Lemma text_manifest_ok : @ManifestJsonOk text_manifest.
Proof.
  split; cbn.
  - by eexists.
  - intros m b [= <-]. rewrite digits_pos_digits. cbn. by rewrite decode_encode.
  - intros m b [= <-]. apply utf8_valid_ascii. eapply Forall_impl; [apply pos_digits_ascii|].
    cbn. intros. lia.
Qed.

Definition empty_man : Man.ManFs := Man.MkManFs ∅ None.
Definition gen0 : Manifest := MkManifest 1 4 [] [] [] 0 0 [] 0.
Definition gen1 : Manifest := set_generation 1 gen0.

(** The directory after the first save. *)
Definition first_fs : Man.ManFs := (@Man.save text_manifest None empty_man gen0).1.1.

Definition sealed1 : Manifest := set_last_sealed 1 gen1.

Definition sealed1_json : bytes := pos_digits (encode (set_generation 0 sealed1)).

Lemma manifest_save_load_witness :
  ∃ fs', @Man.save text_manifest None empty_man gen0 = (fs', gen1, Ok tt)
    ∧ @Man.load text_manifest None fs' = (fs', Ok (Some gen1)).
Proof.
  apply (@Man.manifest_save_load text_manifest text_manifest_ok None empty_man gen0). by vm_compute.
Defined.

(** The machine stops with both renames lost. *)
Lemma manifest_save_atomic_witness :
  let loads d := (@Man.load text_manifest None (Man.MkManFs d (Man.mf_legacy first_fs))).2 in
  (let r := loads (Man.mf_dir (@Man.save text_manifest (Some (8%nat, 0%nat)) first_fs sealed1).1.1) in
   r = Ok (Some gen1) ∨ r = Ok (Some (set_generation 2 sealed1)))
  ∧ (let r := loads (Man.crash_image 8 0 (replicate 9 false) (Man.mf_dir first_fs) (Man.save_steps 2 sealed1_json)) in
     r = Ok (Some gen1) ∨ r = Ok (Some (set_generation 2 sealed1))
     ∨ Man.torn_renames (replicate 9 false)
       ∧ ∃ old, @Man.gen_valid text_manifest (Man.mf_dir first_fs) 2 = Some old ∧ r = Ok (Some (set_generation 2 old))).
Proof.
  apply (@Man.manifest_save_atomic text_manifest text_manifest_ok None first_fs sealed1 gen1 sealed1_json 8 0
           (replicate 9 false)).
  - vm_compute. by eexists.
  - vm_compute. reflexivity.
  - reflexivity.
  - by vm_compute.
  - reflexivity.
  - reflexivity.
Defined.

(** The exception can happen: a save of [stale1] stops after the rename of
    the generation file; the next save of the same number, of [sealed1], is
    cut by a machine failure that keeps only the rename of [CURRENT], and
    the next start loads [stale1], which no save ever completed. *)
Definition stale1 : Manifest := set_last_sealed 7 gen1.
Definition stale_fs : Man.ManFs := (@Man.save text_manifest (Some (4%nat, 0%nat)) first_fs stale1).1.1.

Lemma torn_save_loads_left_over :
  (@Man.load text_manifest None stale_fs).2 = Ok (Some gen1)
  ∧ (@Man.load text_manifest None (Man.MkManFs
      (Man.crash_image 8 0 [true; true; true; false; true; true; true; true; true] (Man.mf_dir stale_fs)
         (Man.save_steps 2 sealed1_json)) None)).2 = Ok (Some (set_generation 2 stale1)).
Proof. vm_compute. split; reflexivity. Qed.

Lemma manifest_load_newest_valid_witness :
  (@Man.load text_manifest None first_fs).2 = Ok (Some gen1).
Proof.
  refine (proj2 (proj1 (@Man.manifest_load_newest_valid text_manifest None first_fs
    (Man.current_bytes 1) 1 _ _) gen1) _); [vm_compute; reflexivity|reflexivity|].
  exists 1, gen0. split; [lia|]. split; [vm_compute; reflexivity|]. split; [reflexivity|]. lia.
Defined.

Lemma manifest_save_prunes_witness :
  let m := set_generation 11 gen0 in
  let fs := Man.MkManFs {[Man.generation_filename 2 := [1]; Man.generation_filename 3 := [2]]} None in
  let fs' := (@Man.save text_manifest None fs m).1.1 in
  Man.mf_dir fs' !! Man.generation_filename 2 = None
  ∧ Man.mf_dir fs' !! Man.generation_filename 3 = Some [2].
Proof.
  cbv zeta.
  pose proof (@Man.manifest_save_prunes text_manifest text_manifest_ok
    (Man.MkManFs {[Man.generation_filename 2 := [1]; Man.generation_filename 3 := [2]]} None)
    (set_generation 11 gen0) _ 12 ltac:(by vm_compute) eq_refl) as H.
  split; [apply (H 2); [by vm_compute|lia|lia]|].
  etransitivity; [refine (proj1 (H 3 _) _ _); [by vm_compute|lia|lia]|]. vm_compute. reflexivity.
Defined.
End ManExample.
