(* ===== verification/Period.v ===== *)
(** * Billing periods

    [src/period.rs], and [period_bounds] of [src/api/http_server.rs].  The
    calendar is [chrono]'s: an interface of its own. *)

From Stdlib Require Import Ascii.
From stdpp Require Import sorting numbers strings base gmap list.
From S2P Require Import Prelude Model Manifest.

(** [utc_year_month] is [DateTime::from_timestamp_millis] with [year()] and
    [month()]; [month_start] is midnight UTC of the first of a month in
    milliseconds ([NaiveDate::from_ymd_opt], [and_hms_opt],
    [timestamp_millis]). *)
Class Chrono := {
  utc_year_month : Z → option (Z * Z);
  month_start : Z → Z → option Z;
}.

Definition next_month (y m : Z) : Z * Z := if m =? 12 then (y + 1, 1) else (y, m + 1).

(** The months partition time: an instant has a (year, month) exactly when it
    lies between the start of that month and the start of the next. *)
Class ChronoOk `{!Chrono} : Prop := {
  month_range ts y m : utc_year_month ts = Some (y, m) → 1 ≤ m ≤ 12;
  month_of y m s e ts :
    month_start y m = Some s → month_start (next_month y m).1 (next_month y m).2 = Some e →
    utc_year_month ts = Some (y, m) ↔ s ≤ ts < e;
}.

Inductive period_error := NoDash | InvalidYear | InvalidMonth | MonthOutOfRange (m : Z) | InvalidBounds.

Module Per.
(** [str::split_once('-')]. *)
Fixpoint split_dash (l : list ascii) : option (list ascii * list ascii) :=
  match l with
  | [] => None
  | a :: l =>
      if Ascii.eqb a "-"%char then Some ([], l)
      else '(x, y) ← split_dash l; Some (a :: x, y)
  end.

Definition split_once (s : string) : option (string * string) :=
  '(x, y) ← split_dash (String.list_ascii_of_string s);
  Some (String.string_of_list_ascii x, String.string_of_list_ascii y).

Definition parse_period (s : string) : outcome period_error (Z * Z) :=
  '(year_s, month_s) ← ok_or NoDash (split_once s);
  year ← ok_or InvalidYear (parse_unsigned u16_max year_s);
  month ← ok_or InvalidMonth (parse_unsigned u8_max month_s);
  _ ← guard_err ((1 <=? month) && (month <=? 12)) (MonthOutOfRange month);
  Ok (year, month).

Definition matches_period (account : string) (year month : Z) (p : ClosedPeriod) : bool :=
  bool_decide (cp_account_id p = account) && (cp_year p =? year) && (cp_month p =? month).

Definition is_period_closed (manifest : Manifest) (account : string) (year month : Z) : bool :=
  existsb (matches_period account year month) (m_closed_periods manifest).

Definition find_closed (manifest : Manifest) (account : string) (year month : Z) : option ClosedPeriod :=
  find (matches_period account year month) (m_closed_periods manifest).

Section chrono.
Context {CH : Chrono}.

(** [dt.year() as u16] and [dt.month() as u8] truncate. *)
Definition period_for_ts (ts_ms : Z) : option (Z * Z) :=
  '(y, m) ← utc_year_month ts_ms;
  Some (wrapu 16 y, wrapu 8 m).

(** The end of December is the start of January of the next year. *)
Definition period_bounds (year month : Z) : outcome period_error (Z * Z) :=
  from ← ok_or InvalidBounds (month_start year month);
  next ← ok_or InvalidBounds
           (if month =? 12 then month_start (year + 1) 1 else month_start year (month + 1));
  Ok (from, next).

Lemma period_bounds_next year month :
  (if month =? 12 then month_start (year + 1) 1 else month_start year (month + 1))
  = month_start (next_month year month).1 (next_month year month).2.
Proof. unfold next_month. by destruct (month =? 12). Qed.
End chrono.

(** ** Lemmas *)
Lemma find_closed_is_closed m account y mo :
  is_period_closed m account y mo = true ↔ is_Some (find_closed m account y mo).
Proof.
  unfold is_period_closed, find_closed. rewrite existsb_exists. split.
  - intros (p & Hin & Hp). destruct (find _ _) as [q|] eqn:E; [eauto|].
    by rewrite (find_none _ _ E p Hin) in Hp.
  - intros [q E]. apply find_some in E. eauto.
Qed.

Lemma split_dash_digits ds rest :
  Forall (λ d, 0 ≤ d ≤ 9) ds →
  split_dash ((digit_ascii <$> ds) ++ "-"%char :: rest) = Some (digit_ascii <$> ds, rest).
Proof.
  induction 1 as [|d ds Hd _ IH]; cbn [fmap list_fmap app split_dash]; [done|].
  assert (Ascii.eqb (digit_ascii d) "-"%char = false) as ->.
  { apply Ascii.eqb_neq. intros E. apply digit_value_ascii in Hd. by rewrite E in Hd. }
  change (digit_ascii <$> ds) with (fmap digit_ascii ds) in *. by rewrite IH.
Qed.

(** The form [YYYY-MM] the endpoints and the CLI take. *)
Definition print_period (y m : Z) : string := pad_zero 4 y +:+ "-" +:+ pad_zero 2 m.

Lemma split_once_print y m :
  0 ≤ y → split_once (print_period y m) = Some (pad_zero 4 y, pad_zero 2 m).
Proof.
  intros Hy. destruct (digits_of_spec y Hy) as (H1 & _ & _).
  unfold split_once, print_period. rewrite list_ascii_append.
  unfold pad_zero at 1 3, digits_string. rewrite String.list_ascii_of_string_of_list_ascii.
  change (String.list_ascii_of_string ("-" +:+ pad_zero 2 m))
    with ("-"%char :: String.list_ascii_of_string (pad_zero 2 m)).
  rewrite split_dash_digits.
  - cbn [mbind option_bind]. by rewrite String.string_of_list_ascii_of_string.
  - apply Forall_app. split; [|done]. apply Forall_replicate. lia.
Qed.

(** A printed period parses back, and whatever parses is a 16-bit year
    with a month between 1 and 12. *)
Theorem period_print_parse :
  (∀ y m, 0 ≤ y ≤ u16_max → 1 ≤ m ≤ 12 → parse_period (print_period y m) = Ok (y, m))
  ∧ (∀ s y m, parse_period s = Ok (y, m) → 1 ≤ m ≤ 12).
Proof.
  split.
  - intros y m Hy Hm. unfold parse_period. rewrite split_once_print by lia. cbn [ok_or mbind outcome_bind].
    rewrite !parse_pad_zero by (unfold u8_max, u16_max in *; lia). cbn [ok_or mbind outcome_bind].
    rewrite (proj2 (Z.leb_le _ _)), (proj2 (Z.leb_le _ _)) by lia. done.
  - intros s y m. unfold parse_period. intros H. outcome_inv. destruct a. outcome_inv. simplify_eq. zbool. lia.
Qed.

Lemma parse_period_range s y m : parse_period s = Ok (y, m) → 0 ≤ y < 2 ^ 16 ∧ 1 ≤ m ≤ 12.
Proof.
  unfold parse_period. destruct (split_once s) as [[ys ms]|]; [|done]. cbn [ok_or mbind outcome_bind].
  destruct (parse_unsigned u16_max ys) as [y'|] eqn:Ey; [|done]. cbn [ok_or mbind outcome_bind].
  destruct (parse_unsigned u8_max ms) as [m'|] eqn:Em; [|done]. cbn [ok_or mbind outcome_bind].
  destruct ((1 <=? m') && (m' <=? 12)) eqn:Hr; [|done]. cbn. intros [= <- <-].
  apply parse_unsigned_bounds in Ey; [|done]. apply andb_true_iff in Hr as [?%Z.leb_le ?%Z.leb_le].
  unfold u16_max in Ey. lia.
Qed.

Section membership.
Context {CH : Chrono} {CHok : ChronoOk}.

Lemma period_bounds_spec year month from to ts y m :
  0 ≤ year < 2 ^ 16 → 1 ≤ month ≤ 12 →
  period_bounds year month = Ok (from, to) →
  utc_year_month ts = Some (y, m) → 0 ≤ y < 2 ^ 16 →
  period_for_ts ts = Some (year, month) ↔ from ≤ ts < to.
Proof.
  intros Hy Hm Hb Hym Hyr. unfold period_bounds in Hb. rewrite period_bounds_next in Hb.
  destruct (month_start year month) as [s|] eqn:Es; [|done]. cbn [ok_or mbind outcome_bind] in Hb.
  destruct (month_start _ _) as [e|] eqn:Ee in Hb; [|done]. cbn in Hb. injection Hb as <- <-.
  rewrite <- (month_of year month s e ts Es Ee).
  pose proof (month_range ts y m Hym) as Hmr. unfold period_for_ts. rewrite Hym.
  cbn [mbind option_bind]. unfold wrapu. rewrite !Z.mod_small by lia. done.
Qed.

(** Closing a month covers exactly its instants: for a year of 16 bits a
    timestamp belongs to the period checked at ingest if and only if it lies
    in the bounds the period endpoints query. *)
Theorem period_bounds_exact year month from to ts y m :
  0 ≤ year < 2 ^ 16 → 1 ≤ month ≤ 12 →
  period_bounds year month = Ok (from, to) →
  utc_year_month ts = Some (y, m) → 0 ≤ y < 2 ^ 16 →
  period_for_ts ts = Some (year, month) ↔ from ≤ ts < to.
Proof. apply period_bounds_spec. Qed.
End membership.

(** Outside the 16-bit years the truncation [as u16] aliases periods: an
    instant of the year 67562 is in the same period key as one of 2026. *)
Theorem period_year_truncates (ts1 ts2 : Z) {CH : Chrono} :
  utc_year_month ts1 = Some (2026, 5) → utc_year_month ts2 = Some (2026 + 2 ^ 16, 5) →
  period_for_ts ts1 = period_for_ts ts2.
Proof. intros E1 E2. unfold period_for_ts. by rewrite E1, E2. Qed.

(** ** A calendar of 30-day months, for witnesses *)
Definition flat_calendar : Chrono := {|
  utc_year_month ts := Some (ts / 360, (ts mod 360) / 30 + 1);
  month_start y m := if (1 <=? m) && (m <=? 12) then Some (360 * y + 30 * (m - 1)) else None;
|}.

Lemma flat_calendar_ok : @ChronoOk flat_calendar.
Proof.
  split; cbn.
  - intros ts y m [= <- <-]. pose proof (Z.mod_pos_bound ts 360 ltac:(lia)).
    pose proof (Z.div_pos (ts mod 360) 30). pose proof (Z.div_lt_upper_bound (ts mod 360) 30 12). lia.
  - intros y m s e ts Hs He. destruct ((1 <=? m) && (m <=? 12)) eqn:Em; [|done]. injection Hs as <-.
    zbool. assert (e = 360 * y + 30 * m) as ->.
    { unfold next_month in He. destruct (Z.eqb_spec m 12) as [->|]; cbn in He.
      - injection He as <-. lia.
      - rewrite (proj2 (Z.leb_le _ _)), (proj2 (Z.leb_le _ _)) in He by lia. cbn in He. injection He as <-. lia. }
    pose proof (Z.div_mod ts 360). pose proof (Z.mod_pos_bound ts 360 ltac:(lia)).
    pose proof (Z.div_mod (ts mod 360) 30). pose proof (Z.mod_pos_bound (ts mod 360) 30 ltac:(lia)).
    split.
    + intros [= <- <-]. lia.
    + intros Hts. assert (ts / 360 = y) as E by (symmetry; apply (Z.div_unique_pos _ _ _ (ts - 360 * y)); lia).
      assert (ts mod 360 = ts - 360 * y) as E2 by lia.
      assert ((ts mod 360) / 30 = m - 1) as E3.
      { rewrite E2. symmetry. apply (Z.div_unique_pos _ _ _ (ts - 360 * y - 30 * (m - 1))); lia. }
      rewrite E, E3. f_equal. f_equal. lia.
Qed.

Lemma period_print_parse_witness : parse_period "2026-05" = Ok (2026, 5).
Proof. apply (proj1 period_print_parse 2026 5); unfold u16_max; lia. Defined.

Lemma period_bounds_exact_witness :
  @period_for_ts flat_calendar 729400 = Some (2026, 2) ↔ 729390 ≤ 729400 < 729420.
Proof.
  apply (@period_bounds_exact flat_calendar flat_calendar_ok 2026 2 729390 729420 729400 2026 2);
    [lia|lia|reflexivity|reflexivity|lia].
Defined.

Lemma period_year_truncates_witness :
  @period_for_ts flat_calendar 729480 = @period_for_ts flat_calendar 24322440.
Proof. apply (@period_year_truncates 729480 24322440 flat_calendar); reflexivity. Defined.
End Per.
