(* ===== verification/Flusher.v ===== *)
(** * The flusher

    [src/ingest/flusher.rs]: a drained memtable becomes one segment per
    bucket, and a single manifest save commits all of them together with the
    id of the sealed WAL file.

    The file names drawn with [uuid] and the calls that fail are inputs
    ([draws] gives the i-th bucket its uuid and its fault, if any). *)

From Stdlib Require Import Ascii.
From stdpp Require Import sorting numbers strings base gmap list.
From S2P Require Import Prelude Model Instances Encoding Segment SegmentSpec DedupeIndex SegmentApi.
From S2P Require Import Memtable Wal Manifest.

(** ** [sort_events_canonical] *)
Definition canonical_cmp : UsageEvent → UsageEvent → comparison :=
  then_with (then_with (then_with (then_with
    (cmp_on ev_account_id str_cmp)
    (cmp_on ev_product_id str_cmp))
    (cmp_on ev_meter_id str_cmp))
    (cmp_on (λ e, default "" (ev_model_id e)) str_cmp))
    (cmp_on ev_timestamp_ms Z.compare).

Definition sort_events_canonical (events : list UsageEvent) : list UsageEvent :=
  sort_by canonical_cmp events.

(** ** [build_segment_meta] *)
Definition min_string (cur : option string) (s : string) : option string :=
  match cur with None => Some s | Some c => if str_ltb s c then Some s else cur end.
Definition max_string (cur : option string) (s : string) : option string :=
  match cur with None => Some s | Some c => if str_ltb c s then Some s else cur end.

Record meta_acc := MkMetaAcc {
  ma_min_ts : Z;
  ma_max_ts : Z;
  ma_min_account : option string;
  ma_max_account : option string;
  ma_product_ids : gset string;
  ma_meter_ids : gset string;
  ma_model_ids : gset string;
  ma_quantity_sum : Z;
}.

Definition meta_acc0 : meta_acc := MkMetaAcc i64_max i64_min None None ∅ ∅ ∅ 0.

Definition meta_step (a : meta_acc) (event : UsageEvent) : meta_acc :=
  MkMetaAcc
    (if ev_timestamp_ms event <? ma_min_ts a then ev_timestamp_ms event else ma_min_ts a)
    (if ma_max_ts a <? ev_timestamp_ms event then ev_timestamp_ms event else ma_max_ts a)
    (min_string (ma_min_account a) (ev_account_id event))
    (max_string (ma_max_account a) (ev_account_id event))
    ({[ev_product_id event]} ∪ ma_product_ids a)
    ({[ev_meter_id event]} ∪ ma_meter_ids a)
    (match ev_model_id event with Some m => {[m]} ∪ ma_model_ids a | None => ma_model_ids a end)
    (sat_add_i128 (ma_quantity_sum a) (ev_quantity event)).

Definition build_segment_meta (segment_id : string) (batch : list UsageEvent) (bucket cs : Z) : SegmentMeta :=
  let a := foldl meta_step meta_acc0 batch in
  MkSegmentMeta segment_id RawKind
    (if ma_min_ts a =? i64_max then 0 else ma_min_ts a)
    (if ma_max_ts a =? i64_min then 0 else ma_max_ts a)
    bucket (Z.of_nat (length batch)) (ma_min_account a) (ma_max_account a)
    (ma_product_ids a) (ma_meter_ids a) (ma_model_ids a)
    (Some (ma_quantity_sum a)) cs [].

(** ** The bucket map

    [BTreeMap<u32, Vec<UsageEvent>>] with [entry(..).or_default().push(..)]:
    an association list kept in key order. *)
Fixpoint btree_push {A} (k : Z) (x : A) (l : list (Z * list A)) : list (Z * list A) :=
  match l with
  | [] => [(k, [x])]
  | (k', xs) :: l' =>
      if k <? k' then (k, [x]) :: l
      else if k =? k' then (k', xs ++ [x]) :: l'
      else (k', xs) :: btree_push k x l'
  end.

Definition group_by_key {A} (key : A → Z) (l : list A) : list (Z * list A) :=
  foldl (λ m x, btree_push (key x) x m) [] l.

Definition seg_path (segment_id : string) : string := segment_id +:+ ".seg".

Inductive wb_fault := FaultCreate | FaultFinish | FaultSidecar.

#[export] Instance wb_fault_eq_dec : EqDecision wb_fault.
Proof. solve_decision. Defined.

Inductive flush_reason := CreateSegment (bucket : Z) | FinishSegment (bucket : Z) | ManifestSave.

Record FlushFailure := MkFlushFailure { ff_events : list UsageEvent; ff_reason : flush_reason }.

(** What a flush reads and changes. *)
Record FlushEnv := MkFlushEnv {
  fe_files : gmap string bytes;
  fe_manfs : Man.ManFs;
  fe_manifest : Manifest;
  fe_walfs : WalFs;
}.

(** ** Lemmas: names *)
Lemma seg_path_inj a b : seg_path a = seg_path b → a = b.
Proof.
  intros E. apply (f_equal (str_strip_suffix ".seg")) in E. unfold seg_path in E.
  rewrite !str_strip_suffix_app in E. congruence.
Qed.

Lemma seg_path_not_idx a b : seg_path a ≠ Idx.index_path b.
Proof.
  intros E. apply (f_equal (str_strip_suffix ".seg")) in E. unfold seg_path, Idx.index_path in E.
  rewrite str_strip_suffix_app in E. unfold str_strip_suffix in E.
  rewrite list_ascii_append, reverse_app in E. discriminate E.
Qed.

Lemma append_inj_r (p a b : string) : p +:+ a = p +:+ b → a = b.
Proof.
  intros E. apply (f_equal (str_strip_prefix p)) in E. rewrite !str_strip_prefix_app in E. congruence.
Qed.

(** ** Lemmas: metadata *)
Definition str_le : string → string → Prop := cmp_le str_cmp.

Lemma str_ltb_ge a b : str_ltb a b = false → str_le b a.
Proof.
  unfold str_ltb, str_le. destruct (str_cmp a b) eqn:E; [|done|]; intros _.
  - apply str_cmp_eq in E as ->. unfold cmp_le. by rewrite (cmp_refl str_cmp).
  - exact (cmp_gt_le str_cmp a b E).
Qed.

Lemma str_ltb_lt a b : str_ltb a b = true → str_le a b.
Proof. unfold str_ltb, str_le, cmp_le. by destruct (str_cmp a b). Qed.

Lemma str_le_refl a : str_le a a.
Proof. unfold str_le, cmp_le. by rewrite (cmp_refl str_cmp). Qed.

Lemma str_le_trans a b c : str_le a b → str_le b c → str_le a c.
Proof. apply (cmp_le_trans str_cmp). Qed.

Lemma min_string_le cur s : ∃ lo, min_string cur s = Some lo ∧ str_le lo s ∧ ∀ c, cur = Some c → str_le lo c.
Proof.
  destruct cur as [c|]; cbn.
  - destruct (str_ltb s c) eqn:E; eexists; (split; [done|]); split.
    + apply str_le_refl.
    + intros ? [= <-]. by apply str_ltb_lt.
    + by apply str_ltb_ge.
    + intros ? [= <-]. apply str_le_refl.
  - eexists. split; [done|]. split; [apply str_le_refl|done].
Qed.

Lemma max_string_ge cur s : ∃ hi, max_string cur s = Some hi ∧ str_le s hi ∧ ∀ c, cur = Some c → str_le c hi.
Proof.
  destruct cur as [c|]; cbn.
  - destruct (str_ltb c s) eqn:E; eexists; (split; [done|]); split.
    + apply str_le_refl.
    + intros ? [= <-]. by apply str_ltb_lt.
    + by apply str_ltb_ge.
    + intros ? [= <-]. apply str_le_refl.
  - eexists. split; [done|]. split; [apply str_le_refl|done].
Qed.

(** What the metadata says of one event of the segment. *)
Definition meta_covers (m : SegmentMeta) (e : UsageEvent) : Prop :=
  sm_min_timestamp_ms m ≤ ev_timestamp_ms e ≤ sm_max_timestamp_ms m
  ∧ (∃ lo hi, sm_min_account_id m = Some lo ∧ sm_max_account_id m = Some hi
              ∧ str_le lo (ev_account_id e) ∧ str_le (ev_account_id e) hi)
  ∧ ev_product_id e ∈ sm_product_ids m
  ∧ ev_meter_id e ∈ sm_meter_ids m
  ∧ (∀ x, ev_model_id e = Some x → x ∈ sm_model_ids m).

Definition acc_covers (a : meta_acc) (e : UsageEvent) : Prop :=
  ma_min_ts a ≤ ev_timestamp_ms e ≤ ma_max_ts a
  ∧ (∃ lo hi, ma_min_account a = Some lo ∧ ma_max_account a = Some hi
              ∧ str_le lo (ev_account_id e) ∧ str_le (ev_account_id e) hi)
  ∧ ev_product_id e ∈ ma_product_ids a
  ∧ ev_meter_id e ∈ ma_meter_ids a
  ∧ (∀ x, ev_model_id e = Some x → x ∈ ma_model_ids a).

Lemma meta_step_new a e : acc_covers (meta_step a e) e.
Proof.
  destruct (min_string_le (ma_min_account a) (ev_account_id e)) as (lo & El & Hl & _).
  destruct (max_string_ge (ma_max_account a) (ev_account_id e)) as (hi & Eh & Hh & _).
  unfold acc_covers, meta_step; cbn. split_and!.
  - destruct (Z.ltb_spec (ev_timestamp_ms e) (ma_min_ts a)); lia.
  - destruct (Z.ltb_spec (ma_max_ts a) (ev_timestamp_ms e)); lia.
  - eauto 10.
  - set_solver.
  - set_solver.
  - intros x ->. set_solver.
Qed.

Lemma meta_step_old a e e' : acc_covers a e' → acc_covers (meta_step a e) e'.
Proof.
  intros (Ht & (lo & hi & El & Eh & Hlo & Hhi) & Hp & Hm & Hmo).
  destruct (min_string_le (ma_min_account a) (ev_account_id e)) as (lo' & El' & _ & Hl').
  destruct (max_string_ge (ma_max_account a) (ev_account_id e)) as (hi' & Eh' & _ & Hh').
  unfold acc_covers, meta_step; cbn. split_and!.
  - destruct (Z.ltb_spec (ev_timestamp_ms e) (ma_min_ts a)); lia.
  - destruct (Z.ltb_spec (ma_max_ts a) (ev_timestamp_ms e)); lia.
  - exists lo', hi'. split_and!; [done|done| |].
    + eapply str_le_trans; [by apply Hl'|done].
    + eapply str_le_trans; [done|by apply Hh'].
  - set_solver.
  - set_solver.
  - intros x Hx. destruct (ev_model_id e); set_solver.
Qed.

Lemma meta_fold_covers a batch e :
  (e ∈ batch ∨ acc_covers a e) → acc_covers (foldl meta_step a batch) e.
Proof.
  revert a. induction batch as [|b batch IH]; intros a H; cbn.
  { destruct H as [?%not_elem_of_nil|]; done. }
  apply IH. destruct H as [[->|Hin]%elem_of_cons|H].
  - right. apply meta_step_new.
  - auto.
  - right. by apply meta_step_old.
Qed.

Lemma build_segment_meta_covers id batch bucket cs e :
  e ∈ batch → meta_covers (build_segment_meta id batch bucket cs) e.
Proof.
  intros Hin. destruct (meta_fold_covers meta_acc0 batch e (or_introl Hin)) as (Ht & H).
  split; [|exact H]. cbn. unfold i64_max, i64_min. split; zcase; lia.
Qed.

Lemma meta_fold_sum a batch :
  (∀ n, i128_min ≤ ma_quantity_sum a + sumZ ev_quantity (take n batch) ≤ i128_max) →
  ma_quantity_sum (foldl meta_step a batch) = ma_quantity_sum a + sumZ ev_quantity batch.
Proof.
  revert a. induction batch as [|e batch IH]; intros a Hr; cbn [foldl].
  { change (sumZ ev_quantity []) with 0. lia. }
  assert (ma_quantity_sum (meta_step a e) = ma_quantity_sum a + ev_quantity e) as Es.
  { cbn. apply sat_add_i128_exact. specialize (Hr 1%nat).
    rewrite firstn_cons, sumZ_cons in Hr. change (sumZ ev_quantity (take 0 batch)) with 0 in Hr. lia. }
  rewrite IH, Es, sumZ_cons; [lia|]. intros n. rewrite Es. specialize (Hr (S n)).
  rewrite firstn_cons, sumZ_cons in Hr. lia.
Qed.

(** ** Lemmas: grouping *)
Section grouping.
Context {A : Type} (key : A → Z).

Lemma btree_push_perm k (x : A) l : mjoin (btree_push k x l).*2 ≡ₚ mjoin l.*2 ++ [x].
Proof.
  induction l as [|[k' xs] l IH]; cbn; [done|].
  destruct (k <? k'); [|destruct (k =? k')]; cbn.
  - rewrite (Permutation_app_comm _ [x]). done.
  - rewrite <- !app_assoc. apply Permutation_app_head, Permutation_app_comm.
  - rewrite <- app_assoc. by apply Permutation_app_head.
Qed.

Definition groups_ok (l : list (Z * list A)) : Prop :=
  Forall (λ p, p.2 ≠ [] ∧ Forall (λ x, key x = p.1) p.2) l.

Lemma btree_push_ok x l : groups_ok l → groups_ok (btree_push (key x) x l).
Proof.
  induction 1 as [|[k' xs] l [Hne Hx] Hl IH]; cbn.
  { repeat constructor. done. }
  destruct (key x <? k'); [|destruct (Z.eqb_spec (key x) k') as [E|]].
  - constructor; [|by constructor]. cbn. split; [done|]. by constructor.
  - constructor; [|done]. cbn. split; [by destruct xs|]. apply Forall_app. split; [done|]. by constructor.
  - by constructor.
Qed.

Lemma group_fold l m :
  groups_ok m →
  mjoin (foldl (λ m x, btree_push (key x) x m) m l).*2 ≡ₚ mjoin m.*2 ++ l
  ∧ groups_ok (foldl (λ m x, btree_push (key x) x m) m l).
Proof.
  revert m. induction l as [|x l IH]; intros m Hm; cbn.
  { by rewrite app_nil_r. }
  destruct (IH (btree_push (key x) x m) (btree_push_ok x m Hm)) as [H1 H2].
  split; [|done]. rewrite H1, btree_push_perm, <- app_assoc. done.
Qed.

Lemma group_by_key_perm l : mjoin (group_by_key key l).*2 ≡ₚ l.
Proof. destruct (group_fold l []) as [H _]; [constructor|exact H]. Qed.

Lemma group_by_key_ok l : groups_ok (group_by_key key l).
Proof. destruct (group_fold l []) as [_ H]; [constructor|exact H]. Qed.
End grouping.

Module Flush.
Section flusher.
Context {BL : Blake3} {BN : Bincode} {RS : RawSegments} {MJ : ManifestJson}.

Definition index_entry (e : UsageEvent) : Idx.DedupeEntry :=
  let '(id_hash, payload_hash) := compute_event_hashes e in
  (id_hash, payload_hash, ev_ingested_at_ms e).

(** Writing the sidecar; a failure removes what it left. *)
Definition write_sidecar (fault : option wb_fault) (files : gmap string bytes) (segment_id : string)
    (entries : list Idx.DedupeEntry) : gmap string bytes :=
  let idx_path := Idx.index_path segment_id in
  match fault, Idx.write_dedupe_index entries with
  | Some FaultSidecar, _ => delete idx_path files
  | _, Ok b => <[idx_path := b]> files
  | _, _ => delete idx_path files
  end.

Definition write_bucket (fault : option wb_fault) (files : gmap string bytes)
    (bucket : Z) (uuid : string) (bucket_events : list UsageEvent)
    : gmap string bytes * outcome flush_reason (SegmentMeta * string) :=
  let sorted := sort_events_canonical bucket_events in
  let segment_id := "raw_" +:+ uuid in
  let path := seg_path segment_id in
  if bool_decide (fault = Some FaultCreate) then (files, Err (CreateSegment bucket))
  else
    let files := <[path := []]> files in
    let index_entries := index_entry <$> sorted in
    if bool_decide (fault = Some FaultFinish) then (delete path files, Err (FinishSegment bucket))
    else
      match seg_write sorted with
      | Ok (bs, _, cs) =>
          let files := <[path := bs]> files in
          let files := write_sidecar fault files segment_id index_entries in
          (files, Ok (build_segment_meta segment_id sorted bucket cs, path))
      | Err _ => (delete path files, Err (FinishSegment bucket))
      | Panic => (files, Panic)
      end.

Definition rollback_partial (files : gmap string bytes) (paths : list string) : gmap string bytes :=
  foldl (λ f p, delete p f) files paths.

(** The bucket loop: the new metadata and paths, or the failure with the
    events of the failing bucket and the ones behind it. *)
Fixpoint flush_buckets (draws : nat → string * option wb_fault) (i : nat) (files : gmap string bytes)
    (buckets : list (Z * list UsageEvent)) (new_metas : list SegmentMeta) (written_paths : list string)
    : gmap string bytes * outcome FlushFailure (list SegmentMeta * list string) :=
  match buckets with
  | [] => (files, Ok (new_metas, written_paths))
  | (bucket, bucket_events) :: rest =>
      match write_bucket (draws i).2 files bucket (draws i).1 bucket_events with
      | (files, Ok (meta, path)) =>
          flush_buckets draws (S i) files rest (new_metas ++ [meta]) (written_paths ++ [path])
      | (files, Err reason) =>
          (rollback_partial files written_paths,
           Err (MkFlushFailure (bucket_events ++ mjoin rest.*2) reason))
      | (files, Panic) => (files, Panic)
      end
  end.

(** Committing the manifest: the mutation happens before the save. *)
Definition commit_manifest (m : Manifest) (new_metas : list SegmentMeta) (sealed_wal_id : Z) : Manifest :=
  let m := set_raw_segments (m_raw_segments m ++ new_metas) m in
  if m_last_sealed_wal_id m <? sealed_wal_id then set_last_sealed sealed_wal_id m else m.

Definition bucket_of (bucket_count : Z) (e : UsageEvent) : Z :=
  bucket_for_account (ev_account_id e) bucket_count.

Definition attempt_flush (draws : nat → string * option wb_fault) (sfault : Man.save_fault)
    (env : FlushEnv) (events : list UsageEvent) (sealed_wal_id : Z)
    : FlushEnv * outcome FlushFailure unit :=
  let bucket_count := Z.max (m_bucket_count (fe_manifest env)) 1 in
  let by_bucket := group_by_key (bucket_of bucket_count) events in
  match flush_buckets draws 0 (fe_files env) by_bucket [] [] with
  | (files, Ok (new_metas, written_paths)) =>
      let m := commit_manifest (fe_manifest env) new_metas sealed_wal_id in
      match Man.save sfault (fe_manfs env) m with
      | (manfs, m, Ok _) =>
          (MkFlushEnv files manfs m (WalOps.delete_files_through (fe_walfs env) sealed_wal_id), Ok tt)
      | (manfs, m, _) =>
          (MkFlushEnv (rollback_partial files written_paths) manfs m (fe_walfs env),
           Err (MkFlushFailure [] ManifestSave))
      end
  | (files, Err f) => (MkFlushEnv files (fe_manfs env) (fe_manifest env) (fe_walfs env), Err f)
  | (files, Panic) => (MkFlushEnv files (fe_manfs env) (fe_manifest env) (fe_walfs env), Panic)
  end.

(** [handle_message]: a failed flush puts its events back into the memtable. *)
Definition handle_message (size_of_event now : Z) (draws : nat → string * option wb_fault)
    (sfault : Man.save_fault) (env : FlushEnv) (memtable : Memtable)
    (events : list UsageEvent) (sealed_wal_id : Z) : FlushEnv * Memtable :=
  if bool_decide (events = []) then (env, memtable)
  else
    match attempt_flush draws sfault env events sealed_wal_id with
    | (env, Err failure) => (env, Mem.insert_all size_of_event now memtable (ff_events failure))
    | (env, _) => (env, memtable)
    end.

(** ** Lemmas: the bucket loop *)

(** The file of a segment holds these rows. *)
Definition seg_at (files : gmap string bytes) (meta : SegmentMeta) (es : list UsageEvent) : Prop :=
  ∃ bs, files !! seg_path (sm_segment_id meta) = Some bs ∧ seg_read_all bs = Ok es.

(** The rows a reader gets from a segment, none when it is missing or corrupt. *)
Definition seg_events (files : gmap string bytes) (meta : SegmentMeta) : list UsageEvent :=
  match files !! seg_path (sm_segment_id meta) with
  | Some bs => match seg_read_all bs with Ok es => es | _ => [] end
  | None => []
  end.

Definition stored (files : gmap string bytes) (segs : list SegmentMeta) : list UsageEvent :=
  mjoin (seg_events files <$> segs).

Lemma seg_at_events files meta es : seg_at files meta es → seg_events files meta = es.
Proof. intros (bs & E & Er). unfold seg_events. by rewrite E, Er. Qed.

Lemma write_sidecar_other fault files id entries name :
  name ≠ Idx.index_path id → write_sidecar fault files id entries !! name = files !! name.
Proof.
  intros Hn. unfold write_sidecar.
  repeat case_match; rewrite ?lookup_insert_ne, ?lookup_delete_ne by congruence; done.
Qed.

Context {RSok : RawSegmentsOk}.

Lemma write_bucket_ok fault files bucket uuid es :
  fault = None ∨ fault = Some FaultSidecar → seg_fits (sort_events_canonical es) →
  ∃ files' cs,
    let id := "raw_" +:+ uuid in
    let meta := build_segment_meta id (sort_events_canonical es) bucket cs in
    write_bucket fault files bucket uuid es = (files', Ok (meta, seg_path id))
    ∧ seg_at files' meta (sort_events_canonical es)
    ∧ ∀ name, name ≠ seg_path id → name ≠ Idx.index_path id → files' !! name = files !! name.
Proof.
  intros Hf Hfit. destruct (seg_roundtrip _ Hfit) as (bs & cs & Ew & Eo).
  unfold write_bucket. rewrite !bool_decide_false by (destruct Hf as [-> | ->]; done).
  rewrite Ew. eexists _, cs. cbn zeta. split; [reflexivity|]. split.
  - exists bs. cbn [sm_segment_id build_segment_meta]. rewrite write_sidecar_other by apply seg_path_not_idx.
    rewrite lookup_insert_eq. split; [done|]. by eapply seg_read_all_written.
  - intros name H1 H2. rewrite write_sidecar_other by done. by rewrite !lookup_insert_ne by done.
Qed.

Definition draw_id (draws : nat → string * option wb_fault) (i : nat) : string := "raw_" +:+ (draws i).1.

(** The draws name distinct files and do not fail a segment write. *)
Definition good_draws (draws : nat → string * option wb_fault) : Prop :=
  (∀ i, (draws i).2 = None ∨ (draws i).2 = Some FaultSidecar)
  ∧ (∀ i j, (draws i).1 = (draws j).1 → i = j).

Lemma draw_id_inj draws i j : good_draws draws → draw_id draws i = draw_id draws j → i = j.
Proof. intros [_ Hinj] E%append_inj_r. by apply Hinj. Qed.

Definition written (files : gmap string bytes) (p : Z * list UsageEvent) (meta : SegmentMeta) : Prop :=
  seg_at files meta (sort_events_canonical p.2)
  ∧ ∃ cs, meta = build_segment_meta (sm_segment_id meta) (sort_events_canonical p.2) p.1 cs.

Lemma flush_buckets_ok draws i files buckets metas paths :
  good_draws draws →
  Forall (λ p, seg_fits (sort_events_canonical p.2)) buckets →
  ∃ files' new,
    flush_buckets draws i files buckets metas paths
    = (files', Ok (metas ++ new, paths ++ ((λ m, seg_path (sm_segment_id m)) <$> new)))
    ∧ Forall2 (written files') buckets new
    ∧ sm_segment_id <$> new = draw_id draws <$> seq i (length buckets)
    ∧ ∀ name, (∀ j, (i ≤ j)%nat → name ≠ seg_path (draw_id draws j) ∧ name ≠ Idx.index_path (draw_id draws j)) →
        files' !! name = files !! name.
Proof.
  intros Hd H. revert i files metas paths. induction H as [|[b es] buckets Hfit _ IH]; intros i files metas paths.
  { exists files, []. cbn. rewrite !app_nil_r. repeat (split; [done|]). done. }
  destruct (write_bucket_ok (draws i).2 files b (draws i).1 es) as (files1 & cs & Ew & Hat & Hsame);
    [by apply Hd|done|]. cbn [flush_buckets]. rewrite Ew.
  destruct (IH (S i) files1 (metas ++ [build_segment_meta ("raw_" +:+ (draws i).1) (sort_events_canonical es) b cs])
              (paths ++ [seg_path ("raw_" +:+ (draws i).1)])) as (files' & new & E & Hw & Hids & Hsame').
  set (m0 := build_segment_meta ("raw_" +:+ (draws i).1) (sort_events_canonical es) b cs) in *.
  exists files', (m0 :: new). rewrite E, <- !app_assoc. split; [reflexivity|].
  assert (∀ j, (S i ≤ j)%nat → draw_id draws i ≠ draw_id draws j) as Hne.
  { intros j Hj Heq%draw_id_inj; [lia|done]. }
  split; [|split].
  - constructor; [|done]. split; [|by eexists]. destruct Hat as (bs & E1 & E2). exists bs. split; [|done].
    rewrite Hsame'; [done|]. intros j Hj. split; [|apply seg_path_not_idx].
    intros Heq%seg_path_inj. by apply (Hne j).
  - cbn. f_equal. exact Hids.
  - intros name Hn. rewrite Hsame' by (intros j Hj; apply Hn; lia). apply Hsame; apply (Hn i); lia.
Qed.

Lemma stored_written files buckets new :
  Forall2 (written files) buckets new → stored files new ≡ₚ mjoin buckets.*2.
Proof.
  induction 1 as [|p meta buckets new [Hat _] _ IH]; [done|].
  unfold stored in *. cbn. rewrite (seg_at_events _ _ _ Hat), IH.
  apply Permutation_app_tail, sort_by_perm.
Qed.

Lemma stored_same files files' segs :
  (∀ m, m ∈ segs → files' !! seg_path (sm_segment_id m) = files !! seg_path (sm_segment_id m)) →
  stored files' segs = stored files segs.
Proof.
  intros H. unfold stored. f_equal. apply list_fmap_ext. intros i m Hm.
  unfold seg_events. rewrite H; [done|]. by eapply list_elem_of_lookup_2.
Qed.

Lemma stored_app files l1 l2 : stored files (l1 ++ l2) = stored files l1 ++ stored files l2.
Proof. unfold stored. by rewrite fmap_app, join_app. Qed.

Lemma commit_manifest_fields m new sealed :
  let m' := commit_manifest m new sealed in
  m_raw_segments m' = m_raw_segments m ++ new
  ∧ m_last_sealed_wal_id m' = Z.max (m_last_sealed_wal_id m) sealed
  ∧ m_current_generation m' = m_current_generation m
  ∧ m_bucket_count m' = m_bucket_count m
  ∧ m_rollup_segments m' = m_rollup_segments m
  ∧ m_hourly_rollup_ms m' = m_hourly_rollup_ms m
  ∧ m_closed_periods m' = m_closed_periods m.
Proof.
  unfold commit_manifest. cbn. destruct (Z.ltb_spec (m_last_sealed_wal_id m) sealed); cbn.
  - rewrite Z.max_r by lia. done.
  - rewrite Z.max_l by lia. done.
Qed.

Context {MJok : ManifestJsonOk}.

(** The buckets a flush writes. *)
Definition flush_groups (env : FlushEnv) (events : list UsageEvent) : list (Z * list UsageEvent) :=
  group_by_key (bucket_of (Z.max (m_bucket_count (fe_manifest env)) 1)) events.

Definition fresh_for (draws : nat → string * option wb_fault) (m : Manifest) : Prop :=
  ∀ i meta, meta ∈ m_raw_segments m → sm_segment_id meta ≠ draw_id draws i.

(** Metadata that describes what its segment holds. *)
Definition meta_sound (bucket_count : Z) (files : gmap string bytes) (meta : SegmentMeta) : Prop :=
  sm_row_count meta = Z.of_nat (length (seg_events files meta))
  ∧ ∀ e, e ∈ seg_events files meta → meta_covers meta e ∧ bucket_of bucket_count e = sm_bucket meta.

Lemma written_sound bc files p meta :
  Forall (λ e, bucket_of bc e = p.1) p.2 → written files p meta → meta_sound bc files meta.
Proof.
  intros Hb [Hat (cs & E)]. unfold meta_sound. rewrite (seg_at_events _ _ _ Hat). rewrite E. split; [done|].
  intros e He. split; [by apply build_segment_meta_covers|]. cbn.
  rewrite Forall_forall in Hb. apply Hb. by rewrite (sort_by_perm canonical_cmp) in He.
Qed.

Lemma flush_success draws env events sealed :
  good_draws draws → fresh_for draws (fe_manifest env) →
  Forall (λ p, seg_fits (sort_events_canonical p.2)) (flush_groups env events) →
  0 ≤ m_current_generation (fe_manifest env) < u64_max →
  ∃ env' new,
    attempt_flush draws None env events sealed = (env', Ok tt)
    ∧ m_raw_segments (fe_manifest env') = m_raw_segments (fe_manifest env) ++ new
    ∧ Forall2 (written (fe_files env')) (flush_groups env events) new
    ∧ (∀ name, (∀ j, name ≠ seg_path (draw_id draws j) ∧ name ≠ Idx.index_path (draw_id draws j)) →
               fe_files env' !! name = fe_files env !! name)
    ∧ fe_manifest env' = set_generation (m_current_generation (fe_manifest env) + 1)
                           (commit_manifest (fe_manifest env) new sealed)
    ∧ Man.load None (fe_manfs env') = (fe_manfs env', Ok (Some (fe_manifest env')))
    ∧ fe_walfs env' = WalOps.delete_files_through (fe_walfs env) sealed.
Proof.
  intros Hd Hfr Hfit Hg. unfold attempt_flush, flush_groups in *.
  destruct (flush_buckets_ok draws 0 (fe_files env) _ [] [] Hd Hfit) as (files & new & -> & Hw & Hids & Hsame).
  cbn [app]. set (m := commit_manifest (fe_manifest env) new sealed).
  destruct (commit_manifest_fields (fe_manifest env) new sealed) as (Hr & Hls & Hgen & Hrest). fold m in Hr, Hls, Hgen.
  destruct (Man.save_then_load None (fe_manfs env) m) as (manfs & -> & Hl); [by rewrite Hgen|].
  eexists _, new. split; [reflexivity|]. cbn [fe_manifest fe_files fe_manfs fe_walfs].
  split; [exact Hr|]. split; [done|]. split; [intros name Hn; apply Hsame; auto|].
  split; [by rewrite Hgen|]. split; [exact Hl|done].
Qed.

Lemma draws_other draws id :
  (∀ i, id ≠ draw_id draws i) →
  ∀ j, seg_path id ≠ seg_path (draw_id draws j) ∧ seg_path id ≠ Idx.index_path (draw_id draws j).
Proof. intros H j. split; [intros E%seg_path_inj; by eapply H|apply seg_path_not_idx]. Qed.

Lemma flush_effect draws env events sealed :
  good_draws draws → fresh_for draws (fe_manifest env) →
  Forall (λ p, seg_fits (sort_events_canonical p.2)) (flush_groups env events) →
  0 ≤ m_current_generation (fe_manifest env) < u64_max →
  ∃ env', attempt_flush draws None env events sealed = (env', Ok tt)
    ∧ stored (fe_files env') (m_raw_segments (fe_manifest env'))
      ≡ₚ stored (fe_files env) (m_raw_segments (fe_manifest env)) ++ events
    ∧ (∀ meta, meta ∈ m_raw_segments (fe_manifest env') →
         meta ∈ m_raw_segments (fe_manifest env)
         ∨ meta_sound (Z.max (m_bucket_count (fe_manifest env)) 1) (fe_files env') meta)
    ∧ Man.load None (fe_manfs env') = (fe_manfs env', Ok (Some (fe_manifest env')))
    ∧ m_last_sealed_wal_id (fe_manifest env') = Z.max (m_last_sealed_wal_id (fe_manifest env)) sealed
    ∧ fe_walfs env' = WalOps.delete_files_through (fe_walfs env) sealed
    ∧ m_bucket_count (fe_manifest env') = m_bucket_count (fe_manifest env)
    ∧ (∀ meta, meta ∈ m_raw_segments (fe_manifest env') →
         meta ∈ m_raw_segments (fe_manifest env)
           ∧ seg_events (fe_files env') meta = seg_events (fe_files env) meta
           ∧ (seg_at (fe_files env) meta (seg_events (fe_files env) meta) →
              seg_at (fe_files env') meta (seg_events (fe_files env') meta))
         ∨ seg_at (fe_files env') meta (seg_events (fe_files env') meta))
    ∧ (∀ meta, meta ∈ m_raw_segments (fe_manifest env) →
         fe_files env' !! seg_path (sm_segment_id meta) = fe_files env !! seg_path (sm_segment_id meta)).
Proof.
  intros Hd Hfr Hfit Hg.
  destruct (flush_success draws env events sealed Hd Hfr Hfit Hg)
    as (env' & new & E & Hraw & Hw & Hsame & Hm & Hl & Hwal).
  assert (∀ meta, meta ∈ m_raw_segments (fe_manifest env) →
    fe_files env' !! seg_path (sm_segment_id meta) = fe_files env !! seg_path (sm_segment_id meta)) as Hold.
  { intros meta Hin. apply Hsame, draws_other. intros i. by apply Hfr. }
  exists env'. split; [exact E|]. split; [|split; [|split; [done|split; [|split; [done|split; [|split; [|exact Hold]]]]]]].
  - rewrite Hraw, stored_app. apply Permutation_app.
    + rewrite (stored_same (fe_files env) (fe_files env')); [done|].
      exact Hold.
    + rewrite (stored_written _ _ _ Hw). apply group_by_key_perm.
  - intros meta Hin. rewrite Hraw, elem_of_app in Hin. destruct Hin as [?|Hin]; [by left|right].
    apply list_elem_of_lookup in Hin as [k Hk].
    destruct (Forall2_lookup_r _ _ _ _ _ Hw Hk) as (p & Hp & Hwr).
    apply written_sound with p; [|done].
    pose proof (group_by_key_ok (bucket_of (Z.max (m_bucket_count (fe_manifest env)) 1)) events) as Hok.
    apply (Forall_lookup_1 _ _ _ _ Hok) in Hp as [_ ?]. done.
  - rewrite Hm. apply commit_manifest_fields.
  - rewrite Hm. by destruct (commit_manifest_fields (fe_manifest env) new sealed) as (_ & _ & _ & ? & _).
  - intros meta Hin. rewrite Hraw, elem_of_app in Hin. destruct Hin as [Hin|Hin].
    + left. split; [done|]. unfold seg_at, seg_events. by rewrite (Hold meta Hin).
    + right. apply list_elem_of_lookup in Hin as [k Hk].
      destruct (Forall2_lookup_r _ _ _ _ _ Hw Hk) as (p & _ & [Hat _]). by rewrite (seg_at_events _ _ _ Hat).
Qed.

(** C16: a flush that succeeds loses and invents nothing: afterwards the
    segments of the manifest hold what they held before plus exactly the
    flushed events, each new segment's metadata covers all of its rows, the
    saved manifest is the one in memory, and only the sealed WAL files go. *)
Theorem flush_commits draws env events sealed :
  good_draws draws → fresh_for draws (fe_manifest env) →
  Forall (λ p, seg_fits (sort_events_canonical p.2)) (flush_groups env events) →
  0 ≤ m_current_generation (fe_manifest env) < u64_max →
  ∃ env', attempt_flush draws None env events sealed = (env', Ok tt)
    ∧ stored (fe_files env') (m_raw_segments (fe_manifest env'))
      ≡ₚ stored (fe_files env) (m_raw_segments (fe_manifest env)) ++ events
    ∧ (∀ meta, meta ∈ m_raw_segments (fe_manifest env') →
         meta ∈ m_raw_segments (fe_manifest env)
         ∨ meta_sound (Z.max (m_bucket_count (fe_manifest env)) 1) (fe_files env') meta)
    ∧ (Man.load None (fe_manfs env')).2 = Ok (Some (fe_manifest env'))
    ∧ m_last_sealed_wal_id (fe_manifest env') = Z.max (m_last_sealed_wal_id (fe_manifest env)) sealed
    ∧ fe_walfs env' = WalOps.delete_files_through (fe_walfs env) sealed.
Proof.
  intros Hd Hfr Hfit Hg.
  destruct (flush_effect draws env events sealed Hd Hfr Hfit Hg) as (env' & E & Hst & Hm & Hl & Hls & Hw & _).
  exists env'. rewrite Hl. done.
Qed.

(** The metadata of a segment is exact where pruning relies on it: it
    covers every event of the batch, and its quantity is the true sum as long
    as no running total leaves i128. *)
Theorem segment_meta_exact id batch bucket cs :
  (∀ n, i128_min ≤ sumZ ev_quantity (take n batch) ≤ i128_max) →
  let meta := build_segment_meta id batch bucket cs in
  Forall (meta_covers meta) batch
  ∧ sm_quantity_sum meta = Some (sumZ ev_quantity batch)
  ∧ sm_row_count meta = Z.of_nat (length batch).
Proof.
  intros Hr. cbn zeta. split; [|split; [|done]].
  - apply Forall_forall. intros e. apply build_segment_meta_covers.
  - cbn. f_equal. rewrite meta_fold_sum; [done|]. exact Hr.
Qed.

(** The canonical order is a stable sort: a permutation of the batch,
    ordered by account, product, meter, model and time, leaving a batch that
    is already ordered unchanged. *)
Theorem canonical_sort_spec (events : list UsageEvent) :
  sort_events_canonical events ≡ₚ events
  ∧ StronglySorted (cmp_le canonical_cmp) (sort_events_canonical events)
  ∧ sort_events_canonical (sort_events_canonical events) = sort_events_canonical events
  ∧ ∀ k, filter (λ e, canonical_cmp k e = Eq) (sort_events_canonical events)
         = filter (λ e, canonical_cmp k e = Eq) events.
Proof.
  assert (CmpOk canonical_cmp) by apply _.
  split; [apply sort_by_perm|]. split; [by apply sort_by_sorted|]. split.
  - apply sort_by_id. by apply sort_by_sorted.
  - intros k. by apply sort_by_stable.
Qed.

(** ** Failures *)
Lemma rollback_lookup files paths name :
  rollback_partial files paths !! name = if decide (name ∈ paths) then None else files !! name.
Proof.
  unfold rollback_partial. revert files. induction paths as [|p paths IH]; intros files; cbn.
  { by rewrite decide_False by apply not_elem_of_nil. }
  rewrite IH. destruct (decide (name ∈ paths)) as [Hin|Hn].
  - rewrite decide_True; [done|]. set_solver.
  - destruct (decide (name = p)) as [->|Hne].
    + rewrite lookup_delete_eq, decide_True; [done|]. set_solver.
    + rewrite lookup_delete_ne, decide_False by (set_solver || congruence). done.
Qed.

Definition fails (f : option wb_fault) : Prop := f = Some FaultCreate ∨ f = Some FaultFinish.

Lemma write_bucket_fails fault files b uuid es :
  fails fault → ∃ files' r, write_bucket fault files b uuid es = (files', Err r).
Proof. intros [-> | ->]; unfold write_bucket; cbn; eauto. Qed.

Lemma flush_buckets_fail draws k i files buckets metas paths :
  (∀ j, (i ≤ j < i + k)%nat → (draws j).2 = None ∨ (draws j).2 = Some FaultSidecar) →
  fails (draws (i + k)%nat).2 → (k < length buckets)%nat →
  Forall (λ p, seg_fits (sort_events_canonical p.2)) buckets →
  ∃ files' reason,
    flush_buckets draws i files buckets metas paths
    = (rollback_partial files' (paths ++ ((λ j, seg_path (draw_id draws j)) <$> seq i k)),
       Err (MkFlushFailure (mjoin (drop k buckets).*2) reason)).
Proof.
  revert i files buckets metas paths.
  induction k as [|k IH]; intros i files buckets metas paths Hok Hbad Hlen Hfit;
    destruct buckets as [|[b es] buckets]; cbn in Hlen; try lia; cbn [flush_buckets].
  - rewrite Nat.add_0_r in Hbad.
    destruct (write_bucket_fails (draws i).2 files b (draws i).1 es Hbad) as (files' & r & ->).
    eexists files', _. cbn. by rewrite app_nil_r.
  - apply Forall_cons in Hfit as [Hf Hfit].
    destruct (write_bucket_ok (draws i).2 files b (draws i).1 es) as (files1 & cs & Ew & _);
      [apply Hok; lia|done|]. rewrite Ew.
    destruct (IH (S i) files1 buckets
                (metas ++ [build_segment_meta ("raw_" +:+ (draws i).1) (sort_events_canonical es) b cs])
                (paths ++ [seg_path ("raw_" +:+ (draws i).1)])) as (files' & r & E); [| |lia|done|].
    + intros j Hj. apply Hok. lia.
    + by replace (S i + k)%nat with (i + S k)%nat by lia.
    + exists files', r. rewrite E, <- app_assoc. done.
Qed.

(** When bucket [k] of a flush cannot be written, the flusher removes the
    segments of the buckets before it but hands back for retry only the
    events of bucket [k] and later: the events of the earlier buckets are in
    no segment, not in the manifest and not in the memtable. *)
Theorem flush_failure_forgets_buckets draws k env events sealed :
  (∀ j, (j < k)%nat → (draws j).2 = None ∨ (draws j).2 = Some FaultSidecar) →
  fails (draws k).2 → (k < length (flush_groups env events))%nat →
  Forall (λ p, seg_fits (sort_events_canonical p.2)) (flush_groups env events) →
  ∃ env' f, attempt_flush draws None env events sealed = (env', Err f)
    ∧ ff_events f = mjoin (drop k (flush_groups env events)).*2
    ∧ fe_manifest env' = fe_manifest env
    ∧ (∀ j, (j < k)%nat → fe_files env' !! seg_path (draw_id draws j) = None)
    ∧ events ≡ₚ mjoin (take k (flush_groups env events)).*2 ++ ff_events f.
Proof.
  intros Hok Hbad Hlen Hfit. unfold attempt_flush. fold (flush_groups env events).
  destruct (flush_buckets_fail draws k 0 (fe_files env) (flush_groups env events) [] [])
    as (files' & r & ->); [intros j Hj; apply Hok; lia|done|done|done|].
  eexists _, _. split; [reflexivity|]. cbn [ff_events fe_manifest fe_files]. split; [done|].
  split; [done|]. split.
  - intros j Hj. rewrite rollback_lookup, decide_True; [done|]. cbn [app].
    apply list_elem_of_fmap. exists j. split; [done|]. apply elem_of_seq. lia.
  - rewrite <- join_app, <- fmap_app, take_drop. symmetry. apply group_by_key_perm.
Qed.

(** When the manifest save of a flush fails, the segment files are removed
    and nothing is handed back, but the manifest in memory keeps the new
    entries and the advanced WAL pointer: it names files that do not exist,
    and its next successful save makes recovery skip the WAL files that still
    hold the events. *)
Theorem flush_save_failure_keeps_pointer draws fault env events sealed :
  good_draws draws →
  Forall (λ p, seg_fits (sort_events_canonical p.2)) (flush_groups env events) →
  ∃ env' new, attempt_flush draws (Some fault) env events sealed
      = (env', Err (MkFlushFailure [] ManifestSave))
    ∧ fe_manifest env' = commit_manifest (fe_manifest env) new sealed
    ∧ length new = length (flush_groups env events)
    ∧ m_last_sealed_wal_id (fe_manifest env') = Z.max (m_last_sealed_wal_id (fe_manifest env)) sealed
    ∧ (∀ meta, meta ∈ new → fe_files env' !! seg_path (sm_segment_id meta) = None)
    ∧ fe_walfs env' = fe_walfs env.
Proof.
  intros Hd Hfit. unfold attempt_flush. fold (flush_groups env events).
  destruct (flush_buckets_ok draws 0 (fe_files env) (flush_groups env events) [] [] Hd Hfit)
    as (files & new & -> & Hw & Hids & Hsame). cbn [app].
  destruct (mjson_total (commit_manifest (fe_manifest env) new sealed)) as [json Hj].
  assert (∃ manfs, Man.save (Some fault) (fe_manfs env) (commit_manifest (fe_manifest env) new sealed)
          = (manfs, commit_manifest (fe_manifest env) new sealed, Err Man.ManIo)) as [manfs ->].
  { destruct fault as [k n]. unfold Man.save. rewrite Hj. destruct (_ !! k); eauto. }
  eexists _, new. split; [reflexivity|]. cbn [fe_manifest fe_files fe_walfs]. split; [done|].
  split; [by rewrite (Forall2_length _ _ _ Hw)|]. split; [apply commit_manifest_fields|].
  split; [|done]. intros meta Hin. rewrite rollback_lookup, decide_True; [done|].
  apply list_elem_of_fmap. eauto.
Qed.
End flusher.
End Flush.

(** ** Witnesses *)
Module FlushExample.
#[local] Existing Instances poly_digest code_bincode stored_codecs ManExample.text_manifest.
#[local] Existing Instances poly_digest_ok code_bincode_ok stored_codecs_ok ManExample.text_manifest_ok.
#[local] Existing Instances Files.file_segments Files.file_segments_ok.

Definition uuid_of (i : nat) : string := String.string_of_list_ascii (replicate i "a"%char).
Definition good (i : nat) : string * option wb_fault := (uuid_of i, None).
Definition second_fails (i : nat) : string * option wb_fault :=
  (uuid_of i, if (i =? 1)%nat then Some FaultCreate else None).

Definition env0 : FlushEnv :=
  MkFlushEnv ∅ ManExample.empty_man ManExample.gen0 (MkWalFs {[WalOps.wal_filename 1 := [65; 10]]} ∅).

Definition ev1 : UsageEvent := sample_event "a" "acct_1" 1000 5.
Definition ev2 : UsageEvent := sample_event "b" "acct_2" 2000 7.

Lemma uuid_of_inj i j : uuid_of i = uuid_of j → i = j.
Proof.
  intros E. apply (f_equal String.list_ascii_of_string) in E. unfold uuid_of in E.
  rewrite !String.list_ascii_of_string_of_list_ascii in E.
  apply (f_equal length) in E. by rewrite !length_replicate in E.
Qed.

Lemma good_draws_good : Flush.good_draws good.
Proof. split; [by left|]. intros i j. apply uuid_of_inj. Qed.

Lemma groups_fit :
  Forall (λ p, seg_fits (sort_events_canonical p.2)) (Flush.flush_groups env0 [ev1; ev2]).
Proof.
  assert (Flush.flush_groups env0 [ev1; ev2] = [(2, [ev1]); (3, [ev2])]) as ->; [vm_compute; reflexivity|].
  repeat constructor; cbn; vm_compute; done.
Qed.

Lemma flush_commits_witness :
  ∃ env', Flush.attempt_flush good None env0 [ev1; ev2] 1 = (env', Ok tt)
    ∧ Flush.stored (fe_files env') (m_raw_segments (fe_manifest env')) ≡ₚ [ev1; ev2].
Proof.
  destruct (Flush.flush_commits good env0 [ev1; ev2] 1) as (env' & E & Hs & _).
  - apply good_draws_good.
  - intros i meta Hin. by apply not_elem_of_nil in Hin.
  - apply groups_fit.
  - by vm_compute.
  - exists env'. split; [exact E|exact Hs].
Defined.

Lemma segment_meta_exact_witness :
  sm_quantity_sum (build_segment_meta "raw_x" [ev1; ev2] 0 0) = Some 12.
Proof.
  refine (proj1 (proj2 (Flush.segment_meta_exact "raw_x" [ev1; ev2] 0 0 _))).
  intros [|[|n]]; [by vm_compute|by vm_compute|].
  replace (take (S (S n)) [ev1; ev2]) with [ev1; ev2] by (cbn; by rewrite take_nil). by vm_compute.
Defined.

Lemma flush_failure_forgets_buckets_witness :
  ∃ env' f, Flush.attempt_flush second_fails None env0 [ev1; ev2] 1 = (env', Err f)
    ∧ ff_events f = [ev2] ∧ fe_files env' !! seg_path (Flush.draw_id second_fails 0) = None
    ∧ m_raw_segments (fe_manifest env') = [].
Proof.
  destruct (Flush.flush_failure_forgets_buckets second_fails 1 env0 [ev1; ev2] 1)
    as (env' & f & E & Hf & Hm & Hfile & _).
  - intros [|j] Hj; [by left|lia].
  - by left.
  - vm_compute. lia.
  - apply groups_fit.
  - exists env', f. split; [exact E|]. split; [rewrite Hf; vm_compute; reflexivity|].
    split; [apply Hfile; lia|]. rewrite Hm. reflexivity.
Defined.

Lemma flush_save_failure_keeps_pointer_witness :
  ∃ env' (new : list SegmentMeta), Flush.attempt_flush good (Some (3, 0)%nat) env0 [ev1; ev2] 1
      = (env', Err (MkFlushFailure [] ManifestSave))
    ∧ length new = 2%nat ∧ m_last_sealed_wal_id (fe_manifest env') = 1.
Proof.
  destruct (Flush.flush_save_failure_keeps_pointer good (3, 0)%nat env0 [ev1; ev2] 1)
    as (env' & new & E & _ & Hl & Hs & _); [apply good_draws_good|apply groups_fit|].
  exists env', new. split; [exact E|]. split; [rewrite Hl; vm_compute; reflexivity|exact Hs].
Defined.
End FlushExample.
