(* ===== verification/Compaction.v ===== *)
(** * Compaction

    [src/compact/planner.rs] and [src/compact/worker.rs]: many small segments
    of a bucket become one, duplicates by event id are dropped, and the old
    files go after a grace period. *)

From Stdlib Require Import Ascii.
From stdpp Require Import sorting numbers strings base gmap list.
From S2P Require Import Prelude Model Instances Encoding Segment SegmentSpec DedupeIndex SegmentApi.
From S2P Require Import Memtable Wal Manifest Flusher.

Record CompactionPlan := MkCompactionPlan {
  pl_bucket : Z;
  pl_segment_ids : list string;
}.

Record CompactionTickStats := MkCompactionStats {
  compactions_committed : nat;
  replacements_finalized : nat;
}.

Inductive compact_error := CompactRead (e : seg_error) | CompactWrite | CompactSave.

Module Compact.
Definition plan_compaction (max_small_segments : nat) (segments : list SegmentMeta) : list CompactionPlan :=
  omap (λ p : Z * list SegmentMeta,
          if (max_small_segments <? length p.2)%nat
          then Some (MkCompactionPlan p.1 (sm_segment_id <$> p.2)) else None)
    (group_by_key sm_bucket segments).

Definition sort_and_dedupe (events : list UsageEvent) : list UsageEvent :=
  dedup_by ev_event_id ∅ (sort_by canonical_cmp events).

Section worker.
Context {BL : Blake3} {BN : Bincode} {RS : RawSegments} {MJ : ManifestJson}.

(** A missing input is skipped, an unreadable one aborts the plan. *)
Fixpoint read_segments (files : gmap string bytes) (segment_ids : list string)
    : outcome seg_error (list UsageEvent) :=
  match segment_ids with
  | [] => Ok []
  | id :: ids =>
      match files !! seg_path id with
      | None => read_segments files ids
      | Some bs =>
          es ← seg_read_all bs;
          rest ← read_segments files ids;
          Ok (es ++ rest)
      end
  end.

Definition set_env_files (files : gmap string bytes) (env : FlushEnv) : FlushEnv :=
  MkFlushEnv files (fe_manfs env) (fe_manifest env) (fe_walfs env).

(** The swap under the manifest's write lock. *)
Definition swap_segments (m : Manifest) (plan : CompactionPlan) (new_meta : SegmentMeta) (now_ms : Z) : Manifest :=
  let kept := filter (λ s, sm_segment_id s ∉ pl_segment_ids plan) (m_raw_segments m) in
  let m := set_raw_segments (kept ++ [new_meta]) m in
  set_replacements
    (m_compacted_replacements m
     ++ [MkReplacement (pl_segment_ids plan) [sm_segment_id new_meta] now_ms]) m.

Definition still_present (m : Manifest) (plan : CompactionPlan) : nat :=
  length (filter (λ s, sm_segment_id s ∈ pl_segment_ids plan) (m_raw_segments m)).

Definition run_one_plan (draw : string * option wb_fault) (sfault : Man.save_fault) (env : FlushEnv)
    (plan : CompactionPlan) (now_ms : Z) : FlushEnv * outcome compact_error bool :=
  match read_segments (fe_files env) (pl_segment_ids plan) with
  | Err e => (env, Err (CompactRead e))
  | Panic => (env, Panic)
  | Ok events =>
      let deduped := sort_and_dedupe events in
      if bool_decide (deduped = []) then (env, Ok false)
      else
        let output_id := "compacted_" +:+ draw.1 in
        let output_path := seg_path output_id in
        if bool_decide (draw.2 = Some FaultCreate) then (env, Err CompactWrite)
        else
          let files := <[output_path := []]> (fe_files env) in
          if bool_decide (draw.2 = Some FaultFinish) then
            (set_env_files (delete output_path files) env, Err CompactWrite)
          else
            match seg_write deduped with
            | Err _ => (set_env_files (delete output_path files) env, Err CompactWrite)
            | Panic => (set_env_files files env, Panic)
            | Ok (bs, _, cs) =>
                let files := <[output_path := bs]> files in
                let new_meta := build_segment_meta output_id deduped (pl_bucket plan) cs in
                let files := Flush.write_sidecar draw.2 files output_id (Flush.index_entry <$> deduped) in
                let m := fe_manifest env in
                if negb (still_present m plan =? length (pl_segment_ids plan))%nat then
                  (set_env_files (delete output_path files) env, Ok false)
                else
                  match Man.save sfault (fe_manfs env) (swap_segments m plan new_meta now_ms) with
                  | (manfs, m, Ok _) => (MkFlushEnv files manfs m (fe_walfs env), Ok true)
                  | (manfs, m, _) =>
                      (MkFlushEnv (delete output_path files) manfs m (fe_walfs env), Err CompactSave)
                  end
            end
  end.

(** *** [sweep_pending_deletions] *)
Definition finalizable (cutoff : Z) (r : ReplacementRecord) : bool :=
  negb (rp_committed_at_ms r =? 0) && (rp_committed_at_ms r <=? cutoff).

Definition same_record (a b : ReplacementRecord) : Prop :=
  rp_committed_at_ms a = rp_committed_at_ms b ∧ rp_old_segments a = rp_old_segments b.

Definition sweep_pending_deletions (grace_ms now_ms : Z) (sfault : Man.save_fault) (env : FlushEnv)
    : FlushEnv * outcome compact_error nat :=
  let cutoff := now_ms - grace_ms in
  let m := fe_manifest env in
  let to_finalize := filter (λ r, finalizable cutoff r = true) (m_compacted_replacements m) in
  if bool_decide (to_finalize = []) then (env, Ok 0%nat)
  else
    let paths := seg_path <$> mjoin (rp_old_segments <$> to_finalize) in
    let files := Flush.rollback_partial (fe_files env) paths in
    let m := set_replacements
      (filter (λ r, (rp_committed_at_ms r, rp_old_segments r)
                    ∉ ((λ x, (rp_committed_at_ms x, rp_old_segments x)) <$> to_finalize))
         (m_compacted_replacements m)) m in
    match Man.save sfault (fe_manfs env) m with
    | (manfs, m, Ok _) => (MkFlushEnv files manfs m (fe_walfs env), Ok (length to_finalize))
    | (manfs, m, _) => (MkFlushEnv files manfs m (fe_walfs env), Err CompactSave)
    end.

(** *** [tick]: a failed plan is logged and the next one runs *)
Fixpoint run_plans (draws : nat → string * option wb_fault) (sfaults : nat → Man.save_fault) (i : nat)
    (env : FlushEnv) (plans : list CompactionPlan) (now_ms : Z) : FlushEnv * nat :=
  match plans with
  | [] => (env, 0%nat)
  | plan :: plans =>
      match run_one_plan (draws i) (sfaults i) env plan now_ms with
      | (env, Ok true) => let '(env, n) := run_plans draws sfaults (S i) env plans now_ms in (env, S n)
      | (env, _) => run_plans draws sfaults (S i) env plans now_ms
      end
  end.

Definition tick (max_small_segments : nat) (grace_ms now_ms : Z) (sweep_fault : Man.save_fault)
    (draws : nat → string * option wb_fault) (sfaults : nat → Man.save_fault) (env : FlushEnv)
    : FlushEnv * outcome compact_error CompactionTickStats :=
  match sweep_pending_deletions grace_ms now_ms sweep_fault env with
  | (env, Ok finalized) =>
      let plans := plan_compaction max_small_segments (m_raw_segments (fe_manifest env)) in
      let '(env, committed) := run_plans draws sfaults 0 env plans now_ms in
      (env, Ok (MkCompactionStats committed finalized))
  | (env, Err e) => (env, Err e)
  | (env, Panic) => (env, Panic)
  end.

(** ** Lemmas *)
Lemma dedup_nil (events : list UsageEvent) : events ≠ [] → sort_and_dedupe events ≠ [].
Proof.
  intros Hne E. unfold sort_and_dedupe in E.
  assert (∃ e, e ∈ events) as [e He] by (destruct events; [done|set_solver]).
  rewrite <- (sort_by_perm canonical_cmp) in He.
  assert (ev_event_id e ∈ ev_event_id <$> dedup_by ev_event_id ∅ (sort_by canonical_cmp events)) as Hin.
  { apply elem_of_dedup_by_key. split; [by apply list_elem_of_fmap_2|set_solver]. }
  rewrite E in Hin. by apply not_elem_of_nil in Hin.
Qed.

Lemma sort_and_dedupe_id (events : list UsageEvent) :
  NoDup (ev_event_id <$> events) → sort_and_dedupe events ≡ₚ events.
Proof.
  intros Hnd. unfold sort_and_dedupe. rewrite dedup_by_id; [apply sort_by_perm| |].
  - by rewrite (sort_by_perm canonical_cmp).
  - set_solver.
Qed.

Lemma filter_plan (raw segs rest : list SegmentMeta) :
  raw ≡ₚ segs ++ rest → NoDup (sm_segment_id <$> raw) →
  filter (λ s, sm_segment_id s ∈ sm_segment_id <$> segs) raw ≡ₚ segs
  ∧ filter (λ s, sm_segment_id s ∉ sm_segment_id <$> segs) raw ≡ₚ rest.
Proof.
  intros Hp Hnd. rewrite Hp in Hnd. rewrite fmap_app in Hnd. apply NoDup_app in Hnd as (_ & Hdis & _).
  assert (Forall (λ s, sm_segment_id s ∈ sm_segment_id <$> segs) segs) as Hin.
  { apply Forall_forall. intros s Hs. by apply list_elem_of_fmap_2. }
  assert (Forall (λ s, sm_segment_id s ∉ sm_segment_id <$> segs) rest) as Hout.
  { apply Forall_forall. intros s Hs Hc. eapply Hdis; [exact Hc|]. by apply list_elem_of_fmap_2. }
  split.
  - rewrite Hp, filter_app, (filter_all _ segs), (filter_none _ rest), app_nil_r by done. done.
  - rewrite Hp, filter_app, (filter_none _ segs), (filter_all _ rest); [done|done|].
    eapply Forall_impl; [exact Hin|]. cbn. tauto.
Qed.

Lemma read_segments_stored files segs :
  (∀ s, s ∈ segs → ∃ es, Flush.seg_at files s es) →
  read_segments files (sm_segment_id <$> segs) = Ok (Flush.stored files segs).
Proof.
  induction segs as [|s segs IH]; intros H; [done|]. rewrite fmap_cons. cbn [read_segments].
  destruct (H s) as (es & bs & E & Er); [set_solver|]. rewrite E, Er. cbn [mbind outcome_bind].
  rewrite IH by (intros; apply H; set_solver).
  cbn [mbind outcome_bind]. unfold Flush.stored. cbn. unfold Flush.seg_events at 2. by rewrite E, Er.
Qed.

#[export] Instance stored_perm files : Proper ((≡ₚ) ==> (≡ₚ)) (Flush.stored files).
Proof. intros l1 l2 Hp. unfold Flush.stored. by rewrite Hp. Qed.

Context {RSok : RawSegmentsOk} {MJok : ManifestJsonOk}.

(** The result of a plan that commits. *)
Lemma run_one_plan_commits draw env plan segs rest now_ms :
  m_raw_segments (fe_manifest env) ≡ₚ segs ++ rest →
  NoDup (sm_segment_id <$> m_raw_segments (fe_manifest env)) →
  pl_segment_ids plan = sm_segment_id <$> segs →
  (∀ s, s ∈ segs → ∃ es, Flush.seg_at (fe_files env) s es) →
  "compacted_" +:+ draw.1 ∉ sm_segment_id <$> m_raw_segments (fe_manifest env) →
  draw.2 = None ∨ draw.2 = Some FaultSidecar →
  Flush.stored (fe_files env) segs ≠ [] →
  seg_fits (sort_and_dedupe (Flush.stored (fe_files env) segs)) →
  0 ≤ m_current_generation (fe_manifest env) < u64_max →
  ∃ files cs,
    let id := "compacted_" +:+ draw.1 in
    let deduped := sort_and_dedupe (Flush.stored (fe_files env) segs) in
    let meta := build_segment_meta id deduped (pl_bucket plan) cs in
    let m := set_generation (m_current_generation (fe_manifest env) + 1)
               (swap_segments (fe_manifest env) plan meta now_ms) in
    ∃ manfs,
      run_one_plan draw None env plan now_ms = (MkFlushEnv files manfs m (fe_walfs env), Ok true)
      ∧ Man.load None manfs = (manfs, Ok (Some m))
      ∧ Flush.seg_at files meta deduped
      ∧ ∀ name, name ≠ seg_path id → name ≠ Idx.index_path id → files !! name = fe_files env !! name.
Proof.
  intros Hp Hnd Hids Hread Hfresh Hdraw Hne Hfit Hgen.
  destruct (filter_plan _ segs rest Hp Hnd) as [Hin _].
  unfold run_one_plan. rewrite Hids, read_segments_stored by done.
  rewrite !bool_decide_false by (apply dedup_nil, Hne || (destruct Hdraw as [-> | ->]; done)).
  destruct (seg_roundtrip _ Hfit) as (bs & cs & Ew & Eo). rewrite Ew.
  assert (still_present (fe_manifest env) plan = length (sm_segment_id <$> segs)) as ->.
  { unfold still_present. rewrite Hids, Hin. by rewrite length_fmap. }
  rewrite Nat.eqb_refl. cbn [negb].
  set (meta := build_segment_meta _ _ (pl_bucket plan) cs).
  destruct (Man.save_then_load None (fe_manfs env) (swap_segments (fe_manifest env) plan meta now_ms))
    as (manfs & -> & Hl); [exact Hgen|].
  eexists _, cs. cbn zeta. exists manfs. split; [reflexivity|]. split; [exact Hl|]. split.
  - exists bs. cbn [sm_segment_id build_segment_meta]. rewrite Flush.write_sidecar_other by apply seg_path_not_idx.
    rewrite lookup_insert_eq. split; [done|]. by eapply seg_read_all_written.
  - intros name H1 H2. rewrite Flush.write_sidecar_other by done. by rewrite !lookup_insert_ne by done.
Qed.

(** A plan writes the two files of its output only. *)
Lemma run_one_plan_other draw sfault env plan now env' r name :
  run_one_plan draw sfault env plan now = (env', r) →
  name ≠ seg_path ("compacted_" +:+ draw.1) → name ≠ Idx.index_path ("compacted_" +:+ draw.1) →
  fe_files env' !! name = fe_files env !! name.
Proof.
  intros E H1 H2. unfold run_one_plan in E.
  repeat case_match; simplify_eq/=; rewrite ?lookup_delete_ne, ?Flush.write_sidecar_other, ?lookup_insert_ne by auto; done.
Qed.

Lemma plan_compaction_split maxs raw plan :
  plan ∈ plan_compaction maxs raw →
  ∃ segs rest, raw ≡ₚ segs ++ rest ∧ pl_segment_ids plan = sm_segment_id <$> segs
    ∧ Forall (λ s, sm_bucket s = pl_bucket plan) segs ∧ (maxs < length segs)%nat.
Proof.
  unfold plan_compaction. rewrite list_elem_of_omap. intros ([b segs] & Hin & E). cbn [fst snd] in E.
  destruct (Nat.ltb_spec maxs (length segs)) as [Hl|]; [|done]. injection E as <-. cbn.
  pose proof (group_by_key_ok sm_bucket raw) as Hok. unfold groups_ok in Hok.
  rewrite Forall_forall in Hok. destruct (Hok _ Hin) as [_ Hb].
  destruct (mjoin_perm_elem (group_by_key sm_bucket raw).*2 segs) as [rest Hr].
  { by apply (list_elem_of_fmap_2 snd) in Hin. }
  exists segs, rest. split; [|done]. rewrite <- Hr. symmetry. apply group_by_key_perm.
Qed.

(** Merging removes duplicates and nothing else: the output is ordered,
    has every event id of the input exactly once, each represented by the
    first of its events in canonical order, and equals the input up to order
    when the ids are already distinct. *)
Theorem sort_and_dedupe_spec (events : list UsageEvent) :
  sort_and_dedupe events `sublist_of` sort_events_canonical events
  ∧ NoDup (ev_event_id <$> sort_and_dedupe events)
  ∧ (∀ id, id ∈ ev_event_id <$> sort_and_dedupe events ↔ id ∈ ev_event_id <$> events)
  ∧ (∀ pre e post, sort_events_canonical events = pre ++ e :: post →
       ev_event_id e ∉ ev_event_id <$> pre → e ∈ sort_and_dedupe events)
  ∧ (NoDup (ev_event_id <$> events) → sort_and_dedupe events ≡ₚ events).
Proof.
  split; [apply dedup_by_sublist|]. split; [apply NoDup_dedup_by|].
  split; [|split; [|apply sort_and_dedupe_id]]; cycle 1.
  { intros pre e post E Hp. unfold sort_and_dedupe. change (sort_by canonical_cmp events) with (sort_events_canonical events).
    rewrite E. apply dedup_by_first; [set_solver|done]. }
  intros id. unfold sort_and_dedupe. rewrite elem_of_dedup_by_key, (sort_by_perm canonical_cmp).
  set_solver.
Qed.

(** Everything a committed plan does. *)
Lemma compaction_effect draw env plan maxs now_ms :
  plan ∈ plan_compaction maxs (m_raw_segments (fe_manifest env)) →
  NoDup (sm_segment_id <$> m_raw_segments (fe_manifest env)) →
  (∀ s, s ∈ m_raw_segments (fe_manifest env) → ∃ es, Flush.seg_at (fe_files env) s es) →
  (∀ s, s ∈ m_raw_segments (fe_manifest env) →
        Flush.meta_sound (Z.max (m_bucket_count (fe_manifest env)) 1) (fe_files env) s) →
  "compacted_" +:+ draw.1 ∉ sm_segment_id <$> m_raw_segments (fe_manifest env) →
  draw.2 = None ∨ draw.2 = Some FaultSidecar →
  (∀ segs, pl_segment_ids plan = sm_segment_id <$> segs →
           segs ⊆ m_raw_segments (fe_manifest env) →
           Flush.stored (fe_files env) segs ≠ []
           ∧ seg_fits (sort_and_dedupe (Flush.stored (fe_files env) segs))) →
  0 ≤ m_current_generation (fe_manifest env) < u64_max →
  ∃ env' segs rest,
    run_one_plan draw None env plan now_ms = (env', Ok true)
    ∧ m_raw_segments (fe_manifest env) ≡ₚ segs ++ rest
    ∧ pl_segment_ids plan = sm_segment_id <$> segs
    ∧ Flush.stored (fe_files env') (m_raw_segments (fe_manifest env'))
      ≡ₚ Flush.stored (fe_files env) rest ++ sort_and_dedupe (Flush.stored (fe_files env) segs)
    ∧ (NoDup (ev_event_id <$> Flush.stored (fe_files env) segs) →
       Flush.stored (fe_files env') (m_raw_segments (fe_manifest env'))
       ≡ₚ Flush.stored (fe_files env) (m_raw_segments (fe_manifest env)))
    ∧ (∀ s, s ∈ m_raw_segments (fe_manifest env') →
            Flush.meta_sound (Z.max (m_bucket_count (fe_manifest env)) 1) (fe_files env') s)
    ∧ (∀ s, s ∈ m_raw_segments (fe_manifest env) →
            fe_files env' !! seg_path (sm_segment_id s) = fe_files env !! seg_path (sm_segment_id s))
    ∧ Man.load None (fe_manfs env') = (fe_manfs env', Ok (Some (fe_manifest env')))
    ∧ fe_walfs env' = fe_walfs env
    ∧ m_last_sealed_wal_id (fe_manifest env') = m_last_sealed_wal_id (fe_manifest env)
    ∧ m_bucket_count (fe_manifest env') = m_bucket_count (fe_manifest env)
    ∧ (∀ s, s ∈ m_raw_segments (fe_manifest env') →
            Flush.seg_at (fe_files env') s (Flush.seg_events (fe_files env') s))
    ∧ (∃ meta, sm_segment_id meta = "compacted_" +:+ draw.1
         ∧ fe_manifest env' = set_generation (m_current_generation (fe_manifest env) + 1)
                                (swap_segments (fe_manifest env) plan meta now_ms)
         ∧ ∃ cs, meta = build_segment_meta ("compacted_" +:+ draw.1)
                          (sort_and_dedupe (Flush.stored (fe_files env) segs)) (pl_bucket plan) cs).
Proof.
  intros Hplan Hnd Hread Hsound Hfresh Hdraw Hfit Hgen.
  destruct (plan_compaction_split _ _ _ Hplan) as (segs & rest & Hp & Hids & Hb & _).
  assert (segs ⊆ m_raw_segments (fe_manifest env)) as Hsub by (intros s Hs; rewrite Hp; set_solver).
  destruct (Hfit segs Hids Hsub) as [Hne Hfits].
  destruct (run_one_plan_commits draw env plan segs rest now_ms) as (files & cs & manfs & E & Hl & Hat & Hsame);
    try done; [intros s Hs; by apply Hread, Hsub|].
  set (id := "compacted_" +:+ draw.1) in *. set (bc := Z.max _ 1) in *.
  set (deduped := sort_and_dedupe (Flush.stored (fe_files env) segs)) in *.
  assert (∀ s, s ∈ m_raw_segments (fe_manifest env) →
    files !! seg_path (sm_segment_id s) = fe_files env !! seg_path (sm_segment_id s)) as Hold.
  { intros s Hs. apply Hsame; [|apply seg_path_not_idx]. intros Heq%seg_path_inj. apply Hfresh.
    rewrite <- Heq. by apply list_elem_of_fmap_2. }
  destruct (filter_plan _ segs rest Hp Hnd) as [_ Hrest].
  eexists _, segs, rest. split; [exact E|]. split; [done|]. split; [done|].
  cbn [fe_files fe_manifest m_raw_segments set_generation swap_segments set_replacements set_raw_segments].
  rewrite Hids. assert (Flush.stored files (filter (λ s, sm_segment_id s ∉ sm_segment_id <$> segs)
      (m_raw_segments (fe_manifest env)) ++ [build_segment_meta id deduped (pl_bucket plan) cs])
    ≡ₚ Flush.stored (fe_files env) rest ++ deduped) as Hst.
  { rewrite Flush.stored_app, Hrest. apply Permutation_app.
    - rewrite (Flush.stored_same (fe_files env) files); [done|]. intros s Hs. apply Hold. rewrite Hp. set_solver.
    - unfold Flush.stored. cbn [fmap list_fmap]. rewrite (Flush.seg_at_events _ _ _ Hat). cbn. by rewrite app_nil_r. }
  split; [exact Hst|]. split; [|split; [|split; [|split; [exact Hl|split; [done|split; [done|split; [done|split; [|eexists; split; [|split; [reflexivity|by eexists]]; reflexivity]]]]]]]].
  - intros Hnd'. rewrite Hst. unfold deduped. rewrite sort_and_dedupe_id by done.
    rewrite Hp, Flush.stored_app. apply Permutation_app_comm.
  - intros s [Hs|Hs]%elem_of_app.
    + apply list_elem_of_filter in Hs as [_ Hs]. destruct (Hsound s Hs) as [H1 H2].
      unfold Flush.meta_sound, Flush.seg_events in *. rewrite (Hold s Hs). done.
    + apply list_elem_of_singleton in Hs as ->. unfold Flush.meta_sound.
      rewrite (Flush.seg_at_events _ _ _ Hat). split; [done|]. intros e He.
      split; [by apply build_segment_meta_covers|]. cbn [sm_bucket build_segment_meta].
      eapply elem_of_sublist in He; [|apply dedup_by_sublist]. rewrite (sort_by_perm canonical_cmp) in He.
      unfold Flush.stored in He. apply list_elem_of_join in He as (es & He & Hes).
      apply list_elem_of_fmap in Hes as (s & -> & Hs). destruct (Hsound s (Hsub s Hs)) as [_ H2].
      destruct (H2 e He) as [_ ->]. rewrite Forall_forall in Hb. by apply Hb.
  - exact Hold.
  - intros s [Hs|Hs]%elem_of_app.
    + apply list_elem_of_filter in Hs as [_ Hs]. destruct (Hread s Hs) as (es & bs & Eb & Er).
      unfold Flush.seg_at, Flush.seg_events. rewrite (Hold s Hs), Eb, Er. eauto.
    + apply list_elem_of_singleton in Hs as ->. by rewrite (Flush.seg_at_events _ _ _ Hat).
Qed.

(** C18: a compaction that commits keeps the data: for a plan of the planner,
    afterwards the live segments hold the rows of the untouched segments plus
    the merged rows of the inputs, so exactly the same events when no event id
    repeats among the inputs; the new segment's metadata is sound for its
    bucket, and every segment of the old manifest, the inputs included, is
    still on disk as it was for readers that hold that manifest. *)
Theorem compaction_preserves_events draw env plan maxs now_ms :
  plan ∈ plan_compaction maxs (m_raw_segments (fe_manifest env)) →
  NoDup (sm_segment_id <$> m_raw_segments (fe_manifest env)) →
  (∀ s, s ∈ m_raw_segments (fe_manifest env) → ∃ es, Flush.seg_at (fe_files env) s es) →
  (∀ s, s ∈ m_raw_segments (fe_manifest env) →
        Flush.meta_sound (Z.max (m_bucket_count (fe_manifest env)) 1) (fe_files env) s) →
  "compacted_" +:+ draw.1 ∉ sm_segment_id <$> m_raw_segments (fe_manifest env) →
  draw.2 = None ∨ draw.2 = Some FaultSidecar →
  (∀ segs, pl_segment_ids plan = sm_segment_id <$> segs →
           segs ⊆ m_raw_segments (fe_manifest env) →
           Flush.stored (fe_files env) segs ≠ []
           ∧ seg_fits (sort_and_dedupe (Flush.stored (fe_files env) segs))) →
  0 ≤ m_current_generation (fe_manifest env) < u64_max →
  ∃ env' segs rest,
    run_one_plan draw None env plan now_ms = (env', Ok true)
    ∧ m_raw_segments (fe_manifest env) ≡ₚ segs ++ rest
    ∧ pl_segment_ids plan = sm_segment_id <$> segs
    ∧ Flush.stored (fe_files env') (m_raw_segments (fe_manifest env'))
      ≡ₚ Flush.stored (fe_files env) rest ++ sort_and_dedupe (Flush.stored (fe_files env) segs)
    ∧ (NoDup (ev_event_id <$> Flush.stored (fe_files env) segs) →
       Flush.stored (fe_files env') (m_raw_segments (fe_manifest env'))
       ≡ₚ Flush.stored (fe_files env) (m_raw_segments (fe_manifest env)))
    ∧ (∀ s, s ∈ m_raw_segments (fe_manifest env') →
            Flush.meta_sound (Z.max (m_bucket_count (fe_manifest env)) 1) (fe_files env') s)
    ∧ (∀ s, s ∈ m_raw_segments (fe_manifest env) →
            fe_files env' !! seg_path (sm_segment_id s) = fe_files env !! seg_path (sm_segment_id s)).
Proof.
  intros H1 H2 H3 H4 H5 H6 H7 H8.
  destruct (compaction_effect draw env plan maxs now_ms H1 H2 H3 H4 H5 H6 H7 H8)
    as (env' & segs & rest & E & Hp & Hids & Hst & Hnd & Hs & Hf & _).
  by exists env', segs, rest.
Qed.

(** No file waiting for deletion belongs to a live segment. *)
Definition pending_disjoint (m : Manifest) : Prop :=
  ∀ r id, r ∈ m_compacted_replacements m → id ∈ rp_old_segments r →
          id ∉ sm_segment_id <$> m_raw_segments m.

Lemma swap_pending m plan meta now_ms :
  pending_disjoint m →
  sm_segment_id meta ∉ pl_segment_ids plan →
  (∀ r, r ∈ m_compacted_replacements m → sm_segment_id meta ∉ rp_old_segments r) →
  pending_disjoint (swap_segments m plan meta now_ms).
Proof.
  intros Hd Hn1 Hn2 r id Hr Hid Hraw. cbn in Hr, Hraw.
  apply list_elem_of_fmap in Hraw as (s & -> & [Hs|Hs]%elem_of_app).
  - apply list_elem_of_filter in Hs as [Hns Hs]. apply elem_of_app in Hr as [Hr|Hr].
    + eapply Hd; [exact Hr|exact Hid|]. by apply list_elem_of_fmap_2.
    + apply list_elem_of_singleton in Hr as ->. done.
  - apply list_elem_of_singleton in Hs as ->. apply elem_of_app in Hr as [Hr|Hr].
    + by eapply Hn2.
    + apply list_elem_of_singleton in Hr as ->. done.
Qed.

Definition expired_paths (cutoff : Z) (m : Manifest) : list string :=
  seg_path <$> mjoin (rp_old_segments <$> filter (λ r, finalizable cutoff r = true) (m_compacted_replacements m)).

Lemma expired_dead cutoff m s :
  pending_disjoint m → s ∈ m_raw_segments m → seg_path (sm_segment_id s) ∉ expired_paths cutoff m.
Proof.
  intros Hd Hs (id & Heq%seg_path_inj & Hin)%list_elem_of_fmap.
  apply list_elem_of_join in Hin as (ids & Hin & (r & -> & Hr)%list_elem_of_fmap).
  apply list_elem_of_filter in Hr as [_ Hr]. subst id. eapply Hd; [done|done|].
  by apply list_elem_of_fmap_2.
Qed.

(** Everything a sweep does. *)
Lemma sweep_effect env grace_ms now_ms :
  pending_disjoint (fe_manifest env) →
  0 ≤ m_current_generation (fe_manifest env) < u64_max →
  ∃ env' n, sweep_pending_deletions grace_ms now_ms None env = (env', Ok n)
    ∧ m_raw_segments (fe_manifest env') = m_raw_segments (fe_manifest env)
    ∧ Flush.stored (fe_files env') (m_raw_segments (fe_manifest env'))
      = Flush.stored (fe_files env) (m_raw_segments (fe_manifest env))
    ∧ pending_disjoint (fe_manifest env')
    ∧ (∀ plan meta, sm_segment_id meta ∉ pl_segment_ids plan →
         (∀ r, r ∈ m_compacted_replacements (fe_manifest env) → sm_segment_id meta ∉ rp_old_segments r) →
         pending_disjoint (swap_segments (fe_manifest env) plan meta now_ms))
    ∧ (∀ name, fe_files env' !! name
        = if decide (name ∈ expired_paths (now_ms - grace_ms) (fe_manifest env))
          then None else fe_files env !! name)
    ∧ (∀ s, s ∈ m_raw_segments (fe_manifest env) →
         fe_files env' !! seg_path (sm_segment_id s) = fe_files env !! seg_path (sm_segment_id s))
    ∧ (Man.load None (fe_manfs env) = (fe_manfs env, Ok (Some (fe_manifest env))) →
       Man.load None (fe_manfs env') = (fe_manfs env', Ok (Some (fe_manifest env'))))
    ∧ fe_walfs env' = fe_walfs env
    ∧ m_last_sealed_wal_id (fe_manifest env') = m_last_sealed_wal_id (fe_manifest env)
    ∧ m_bucket_count (fe_manifest env') = m_bucket_count (fe_manifest env).
Proof.
  intros Hd Hg. unfold sweep_pending_deletions.
  fold (expired_paths (now_ms - grace_ms) (fe_manifest env)).
  assert (∀ s, s ∈ m_raw_segments (fe_manifest env) →
          seg_path (sm_segment_id s) ∉ expired_paths (now_ms - grace_ms) (fe_manifest env)) as Hlive
    by (intros s; by apply expired_dead).
  assert (∀ plan meta, sm_segment_id meta ∉ pl_segment_ids plan →
         (∀ r, r ∈ m_compacted_replacements (fe_manifest env) → sm_segment_id meta ∉ rp_old_segments r) →
         pending_disjoint (swap_segments (fe_manifest env) plan meta now_ms)) as Hswap.
  { intros. by apply swap_pending. }
  case_bool_decide as He.
  - eexists env, 0%nat. split; [done|]. split; [done|]. split; [done|]. split; [done|]. split; [done|].
    split; [|done]. intros name. unfold expired_paths. rewrite He. cbn. by rewrite decide_False by apply not_elem_of_nil.
  - match goal with |- context [Man.save None _ ?m] =>
      destruct (Man.save_then_load None (fe_manfs env) m) as (manfs & -> & Hl); [exact Hg|] end.
    eexists _, _. split; [reflexivity|]. cbn [fe_files fe_manifest]. split; [done|].
    split; [|split; [|split; [done|split; [|split; [|split; [intros _; exact Hl|done]]]]]].
    + cbn [m_raw_segments set_generation set_replacements]. apply Flush.stored_same. intros s Hs.
      rewrite Flush.rollback_lookup, decide_False by (by apply Hlive). done.
    + intros r id Hr. cbn in Hr. apply list_elem_of_filter in Hr as [_ Hr]. by apply Hd.
    + intros name. apply Flush.rollback_lookup.
    + intros s Hs. rewrite Flush.rollback_lookup, decide_False by (by apply Hlive). done.
Qed.

(** Deleting old files is safe: committing a compaction and sweeping both
    keep the files waiting for deletion disjoint from the live segments, and
    under that invariant a sweep leaves every live segment's rows and the
    segment list as they were, removes the files of the records past their
    grace period, and touches no other file. *)
Theorem sweep_deletes_only_dead env grace_ms now_ms :
  pending_disjoint (fe_manifest env) →
  0 ≤ m_current_generation (fe_manifest env) < u64_max →
  ∃ env' n, sweep_pending_deletions grace_ms now_ms None env = (env', Ok n)
    ∧ m_raw_segments (fe_manifest env') = m_raw_segments (fe_manifest env)
    ∧ Flush.stored (fe_files env') (m_raw_segments (fe_manifest env'))
      = Flush.stored (fe_files env) (m_raw_segments (fe_manifest env))
    ∧ pending_disjoint (fe_manifest env')
    ∧ (∀ plan meta, sm_segment_id meta ∉ pl_segment_ids plan →
         (∀ r, r ∈ m_compacted_replacements (fe_manifest env) → sm_segment_id meta ∉ rp_old_segments r) →
         pending_disjoint (swap_segments (fe_manifest env) plan meta now_ms))
    ∧ ∀ name, fe_files env' !! name
        = if decide (name ∈ expired_paths (now_ms - grace_ms) (fe_manifest env))
          then None else fe_files env !! name.
Proof.
  intros H1 H2. destruct (sweep_effect env grace_ms now_ms H1 H2) as (env' & n & E & Hr & Hs & Hp & Hw & Hf & _).
  by exists env', n.
Qed.
End worker.
End Compact.

(** ** Witnesses *)
Module CompactExample.
#[local] Existing Instances poly_digest code_bincode stored_codecs ManExample.text_manifest.
#[local] Existing Instances poly_digest_ok code_bincode_ok stored_codecs_ok ManExample.text_manifest_ok.
#[local] Existing Instances Files.file_segments Files.file_segments_ok.

(** Two segments of one account, in bucket 2 of 4. *)
Definition evA : UsageEvent := sample_event "a" "acct_1" 1000 5.
Definition evB : UsageEvent := sample_event "b" "acct_1" 900 7.

Definition file_of (es : list UsageEvent) : bytes :=
  match seg_write es with Ok (bs, _, _) => bs | _ => [] end.

Definition metaA : SegmentMeta := build_segment_meta "raw_a" [evA] 2 0.
Definition metaB : SegmentMeta := build_segment_meta "raw_b" [evB] 2 0.

Definition env2 : FlushEnv :=
  MkFlushEnv {[seg_path "raw_a" := file_of [evA]; seg_path "raw_b" := file_of [evB]]}
    ManExample.empty_man (set_raw_segments [metaA; metaB] ManExample.gen0) (MkWalFs ∅ ∅).

Definition plan2 : CompactionPlan := MkCompactionPlan 2 ["raw_a"; "raw_b"].

Lemma readA : Flush.seg_at (fe_files env2) metaA [evA].
Proof. eexists. split; [reflexivity|]. vm_compute. reflexivity. Qed.
Lemma readB : Flush.seg_at (fe_files env2) metaB [evB].
Proof. eexists. split; [reflexivity|]. vm_compute. reflexivity. Qed.

Lemma merged_fits : seg_fits (Compact.sort_and_dedupe [evA; evB]).
Proof.
  assert (Compact.sort_and_dedupe [evA; evB] = [evB; evA]) as -> by (vm_compute; reflexivity).
  split; [refine (bool_decide_unpack _ _); by vm_compute|]. by vm_compute.
Qed.

Lemma stored_sub segs :
  pl_segment_ids plan2 = sm_segment_id <$> segs → segs ⊆ [metaA; metaB] →
  Flush.stored (fe_files env2) segs = [evA; evB].
Proof.
  intros Hids Hsub.
  assert (segs = [metaA; metaB]) as ->.
  { destruct segs as [|s1 [|s2 [|s3 segs]]]; try discriminate Hids. injection Hids as H1 H2.
    assert (s1 ∈ [metaA; metaB]) as In1 by (apply Hsub; set_solver).
    assert (s2 ∈ [metaA; metaB]) as In2 by (apply Hsub; set_solver).
    apply elem_of_cons in In1 as [->|In1%list_elem_of_singleton]; [|subst s1; discriminate H1].
    apply elem_of_cons in In2 as [->|In2%list_elem_of_singleton]; [discriminate H2|]. by subst. }
  unfold Flush.stored. cbn [fmap list_fmap].
  by rewrite (Flush.seg_at_events _ _ _ readA), (Flush.seg_at_events _ _ _ readB).
Qed.

Lemma env2_cases (P : SegmentMeta → Prop) :
  P metaA → P metaB → ∀ s, s ∈ m_raw_segments (fe_manifest env2) → P s.
Proof. intros HA HB s [->|Hs%list_elem_of_singleton]%elem_of_cons; [done|]. by subst. Qed.

Lemma one_sound meta e :
  Flush.seg_at (fe_files env2) meta [e] → sm_row_count meta = 1 →
  meta_covers meta e → Flush.bucket_of 4 e = sm_bucket meta →
  Flush.meta_sound 4 (fe_files env2) meta.
Proof.
  intros Hat Hr Hc Hb. unfold Flush.meta_sound. rewrite (Flush.seg_at_events _ _ _ Hat). split; [done|].
  by intros e' ->%list_elem_of_singleton.
Qed.

Lemma compaction_preserves_events_witness :
  ∃ env' segs rest, Compact.run_one_plan ("u", None) None env2 plan2 77 = (env', Ok true)
    ∧ m_raw_segments (fe_manifest env2) ≡ₚ segs ++ rest
    ∧ pl_segment_ids plan2 = sm_segment_id <$> segs.
Proof.
  destruct (Compact.compaction_preserves_events ("u", None) env2 plan2 1 77)
    as (env' & segs & rest & E & Hp & Hids & _).
  - vm_compute. left.
  - refine (bool_decide_unpack _ _). by vm_compute.
  - apply env2_cases; eexists; [apply readA|apply readB].
  - apply env2_cases.
    + apply (one_sound metaA evA readA); [done|apply build_segment_meta_covers; set_solver|by vm_compute].
    + apply (one_sound metaB evB readB); [done|apply build_segment_meta_covers; set_solver|by vm_compute].
  - refine (bool_decide_unpack _ _). by vm_compute.
  - by left.
  - intros segs Hids Hsub. rewrite (stored_sub segs Hids Hsub). split; [done|apply merged_fits].
  - by vm_compute.
  - exists env', segs, rest. split; [exact E|]. split; [exact Hp|exact Hids].
Defined.

Lemma sort_and_dedupe_spec_witness :
  evB ∈ Compact.sort_and_dedupe [evA; evB] ∧ Compact.sort_and_dedupe [evA; evB] ≡ₚ [evA; evB].
Proof.
  destruct (Compact.sort_and_dedupe_spec [evA; evB]) as (_ & _ & _ & Hf & Hp). split.
  - apply (Hf [] evB [evA]); [by vm_compute|]. apply not_elem_of_nil.
  - apply Hp. refine (bool_decide_unpack _ _). by vm_compute.
Defined.

Lemma sweep_deletes_only_dead_witness :
  let m := set_replacements [MkReplacement ["old"] ["raw_a"] 5] (fe_manifest env2) in
  let env := MkFlushEnv (<[seg_path "old" := [1]]> (fe_files env2)) ManExample.empty_man m (MkWalFs ∅ ∅) in
  ∃ env' n, Compact.sweep_pending_deletions 10 20 None env = (env', Ok n)
    ∧ Flush.stored (fe_files env') (m_raw_segments (fe_manifest env'))
      = Flush.stored (fe_files env) (m_raw_segments (fe_manifest env)).
Proof.
  cbv zeta.
  match goal with |- context [Compact.sweep_pending_deletions _ _ _ ?e] =>
    destruct (Compact.sweep_deletes_only_dead e 10 20) as (env' & n & E & _ & Hs & _) end.
  - intros r id Hr Hid. apply list_elem_of_singleton in Hr as ->.
    apply list_elem_of_singleton in Hid as ->. refine (bool_decide_unpack _ _). by vm_compute.
  - by vm_compute.
  - exists env', n. split; [exact E|exact Hs].
Defined.
End CompactExample.
