(* ===== verification/State.v ===== *)
(** * The shared state

    [src/runtime/state.rs] and [src/runtime/config.rs]: what the handlers and
    the background workers share.  A handler runs under the locks it takes;
    where a worker takes several locks one after the other, its definition
    takes the values it read as separate arguments. *)

From Stdlib Require Import Ascii.
From stdpp Require Import sorting numbers strings base gmap list.
From S2P Require Import Prelude Model Memtable Dedupe Wal Manifest Flusher.

Inductive DurabilityMode := Strict | Fast.

Record Config := MkConfig {
  max_memtable_size_bytes : Z;
  dedupe_capacity : nat;
  default_bucket_count : Z;
  rollup_tick_interval_secs : Z;
  rollup_safety_lag_ms : Z;
  compaction_tick_interval_secs : Z;
  compaction_grace_ms : Z;
  compaction_max_small_segments : nat;
  durability_mode : DurabilityMode;
  memtable_max_age_ms : Z;
}.

(** [Config::default()]. *)
Definition default_config : Config :=
  MkConfig (64 * 1024 * 1024) (Z.to_nat 1000000) 64 30 60000 60 30000 16 Strict 60000.

Record FlushMessage := MkFlushMessage {
  fm_events : list UsageEvent;
  fm_sealed_wal_id : Z;
}.

(** [as_env]: the database directory and the manifest in memory;
    [as_queue]: the messages on the channel to the flusher; [as_sending]: the
    messages that a handler or a worker has drained and is about to send, in
    the order in which they were drained: the locks are released before the
    call of [flush_sender.send]. *)
Record AppState := MkAppState {
  as_env : FlushEnv;
  as_wal : Wal;
  as_memtable : Memtable;
  as_dedupe : HotDedupe;
  as_queue : list FlushMessage;
  as_sending : list FlushMessage;
  as_config : Config;
}.

Definition set_env (env : FlushEnv) (st : AppState) : AppState :=
  MkAppState env (as_wal st) (as_memtable st) (as_dedupe st) (as_queue st) (as_sending st) (as_config st).

Definition as_manifest (st : AppState) : Manifest := fe_manifest (as_env st).
Definition as_files (st : AppState) : gmap string bytes := fe_files (as_env st).
Definition as_walfs (st : AppState) : WalFs := fe_walfs (as_env st).

Definition set_walfs (fs : WalFs) (env : FlushEnv) : FlushEnv :=
  MkFlushEnv (fe_files env) (fe_manfs env) (fe_manifest env) fs.

(** ** The process lock

    [src/runtime/lock.rs]: [flock] on [LOCK] in the database directory.  The
    kernel grants it to one open file at a time and takes it back when that
    file is closed, which [DbLock] does when it is dropped and the kernel when
    the process ends. *)
Inductive lock_error := LockDir | LockOpen | LockHeld | LockCall.
Inductive lock_fault := FaultLockDir | FaultLockOpen | FaultLockCall.

Module Lock.
Definition acquire (fault : option lock_fault) (pid : nat) (holder : option nat)
    : option nat * outcome lock_error unit :=
  match fault with
  | Some FaultLockDir => (holder, Err LockDir)
  | Some FaultLockOpen => (holder, Err LockOpen)
  | Some FaultLockCall => (holder, Err LockCall)
  | None =>
      match holder with
      | None => (Some pid, Ok tt)
      | Some _ => (holder, Err LockHeld)
      end
  end.

Definition release (pid : nat) (holder : option nat) : option nat :=
  if bool_decide (holder = Some pid) then None else holder.
End Lock.

(** [drain_all] and [rotate], which the ingest handler and the rollup worker
    share: the memtable is emptied before the rotation can fail. *)
Definition drain_and_rotate (bud : budget) (fsync_ok open_ok : bool) (st : AppState)
    : AppState * outcome io_error FlushMessage :=
  let '(events, memtable) := Mem.drain_all (as_memtable st) in
  match WalOps.rotate bud fsync_ok open_ok (as_walfs st) (as_wal st) with
  | (fs, w, r) =>
      let st := MkAppState (set_walfs fs (as_env st)) w memtable (as_dedupe st) (as_queue st) (as_sending st) (as_config st) in
      match r with
      | Ok sealed_id => (st, Ok (MkFlushMessage events sealed_id))
      | Err e => (st, Err e)
      | Panic => (st, Panic)
      end
  end.

(** The message is in the hands of the task that drained it. *)
Definition hand_over (msg : FlushMessage) (st : AppState) : AppState :=
  MkAppState (as_env st) (as_wal st) (as_memtable st) (as_dedupe st) (as_queue st) (as_sending st ++ [msg]) (as_config st).

(** [mpsc::channel(4)]. *)
Definition CHANNEL_CAPACITY : nat := 4.

(** [flush_sender.send(msg).await] of one of the waiting tasks gets through.
    Without a [receiver] the message is dropped, as it is when the handler that
    holds it is cancelled.  A sender waits while the channel is full
    ([can_send]). *)
Definition can_send (st : AppState) : bool := (length (as_queue st) <? CHANNEL_CAPACITY)%nat.

Definition send (receiver : bool) (i : nat) (st : AppState) : AppState :=
  match as_sending st !! i with
  | Some msg =>
      MkAppState (as_env st) (as_wal st) (as_memtable st) (as_dedupe st)
        (if receiver then as_queue st ++ [msg] else as_queue st) (delete i (as_sending st)) (as_config st)
  | None => st
  end.

(** The messages on their way to the flusher, on the channel or not yet. *)
Definition pending (st : AppState) : list FlushMessage := as_queue st ++ as_sending st.

Lemma send_first_pending st : pending (send true 0 st) = pending st.
Proof. unfold pending, send. destruct st as [e w m d q [|msg s] c]; [done|]. cbn. by rewrite <- app_assoc. Qed.

Lemma hand_over_pending msg st : pending (hand_over msg st) = pending st ++ [msg].
Proof. unfold pending. cbn. by rewrite app_assoc. Qed.
