(* ===== verification/Ingest.v ===== *)
(** * Ingest

    The batch endpoint of [src/api/http_server.rs]: [validate_event],
    [handle_ingest] and [ingest_critical_section], over the cache, the log and
    the memtable.  Clock readings are arguments: [now] is the handler's, [clk i]
    gives the readings of the [i]-th accepted event (the two of [commit] and
    the one of [Memtable::insert]).  What the kernel does to the log is an
    argument too: the write budget, the outcome of [fsync] and of opening the
    next file. *)

From Stdlib Require Import Ascii.
From stdpp Require Import sorting numbers strings base gmap list.
From S2P Require Import Prelude Model Instances Encoding Segment SegmentSpec DedupeIndex SegmentApi.
From S2P Require Import Memtable Dedupe Wal Manifest Period Flusher State.

Definition MAX_DIMENSIONS : nat := 16.

Inductive ValidationError :=
| MissingEventId | MissingAccountId | MissingProductId | MissingMeterId
| NonPositiveTimestamp | TooManyDimensions | CorrectionMissingRef.

Record Classified := MkClassified { cl_event : UsageEvent; cl_id_hash : Z; cl_payload_hash : Z }.

Record IngestOutcome := MkIngestOutcome {
  io_accepted : nat;
  io_duplicates : nat;
  io_conflicts : nat;
  io_rejected : nat;
  io_drained : option FlushMessage;
}.

Record IngestBatchResponse := MkIngestResponse {
  ir_accepted : nat;
  ir_duplicates : nat;
  ir_conflicts : nat;
  ir_rejected : nat;
}.

Inductive ingest_error := WalAppendFailed (e : io_error) | WalSyncFailed (e : io_error) | WalRotateFailed (e : io_error).

(** What the kernel does during one request. *)
Record IngestIo := MkIngestIo {
  ii_budget : budget;
  ii_fsync : bool;
  ii_rotate : budget * bool * bool;
}.

Definition no_faults : IngestIo := MkIngestIo None true (None, true, true).

Module Ing.
Definition str_empty (s : string) : bool := bool_decide (s = "").

Definition is_adjustment (k : EventKind) : bool :=
  match k with Correction | Retraction => true | Usage => false end.

Definition validate_event (e : UsageEvent) : outcome ValidationError unit :=
  if str_empty (ev_event_id e) then Err MissingEventId
  else if str_empty (ev_account_id e) then Err MissingAccountId
  else if str_empty (ev_product_id e) then Err MissingProductId
  else if str_empty (ev_meter_id e) then Err MissingMeterId
  else if ev_timestamp_ms e <=? 0 then Err NonPositiveTimestamp
  else if (MAX_DIMENSIONS <? size (inner (ev_dimensions e)))%nat then Err TooManyDimensions
  else if is_adjustment (ev_kind e) && bool_decide (ev_correction_ref e = None) then Err CorrectionMissingRef
  else Ok tt.

Section ingest.
Context {BL : Blake3} {BN : Bincode} {SJ : SerdeJson} {CH : Chrono} (size_of_event : Z).

(** A [Usage] event in a closed period. *)
Definition in_closed_period (closed : list ClosedPeriod) (e : UsageEvent) : bool :=
  match ev_kind e with
  | Usage =>
      match Per.period_for_ts (ev_timestamp_ms e) with
      | Some (year, month) => existsb (Per.matches_period (ev_account_id e) year month) closed
      | None => false
      end
  | _ => false
  end.

Definition admissible (closed : list ClosedPeriod) (e : UsageEvent) : bool :=
  match validate_event e with
  | Ok _ => negb (in_closed_period closed e)
  | _ => false
  end.

Definition classified (e : UsageEvent) : Classified :=
  let '(id_hash, payload) := compute_event_hashes e in MkClassified e id_hash payload.

(** The validation loop of [handle_ingest]. *)
Fixpoint validate_batch (now : Z) (closed : list ClosedPeriod) (events : list UsageEvent)
    : nat * list Classified :=
  match events with
  | [] => (0%nat, [])
  | e :: events =>
      let '(rejected, cs) := validate_batch now closed events in
      match validate_event e with
      | Ok _ =>
          if in_closed_period closed e then (S rejected, cs)
          else (rejected, classified (set_ingested_at now e) :: cs)
      | _ => (S rejected, cs)
      end
  end.

(** Phase 1 of the critical section: the new events, duplicates, conflicts. *)
Fixpoint screen (dedupe : HotDedupe) (seen_in_batch : gmap Z Z) (cs : list Classified)
    : list Classified * nat * nat :=
  match cs with
  | [] => ([], 0%nat, 0%nat)
  | c :: cs =>
      match seen_in_batch !! cl_id_hash c with
      | Some prior_payload =>
          let '(new, dup, conf) := screen dedupe seen_in_batch cs in
          if prior_payload =? cl_payload_hash c then (new, S dup, conf) else (new, dup, S conf)
      | None =>
          match Hot.classify dedupe (cl_id_hash c) (cl_payload_hash c) with
          | NewEvent =>
              let '(new, dup, conf) := screen dedupe (<[cl_id_hash c := cl_payload_hash c]> seen_in_batch) cs in
              (c :: new, dup, conf)
          | ExactDuplicate => let '(new, dup, conf) := screen dedupe seen_in_batch cs in (new, S dup, conf)
          | PayloadConflict => let '(new, dup, conf) := screen dedupe seen_in_batch cs in (new, dup, S conf)
          end
      end
  end.

(** Phase 2: append, then sync or flush according to the durability mode. *)
Definition write_ahead (io : IngestIo) (mode : DurabilityMode) (fs : WalFs) (w : Wal) (new : list UsageEvent)
    : WalFs * Wal * outcome ingest_error unit :=
  if bool_decide (new = []) then (fs, w, Ok tt)
  else
    match WalOps.append_batch (ii_budget io) fs w new with
    | (bud, fs, w, Ok _) =>
        match (match mode with
               | Strict => WalOps.sync bud (ii_fsync io) fs w
               | Fast => WalOps.flush_buffer bud fs w
               end) with
        | (fs, w, Ok _) => (fs, w, Ok tt)
        | (fs, w, Err e) => (fs, w, Err (WalSyncFailed e))
        | (fs, w, Panic) => (fs, w, Panic)
        end
    | (_, fs, w, Err e) => (fs, w, Err (WalAppendFailed e))
    | (_, fs, w, Panic) => (fs, w, Panic)
    end.

(** Phase 3: one commit and one insertion per event. *)
Fixpoint commit_all (clk : nat → Z * Z * Z) (i : nat) (dedupe : HotDedupe) (memtable : Memtable)
    (new : list Classified) : HotDedupe * Memtable :=
  match new with
  | [] => (dedupe, memtable)
  | c :: new =>
      let '(now_evict, now, now_insert) := clk i in
      commit_all clk (S i)
        (Hot.commit now_evict now (cl_id_hash c) (cl_payload_hash c) dedupe)
        (Mem.insert size_of_event now_insert memtable (cl_event c)) new
  end.

Definition ingest_critical_section (io : IngestIo) (clk : nat → Z * Z * Z) (st : AppState)
    (cs : list Classified) (rejected_before : nat) : AppState * outcome ingest_error IngestOutcome :=
  let '(new, duplicates, conflicts) := screen (as_dedupe st) ∅ cs in
  match write_ahead io (durability_mode (as_config st)) (as_walfs st) (as_wal st) (cl_event <$> new) with
  | (fs, w, Ok _) =>
      let '(dedupe, memtable) := commit_all clk 0 (as_dedupe st) (as_memtable st) new in
      let st := MkAppState (set_walfs fs (as_env st)) w memtable dedupe (as_queue st) (as_sending st) (as_config st) in
      let outcome := MkIngestOutcome (length new) duplicates conflicts rejected_before in
      if max_memtable_size_bytes (as_config st) <? Mem.size_bytes memtable then
        match drain_and_rotate (ii_rotate io).1.1 (ii_rotate io).1.2 (ii_rotate io).2 st with
        | (st, Ok msg) => (st, Ok (outcome (Some msg)))
        | (st, Err e) => (st, Err (WalRotateFailed e))
        | (st, Panic) => (st, Panic)
        end
      else (st, Ok (outcome None))
  | (fs, w, Err e) =>
      (MkAppState (set_walfs fs (as_env st)) w (as_memtable st) (as_dedupe st) (as_queue st) (as_sending st) (as_config st), Err e)
  | (fs, w, Panic) =>
      (MkAppState (set_walfs fs (as_env st)) w (as_memtable st) (as_dedupe st) (as_queue st) (as_sending st) (as_config st), Panic)
  end.

(** A drained message is sent after the critical section, when the locks are
    released ([send]): it is handed over here, and the response, which waits
    for the send, says what the critical section counted. *)
Definition handle_ingest (io : IngestIo) (now : Z) (clk : nat → Z * Z * Z) (st : AppState)
    (events : list UsageEvent) : AppState * outcome ingest_error IngestBatchResponse :=
  let '(rejected, cs) := validate_batch now (m_closed_periods (as_manifest st)) events in
  match ingest_critical_section io clk st cs rejected with
  | (st, Ok o) =>
      (match io_drained o with
       | Some msg => hand_over msg st
       | None => st
       end,
       Ok (MkIngestResponse (io_accepted o) (io_duplicates o) (io_conflicts o) (io_rejected o)))
  | (st, Err e) => (st, Err e)
  | (st, Panic) => (st, Panic)
  end.

(** ** The reference: what a batch adds *)

(** The events of the batch that pass validation, stamped. *)
Definition stamped (now : Z) (closed : list ClosedPeriod) (events : list UsageEvent) : list UsageEvent :=
  set_ingested_at now <$> filter (λ e, admissible closed e = true) events.

Definition id_hash (e : UsageEvent) : Z := (compute_event_hashes e).1.

(** Of those, the first event of every identity the cache does not know. *)
Definition admitted (st : AppState) (now : Z) (events : list UsageEvent) : list UsageEvent :=
  dedup_by id_hash ∅
    (filter (λ e, hd_cache (as_dedupe st) !! id_hash e = None) (stamped now (m_closed_periods (as_manifest st)) events)).

(** Accepted and not yet flushed. *)
Definition buffered (st : AppState) : list UsageEvent :=
  mjoin (fm_events <$> pending st) ++ mt_events (as_memtable st).

(** ** Lemmas: validation and screening *)
Lemma validate_batch_spec now closed events :
  (validate_batch now closed events).2 = classified <$> stamped now closed events
  ∧ ((validate_batch now closed events).1 + length (stamped now closed events) = length events)%nat.
Proof.
  unfold stamped. induction events as [|e events [IH1 IH2]]; [done|]. cbn [validate_batch length].
  destruct (validate_batch now closed events) as [rejected cs]. cbn [fst snd] in *.
  rewrite filter_cons. destruct (decide (admissible closed e = true)) as [Ha|Ha]; unfold admissible in Ha;
    (destruct (validate_event e) as [u|err|]; [destruct (in_closed_period closed e)|..]; try done);
    rewrite ?fmap_cons; cbn [fst snd length]; rewrite ?IH1; (split; [done|lia]).
Qed.

Lemma classify_new d h p : Hot.classify d h p = NewEvent ↔ hd_cache d !! h = None.
Proof.
  unfold Hot.classify. destruct (hd_cache d !! h) as [en|]; [|done].
  by destruct (payload_hash en =? p).
Qed.

Lemma screen_spec d seen es :
  (screen d seen (classified <$> es)).1.1
    = classified <$> dedup_by id_hash (dom seen) (filter (λ e, hd_cache d !! id_hash e = None) es)
  ∧ (length (screen d seen (classified <$> es)).1.1 + (screen d seen (classified <$> es)).1.2
     + (screen d seen (classified <$> es)).2 = length es)%nat.
Proof.
  revert seen. induction es as [|e es IH]; intros seen; [done|]. rewrite fmap_cons. cbn [screen].
  change (cl_id_hash (classified e)) with (id_hash e). rewrite filter_cons.
  destruct (seen !! id_hash e) as [prior|] eqn:Es.
  - destruct (IH seen) as [IH1 IH2]. destruct (screen d seen (classified <$> es)) as [[new dup] conf].
    cbn [fst snd] in *. assert (id_hash e ∈ dom seen) as Hin by (by apply elem_of_dom_2 in Es).
    replace (dedup_by id_hash (dom seen) (if decide (hd_cache d !! id_hash e = None)
        then e :: filter (λ e0, hd_cache d !! id_hash e0 = None) es
        else filter (λ e0, hd_cache d !! id_hash e0 = None) es))
      with (dedup_by id_hash (dom seen) (filter (λ e0, hd_cache d !! id_hash e0 = None) es)).
    2:{ case_decide; [|done]. cbn [dedup_by]. by rewrite decide_True. }
    destruct (prior =? _); cbn [fst snd length]; split; [done|lia|done|lia].
  - destruct (Hot.classify d (id_hash e) (cl_payload_hash (classified e))) eqn:Ec.
    + apply classify_new in Ec. rewrite decide_True by done.
      destruct (IH (<[id_hash e := cl_payload_hash (classified e)]> seen)) as [IH1 IH2].
      destruct (screen d (<[id_hash e := cl_payload_hash (classified e)]> seen) (classified <$> es)) as [[new dup] conf].
      cbn [fst snd length] in *. cbn [dedup_by]. rewrite decide_False by (by apply not_elem_of_dom).
      rewrite <- (dom_insert_L seen (id_hash e) (cl_payload_hash (classified e))), fmap_cons, <- IH1. split; [done|]. lia.
    + rewrite decide_False by (intros Hn%(classify_new _ _ (cl_payload_hash (classified e))); congruence).
      destruct (IH seen) as [IH1 IH2]. destruct (screen d seen (classified <$> es)) as [[new dup] conf].
      cbn [fst snd length] in *. split; [done|lia].
    + rewrite decide_False by (intros Hn%(classify_new _ _ (cl_payload_hash (classified e))); congruence).
      destruct (IH seen) as [IH1 IH2]. destruct (screen d seen (classified <$> es)) as [[new dup] conf].
      cbn [fst snd length] in *. split; [done|lia].
Qed.

Lemma commit_all_memtable clk i d m new :
  mt_events (commit_all clk i d m new).2 = mt_events m ++ (cl_event <$> new).
Proof.
  revert i d m. induction new as [|c new IH]; intros i d m; cbn [commit_all]; [by rewrite app_nil_r|].
  destruct (clk i) as [[now_evict now] now_insert]. rewrite IH. cbn. by rewrite <- app_assoc.
Qed.

(** What the commits are to the cache. *)
Fixpoint commit_ops (clk : nat → Z * Z * Z) (i : nat) (new : list Classified) : list Hot.op :=
  match new with
  | [] => []
  | c :: new => Hot.OpCommit (clk i).1.1 (clk i).1.2 (cl_id_hash c) (cl_payload_hash c) :: commit_ops clk (S i) new
  end.

Lemma commit_all_dedupe clk i d m new :
  (commit_all clk i d m new).1 = Hot.run d (commit_ops clk i new).
Proof.
  revert i d m. induction new as [|c new IH]; intros i d m; cbn [commit_all commit_ops]; [done|].
  destruct (clk i) as [[now_evict now] now_insert]. by rewrite IH.
Qed.

Lemma classified_event (es : list UsageEvent) : cl_event <$> (classified <$> es) = es.
Proof. rewrite <- list_fmap_compose. apply list_fmap_id. Qed.

(** ** Lemmas: the log *)

(** An operation that succeeded under a budget is the one without faults. *)
Lemma file_write_all_budget bud fs name data bud' fs' n :
  WalOps.file_write_all bud fs name data = (bud', fs', Ok n) →
  WalOps.file_write_all None fs name data = (None, fs', Ok n).
Proof. unfold WalOps.file_write_all. destruct bud; [case_match|]; naive_solver. Qed.

Lemma flush_buf_budget bud fs w bud' fs' w' u :
  WalOps.flush_buf bud fs w = (bud', fs', w', Ok u) → WalOps.flush_buf None fs w = (None, fs', w', Ok u).
Proof.
  unfold WalOps.flush_buf. destruct (WalOps.file_write_all bud fs (wal_file w) (wal_buf w)) as [[b f] [n| |]] eqn:E; try done.
  intros [= <- <- <- <-]. by rewrite (file_write_all_budget _ _ _ _ _ _ _ E).
Qed.

Lemma write_all_budget bud fs w data bud' fs' w' u :
  WalOps.write_all bud fs w data = (bud', fs', w', Ok u) → WalOps.write_all None fs w data = (None, fs', w', Ok u).
Proof.
  unfold WalOps.write_all. case_match; [naive_solver|].
  destruct (WalOps.spare_capacity w <? length data)%nat.
  - destruct (WalOps.flush_buf bud fs w) as [[[b f] w1] [u1| |]] eqn:E; try done.
    rewrite (flush_buf_budget _ _ _ _ _ _ _ E). case_match; [|naive_solver].
    destruct (WalOps.file_write_all b f (wal_file w1) data) as [[b2 f2] [n| |]] eqn:E2; try done.
    intros [= <- <- <- <-]. by rewrite (file_write_all_budget _ _ _ _ _ _ _ E2).
  - case_match; [|naive_solver].
    destruct (WalOps.file_write_all bud fs (wal_file w) data) as [[b2 f2] [n| |]] eqn:E2; try done.
    intros [= <- <- <- <-]. by rewrite (file_write_all_budget _ _ _ _ _ _ _ E2).
Qed.

Lemma append_batch_budget bud fs w es bud' fs' w' u :
  WalOps.append_batch bud fs w es = (bud', fs', w', Ok u) →
  WalOps.append_batch None fs w es = (None, fs', w', Ok u).
Proof.
  revert bud fs w. induction es as [|e es IH]; intros bud fs w; cbn [WalOps.append_batch]; [naive_solver|].
  destruct (json_to e) as [j|]; [|done]. unfold WalOps.write_line.
  destruct (WalOps.write_all bud fs w j) as [[[b1 f1] w1] [u1| |]] eqn:E1; try done.
  rewrite (write_all_budget _ _ _ _ _ _ _ _ E1).
  destruct (WalOps.write_all b1 f1 w1 [10]) as [[[b2 f2] w2] [u2| |]] eqn:E2; try done.
  rewrite (write_all_budget _ _ _ _ _ _ _ _ E2). apply IH.
Qed.

Lemma sync_budget bud fsync_ok fs w fs' w' u :
  WalOps.sync bud fsync_ok fs w = (fs', w', Ok u) → WalOps.sync None true fs w = (fs', w', Ok u).
Proof.
  unfold WalOps.sync. destruct (WalOps.flush_buf bud fs w) as [[[b f] w1] [u1| |]] eqn:E; try done.
  rewrite (flush_buf_budget _ _ _ _ _ _ _ E). destruct fsync_ok; [done|by intros [=]].
Qed.

Lemma rotate_budget bud fsync_ok open_ok fs w fs' w' id :
  WalOps.rotate bud fsync_ok open_ok fs w = (fs', w', Ok id) → WalOps.rotate None true true fs w = (fs', w', Ok id).
Proof.
  unfold WalOps.rotate. destruct (WalOps.sync bud fsync_ok fs w) as [[f w1] [u| |]] eqn:E; try done.
  rewrite (sync_budget _ _ _ _ _ _ _ E). destruct open_ok; [done|by intros [=]].
Qed.

Lemma write_ahead_ok io mode fs w new fs' w' u :
  write_ahead io mode fs w new = (fs', w', Ok u) → write_ahead no_faults mode fs w new = (fs', w', Ok u).
Proof.
  unfold write_ahead. case_bool_decide; [done|].
  destruct (WalOps.append_batch (ii_budget io) fs w new) as [[[b f] w1] [u1| |]] eqn:E; try done.
  cbn [no_faults ii_budget ii_fsync]. rewrite (append_batch_budget _ _ _ _ _ _ _ _ E). destruct mode.
  - destruct (WalOps.sync b (ii_fsync io) f w1) as [[f2 w2] [u2| |]] eqn:E2; try done.
    by rewrite (sync_budget _ _ _ _ _ _ _ E2).
  - unfold WalOps.flush_buffer. destruct (WalOps.flush_buf b f w1) as [[[b2 f2] w2] [u2| |]] eqn:E2; try done.
    by rewrite (flush_buf_budget _ _ _ _ _ _ _ E2).
Qed.

(** ** What a successful request did *)

Definition with_log (fs : WalFs) (w : Wal) (m : Memtable) (d : HotDedupe) (s : list FlushMessage) (st : AppState)
    : AppState :=
  MkAppState (set_walfs fs (as_env st)) w m d (as_queue st) s (as_config st).

(** The cache and the memtable after the commits. *)
Definition committed (clk : nat → Z * Z * Z) (st : AppState) (new : list UsageEvent) : HotDedupe * Memtable :=
  commit_all clk 0 (as_dedupe st) (as_memtable st) (classified <$> new).

Lemma handle_ingest_ok io now clk st events st' r :
  handle_ingest io now clk st events = (st', Ok r) →
  let new := admitted st now events in
  let '(d, m) := committed clk st new in
  (ir_accepted r = length new
   ∧ (ir_accepted r + ir_duplicates r + ir_conflicts r + ir_rejected r = length events)%nat)
  ∧ ∃ fs w, write_ahead no_faults (durability_mode (as_config st)) (as_walfs st) (as_wal st) new = (fs, w, Ok tt)
    ∧ (st' = with_log fs w m d (as_sending st) st
       ∨ ∃ fs2 w2 sealed, WalOps.rotate None true true fs w = (fs2, w2, Ok sealed)
         ∧ st' = with_log fs2 w2 Mem.new d
                   (as_sending st ++ [MkFlushMessage (mt_events m) sealed]) st).
Proof.
  unfold handle_ingest. intros H.
  destruct (validate_batch_spec now (m_closed_periods (as_manifest st)) events) as [V1 V2].
  destruct (validate_batch now (m_closed_periods (as_manifest st)) events) as [rejected cs]. cbn [fst snd] in V1, V2.
  subst cs. unfold ingest_critical_section in H.
  destruct (screen_spec (as_dedupe st) ∅ (stamped now (m_closed_periods (as_manifest st)) events)) as [S1 S2].
  rewrite dom_empty_L in S1. fold (admitted st now events) in S1.
  destruct (screen (as_dedupe st) ∅ (classified <$> stamped now (m_closed_periods (as_manifest st)) events))
    as [[new dup] conf]. cbn [fst snd] in S1, S2. subst new. rewrite classified_event in H. cbv zeta.
  unfold committed. destruct (write_ahead io _ _ _ _) as [[fs w] [[]| |]] eqn:Ew; try done.
  apply write_ahead_ok in Ew.
  destruct (commit_all clk 0 (as_dedupe st) (as_memtable st) (classified <$> admitted st now events)) as [d m].
  rewrite length_fmap in *. destruct (_ <? _).
  - unfold drain_and_rotate in H. cbn [Mem.drain_all as_memtable as_walfs as_wal set_walfs as_env fe_walfs] in H.
    destruct (WalOps.rotate (ii_rotate io).1.1 (ii_rotate io).1.2 (ii_rotate io).2 fs w) as [[fs2 w2] [sealed| |]] eqn:Er;
      try done.
    apply rotate_budget in Er. cbn [io_drained io_accepted io_duplicates io_conflicts io_rejected] in H.
    injection H as <- <-. cbn [ir_accepted ir_duplicates ir_conflicts ir_rejected]. split; [split; [done|lia]|].
    exists fs, w. split; [done|]. right. exists fs2, w2, sealed. done.
  - injection H as <- <-. cbn [ir_accepted ir_duplicates ir_conflicts ir_rejected io_accepted io_duplicates io_conflicts io_rejected].
    split; [split; [done|lia]|]. exists fs, w. split; [done|]. by left.
Qed.

(** C15: an acknowledged batch is accounted for exactly: every event is
    accepted, a duplicate, a conflict or rejected, the accepted ones are the
    first of each identity the cache did not know among the valid events
    outside closed periods, and they and nothing else join what is buffered
    for the segments. *)
Theorem ingest_admits_exactly io now clk st events st' r :
  handle_ingest io now clk st events = (st', Ok r) →
  (ir_accepted r + ir_duplicates r + ir_conflicts r + ir_rejected r = length events)%nat
  ∧ ir_accepted r = length (admitted st now events)
  ∧ buffered st' = buffered st ++ admitted st now events
  ∧ NoDup (id_hash <$> admitted st now events)
  ∧ as_manifest st' = as_manifest st ∧ as_files st' = as_files st.
Proof.
  intros H. pose proof (handle_ingest_ok _ _ _ _ _ _ _ H) as Hok. cbv zeta in Hok.
  pose proof (commit_all_memtable clk 0 (as_dedupe st) (as_memtable st) (classified <$> admitted st now events)) as Hm.
  rewrite classified_event in Hm. unfold committed in Hok.
  destruct (commit_all clk 0 (as_dedupe st) (as_memtable st) (classified <$> admitted st now events)) as [d m].
  cbn [snd] in Hm. destruct Hok as [[Ha Ht] (fs & w & _ & Hst)]. split; [done|]. split; [done|]. split.
  - unfold buffered. destruct Hst as [->|(fs2 & w2 & sealed & _ & ->)]; cbn [with_log as_queue as_memtable].
    + unfold pending. cbn. by rewrite Hm, app_assoc.
    + unfold pending. cbn. rewrite (app_assoc (as_queue st)), fmap_app, join_app. cbn. by rewrite Hm, !app_nil_r, app_assoc.
  - split; [apply NoDup_dedup_by|]. by destruct Hst as [->|(fs2 & w2 & sealed & _ & ->)].
Qed.

(** Only well-formed events get in: every accepted event has its
    identifiers, a positive timestamp, at most sixteen dimensions, a reference
    if it is an adjustment, and is not a usage event of a closed period. *)
Theorem ingest_admits_only_valid now st events e :
  e ∈ admitted st now events →
  ev_event_id e ≠ "" ∧ ev_account_id e ≠ "" ∧ ev_product_id e ≠ "" ∧ ev_meter_id e ≠ ""
  ∧ 0 < ev_timestamp_ms e ∧ (size (inner (ev_dimensions e)) ≤ MAX_DIMENSIONS)%nat
  ∧ (ev_kind e ≠ Usage → is_Some (ev_correction_ref e))
  ∧ (∀ year month, ev_kind e = Usage → Per.period_for_ts (ev_timestamp_ms e) = Some (year, month) →
       Per.is_period_closed (as_manifest st) (ev_account_id e) year month = false)
  ∧ ev_ingested_at_ms e = now.
Proof.
  intros He. eapply elem_of_sublist in He; [|apply dedup_by_sublist].
  apply list_elem_of_filter in He as [_ (e0 & -> & [Ha _]%list_elem_of_filter)%list_elem_of_fmap].
  unfold admissible in Ha. destruct (validate_event e0) as [u|err|] eqn:Ev; [|done..].
  unfold validate_event, str_empty in Ev. repeat (case_match; [discriminate Ev|]).
  unfold in_closed_period in Ha. cbn.
  repeat match goal with H : bool_decide _ = false |- _ => apply bool_decide_eq_false in H end. zbool.
  assert (size (inner (ev_dimensions e0)) ≤ MAX_DIMENSIONS)%nat by (by apply Nat.ltb_ge).
  split_and!; try done.
  - intros Hk. destruct (ev_correction_ref e0); [eauto|].
    destruct (ev_kind e0); [done|..]; match goal with H : (_ && _) = false |- _ => discriminate H end.
  - intros year month Hk Hp. by rewrite Hk, Hp in Ha.
Qed.

(** A request that could not be logged changes nothing it would have to
    answer for: when the append or the sync fails, the memtable, the cache,
    the queue, the segments and the manifest are as before. *)
Theorem ingest_log_failure_keeps_state io now clk st events st' err :
  handle_ingest io now clk st events = (st', Err err) →
  (∀ e, err ≠ WalRotateFailed e) →
  as_memtable st' = as_memtable st ∧ as_dedupe st' = as_dedupe st ∧ pending st' = pending st
  ∧ as_files st' = as_files st ∧ as_manifest st' = as_manifest st.
Proof.
  unfold handle_ingest. intros H Hne. destruct (validate_batch _ _ _) as [rejected cs].
  unfold ingest_critical_section in H. destruct (screen _ _ _) as [[new dup] conf].
  destruct (write_ahead _ _ _ _ _) as [[fs w] [u|e|]]; [|by injection H as <- <-|done].
  destruct (commit_all _ _ _ _ _) as [d m]. destruct (_ <? _); [|done].
  destruct (drain_and_rotate _ _ _ _) as [st2 [msg|e|]]; [done| |done].
  injection H as _ <-. by destruct (Hne e).
Qed.

(** ** Durability *)
Context {SJok : SerdeJsonOk}.

(** A log whose buffer is empty and whose file is synced to its end. *)
Definition settled (fs : WalFs) (w : Wal) : Prop :=
  wal_buf w = [] ∧ default 0%nat (wf_synced fs !! wal_file w) = length (WalOps.file_bytes fs (wal_file w)).

(** A synced file comes through a crash as it is. *)
Lemma synced_crash fs fs' name c :
  wf_files fs !! name = Some c → default 0%nat (wf_synced fs !! name) = length c → WalOps.crash_keeps fs fs' →
  wf_files fs' !! name = Some c ∨ wf_files fs' !! name = None ∧ c = [].
Proof.
  intros Hc Hs Hk. specialize (Hk name). rewrite Hc in Hk. destruct (wf_files fs' !! name) as [c'|].
  - left. destruct Hk as (n & -> & Hn). by rewrite take_ge by lia.
  - right. rewrite Hk in Hs. split; [done|]. by destruct c.
Qed.

Lemma encode_nil es : WalOps.encode_lines es = Some [] → es = [].
Proof.
  destruct es as [|e es]; [done|]. cbn. destruct (json_to e); [|done]. cbn.
  destruct (WalOps.encode_lines es); [|done]. cbn. intros [=]. by destruct l.
Qed.

Lemma settled_crash fs w es fs' :
  WalOps.holds fs w es → settled fs w → WalOps.crash_keeps fs fs' → WalOps.replay_file fs' (active_id w) = es.
Proof.
  intros (Hf & [c Hc] & Hwf & He) [Hb Hs] Hk. unfold WalOps.logical, WalOps.file_bytes in *.
  rewrite Hc, Hb, ?app_nil_r in *. cbn [default from_option id] in *. unfold WalOps.replay_file. rewrite <- Hf.
  destruct (synced_crash fs fs' _ c Hc Hs Hk) as [->|[-> ->]].
  - rewrite <- (app_nil_r c), (WalOps.replay_encode es) by done. by rewrite app_nil_r.
  - symmetry. by apply encode_nil.
Qed.

(** Logging a batch in strict mode settles the log with the batch behind what
    it held. *)
Lemma write_ahead_strict fs w es0 new :
  WalOps.holds fs w es0 → settled fs w → Forall event_wf new →
  ∃ fs' w', write_ahead no_faults Strict fs w new = (fs', w', Ok tt)
    ∧ WalOps.holds fs' w' (es0 ++ new) ∧ settled fs' w'
    ∧ wal_file w' = wal_file w ∧ active_id w' = active_id w
    ∧ (∀ n, n ≠ wal_file w → wf_files fs' !! n = wf_files fs !! n ∧ wf_synced fs' !! n = wf_synced fs !! n).
Proof.
  intros Hh Hs Hwf. unfold write_ahead. case_bool_decide as Hn.
  { subst. exists fs, w. rewrite app_nil_r. by repeat (split; [done|]). }
  destruct (WalOps.holds_append fs w es0 new Hh Hwf) as (fs1 & w1 & E1 & H1 & F1 & A1 & S1).
  destruct (WalOps.holds_sync fs1 w1 _ H1) as (fs2 & E2 & H2 & G1 & G2 & G3).
  cbn [no_faults ii_budget ii_fsync]. rewrite E1, E2. exists fs2, (WalOps.set_buf w1 []).
  split; [done|]. split; [done|]. split.
  - split; [done|]. cbn [WalOps.set_buf wal_file]. rewrite G2. cbn. unfold WalOps.file_bytes. by rewrite G1.
  - cbn [WalOps.set_buf wal_file active_id]. split; [done|]. split; [done|].
    intros n Hne. destruct (G3 n) as [-> ->]; [by rewrite F1|]. destruct S1 as (-> & S1 & _).
    split; [by apply S1|done].
Qed.

Lemma stamped_wf now closed events :
  ins 64 now → Forall event_wf events → Forall event_wf (stamped now closed events).
Proof.
  intros Hn Hwf. rewrite Forall_forall in Hwf. apply Forall_forall.
  intros e (e0 & -> & [_ He]%list_elem_of_filter)%list_elem_of_fmap. by destruct (Hwf e0 He) as (? & ? & _).
Qed.

Lemma admitted_wf now st events :
  ins 64 now → Forall event_wf events → Forall event_wf (admitted st now events).
Proof.
  intros Hn Hwf. pose proof (stamped_wf now (m_closed_periods (as_manifest st)) events Hn Hwf) as Hs.
  rewrite Forall_forall in Hs |- *. intros e He. eapply elem_of_sublist in He; [|apply dedup_by_sublist].
  apply list_elem_of_filter in He as [_ He]. by apply Hs.
Qed.

(** Rotating a settled log leaves a sealed, synced file and a new settled log. *)
Lemma rotate_settles fs w es :
  WalOps.holds fs w es → 0 ≤ active_id w < u64_max →
  wf_files fs !! WalOps.wal_filename (active_id w + 1) = None →
  wf_synced fs !! WalOps.wal_filename (active_id w + 1) = None →
  ∃ fs' w', WalOps.rotate None true true fs w = (fs', w', Ok (active_id w))
    ∧ active_id w' = active_id w + 1 ∧ WalOps.holds fs' w' [] ∧ settled fs' w'
    ∧ (∃ c, wf_files fs' !! wal_file w = Some c ∧ WalOps.encode_lines es = Some c
            ∧ wf_synced fs' !! wal_file w = Some (length c))
    ∧ wf_synced fs' !! wal_file w' = None
    ∧ ∀ n, n ≠ wal_file w → n ≠ wal_file w' →
           wf_files fs' !! n = wf_files fs !! n ∧ wf_synced fs' !! n = wf_synced fs !! n.
Proof.
  intros Hh Hid Hnew Hsy. destruct (WalOps.holds_sync fs w es Hh) as (fs1 & E1 & Hh1 & G1 & G2 & G3).
  unfold WalOps.rotate. rewrite E1. cbn [WalOps.set_buf active_id wal_file wal_buf].
  assert (WalOps.wal_filename (active_id w + 1) ≠ wal_file w) as Hne.
  { destruct Hh as [-> _]. intros E. apply WalOps.wal_filename_inj in E; lia. }
  destruct (G3 _ Hne) as [Hn1 Hn2]. rewrite Hnew in Hn1. rewrite Hsy in Hn2.
  eexists _, _. split; [reflexivity|]. cbn [active_id wal_file]. split; [done|]. split; [|split; [|split; [|split; [done|]]]].
  - split; [done|]. cbn. split; [rewrite lookup_insert_eq; eauto|]. split; [constructor|].
    unfold WalOps.logical, WalOps.open_append, WalOps.file_bytes. cbn. by rewrite Hn1, lookup_insert_eq.
  - split; [done|]. cbn. rewrite Hn2. unfold WalOps.open_append, WalOps.file_bytes. cbn. by rewrite lookup_insert_eq, Hn1.
  - destruct Hh as (_ & _ & _ & He). exists (WalOps.logical fs w). cbn. by rewrite lookup_insert_ne.
  - intros n H1 H2. cbn. rewrite lookup_insert_ne by done. by apply G3.
Qed.

(** An acknowledgement is durable: in strict mode, once a batch is
    answered, whatever the kernel lets a crash take, replaying the log file
    that was active gives what it held before followed by exactly the accepted
    events, whether or not the request also rotated the log. *)
Theorem ingest_ack_durable io now clk st events st' r es0 fs' :
  durability_mode (as_config st) = Strict →
  WalOps.holds (as_walfs st) (as_wal st) es0 → settled (as_walfs st) (as_wal st) →
  0 ≤ active_id (as_wal st) < u64_max →
  wf_files (as_walfs st) !! WalOps.wal_filename (active_id (as_wal st) + 1) = None →
  wf_synced (as_walfs st) !! WalOps.wal_filename (active_id (as_wal st) + 1) = None →
  ins 64 now → Forall event_wf events →
  handle_ingest io now clk st events = (st', Ok r) →
  WalOps.crash_keeps (as_walfs st') fs' →
  WalOps.replay_file fs' (active_id (as_wal st)) = es0 ++ admitted st now events.
Proof.
  intros Hmode Hh Hs Hid Hnf Hns Hnow Hwf H Hc.
  pose proof (handle_ingest_ok _ _ _ _ _ _ _ H) as Hok. cbv zeta in Hok.
  destruct (committed clk st (admitted st now events)) as [d m].
  destruct Hok as [_ (fs & w & Ew & Hst)]. rewrite Hmode in Ew.
  destruct (write_ahead_strict _ _ es0 (admitted st now events) Hh Hs (admitted_wf now st events Hnow Hwf))
    as (fs1 & w1 & E1 & H1 & S1 & F1 & A1 & O1). rewrite Ew in E1. injection E1 as -> ->.
  rewrite <- A1. destruct Hst as [->|(fs2 & w2 & sealed & Er & ->)]; [by eapply settled_crash|].
  cbn [with_log as_walfs as_env set_walfs fe_walfs] in Hc.
  assert (WalOps.wal_filename (active_id w1 + 1) ≠ wal_file (as_wal st)) as Hne.
  { destruct Hh as [-> _]. rewrite A1. intros E. apply WalOps.wal_filename_inj in E; lia. }
  destruct (O1 _ Hne) as [O2 O3].
  destruct (rotate_settles fs1 w1 _ H1) as (fs2' & w2' & Er' & _ & _ & _ & (c & C1 & C2 & C3) & _ & _).
  { by rewrite A1. } { by rewrite O2, A1. } { by rewrite O3, A1. }
  rewrite Er in Er'. injection Er' as -> -> _.
  destruct H1 as (Hf & _ & Hw & _). unfold WalOps.replay_file. rewrite <- Hf.
  destruct (synced_crash fs2' fs' _ c C1 ltac:(by rewrite C3) Hc) as [->|[-> ->]].
  - rewrite <- (app_nil_r c), (WalOps.replay_encode (es0 ++ admitted st now events)) by done. by rewrite app_nil_r.
  - symmetry. by apply encode_nil.
Qed.

(** ** Retries *)
Lemma q_commit_ids cap ttl now_evict now h p q x :
  x ∈ (Hot.q_commit cap ttl now_evict now h p q).*1 → x ∈ q.*1 ∨ x = h.
Proof.
  unfold Hot.q_commit. destruct (Hot.q_evict_suffix (now_evict - ttl) q) as (n & -> & _).
  assert (∀ k, x ∈ (drop k q).*1 → x ∈ q.*1) as Hd.
  { intros k. rewrite fmap_drop. apply subseteq_drop. }
  case_bool_decide; [by left; eapply Hd|]. rewrite fmap_drop. intros Hx.
  assert (x ∈ (drop n q ++ [(h, MkDedupeEntry p now)]).*1) as Hx' by (by eapply subseteq_drop).
  rewrite fmap_app, elem_of_app in Hx'. cbn in Hx'. rewrite list_elem_of_singleton in Hx'. naive_solver.
Qed.

(** A batch of commits within the capacity and the TTL keeps every entry. *)
Lemma commits_keep cap ttl clk new :
  (∀ i j, (clk j).1.1 ≤ (clk i).1.2 + ttl) → ∀ i q c,
  NoDup (cl_id_hash <$> new) → (∀ c, c ∈ new → cl_id_hash c ∉ q.*1) → (length new ≤ cap)%nat → c ∈ new →
  ∃ ql qr seen, Hot.q_run cap ttl q (commit_ops clk i new)
                = ql ++ (cl_id_hash c, MkDedupeEntry (cl_payload_hash c) seen) :: qr.
Proof.
  intros Hclk. induction new as [|c0 new IH]; intros i q c Hnd Hq Hlen Hc; [by apply not_elem_of_nil in Hc|].
  rewrite fmap_cons in Hnd. apply NoDup_cons in Hnd as [Hn0 Hnd]. cbn [length] in Hlen.
  change (Hot.q_run cap ttl q (commit_ops clk i (c0 :: new)))
    with (Hot.q_run cap ttl (Hot.q_commit cap ttl (clk i).1.1 (clk i).1.2 (cl_id_hash c0) (cl_payload_hash c0) q)
            (commit_ops clk (S i) new)).
  apply elem_of_cons in Hc as [->|Hc].
  - destruct (Hot.q_commit_last cap ttl (clk i).1.1 (clk i).1.2 (cl_id_hash c0) (cl_payload_hash c0) q) as [ql ->];
      [apply Hq; by left|lia|].
    destruct (Hot.q_run_keep cap ttl (commit_ops clk (S i) new) ql (cl_id_hash c0)
      (MkDedupeEntry (cl_payload_hash c0) (clk i).1.2) []) as (ql' & qr' & E); [| |eauto].
    + cbn [first_seen_ms]. generalize (S i). clear -Hclk. induction new as [|c new IH]; intros k; constructor; [|done].
      apply Hclk.
    + cbn. replace (length (commit_ops clk (S i) new)) with (length new); [lia|].
      generalize (S i). clear. induction new as [|c new IH]; intros k; [done|]. cbn. by rewrite <- IH.
  - apply (IH (S i)); [done| |lia|done]. intros c' Hc' Hin. apply q_commit_ids in Hin as [Hin|Heq].
    + eapply Hq; [by right|done].
    + apply Hn0. rewrite <- Heq. by apply (list_elem_of_fmap_2 cl_id_hash).
Qed.

Lemma committed_knows clk st new q :
  Hot.repr (as_dedupe st) q → NoDup (id_hash <$> new) →
  (∀ e, e ∈ new → hd_cache (as_dedupe st) !! id_hash e = None) →
  (length new ≤ hd_max_capacity (as_dedupe st))%nat →
  (∀ i j, (clk j).1.1 ≤ (clk i).1.2 + hd_ttl_ms (as_dedupe st)) →
  ∀ e, e ∈ new →
    Hot.classify (committed clk st new).1 (compute_event_hashes e).1 (compute_event_hashes e).2 = ExactDuplicate.
Proof.
  intros Hr Hnd Hfresh Hlen Hclk e He. unfold committed. rewrite commit_all_dedupe.
  pose proof (Hot.run_repr_gen _ _ (commit_ops clk 0 (classified <$> new)) Hr) as Hr'.
  destruct (commits_keep (hd_max_capacity (as_dedupe st)) (hd_ttl_ms (as_dedupe st)) clk (classified <$> new) Hclk 0 q
              (classified e)) as (ql & qr & seen & E).
  - rewrite <- list_fmap_compose. exact Hnd.
  - intros c (e' & -> & He')%list_elem_of_fmap Hin. apply (Hot.repr_lookup _ _ _ Hr) in Hin as [en Hen].
    change (cl_id_hash (classified e')) with (id_hash e') in Hen. by rewrite Hfresh in Hen.
  - by rewrite length_fmap.
  - by apply (list_elem_of_fmap_2 classified).
  - rewrite E in Hr'. rewrite (Hot.classify_repr _ _ _ _ Hr').
    change (compute_event_hashes e).1 with (cl_id_hash (classified e)).
    rewrite Hot.lookup_mid by (by destruct Hr'). by rewrite Z.eqb_refl.
Qed.

Lemma admitted_fresh st now events e :
  e ∈ admitted st now events → hd_cache (as_dedupe st) !! id_hash e = None.
Proof. intros He. eapply elem_of_sublist in He; [|apply dedup_by_sublist]. by apply list_elem_of_filter in He as [? _]. Qed.

(** C25: a retry is not counted again: after an acknowledged batch within the
    cache's capacity and TTL, every accepted event is an exact duplicate to
    the cache, and a later request made of accepted events, stamped however
    the client likes, adds nothing. *)
Theorem ingest_retry_adds_nothing io now clk st events st' r q now' retry :
  Hot.repr (as_dedupe st) q →
  (length (admitted st now events) ≤ hd_max_capacity (as_dedupe st))%nat →
  (∀ i j, (clk j).1.1 ≤ (clk i).1.2 + hd_ttl_ms (as_dedupe st)) →
  handle_ingest io now clk st events = (st', Ok r) →
  Forall (λ e', ∃ e t, e ∈ admitted st now events ∧ e' = set_ingested_at t e) retry →
  (∀ e, e ∈ admitted st now events →
     Hot.classify (as_dedupe st') (compute_event_hashes e).1 (compute_event_hashes e).2 = ExactDuplicate)
  ∧ admitted st' now' retry = [].
Proof.
  intros Hr Hlen Hclk H Hretry. pose proof (handle_ingest_ok _ _ _ _ _ _ _ H) as Hok. cbv zeta in Hok.
  pose proof (committed_knows clk st (admitted st now events) q Hr (NoDup_dedup_by _ _ _) (admitted_fresh st now events) Hlen Hclk) as Hk.
  destruct (committed clk st (admitted st now events)) as [d m]. cbn [fst] in Hk.
  assert (as_dedupe st' = d) as Hd by (by destruct Hok as [_ (fs & w & _ & [->|(? & ? & ? & _ & ->)])]).
  rewrite Hd. split; [exact Hk|]. unfold admitted at 1. rewrite filter_none; [done|].
  apply Forall_forall. intros e' (e0 & -> & [_ He0]%list_elem_of_filter)%list_elem_of_fmap.
  rewrite Forall_forall in Hretry. destruct (Hretry e0 He0) as (e & t & He & ->). rewrite Hd.
  intros Hnone. specialize (Hk e He). unfold Hot.classify in Hk.
  change (id_hash (set_ingested_at now' (set_ingested_at t e))) with (compute_event_hashes e).1 in Hnone.
  by rewrite Hnone in Hk.
Qed.

(** A rotation that fails loses sight of accepted events: the request ends
    in an error after the memtable has been drained, so everything buffered in
    it, this batch included, is in no message, no segment and no query, while
    the cache already knows the batch and will call a retry a duplicate. *)
Theorem ingest_rotate_failure_hides_events io now clk st events st' e :
  handle_ingest io now clk st events = (st', Err (WalRotateFailed e)) →
  buffered st' = mjoin (fm_events <$> pending st)
  ∧ as_files st' = as_files st ∧ as_manifest st' = as_manifest st
  ∧ as_dedupe st' = (committed clk st (admitted st now events)).1.
Proof.
  unfold handle_ingest. intros H.
  destruct (validate_batch_spec now (m_closed_periods (as_manifest st)) events) as [V1 _].
  destruct (validate_batch now (m_closed_periods (as_manifest st)) events) as [rejected cs]. cbn [fst snd] in V1.
  subst cs. unfold ingest_critical_section in H.
  destruct (screen_spec (as_dedupe st) ∅ (stamped now (m_closed_periods (as_manifest st)) events)) as [S1 _].
  rewrite dom_empty_L in S1. fold (admitted st now events) in S1. unfold committed.
  destruct (screen (as_dedupe st) ∅ (classified <$> stamped now (m_closed_periods (as_manifest st)) events))
    as [[new dup] conf]. cbn [fst snd] in S1. subst new.
  destruct (write_ahead io _ _ _ _) as [[fs w] [u|err|]] eqn:Ew; [|exfalso|done].
  2:{ unfold write_ahead in Ew. repeat case_match; simplify_eq. }
  destruct (commit_all clk 0 (as_dedupe st) (as_memtable st) (classified <$> admitted st now events)) as [d m].
  destruct (_ <? _); [|done]. unfold drain_and_rotate in H.
  cbn [Mem.drain_all as_memtable as_walfs as_wal set_walfs as_env fe_walfs] in H.
  destruct (WalOps.rotate _ _ _ _ _) as [[fs2 w2] [sealed|e2|]]; try done.
  injection H as <- _. unfold buffered. cbn. by rewrite app_nil_r.
Qed.
End ingest.
End Ing.

(** ** Witnesses *)
Module IngestExample.
#[local] Existing Instances poly_digest code_bincode text_json text_json_ok Per.flat_calendar.

Definition cfg (limit : Z) : Config := MkConfig limit 10 4 30 60000 60 30000 16 Strict 60000.

Definition st (limit : Z) : AppState :=
  MkAppState
    (MkFlushEnv ∅ ManExample.empty_man ManExample.gen0 (WalOps.open WalOps.empty_fs 0).1)
    (WalOps.open WalOps.empty_fs 0).2 Mem.new (Hot.new 10) [] [] (cfg limit).

(** A valid event, the same again, another payload under its id, and an event
    without an account. *)
Definition ev : UsageEvent := sample_event "a" "acct_1" 1000 5.
Definition batch : list UsageEvent := [ev; ev; sample_event "a" "acct_1" 1000 6; sample_event "b" "" 1000 7].

Definition clk (i : nat) : Z * Z * Z := (2000, 2000, 2000).

Definition run (limit : Z) := Ing.handle_ingest 200 no_faults 2000 clk (st limit) batch.

Lemma run_ok limit : limit = 1000000 ∨ limit = 10 → run limit = ((run limit).1, Ok (MkIngestResponse 1 1 1 1)).
Proof. intros [->| ->]; vm_compute; reflexivity. Qed.

Lemma admitted_ev limit : limit = 1000000 ∨ limit = 10 → Ing.admitted (st limit) 2000 batch = [set_ingested_at 2000 ev].
Proof. intros [->| ->]; vm_compute; reflexivity. Qed.

Lemma holds_empty limit : WalOps.holds (as_walfs (st limit)) (as_wal (st limit)) [].
Proof. split; [reflexivity|]. split; [by vm_compute; eauto|]. split; [constructor|]. reflexivity. Qed.

Lemma ingest_admits_exactly_witness :
  Ing.buffered (run 1000000).1 = [set_ingested_at 2000 ev] ∧ as_sending (run 10).1 ≠ [].
Proof.
  split; [|by vm_compute].
  destruct (Ing.ingest_admits_exactly 200 no_faults 2000 clk (st 1000000) batch _ _ (run_ok 1000000 ltac:(by left)))
    as (_ & _ & -> & _). rewrite (admitted_ev 1000000) by (by left). reflexivity.
Defined.

Lemma ingest_admits_only_valid_witness : 0 < ev_timestamp_ms (set_ingested_at 2000 ev).
Proof.
  apply (Ing.ingest_admits_only_valid 2000 (st 10) batch (set_ingested_at 2000 ev)).
  rewrite (admitted_ev 10) by (by right). by left.
Defined.

Lemma crash_keeps_all fs : WalOps.crash_keeps fs fs.
Proof.
  intros name. destruct (wf_files fs !! name) as [c|] eqn:E; [|done].
  exists (length c `max` default 0 (wf_synced fs !! name))%nat. split; [|lia]. by rewrite take_ge by lia.
Qed.

Lemma ingest_ack_durable_witness :
  WalOps.replay_file (as_walfs (run 10).1) 1 = [] ++ Ing.admitted (st 10) 2000 batch.
Proof.
  refine (Ing.ingest_ack_durable 200 no_faults 2000 clk (st 10) batch _ _ [] (as_walfs (run 10).1)
    eq_refl (holds_empty 10) _ _ _ _ _ _ (run_ok 10 _) (crash_keeps_all _)).
  - split; reflexivity.
  - by vm_compute.
  - reflexivity.
  - reflexivity.
  - by vm_compute.
  - refine (bool_decide_unpack _ _). by vm_compute.
  - by right.
Defined.

Lemma ingest_retry_adds_nothing_witness :
  Ing.admitted (run 10).1 3000 [set_ingested_at 5 (set_ingested_at 2000 ev)] = [].
Proof.
  refine (proj2 (Ing.ingest_retry_adds_nothing 200 no_faults 2000 clk (st 10) batch _ _ [] 3000 _
    (Hot.new_repr 10) _ _ (run_ok 10 _) _)).
  - rewrite (admitted_ev 10) by (by right). by vm_compute; lia.
  - intros i j. by vm_compute.
  - by right.
  - apply Forall_singleton. exists (set_ingested_at 2000 ev), 5. split; [|done].
    rewrite (admitted_ev 10) by (by right). by left.
Defined.

(** The same request when the append fails, and when the next log file cannot
    be opened. *)
Definition run_full_disk := Ing.handle_ingest 200 (MkIngestIo (Some 10%nat) true (None, true, true)) 2000 clk (st 10) batch.
Definition run_no_open := Ing.handle_ingest 200 (MkIngestIo None true (None, true, false)) 2000 clk (st 10) batch.

Lemma ingest_log_failure_keeps_state_witness : as_memtable run_full_disk.1 = Mem.new.
Proof.
  refine (proj1 (Ing.ingest_log_failure_keeps_state 200 (MkIngestIo (Some 10%nat) true (None, true, true)) 2000 clk
    (st 10) batch run_full_disk.1 (WalSyncFailed IoWrite) _ _)); [by vm_compute|done].
Defined.

Lemma ingest_rotate_failure_hides_events_witness : Ing.buffered run_no_open.1 = [].
Proof.
  refine (proj1 (Ing.ingest_rotate_failure_hides_events 200 (MkIngestIo None true (None, true, false)) 2000 clk
    (st 10) batch run_no_open.1 IoOpen _)). by vm_compute.
Defined.
End IngestExample.
