(* ===== verification/Recovery.v ===== *)
(** * Startup and recovery

    [src/runtime/recovery.rs] and the start of [run_server] in [src/main.rs]:
    the manifest is loaded, sealed log files are deleted, the others are
    replayed into the cache and the memtable, the cache is rebuilt from the
    sidecars or rows of recent segments, and the log is reopened.  Files under
    [tmp/], which no other code reads, are not part of the state.  Clock
    readings are arguments: [now] for the cutoff, [clk i] for the [i]-th
    insertion into the memtable. *)

From Stdlib Require Import Ascii.
From stdpp Require Import sorting numbers strings base gmap list.
From S2P Require Import Prelude Model Instances Encoding Segment SegmentSpec DedupeIndex SegmentApi.
From S2P Require Import Memtable Dedupe Wal Manifest Period Flusher State Ingest.

Record RecoveryResult := MkRecoveryResult {
  rec_manifest : Manifest;
  rec_dedupe : HotDedupe;
  rec_memtable : Memtable;
}.

Module Rec.
Section recovery.
Context {BL : Blake3} {BN : Bincode} {SJ : SerdeJson} {RS : RawSegments} {MJ : ManifestJson} (size_of_event : Z).

(** Step 4, for the events of all files in order. *)
Fixpoint replay_events (clk : nat → Z) (i : nat) (d : HotDedupe) (m : Memtable) (events : list UsageEvent)
    : HotDedupe * Memtable :=
  match events with
  | [] => (d, m)
  | e :: events =>
      let '(event_id_hash, payload_hash) := compute_event_hashes e in
      replay_events clk (S i)
        (Hot.insert_known event_id_hash payload_hash (ev_ingested_at_ms e) d)
        (Mem.insert size_of_event (clk i) m e) events
  end.

Definition unsealed_events (fs : WalFs) (last_sealed : Z) : list UsageEvent :=
  mjoin (WalOps.replay_file fs <$> WalOps.list_files_after fs last_sealed).

(** Step 5. *)
Definition insert_entry (d : HotDedupe) (en : Idx.DedupeEntry) : HotDedupe :=
  let '(id_hash, payload_hash, ingested_at_ms) := en in Hot.insert_known id_hash payload_hash ingested_at_ms d.

Definition register_segment (files : gmap string bytes) (cutoff : Z) (seg : SegmentMeta) (d : HotDedupe)
    : outcome Man.man_error HotDedupe :=
  if sm_max_timestamp_ms seg <? cutoff then Ok d
  else
    match files !! seg_path (sm_segment_id seg) with
    | None => Ok d
    | Some bs =>
        match Idx.usable_index (files !! Idx.index_path (sm_segment_id seg)) with
        | Some entries => Ok (foldl insert_entry d entries)
        | None =>
            match seg_open bs with
            | Ok (es, Panic) => Panic
            | Ok (es, _) => Ok (foldl insert_entry d (Flush.index_entry <$> es))
            | Err _ => Ok d
            | Panic => Panic
            end
        end
    end.

Fixpoint rebuild_dedupe (files : gmap string bytes) (cutoff : Z) (segs : list SegmentMeta) (d : HotDedupe)
    : outcome Man.man_error HotDedupe :=
  match segs with
  | [] => Ok d
  | seg :: segs => d ← register_segment files cutoff seg d; rebuild_dedupe files cutoff segs d
  end.

Definition run_startup_recovery (capacity : nat) (mfault : Man.save_fault) (now : Z) (clk : nat → Z)
    (manfs : Man.ManFs) (files : gmap string bytes) (walfs : WalFs)
    : Man.ManFs * WalFs * outcome Man.man_error RecoveryResult :=
  let '(manfs, loaded) := Man.load mfault manfs in
  match loaded with
  | Err e => (manfs, walfs, Err e)
  | Panic => (manfs, walfs, Panic)
  | Ok om =>
      let manifest := default manifest_default om in
      let last := m_last_sealed_wal_id manifest in
      let walfs := if 0 <? last then WalOps.delete_files_through walfs last else walfs in
      let '(d, m) := replay_events clk 0 (Hot.new capacity) Mem.new (unsealed_events walfs last) in
      let cutoff := sat_sub_i64 now DEFAULT_TTL_MS in
      (manfs, walfs,
       d ← rebuild_dedupe files cutoff (m_raw_segments manifest) d;
       Ok (MkRecoveryResult manifest d m))
  end.

Definition set_bucket_count (n : Z) (m : Manifest) : Manifest :=
  MkManifest (m_db_version m) n (m_raw_segments m) (m_rollup_segments m)
    (m_compacted_replacements m) (m_hourly_rollup_ms m) (m_last_sealed_wal_id m)
    (m_closed_periods m) (m_current_generation m).

(** [run_server] up to the construction of the state: a new database gets its
    bucket count, then the log is opened. *)
Definition startup (cfg : Config) (mfault sfault : Man.save_fault) (now : Z) (clk : nat → Z)
    (manfs : Man.ManFs) (files : gmap string bytes) (walfs : WalFs) : outcome Man.man_error AppState :=
  match run_startup_recovery (dedupe_capacity cfg) mfault now clk manfs files walfs with
  | (manfs, walfs, Ok r) =>
      let '(manfs, manifest, saved) :=
        if m_bucket_count (rec_manifest r) =? 0
        then Man.save sfault manfs (set_bucket_count (default_bucket_count cfg) (rec_manifest r))
        else (manfs, rec_manifest r, Ok tt) in
      _ ← saved;
      let '(walfs, wal) := WalOps.open walfs (m_last_sealed_wal_id manifest) in
      Ok (MkAppState (MkFlushEnv files manfs manifest walfs) wal (rec_memtable r) (rec_dedupe r) [] [] cfg)
  | (_, _, Err e) => Err e
  | (_, _, Panic) => Panic
  end.

(** ** Lemmas: replay *)
Lemma replay_memtable clk i d m es : mt_events (replay_events clk i d m es).2 = mt_events m ++ es.
Proof.
  revert i d m. induction es as [|e es IH]; intros i d m; cbn [replay_events]; [by rewrite app_nil_r|].
  destruct (compute_event_hashes e) as [h p]. rewrite IH. cbn. by rewrite <- app_assoc.
Qed.

Definition known (d : HotDedupe) (e : UsageEvent) : Prop := is_Some (hd_cache d !! (compute_event_hashes e).1).

Lemma insert_known_mono h p seen d x : is_Some (hd_cache d !! x) → is_Some (hd_cache (Hot.insert_known h p seen d) !! x).
Proof.
  intros Hx. unfold Hot.insert_known. case_bool_decide; [done|]. cbn.
  destruct (decide (x = h)) as [->|]; [rewrite lookup_insert_eq; eauto|by rewrite lookup_insert_ne].
Qed.

Lemma insert_known_self h p seen d : is_Some (hd_cache (Hot.insert_known h p seen d) !! h).
Proof.
  unfold Hot.insert_known. case_bool_decide; [done|]. cbn. rewrite lookup_insert_eq. eauto.
Qed.

Lemma replay_mono clk i d m es x :
  is_Some (hd_cache d !! x) → is_Some (hd_cache (replay_events clk i d m es).1 !! x).
Proof.
  revert i d m. induction es as [|e es IH]; intros i d m Hx; cbn [replay_events]; [done|].
  destruct (compute_event_hashes e) as [h p]. by apply IH, insert_known_mono.
Qed.

Lemma replay_known clk i d m es e : e ∈ es → known (replay_events clk i d m es).1 e.
Proof.
  revert i d m. induction es as [|e' es IH]; intros i d m He; [by apply not_elem_of_nil in He|].
  cbn [replay_events]. destruct (compute_event_hashes e') as [h p] eqn:E.
  apply elem_of_cons in He as [->|He]; [|by apply IH].
  apply replay_mono. rewrite E. apply insert_known_self.
Qed.

Lemma entries_mono d entries x :
  is_Some (hd_cache d !! x) → is_Some (hd_cache (foldl insert_entry d entries) !! x).
Proof.
  revert d. induction entries as [|[[h p] t] entries IH]; intros d Hx; [done|]. by apply IH, insert_known_mono.
Qed.

Lemma entries_known d es e : e ∈ es → known (foldl insert_entry d (Flush.index_entry <$> es)) e.
Proof.
  revert d. induction es as [|e' es IH]; intros d He; [by apply not_elem_of_nil in He|].
  rewrite fmap_cons. cbn [foldl]. apply elem_of_cons in He as [->|He]; [|by apply IH].
  apply entries_mono. unfold insert_entry, Flush.index_entry.
  destruct (compute_event_hashes e') as [h p]. apply insert_known_self.
Qed.

(** The sidecar of a segment, if it can be read, lists the segment's rows. *)
Definition sidecar_sound (files : gmap string bytes) (s : SegmentMeta) : Prop :=
  ∀ entries, Idx.usable_index (files !! Idx.index_path (sm_segment_id s)) = Some entries →
             entries = Flush.index_entry <$> Flush.seg_events files s.

(** Segments recovery can use. *)
Definition recoverable (files : gmap string bytes) (s : SegmentMeta) : Prop :=
  Flush.seg_at files s (Flush.seg_events files s) ∧ sidecar_sound files s.

Lemma register_spec files cutoff s d :
  recoverable files s →
  ∃ d', register_segment files cutoff s d = Ok d'
    ∧ (∀ x, is_Some (hd_cache d !! x) → is_Some (hd_cache d' !! x))
    ∧ (cutoff ≤ sm_max_timestamp_ms s → ∀ e, e ∈ Flush.seg_events files s → known d' e).
Proof.
  intros [(bs & Eb & Er) Hside]. unfold register_segment. zcase.
  { exists d. split; [done|]. split; [done|]. intros. lia. }
  rewrite Eb. destruct (Idx.usable_index _) as [entries|] eqn:Ei.
  - rewrite (Hside entries Ei). eexists. split; [done|]. split; [intros; by apply entries_mono|].
    intros _ e. apply entries_known.
  - unfold seg_read_all in Er. destruct (seg_open bs) as [[es [[]| |]]| |]; cbn in Er; try done.
    injection Er as Er. rewrite Er. eexists. split; [done|]. split; [intros; by apply entries_mono|].
    intros _ e. apply entries_known.
Qed.

Lemma rebuild_spec files cutoff segs d :
  Forall (recoverable files) segs →
  ∃ d', rebuild_dedupe files cutoff segs d = Ok d'
    ∧ (∀ x, is_Some (hd_cache d !! x) → is_Some (hd_cache d' !! x))
    ∧ (∀ s e, s ∈ segs → cutoff ≤ sm_max_timestamp_ms s → e ∈ Flush.seg_events files s → known d' e).
Proof.
  intros Hs. revert d. induction Hs as [|s segs H _ IH]; intros d.
  { exists d. split; [done|]. split; [done|]. by intros s e ?%not_elem_of_nil. }
  cbn [rebuild_dedupe]. destruct (register_spec files cutoff s d H) as (d1 & -> & M1 & K1). cbn [mbind outcome_bind].
  destruct (IH d1) as (d2 & -> & M2 & K2). exists d2. split; [done|]. split; [auto|].
  intros s' e [->|Hs']%elem_of_cons Hc He; [apply M2; by apply K1|by eapply K2].
Qed.

(** Recovery restores what was acknowledged: with a manifest that loads and
    readable segments it always succeeds, the memtable holds exactly the events
    of the unsealed log files in order, and every one of them, and every event
    of a segment whose last timestamp is within the dedupe window, is known to
    the rebuilt cache, so that a retry across the restart is recognised. *)
Theorem recovery_restores capacity mfault now clk manfs files walfs manfs' om :
  Man.load mfault manfs = (manfs', Ok om) →
  let m := default manifest_default om in
  let last := m_last_sealed_wal_id m in
  let walfs' := if 0 <? last then WalOps.delete_files_through walfs last else walfs in
  Forall (recoverable files) (m_raw_segments m) →
  ∃ r, run_startup_recovery capacity mfault now clk manfs files walfs = (manfs', walfs', Ok r)
    ∧ rec_manifest r = m
    ∧ mt_events (rec_memtable r) = unsealed_events walfs' last
    ∧ (∀ e, e ∈ unsealed_events walfs' last → known (rec_dedupe r) e)
    ∧ (∀ s e, s ∈ m_raw_segments m → sat_sub_i64 now DEFAULT_TTL_MS ≤ sm_max_timestamp_ms s →
              e ∈ Flush.seg_events files s → known (rec_dedupe r) e).
Proof.
  intros Hl m last walfs' Hs. unfold run_startup_recovery. rewrite Hl. fold m last walfs'.
  pose proof (replay_memtable clk 0 (Hot.new capacity) Mem.new (unsealed_events walfs' last)) as Hm.
  pose proof (λ e, replay_known clk 0 (Hot.new capacity) Mem.new (unsealed_events walfs' last) e) as Hk.
  destruct (replay_events clk 0 (Hot.new capacity) Mem.new (unsealed_events walfs' last)) as [d mt]. cbn [fst snd] in Hm, Hk.
  destruct (rebuild_spec files (sat_sub_i64 now DEFAULT_TTL_MS) (m_raw_segments m) d Hs) as (d' & -> & M & K).
  eexists. split; [reflexivity|]. cbn [rec_manifest rec_memtable rec_dedupe]. split; [done|].
  split; [exact Hm|]. split; [|exact K]. intros e He. apply M. by apply Hk.
Qed.
End recovery.
End Rec.

(** ** Witnesses and two losses *)
Module RecoveryExample.
#[local] Existing Instances poly_digest code_bincode stored_codecs poly_digest_ok code_bincode_ok stored_codecs_ok.
#[local] Existing Instances text_json text_json_ok Per.flat_calendar ManExample.text_manifest ManExample.text_manifest_ok.
#[local] Existing Instances Files.file_segments Files.file_segments_ok.

Definition ev : UsageEvent := sample_event "a" "acct_1" 3700000 5.
Definition raw_file : bytes := match seg_write [ev] with Ok (bs, _, _) => bs | _ => [] end.
Definition raw_meta : SegmentMeta := build_segment_meta "raw_a" [ev] 2 0.
Definition files : gmap string bytes := {[seg_path "raw_a" := raw_file]}.

Lemma recovery_raw_at : Flush.seg_at files raw_meta [ev].
Proof. eexists. split; [vm_compute; reflexivity|]. vm_compute. reflexivity. Qed.

(** A segment in the saved manifest and an event in the log. *)
Lemma recovery_restores_witness :
  ∃ manfs r, (Rec.run_startup_recovery 200 10 None 3800000 (λ _, 0) manfs files (as_walfs (IngestExample.run 1000000).1)).2
             = Ok r
    ∧ Rec.known (rec_dedupe r) ev
    ∧ mt_events (rec_memtable r) = [set_ingested_at 2000 IngestExample.ev].
Proof.
  destruct (Man.save_then_load None ManExample.empty_man (set_raw_segments [raw_meta] ManExample.gen0))
    as (manfs & _ & Hl); [by vm_compute|].
  destruct (Rec.recovery_restores 200 10 None 3800000 (λ _, 0) manfs files (as_walfs (IngestExample.run 1000000).1) _ _ Hl)
    as (r & E & _ & Hm & _ & Hk).
  - apply Forall_singleton. unfold Rec.recoverable, Rec.sidecar_sound.
    rewrite (Flush.seg_at_events _ _ _ recovery_raw_at). split; [apply recovery_raw_at|]. intros entries Hi. by vm_compute in Hi.
  - exists manfs, r. rewrite E. cbn [snd]. split; [reflexivity|]. split.
    + apply (Hk raw_meta); [by left|by vm_compute|]. rewrite (Flush.seg_at_events _ _ _ recovery_raw_at). by left.
    + rewrite Hm. vm_compute. reflexivity.
Defined.

(** A request whose sync fails can be counted twice: its lines stay in the
    log though the client is told it failed, the retry logs the event again
    and is accepted, and recovery puts both copies into the memtable. *)
Theorem failed_sync_counts_twice :
  let clk := IngestExample.clk in
  let '(st1, r1) := Ing.handle_ingest 200 (MkIngestIo None false (None, true, true)) 2000 clk (IngestExample.st 1000000) [ev] in
  let '(st2, r2) := Ing.handle_ingest 200 no_faults 2000 clk st1 [ev] in
  r1 = Err (WalSyncFailed IoSync) ∧ r2 = Ok (MkIngestResponse 1 0 0 0)
  ∧ mt_events (as_memtable st2) = [set_ingested_at 2000 ev]
  ∧ Rec.unsealed_events (as_walfs st2) 0 = [set_ingested_at 2000 ev; set_ingested_at 2000 ev].
Proof. vm_compute. repeat split; reflexivity. Qed.

(** A backfilled event is forgotten across a restart: the window recovery
    scans is measured by the events' own timestamps, so with all segments older
    than it the rebuilt cache is empty however recently they were ingested, and
    a retry of any of their events is classified as new. *)
Theorem recovery_forgets_backfill capacity now clk manfs files walfs manfs' m h p :
  Man.load None manfs = (manfs', Ok (Some m)) →
  Forall (λ s, sm_max_timestamp_ms s < sat_sub_i64 now DEFAULT_TTL_MS) (m_raw_segments m) →
  Rec.unsealed_events (if 0 <? m_last_sealed_wal_id m then WalOps.delete_files_through walfs (m_last_sealed_wal_id m) else walfs)
    (m_last_sealed_wal_id m) = [] →
  ∃ r, (Rec.run_startup_recovery 200 capacity None now clk manfs files walfs).2 = Ok r
    ∧ Hot.classify (rec_dedupe r) h p = NewEvent.
Proof.
  intros Hl Hs Hw. unfold Rec.run_startup_recovery. rewrite Hl. cbn [default from_option id]. rewrite Hw.
  cbn [Rec.replay_events].
  assert (∀ d, Rec.rebuild_dedupe files (sat_sub_i64 now DEFAULT_TTL_MS) (m_raw_segments m) d = Ok d) as Hr.
  { induction Hs as [|s segs H _ IH]; intros d; [done|]. cbn [Rec.rebuild_dedupe]. unfold Rec.register_segment.
    rewrite (proj2 (Z.ltb_lt _ _)) by done. apply IH. }
  rewrite Hr. eexists. split; [reflexivity|]. done.
Qed.

Lemma recovery_forgets_backfill_witness :
  ∃ manfs r, (Rec.run_startup_recovery 200 10 None (DEFAULT_TTL_MS + 5000000) (λ _, 0) manfs files WalOps.empty_fs).2 = Ok r
    ∧ Hot.classify (rec_dedupe r) (compute_event_hashes ev).1 0 = NewEvent.
Proof.
  destruct (Man.save_then_load None ManExample.empty_man (set_raw_segments [raw_meta] ManExample.gen0))
    as (manfs & _ & Hl); [by vm_compute|]. exists manfs.
  apply (recovery_forgets_backfill 10 (DEFAULT_TTL_MS + 5000000) (λ _, 0) manfs files WalOps.empty_fs _ _
    (compute_event_hashes ev).1 0 Hl).
  - apply Forall_singleton. by vm_compute.
  - reflexivity.
Defined.
End RecoveryExample.
