(* ===== verification/System.v ===== *)
(** * The system

    The write path end to end: batches are ingested, the log is rotated, the
    flusher turns messages into segments, the process crashes and recovers.
    The steps are the functions of the components; the log directory is
    described by the events of each file ([dir_log]), and the invariant ties
    the files to what the messages on their way and the memtable hold. *)

From Stdlib Require Import Ascii.
From stdpp Require Import sorting numbers strings base gmap list.
From S2P Require Import Prelude Model Instances Encoding Segment SegmentSpec DedupeIndex SegmentApi.
From S2P Require Import Memtable Dedupe Wal Manifest Period Flusher State Ingest Recovery.

Module Sys.
(** ** The log directory *)

(** The events of the log files, by ascending id. *)
Abbreviation Log := (list (Z * list UsageEvent)).

Definition log_events (log : Log) : list UsageEvent := mjoin log.*2.

(** Sorting forgets the order of integers. *)
Lemma sort_perm_eq (l l' : list Z) : l ≡ₚ l' → sort_by Z.compare l = sort_by Z.compare l'.
Proof.
  intros Hp. assert (∀ l, StronglySorted Z.le (sort_by Z.compare l)) as Hs.
  { intros k. pose proof (sort_by_sorted Z.compare k) as Hs. induction Hs as [|x m _ IH H0]; constructor; [done|].
    eapply Forall_impl; [exact H0|]. unfold cmp_le. intros y Hy. by rewrite Z.compare_gt_iff, Z.nlt_ge in Hy. }
  apply (StronglySorted_unique Z.le); [done|done|]. by rewrite !sort_by_perm.
Qed.

Section system.
Context {BL : Blake3} {BN : Bincode} {SJ : SerdeJson} {RS : RawSegments} {MJ : ManifestJson} {CH : Chrono}.
Context {SJok : SerdeJsonOk} {RSok : RawSegmentsOk} {MJok : ManifestJsonOk}.
Context (size_of_event : Z).

Record dir_log (fs : WalFs) (log : Log) : Prop := {
  dl_sorted : StronglySorted Z.lt log.*1;
  dl_ids : Forall (λ p, 0 ≤ p.1 ≤ u64_max ∧ Forall event_wf p.2) log;
  dl_files name c :
    wf_files fs !! name = Some c
    ↔ ∃ p, p ∈ log ∧ name = WalOps.wal_filename p.1 ∧ WalOps.encode_lines p.2 = Some c;
  dl_synced p : p ∈ log →
    default 0%nat (wf_synced fs !! WalOps.wal_filename p.1)
    = length (WalOps.file_bytes fs (WalOps.wal_filename p.1));
  dl_new id : Forall (λ p, p.1 < id) log → 0 ≤ id ≤ u64_max → wf_synced fs !! WalOps.wal_filename id = None;
}.

Lemma dir_log_range fs log p : dir_log fs log → p ∈ log → 0 ≤ p.1 ≤ u64_max.
Proof. intros H Hp. pose proof (dl_ids _ _ H) as Hi. rewrite Forall_forall in Hi. by apply Hi. Qed.

Lemma sorted_lookup (log : Log) p p' :
  StronglySorted Z.lt log.*1 → p ∈ log → p' ∈ log → p.1 = p'.1 → p = p'.
Proof.
  induction log as [|q log IH]; intros Hs Hp Hp' Heq; [by apply not_elem_of_nil in Hp|].
  rewrite fmap_cons in Hs. apply StronglySorted_inv in Hs as [Hs H0]. rewrite Forall_forall in H0.
  apply elem_of_cons in Hp as [->|Hp], Hp' as [->|Hp']; [done| | |by apply IH].
  - specialize (H0 p'.1 (list_elem_of_fmap_2 fst _ _ Hp')). lia.
  - specialize (H0 p.1 (list_elem_of_fmap_2 fst _ _ Hp)). lia.
Qed.

Lemma dir_log_file fs log p :
  dir_log fs log → p ∈ log →
  ∃ c, wf_files fs !! WalOps.wal_filename p.1 = Some c ∧ WalOps.encode_lines p.2 = Some c.
Proof.
  intros H Hp. destruct (WalOps.encode_lines_total p.2) as [c Hc]. exists c. split; [|done].
  apply (dl_files _ _ H). eauto.
Qed.

Lemma dir_log_replay fs log p : dir_log fs log → p ∈ log → WalOps.replay_file fs p.1 = p.2.
Proof.
  intros H Hp. destruct (dir_log_file fs log p H Hp) as (c & Hf & Hc). unfold WalOps.replay_file. rewrite Hf.
  pose proof (dl_ids _ _ H) as Hi. rewrite Forall_forall in Hi. destruct (Hi p Hp) as [_ Hwf].
  rewrite <- (app_nil_r c), (WalOps.replay_encode p.2) by done. by rewrite app_nil_r.
Qed.

Lemma sorted_lt_NoDup (l : list Z) : StronglySorted Z.lt l → NoDup l.
Proof.
  induction l as [|x l IH]; [constructor|]. intros [Hs H0]%StronglySorted_inv. constructor; [|by apply IH].
  intros Hx. rewrite Forall_forall in H0. specialize (H0 x Hx). lia.
Qed.

Lemma filenames_NoDup (log : Log) :
  StronglySorted Z.lt log.*1 → Forall (λ p, 0 ≤ p.1 ≤ u64_max ∧ Forall event_wf p.2) log →
  NoDup (WalOps.wal_filename <$> log.*1).
Proof.
  intros Hnd%sorted_lt_NoDup Hi. induction log as [|p log IH]; [constructor|].
  rewrite !fmap_cons in *. apply NoDup_cons in Hnd as [Hn Hnd]. apply Forall_cons in Hi as [[Hp _] Hi].
  constructor; [|by apply IH]. intros (id & Heq & Hid)%list_elem_of_fmap. apply Hn.
  pose proof Hid as (p' & -> & Hp')%list_elem_of_fmap.
  rewrite Forall_forall in Hi. destruct (Hi p' Hp') as [Hr' _].
  by apply WalOps.wal_filename_inj in Heq as ->.
Qed.

(** The listing recovery works through. *)
Lemma wal_ids_log fs log : dir_log fs log → WalOps.wal_ids fs ≡ₚ log.*1.
Proof.
  intros H. set (file := λ p : Z * list UsageEvent, (WalOps.wal_filename p.1, default [] (WalOps.encode_lines p.2))).
  assert (NoDup (file <$> log).*1) as Hnd.
  { rewrite <- list_fmap_compose. pose proof (filenames_NoDup log (dl_sorted _ _ H) (dl_ids _ _ H)) as Hnd.
    by rewrite <- list_fmap_compose in Hnd. }
  assert (wf_files fs = list_to_map (file <$> log)) as Hmap.
  { apply map_eq. intros name. apply option_eq. intros c. rewrite (dl_files _ _ H), <- elem_of_list_to_map by done.
    rewrite list_elem_of_fmap. split.
    - intros (p & Hp & -> & Hc). exists p. unfold file. by rewrite Hc.
    - intros (p & [= -> ->] & Hp). exists p. split; [done|]. split; [done|].
      by destruct (WalOps.encode_lines_total p.2) as [c ->]. }
  unfold WalOps.wal_ids, WalOps.names. rewrite Hmap, (map_to_list_to_map _ Hnd). apply reflexive_eq.
  pose proof (dl_ids _ _ H) as Hi. clear -Hi. induction Hi as [|p log [Hp _] _ IH]; [done|].
  rewrite !fmap_cons. cbn [file fst omap list_omap]. rewrite WalOps.parse_wal_filename by done. f_equal. exact IH.
Qed.

Lemma list_files_log fs log lo :
  dir_log fs log → WalOps.list_files_after fs lo = filter (λ id, lo < id) log.*1.
Proof.
  intros H. unfold WalOps.list_files_after.
  assert (StronglySorted (cmp_le Z.compare) (filter (λ id, lo < id) log.*1)) as Hs.
  { pose proof (dl_sorted _ _ H) as Hs. induction log.*1 as [|x l IH]; [constructor|].
    apply StronglySorted_inv in Hs as [Hs H0]. rewrite filter_cons. case_decide; [|by apply IH].
    constructor; [by apply IH|]. rewrite Forall_forall in H0. apply Forall_forall.
    intros y [_ Hy]%list_elem_of_filter. specialize (H0 y Hy). unfold cmp_le. rewrite Z.compare_gt_iff. lia. }
  rewrite <- (sort_by_id Z.compare _ Hs). apply sort_perm_eq. by rewrite (wal_ids_log fs log H).
Qed.

Lemma unsealed_log fs log lo :
  dir_log fs log → Rec.unsealed_events fs lo = log_events (filter (λ p, lo < p.1) log).
Proof.
  intros H. unfold Rec.unsealed_events, log_events. rewrite (list_files_log fs log lo H). f_equal.
  assert (Forall (λ p, WalOps.replay_file fs p.1 = p.2) log) as Hr.
  { apply Forall_forall. intros p Hp. by eapply dir_log_replay. }
  clear H. induction Hr as [|p log Hp _ IH]; [done|]. rewrite fmap_cons, (filter_cons _ p.1), (filter_cons _ p).
  case_decide; [|exact IH]. rewrite !fmap_cons, Hp. by f_equal.
Qed.

Lemma elem_of_snoc {A} (x y : A) l : x ∈ l ++ [y] ↔ x ∈ l ∨ x = y.
Proof. by rewrite elem_of_app, list_elem_of_singleton. Qed.

(** Other events in the last file. *)
Lemma dir_log_last fs fs' log a es es' c :
  dir_log fs (log ++ [(a, es)]) → Forall event_wf es' →
  WalOps.encode_lines es' = Some c →
  wf_files fs' !! WalOps.wal_filename a = Some c → default 0%nat (wf_synced fs' !! WalOps.wal_filename a) = length c →
  (∀ n, n ≠ WalOps.wal_filename a → wf_files fs' !! n = wf_files fs !! n ∧ wf_synced fs' !! n = wf_synced fs !! n) →
  dir_log fs' (log ++ [(a, es')]).
Proof.
  intros H Hwf Hc Hf Hsy Ho. pose proof H as [Hs Hi Hfi Hsc Hn].
  assert (∀ p, p ∈ log → WalOps.wal_filename p.1 ≠ WalOps.wal_filename a) as Hne.
  { intros p Hp Heq. assert (p = (a, es)) as ->.
    { eapply (sorted_lookup (log ++ [(a, es)])); [done|apply elem_of_snoc; by left|apply elem_of_snoc; by right|].
      apply WalOps.wal_filename_inj in Heq; [done| |].
      - eapply dir_log_range; [done|]. apply elem_of_snoc. by left.
      - eapply (dir_log_range _ _ (a, es)); [done|]. apply elem_of_snoc. by right. }
    rewrite fmap_app in Hs. apply sorted_lt_NoDup, NoDup_app in Hs as (_ & Hd & _).
    eapply Hd; [by apply (list_elem_of_fmap_2 fst) in Hp|by left]. }
  apply Forall_app in Hi as [Hi1 Hi2]. apply Forall_singleton in Hi2 as [Ha Hes]. cbn in Ha, Hes.
  split.
  - rewrite fmap_app in *. exact Hs.
  - apply Forall_app. split; [done|]. apply Forall_singleton. done.
  - intros name c'. destruct (decide (name = WalOps.wal_filename a)) as [->|Hna].
    + rewrite Hf. split.
      * intros [= <-]. exists (a, es'). split; [apply elem_of_snoc; by right|done].
      * intros (p & [Hp| ->]%elem_of_snoc & Heq & Hc'); [by destruct (Hne p Hp)|]. cbn in Hc'. congruence.
    + destruct (Ho name Hna) as [-> _]. rewrite Hfi. split.
      * intros (p & [Hp| ->]%elem_of_snoc & -> & Hc'); [|done]. exists p. split; [apply elem_of_snoc; by left|done].
      * intros (p & [Hp| ->]%elem_of_snoc & -> & Hc'); [|done]. exists p. split; [apply elem_of_snoc; by left|done].
  - intros p [Hp| ->]%elem_of_snoc; unfold WalOps.file_bytes; cbn [fst].
    + destruct (Ho _ (Hne p Hp)) as [-> ->]. apply Hsc, elem_of_snoc. by left.
    + by rewrite Hf.
  - intros id Hid Hr. apply Forall_app in Hid as [Hid1 Hid2]. rewrite Forall_singleton in Hid2. cbn [fst] in Hid2.
    destruct (Ho (WalOps.wal_filename id)) as [_ ->].
    { intros Heq. apply WalOps.wal_filename_inj in Heq; lia. }
    apply Hn; [|done]. apply Forall_app. split; [done|]. by apply Forall_singleton.
Qed.

(** Appending to the last file. *)
Lemma dir_log_append fs fs' log a es new c :
  dir_log fs (log ++ [(a, es)]) → Forall event_wf new →
  WalOps.encode_lines (es ++ new) = Some c →
  wf_files fs' !! WalOps.wal_filename a = Some c → default 0%nat (wf_synced fs' !! WalOps.wal_filename a) = length c →
  (∀ n, n ≠ WalOps.wal_filename a → wf_files fs' !! n = wf_files fs !! n ∧ wf_synced fs' !! n = wf_synced fs !! n) →
  dir_log fs' (log ++ [(a, es ++ new)]).
Proof.
  intros H Hwf. apply dir_log_last with es; [done|]. apply Forall_app. split; [|done].
  pose proof (dl_ids _ _ H) as Hi. apply Forall_app in Hi as [_ Hi]. by apply Forall_singleton in Hi as [_ ?].
Qed.

(** Opening the next file. *)
Lemma dir_log_next fs fs' log a :
  dir_log fs log → Forall (λ p, p.1 < a) log → 0 ≤ a ≤ u64_max →
  wf_files fs' !! WalOps.wal_filename a = Some [] →
  (∀ n, n ≠ WalOps.wal_filename a → wf_files fs' !! n = wf_files fs !! n) →
  (∀ p, p ∈ log → default 0%nat (wf_synced fs' !! WalOps.wal_filename p.1)
                  = length (WalOps.file_bytes fs (WalOps.wal_filename p.1))) →
  (∀ id, a ≤ id ≤ u64_max → wf_synced fs' !! WalOps.wal_filename id = None) →
  dir_log fs' (log ++ [(a, [])]).
Proof.
  intros H Hlt Ha Hf Ho Hsy Hsn. pose proof H as [Hs Hi Hfi Hsc Hn]. rewrite Forall_forall in Hlt.
  assert (∀ p, p ∈ log → WalOps.wal_filename p.1 ≠ WalOps.wal_filename a) as Hne.
  { intros p Hp Heq. apply WalOps.wal_filename_inj in Heq; [|by eapply dir_log_range|done].
    specialize (Hlt p Hp). lia. }
  split.
  - rewrite fmap_app. apply StronglySorted_app. split; [|split; [done|by repeat constructor]].
    intros x y (p & -> & Hp)%list_elem_of_fmap ->%list_elem_of_singleton. by apply Hlt.
  - apply Forall_app. split; [done|]. by apply Forall_singleton.
  - intros name c. destruct (decide (name = WalOps.wal_filename a)) as [->|Hna].
    + rewrite Hf. split.
      * intros [= <-]. exists (a, []). split; [apply elem_of_snoc; by right|done].
      * intros (p & [Hp| ->]%elem_of_snoc & Heq & Hc); [by destruct (Hne p Hp)|done].
    + rewrite (Ho name Hna), Hfi. split.
      * intros (p & Hp & -> & Hc). exists p. split; [apply elem_of_snoc; by left|done].
      * intros (p & [Hp| ->]%elem_of_snoc & -> & Hc); [eauto|done].
  - intros p [Hp| ->]%elem_of_snoc; unfold WalOps.file_bytes; cbn [fst].
    + rewrite (Ho _ (Hne p Hp)). by apply Hsy.
    + rewrite Hf, Hsn by lia. done.
  - intros id Hid Hr. apply Hsn. apply Forall_app in Hid as [_ Hid]. rewrite Forall_singleton in Hid. cbn [fst] in Hid. lia.
Qed.

Lemma sorted_filter (P : Z * list UsageEvent → Prop) {Hdec : ∀ p, Decision (P p)} (log : Log) :
  StronglySorted Z.lt log.*1 → StronglySorted Z.lt (filter P log).*1.
Proof.
  induction log as [|p log IH]; [constructor|]. intros Hs.
  rewrite fmap_cons in Hs. apply StronglySorted_inv in Hs as [Hs H0]. rewrite filter_cons.
  case_decide; [|by apply IH]. rewrite fmap_cons. constructor; [by apply IH|].
  rewrite Forall_forall in H0. apply Forall_forall. intros x (p' & -> & [_ Hp']%list_elem_of_filter)%list_elem_of_fmap.
  apply H0. by apply (list_elem_of_fmap_2 fst).
Qed.

(** Deleting the files of a prefix of the log. *)
Lemma dir_log_delete fs log1 log2 up :
  dir_log fs (log1 ++ log2) → Forall (λ p, p.1 ≤ up) log1 → Forall (λ p, up < p.1) log2 →
  dir_log (WalOps.delete_files_through fs up) log2.
Proof.
  intros H H1 H2. pose proof H as [Hs Hi Hfi Hsc Hn]. rewrite fmap_app in Hs.
  apply StronglySorted_app in Hs as (Hcross & Hs1 & Hs2). apply Forall_app in Hi as [_ Hi].
  rewrite Forall_forall in H1, H2, Hi.
  assert (∀ A (f : gmap string A) p, p ∈ log2 →
    filter (λ kv : string * A, WalOps.id_through up kv.1 = false) f !! WalOps.wal_filename p.1
    = f !! WalOps.wal_filename p.1) as Hkeep.
  { intros A f p Hp. destruct (Hi p Hp) as [Hr _]. specialize (H2 p Hp).
    destruct (f !! WalOps.wal_filename p.1) as [c|] eqn:E.
    - apply map_lookup_filter_Some. split; [done|]. cbn. rewrite WalOps.id_through_filename by done. apply Z.leb_gt. lia.
    - apply map_lookup_filter_None. by left. }
  split.
  - done.
  - by apply Forall_forall.
  - intros name c. cbn. rewrite map_lookup_filter_Some, Hfi. cbn. split.
    + intros [(p & [Hp|Hp]%elem_of_app & -> & Hc) Hid]; [|eauto].
      rewrite WalOps.id_through_filename in Hid.
      * apply Z.leb_gt in Hid. specialize (H1 p Hp). lia.
      * eapply dir_log_range; [done|]. apply elem_of_app. by left.
    + intros (p & Hp & -> & Hc). split; [exists p; split; [apply elem_of_app; by right|done]|].
      rewrite WalOps.id_through_filename by (by apply Hi). apply Z.leb_gt. specialize (H2 p Hp). lia.
  - intros p Hp. unfold WalOps.file_bytes. cbn [WalOps.delete_files_through wf_files wf_synced].
    rewrite !Hkeep by done. apply Hsc, elem_of_app. by right.
  - intros id Hid Hr. cbn [WalOps.delete_files_through wf_synced]. apply map_lookup_filter_None.
    destruct (Z.le_gt_cases id up) as [Hle|Hgt].
    + right. intros n _. cbn. rewrite WalOps.id_through_filename by done. apply Z.leb_le in Hle. by rewrite Hle.
    + left. apply Hn; [|done]. apply Forall_app. split; [|done]. apply Forall_forall. intros p Hp.
      specialize (H1 p Hp). lia.
Qed.

(** Losing some files but the last. *)
Lemma dir_log_remove fs fs' log1 log2 (gone : Z * list UsageEvent → Prop) {Hdec : ∀ p, Decision (gone p)} :
  dir_log fs (log1 ++ log2) → log2 ≠ [] →
  (∀ name c, wf_files fs' !! name = Some c
     ↔ wf_files fs !! name = Some c ∧ ∀ p, p ∈ log1 → gone p → name ≠ WalOps.wal_filename p.1) →
  wf_synced fs' = wf_synced fs →
  dir_log fs' (filter (λ p, ¬ gone p) log1 ++ log2).
Proof.
  intros H Hne Hf Hsy. pose proof H as [Hs Hi Hfi Hsc Hn].
  assert (∀ p, p ∈ filter (λ p, ¬ gone p) log1 ++ log2 → p ∈ log1 ++ log2) as Hsub.
  { intros p [[_ ?]%list_elem_of_filter|?]%elem_of_app; apply elem_of_app; [by left|by right]. }
  assert (∀ p, p ∈ filter (λ p, ¬ gone p) log1 ++ log2 → ∀ p', p' ∈ log1 → gone p' →
            WalOps.wal_filename p.1 ≠ WalOps.wal_filename p'.1) as Hdis.
  { intros p Hp p' Hp' Hg Heq.
    assert (p' ∈ log1 ++ log2) as Hin' by (apply elem_of_app; by left).
    apply WalOps.wal_filename_inj in Heq; [|by eapply dir_log_range; [|apply Hsub]|by eapply dir_log_range].
    pose proof (sorted_lookup _ p p' Hs (Hsub p Hp) Hin' Heq) as ->.
    apply elem_of_app in Hp as [[? _]%list_elem_of_filter|Hp]; [done|].
    rewrite fmap_app in Hs. apply StronglySorted_app in Hs as (Hcross & _ & _).
    specialize (Hcross p'.1 p'.1 (list_elem_of_fmap_2 fst _ _ Hp') (list_elem_of_fmap_2 fst _ _ Hp)). lia. }
  assert (∀ p, p ∈ filter (λ p, ¬ gone p) log1 ++ log2 →
            wf_files fs' !! WalOps.wal_filename p.1 = wf_files fs !! WalOps.wal_filename p.1) as Hkeep.
  { intros p Hp. apply option_eq. intros c. rewrite Hf. split; [by intros [? _]|]. intros Hc. split; [done|]. by apply Hdis. }
  split.
  - rewrite fmap_app in Hs |- *. apply StronglySorted_app in Hs as (Hcross & Hs1 & Hs2).
    apply StronglySorted_app. split; [|split; [|done]].
    + intros x y (p & -> & [_ Hp]%list_elem_of_filter)%list_elem_of_fmap Hy. apply Hcross; [|done]. by apply (list_elem_of_fmap_2 fst).
    + by apply sorted_filter.
  - rewrite Forall_forall in Hi |- *. intros p Hp. by apply Hi, Hsub.
  - intros name c. rewrite Hf, Hfi. split.
    + intros [(p & Hp & -> & Hc) Hg]. exists p. split; [|done]. apply elem_of_app in Hp as [Hp|Hp]; apply elem_of_app; [left|by right].
      apply list_elem_of_filter. split; [|done]. intros Hgp. by apply (Hg p).
    + intros (p & Hp & -> & Hc). split; [|by apply Hdis]. exists p. split; [by apply Hsub|done].
  - intros p Hp. unfold WalOps.file_bytes. rewrite Hsy, (Hkeep p Hp). by apply Hsc, Hsub.
  - intros id Hid Hr. rewrite Hsy. apply Hn; [|done]. apply Forall_app in Hid as [_ Hid]. apply Forall_app. split; [|done].
    destruct log2 as [|p2 log2]; [done|]. apply Forall_cons in Hid as [Hid _]. rewrite fmap_app in Hs.
    apply StronglySorted_app in Hs as (Hcross & _ & _). apply Forall_forall. intros p Hp.
    specialize (Hcross p.1 p2.1 (list_elem_of_fmap_2 fst _ _ Hp) ltac:(by left)). lia.
Qed.

(** ** Crashes and reopening *)

(** What a crash leaves: every file cut no shorter than what was synced, a
    file that was never synced possibly missing, and all of it now on disk.
    The directory entry of a file that was synced stays, also of the one
    [Wal::open] created without syncing the directory
    ([SystemExample.unsynced_log_entry_lost] is what happens otherwise). *)
Definition crashed (fs fs' : WalFs) : Prop :=
  WalOps.crash_keeps fs fs' ∧ ∀ name, wf_synced fs' !! name = length <$> wf_files fs' !! name.

Definition survives (fs' : WalFs) (p : Z * list UsageEvent) : bool :=
  bool_decide (is_Some (wf_files fs' !! WalOps.wal_filename p.1)).

Lemma crash_file fs fs' log p c :
  dir_log fs log → crashed fs fs' → p ∈ log → WalOps.encode_lines p.2 = Some c →
  wf_files fs' !! WalOps.wal_filename p.1 = Some c ∨ wf_files fs' !! WalOps.wal_filename p.1 = None ∧ p.2 = [].
Proof.
  intros H [Hc _] Hp He. destruct (dir_log_file fs log p H Hp) as (c' & Hf & He'). rewrite He in He'. injection He' as <-.
  pose proof (dl_synced _ _ H p Hp) as Hs. unfold WalOps.file_bytes in Hs. rewrite Hf in Hs. cbn in Hs.
  destruct (Ing.synced_crash fs fs' _ c Hf Hs Hc) as [?|[? ->]]; [by left|right]. split; [done|]. by apply Ing.encode_nil.
Qed.

(** Only empty files can be missing. *)
Lemma survivors_events fs fs' log part :
  dir_log fs log → crashed fs fs' → (∀ p, p ∈ part → p ∈ log) →
  log_events (filter (λ p, survives fs' p = true) part) = log_events part.
Proof.
  intros H Hc Hsub. assert (Forall (λ p, survives fs' p = false → p.2 = []) part) as He.
  { apply Forall_forall. intros p Hp Hs. destruct (WalOps.encode_lines_total p.2) as [c Hcc].
    destruct (crash_file fs fs' log p c H Hc (Hsub p Hp) Hcc) as [Hf|[_ ?]]; [|done].
    unfold survives in Hs. apply bool_decide_eq_false in Hs. destruct Hs. eauto. }
  clear -He. unfold log_events. induction He as [|p log Hp _ IH]; [done|]. rewrite filter_cons.
  destruct (survives fs' p); [|rewrite decide_False by done]; [rewrite decide_True by done|].
  - rewrite !fmap_cons. change (mjoin (?x :: ?l)) with (x ++ mjoin l). by rewrite IH.
  - rewrite fmap_cons. change (mjoin (?x :: ?l)) with (x ++ mjoin l). by rewrite (Hp eq_refl), IH.
Qed.

Lemma dir_log_crash fs fs' log :
  dir_log fs log → crashed fs fs' → dir_log fs' (filter (λ p, survives fs' p = true) log).
Proof.
  intros H Hc. split.
  - apply sorted_filter, (dl_sorted _ _ H).
  - pose proof (dl_ids _ _ H) as Hi. rewrite Forall_forall in Hi. apply Forall_forall.
    intros p [_ Hp]%list_elem_of_filter. by apply Hi.
  - intros name c. split.
    + intros Hf. assert (∃ p, p ∈ log ∧ name = WalOps.wal_filename p.1) as (p & Hp & ->).
      { destruct Hc as [Hk _]. specialize (Hk name). rewrite Hf in Hk.
        destruct (wf_files fs !! name) as [c0|] eqn:E0; [|done].
        apply (dl_files _ _ H) in E0 as (p & Hp & -> & _). eauto. }
      destruct (WalOps.encode_lines_total p.2) as [c' He].
      destruct (crash_file fs fs' log p c' H Hc Hp He) as [Hf'|[Hf' _]]; rewrite Hf in Hf'; [|done].
      injection Hf' as ->. exists p. split; [|done]. apply list_elem_of_filter. split; [|done].
      unfold survives. apply bool_decide_eq_true. eauto.
    + intros (p & [Hs Hp]%list_elem_of_filter & -> & He).
      destruct (crash_file fs fs' log p c H Hc Hp He) as [Hf'|[Hf' _]]; [done|].
      unfold survives in Hs. apply bool_decide_eq_true in Hs. rewrite Hf' in Hs. by destruct Hs.
  - intros p [Hs Hp]%list_elem_of_filter. destruct Hc as [_ Hsy]. rewrite Hsy. unfold WalOps.file_bytes.
    by destruct (wf_files fs' !! WalOps.wal_filename p.1).
  - intros id Hid Hr. destruct Hc as [Hk Hsy]. rewrite Hsy.
    destruct (wf_files fs' !! WalOps.wal_filename id) as [c|] eqn:E; [|done]. exfalso.
    specialize (Hk (WalOps.wal_filename id)). rewrite E in Hk.
    destruct (wf_files fs !! WalOps.wal_filename id) as [c0|] eqn:E0; [|done].
    apply (dl_files _ _ H) in E0 as (p & Hp & Heq & _).
    apply WalOps.wal_filename_inj in Heq as ->; [|done|by eapply dir_log_range].
    rewrite Forall_forall in Hid. assert (p.1 < p.1); [|lia]. apply Hid, list_elem_of_filter. split; [|done].
    unfold survives. apply bool_decide_eq_true. eauto.
Qed.

(** The log after [open]: its last file is the active one; sealed files that
    are still there stay. *)
Lemma dir_log_open fs old log last :
  dir_log fs (old ++ log) → Forall (λ p, p.1 ≤ last) old → Forall (λ p, last < p.1) log → 0 ≤ last < u64_max →
  let '(fs', w) := WalOps.open fs last in
  ∃ log' es, dir_log fs' (old ++ log' ++ [(active_id w, es)])
    ∧ log_events (log' ++ [(active_id w, es)]) = log_events log
    ∧ last < active_id w ∧ Forall (λ p, last < p.1) log'
    ∧ wal_file w = WalOps.wal_filename (active_id w) ∧ wal_buf w = [].
Proof.
  intros H Hold Hlt Hlast. pose proof (WalOps.open_spec fs last Hlast) as Ho.
  destruct (WalOps.open fs last) as [fs' w] eqn:Eo. destruct Ho as (Hgt & Hmax & Hin & _ & _).
  unfold WalOps.open in Eo. injection Eo as Efs Ew.
  assert (wal_file w = WalOps.wal_filename (active_id w) ∧ wal_buf w = []) as [Hwf Hb] by (by rewrite <- Ew).
  assert (fs' = WalOps.open_append fs (WalOps.wal_filename (active_id w))) as -> by (by rewrite <- Efs, <- Ew).
  assert (filter (λ id, last < id) (old ++ log).*1 = log.*1) as Hall.
  { rewrite fmap_app, filter_app, (filter_all _ log.*1), (filter_none _ old.*1); [done|..]; apply Forall_fmap; [|exact Hlt].
    eapply Forall_impl; [exact Hold|]. cbn. lia. }
  rewrite (list_files_log fs _ last H), Hall in Hmax, Hin.
  destruct log as [|[a es] log _] using rev_ind.
  - destruct Hin as [?%not_elem_of_nil|[_ Ha]]; [done|]. rewrite app_nil_r in H. exists [], []. split; [|done].
    assert (Forall (λ p, p.1 < active_id w) old) as Hlow by (eapply Forall_impl; [exact Hold|]; cbn; lia).
    apply (dir_log_next fs); [done|done|lia| | | |]; cbn.
    + rewrite lookup_insert_eq. unfold WalOps.file_bytes. destruct (wf_files fs !! _) as [c|] eqn:E; [|done].
      apply (dl_files _ _ H) in E as (p & Hp & Heq & _).
      apply WalOps.wal_filename_inj in Heq; [|lia|by eapply dir_log_range].
      rewrite Forall_forall in Hlow. specialize (Hlow p Hp). lia.
    + intros n Hn. by rewrite lookup_insert_ne.
    + intros p Hp. apply (dl_synced _ _ H p Hp).
    + intros id Hid. apply (dl_new _ _ H); [|lia]. eapply Forall_impl; [exact Hlow|]. cbn. lia.
  - exists log, es. assert (active_id w = a) as Hact.
    { assert (a ∈ (log ++ [(a, es)]).*1) as Ha by (rewrite fmap_app; apply elem_of_snoc; by right).
      specialize (Hmax a Ha). destruct Hin as [Hin|[Hnil _]]; [|by rewrite Hnil in Ha; apply not_elem_of_nil in Ha].
      pose proof (dl_sorted _ _ H) as Hs. rewrite app_assoc, fmap_app in Hs. rewrite fmap_app in Hin.
      apply StronglySorted_app in Hs as (Hs & _).
      apply elem_of_app in Hin as [Hin|Hin]; [|by apply list_elem_of_singleton in Hin].
      specialize (Hs (active_id w) a ltac:(rewrite fmap_app; apply elem_of_app; by right) ltac:(by left)). lia. }
    rewrite Hact in *. apply Forall_app in Hlt as [Hlt _]. split; [|done].
    destruct (dir_log_file fs _ (a, es) H) as (c & Hc & _); [rewrite app_assoc; apply elem_of_snoc; by right|]. cbn [fst] in Hc.
    replace (WalOps.open_append fs (WalOps.wal_filename a)) with fs; [done|].
    destruct fs as [files synced]. unfold WalOps.open_append, WalOps.file_bytes. cbn in *. by rewrite Hc, insert_id.
Qed.

(** ** The invariant *)

(** The files a message was drained from: its events in order, up to the file
    it sealed. *)
Definition message_of (msg : FlushMessage) (chunk : Log) : Prop :=
  fm_events msg = log_events chunk ∧ ∃ chunk' es, chunk = chunk' ++ [(fm_sealed_wal_id msg, es)].

(** The log files are, in order, those of each message on its way to the
    flusher and those of the memtable, the last of which is active. *)
Definition logged (st : AppState) (chunks : list Log) (cur : Log) (es : list UsageEvent) : Prop :=
  let log := mjoin chunks ++ cur ++ [(active_id (as_wal st), es)] in
  dir_log (as_walfs st) log
  ∧ Forall2 message_of (pending st) chunks
  ∧ mt_events (as_memtable st) = log_events (cur ++ [(active_id (as_wal st), es)])
  ∧ wal_file (as_wal st) = WalOps.wal_filename (active_id (as_wal st)) ∧ wal_buf (as_wal st) = []
  ∧ Forall (λ p, m_last_sealed_wal_id (as_manifest st) < p.1) log.

(** Nothing acknowledged is lost or counted twice, and the disk alone is
    enough to rebuild it. *)
Record sys_inv (st : AppState) (acked : list UsageEvent) : Prop := {
  si_logged : ∃ chunks cur es, logged st chunks cur es;
  si_manifest : Man.load None (fe_manfs (as_env st)) = (fe_manfs (as_env st), Ok (Some (as_manifest st)));
  si_sealed : 0 ≤ m_last_sealed_wal_id (as_manifest st);
  si_buckets : m_bucket_count (as_manifest st) ≠ 0;
  si_segments : Forall (λ s, Flush.seg_at (as_files st) s (Flush.seg_events (as_files st) s))
                  (m_raw_segments (as_manifest st));
  si_mode : durability_mode (as_config st) = Strict;
  si_acked : acked ≡ₚ Flush.stored (as_files st) (m_raw_segments (as_manifest st)) ++ Ing.buffered st;
}.

Lemma log_events_app l1 l2 : log_events (l1 ++ l2) = log_events l1 ++ log_events l2.
Proof. unfold log_events. by rewrite fmap_app, join_app. Qed.

Lemma log_events_join chunks : log_events (mjoin chunks) = mjoin (log_events <$> chunks).
Proof.
  induction chunks as [|c chunks IH]; [done|]. rewrite fmap_cons.
  change (mjoin (c :: chunks)) with (c ++ mjoin chunks). rewrite log_events_app, IH. done.
Qed.

Lemma message_events queue chunks :
  Forall2 message_of queue chunks → fm_events <$> queue = log_events <$> chunks.
Proof. induction 1 as [|msg ch queue chunks [E _] _ IH]; [done|]. by rewrite !fmap_cons, E, IH. Qed.

(** What is buffered is what the log holds. *)
Lemma logged_buffered st chunks cur es :
  logged st chunks cur es →
  Ing.buffered st = log_events (mjoin chunks ++ cur ++ [(active_id (as_wal st), es)]).
Proof.
  intros (_ & Hq & Hm & _). unfold Ing.buffered. by rewrite (message_events _ _ Hq), Hm, (log_events_app (mjoin chunks)), log_events_join.
Qed.

(** The active file as the log operations see it. *)
Lemma logged_active st chunks cur es :
  logged st chunks cur es →
  WalOps.holds (as_walfs st) (as_wal st) es ∧ Ing.settled (as_walfs st) (as_wal st).
Proof.
  intros (Hd & _ & _ & Hf & Hb & _).
  assert ((active_id (as_wal st), es) ∈ mjoin chunks ++ cur ++ [(active_id (as_wal st), es)]) as Hin.
  { rewrite app_assoc. apply elem_of_snoc. by right. }
  destruct (dir_log_file _ _ _ Hd Hin) as (c & Hc & He). cbn [fst snd] in Hc, He.
  pose proof (dl_ids _ _ Hd) as Hi. rewrite Forall_forall in Hi. destruct (Hi _ Hin) as [_ Hwf].
  pose proof (dl_synced _ _ Hd _ Hin) as Hs. cbn [fst] in Hs. rewrite <- Hf in Hs, Hc. split.
  - split; [done|]. split; [eauto|]. split; [done|]. unfold WalOps.logical, WalOps.file_bytes.
    by rewrite Hc, Hb, app_nil_r.
  - by split.
Qed.

(** Logging a batch and nothing else. *)
Lemma logged_append st chunks cur es new fs w m d :
  logged st chunks cur es → Forall event_wf new →
  Ing.write_ahead no_faults Strict (as_walfs st) (as_wal st) new = (fs, w, Ok tt) →
  mt_events m = mt_events (as_memtable st) ++ new →
  logged (Ing.with_log fs w m d (as_sending st) st) chunks cur (es ++ new).
Proof.
  intros Hl Hwf Ew Hm. destruct (logged_active _ _ _ _ Hl) as [Hh Hs].
  destruct (Ing.write_ahead_strict _ _ es new Hh Hs Hwf) as (fs1 & w1 & E & Hh1 & [Hb1 Hs1] & Hf1 & Ha1 & Ho).
  rewrite Ew in E. injection E as <- <-. destruct Hl as (Hd & Hq & Hmt & Hf & Hb & Hlast).
  unfold logged. cbn [Ing.with_log as_wal as_queue as_memtable as_walfs as_env set_walfs fe_walfs as_manifest fe_manifest].
  rewrite Ha1. split; [|split; [done|split; [|split; [by rewrite Hf1|split; [done|]]]]].
  - rewrite app_assoc in Hd |- *. rewrite Hf in Ho. destruct Hh1 as (Hf1' & [c Hc] & _ & He).
    unfold WalOps.logical, WalOps.file_bytes in He, Hs1. rewrite Hc, Hb1, ?app_nil_r in *. cbn in He, Hs1.
    rewrite Hf1, Hf in *. by eapply (dir_log_append _ _ _ _ _ _ c).
  - rewrite Hm, Hmt, !log_events_app. unfold log_events. cbn. by rewrite !app_nil_r, app_assoc.
  - rewrite app_assoc, Forall_app, Forall_singleton in Hlast |- *. done.
Qed.

Lemma sorted_last_max (log : Log) p : StronglySorted Z.lt (log ++ [p]).*1 → Forall (λ q, q.1 < p.1) log.
Proof.
  rewrite fmap_app, StronglySorted_app. intros (H & _). apply Forall_forall. intros q Hq.
  apply H; [by apply (list_elem_of_fmap_2 fst)|by left].
Qed.

(** Rotating: the memtable's files become those of a new message. *)
Lemma logged_rotate st chunks cur es fs w sealed d :
  logged st chunks cur es → active_id (as_wal st) < u64_max →
  WalOps.rotate None true true (as_walfs st) (as_wal st) = (fs, w, Ok sealed) →
  logged (Ing.with_log fs w Mem.new d (as_sending st ++ [MkFlushMessage (mt_events (as_memtable st)) sealed]) st)
    (chunks ++ [cur ++ [(active_id (as_wal st), es)]]) [] [].
Proof.
  intros Hl Hmax Er. destruct (logged_active _ _ _ _ Hl) as [Hh Hs]. destruct Hl as (Hd & Hq & Hmt & Hf & Hb & Hlast).
  rewrite app_assoc in Hd, Hlast. set (a := active_id (as_wal st)) in *. set (log := (mjoin chunks ++ cur) ++ [(a, es)]) in *.
  assert (Forall (λ p, p.1 < a + 1) log) as Hall.
  { pose proof (sorted_last_max _ _ (dl_sorted _ _ Hd)) as Hm. apply Forall_app. split; [|by apply Forall_singleton; cbn; lia].
    eapply Forall_impl; [exact Hm|]. cbn. lia. }
  assert (0 ≤ a) as Ha0 by (apply (dir_log_range _ _ (a, es) Hd); apply elem_of_snoc; by right).
  assert (wf_files (as_walfs st) !! WalOps.wal_filename (a + 1) = None) as Hnf.
  { destruct (wf_files (as_walfs st) !! WalOps.wal_filename (a + 1)) as [c|] eqn:E; [|done].
    apply (dl_files _ _ Hd) in E as (p & Hp & Heq & _).
    apply WalOps.wal_filename_inj in Heq; [|lia|by eapply dir_log_range].
    rewrite Forall_forall in Hall. specialize (Hall p Hp). lia. }
  destruct (Ing.rotate_settles _ _ es Hh ltac:(lia) Hnf (dl_new _ _ Hd _ Hall ltac:(lia)))
    as (fs' & w' & E & Ha' & Hh' & [Hb' _] & (c & C1 & C2 & C3) & Hsn & Ho).
  rewrite Er in E. injection E as <- <- ->. fold a in Ha'. destruct Hh' as (Hf' & [c' Hc'] & _ & He').
  assert (c' = []) as ->.
  { unfold WalOps.logical, WalOps.file_bytes in He'. rewrite Hc', Hb', app_nil_r in He'. cbn in He'. congruence. }
  rewrite Ha' in Hf'. rewrite Hf' in *. rewrite Hf in *. fold a in C1, C3, Ho.
  assert (∀ id, 0 ≤ id ≤ u64_max → id ≠ a → WalOps.wal_filename id ≠ WalOps.wal_filename a) as Hne.
  { intros id Hid Hn Heq. apply WalOps.wal_filename_inj in Heq; lia. }
  destruct (dir_log_file _ _ (a, es) Hd) as (c0 & Hc0 & He0); [apply elem_of_snoc; by right|]. cbn [fst snd] in Hc0, He0.
  assert (c0 = c) as -> by congruence.
  unfold logged. cbn [Ing.with_log as_wal as_queue as_memtable as_walfs as_env set_walfs fe_walfs as_manifest fe_manifest].
  rewrite Ha'. split; [|split; [|split; [done|split; [done|split; [done|]]]]].
  - rewrite join_app. cbn [app]. change (mjoin [?x]) with (x ++ []). rewrite app_nil_r, app_assoc. fold log.
    apply (dir_log_next (as_walfs st)); [done|done|lia|done| | |].
    + intros n Hn. destruct (decide (n = WalOps.wal_filename a)) as [->|Hn']; [by rewrite C1, Hc0|]. by apply Ho.
    + intros p Hp. destruct (decide (p.1 = a)) as [Heq|Hn].
      * rewrite Heq, C3. unfold WalOps.file_bytes. by rewrite Hc0.
      * assert (WalOps.wal_filename p.1 ≠ WalOps.wal_filename (a + 1)) as Hn2.
        { intros Heq. apply WalOps.wal_filename_inj in Heq; [|by eapply dir_log_range|lia].
          rewrite Forall_forall in Hall. specialize (Hall p Hp). lia. }
        destruct (Ho _ (Hne _ (dir_log_range _ _ _ Hd Hp) Hn) Hn2) as [_ ->]. by apply (dl_synced _ _ Hd).
    + intros id Hid. destruct (decide (id = a + 1)) as [->|Hn]; [done|].
      destruct (Ho (WalOps.wal_filename id)) as [_ ->]; [apply Hne; lia| |].
      * intros Heq. apply WalOps.wal_filename_inj in Heq; lia.
      * apply (dl_new _ _ Hd); [|lia]. eapply Forall_impl; [exact Hall|]. cbn. lia.
  - unfold pending. cbn [Ing.with_log as_queue as_sending]. rewrite app_assoc.
    apply Forall2_app; [done|]. constructor; [|constructor]. split; [done|]. by exists cur, es.
  - rewrite join_app. cbn [app]. change (mjoin [?x]) with (x ++ []). rewrite app_nil_r, app_assoc. fold log.
    apply Forall_app. split; [done|]. apply Forall_singleton. cbn [fst].
    rewrite Forall_forall in Hlast. specialize (Hlast (a, es) ltac:(apply elem_of_snoc; by right)). cbn [fst] in Hlast. unfold as_manifest in Hlast. lia.
Qed.

(** ** Steps keep the invariant *)
Lemma inv_ingest io now clk st events st' r acked :
  sys_inv st acked →
  Ing.handle_ingest size_of_event io now clk st events = (st', Ok r) →
  ins 64 now → Forall event_wf events → active_id (as_wal st) < u64_max →
  sys_inv st' (acked ++ Ing.admitted st now events).
Proof.
  intros [(chunks & cur & es & Hl) Hman Hse Hbk Hsg Hmode Hack] H Hnow Hwf Hmax.
  pose proof (Ing.handle_ingest_ok _ _ _ _ _ _ _ _ H) as Hok. cbv zeta in Hok.
  pose proof (Ing.commit_all_memtable size_of_event clk 0 (as_dedupe st) (as_memtable st)
    (Ing.classified <$> Ing.admitted st now events)) as Hm. rewrite Ing.classified_event in Hm.
  unfold Ing.committed in Hok. destruct (Ing.commit_all _ _ _ _ _ _) as [d m]. cbn [snd] in Hm.
  destruct Hok as [_ (fs & w & Ew & Hst)]. rewrite Hmode in Ew.
  pose proof (logged_append st chunks cur es _ fs w m d Hl (Ing.admitted_wf now st events Hnow Hwf) Ew Hm) as Hl1.
  assert (Ing.buffered (Ing.with_log fs w m d (as_sending st) st) = Ing.buffered st ++ Ing.admitted st now events) as Hbuf.
  { unfold Ing.buffered, pending. cbn. by rewrite Hm, app_assoc. }
  destruct Hst as [->|(fs2 & w2 & sealed & Er & ->)].
  - split; try done; [by exists chunks, cur, (es ++ Ing.admitted st now events)|].
    rewrite Hbuf, app_assoc. by apply Permutation_app_tail.
  - set (st1 := Ing.with_log fs w m d (as_sending st) st) in *.
    assert (active_id w = active_id (as_wal st)) as Ha.
    { destruct (logged_active _ _ _ _ Hl) as [Hh Hs].
      destruct (Ing.write_ahead_strict _ _ es _ Hh Hs (Ing.admitted_wf now st events Hnow Hwf))
        as (fs1 & w1 & E & _ & _ & _ & Ha & _). rewrite Ew in E. by injection E as <- <-. }
    pose proof (logged_rotate st1 chunks cur _ fs2 w2 sealed d Hl1 ltac:(cbn; lia) Er) as Hl2.
    split; try done; [eexists _, _, _; exact Hl2|].
    replace (Ing.buffered _) with (Ing.buffered st1).
    + rewrite Hbuf, app_assoc. by apply Permutation_app_tail.
    + unfold Ing.buffered, pending, st1. cbn. rewrite (app_assoc (as_queue st)), (fmap_app _ (as_queue st ++ _)), join_app. cbn. by rewrite !app_nil_r.
Qed.

(** The forced drain of the rollup worker, and the one at shutdown. *)
Lemma inv_drain bud fsync_ok open_ok st st1 msg acked :
  sys_inv st acked → drain_and_rotate bud fsync_ok open_ok st = (st1, Ok msg) → active_id (as_wal st) < u64_max →
  sys_inv (hand_over msg st1) acked.
Proof.
  intros [(chunks & cur & es & Hl) Hman Hse Hbk Hsg Hmode Hack] H Hmax. unfold drain_and_rotate in H.
  cbn [Mem.drain_all] in H.
  destruct (WalOps.rotate bud fsync_ok open_ok (as_walfs st) (as_wal st)) as [[fs w] [sealed| |]] eqn:Er; try done.
  injection H as <- <-. apply Ing.rotate_budget in Er.
  pose proof (logged_rotate st chunks cur es fs w sealed (as_dedupe st) Hl Hmax Er) as Hl2.
  split; try done; [by eexists _, _, _|]. rewrite Hack. apply reflexive_eq. f_equal.
  unfold Ing.buffered, pending. cbn. rewrite (app_assoc (as_queue st)), (fmap_app _ (as_queue st ++ _)), join_app. cbn. by rewrite !app_nil_r.
Qed.

(** A message gets onto the channel, in the order of the drains. *)
Lemma send_same i st :
  let st' := send true i st in
  as_env st' = as_env st ∧ as_wal st' = as_wal st ∧ as_memtable st' = as_memtable st ∧ as_config st' = as_config st.
Proof. unfold send. by destruct (as_sending st !! i). Qed.

Lemma inv_send st acked : sys_inv st acked → sys_inv (send true 0 st) acked.
Proof.
  intros [(chunks & cur & es & Hl) Hman Hse Hbk Hsg Hmode Hack].
  destruct (send_same 0 st) as (He & Hw & Hm & Hc). pose proof (send_first_pending st) as Hp.
  split; unfold as_manifest, as_files in *; rewrite ?He, ?Hc; try done.
  - exists chunks, cur, es. unfold logged, as_walfs, as_manifest in *. by rewrite He, Hw, Hm, Hp.
  - unfold Ing.buffered. by rewrite Hp, Hm.
Qed.

(** One message through the flusher. *)
Definition flush_one (now : Z) (draws : nat → string * option wb_fault) (msg : FlushMessage) (q : list FlushMessage)
    (st : AppState) : AppState :=
  let '(env, memtable) := Flush.handle_message size_of_event now draws None (as_env st) (as_memtable st)
                            (fm_events msg) (fm_sealed_wal_id msg) in
  MkAppState env (as_wal st) memtable (as_dedupe st) q (as_sending st) (as_config st).

Lemma pending_head st msg q : as_queue st = msg :: q → pending st = msg :: (q ++ as_sending st).
Proof. unfold pending. by intros ->. Qed.

(** A message without events is dropped; its empty files go with the next. *)
Lemma logged_skip st msg q chunks cur es :
  logged st chunks cur es → as_queue st = msg :: q → fm_events msg = [] →
  ∃ chunks' cur', logged (MkAppState (as_env st) (as_wal st) (as_memtable st) (as_dedupe st) q (as_sending st) (as_config st)) chunks' cur' es.
Proof.
  intros (Hd & Hq & Hm & Hf & Hb & Hlast) Hqq He. rewrite (pending_head _ _ _ Hqq) in Hq.
  apply Forall2_cons_inv_l in Hq as (ch & chunks' & [Hev _] & Hq & ->).
  change (mjoin (ch :: chunks')) with (ch ++ mjoin chunks') in Hd, Hlast. rewrite He in Hev.
  destruct chunks' as [|ch2 chunks'].
  - exists [], (ch ++ cur). cbn [mjoin list_join app] in *. rewrite app_nil_r in Hd, Hlast.
    split; [by rewrite <- app_assoc|]. split; [done|]. split; [by rewrite <- app_assoc, log_events_app, <- Hev|].
    split; [done|]. split; [done|]. by rewrite <- app_assoc.
  - exists ((ch ++ ch2) :: chunks'), cur. apply Forall2_cons_inv_r in Hq as (m2 & q' & [Hev2 (c2 & e2 & ->)] & Hq & Eq).
    unfold logged, pending. cbn [as_queue as_sending as_wal as_memtable as_walfs as_env as_manifest]. rewrite Eq. cbv zeta.
    change (mjoin ((ch ++ (c2 ++ [(fm_sealed_wal_id m2, e2)])) :: chunks'))
      with ((ch ++ (c2 ++ [(fm_sealed_wal_id m2, e2)])) ++ mjoin chunks').
    change (mjoin ((c2 ++ [(fm_sealed_wal_id m2, e2)]) :: chunks'))
      with ((c2 ++ [(fm_sealed_wal_id m2, e2)]) ++ mjoin chunks') in Hd, Hlast.
    split; [by rewrite <- (app_assoc ch)|]. split; [|split; [done|]; split; [done|]; split; [done|]; by rewrite <- (app_assoc ch)].
    constructor; [|done]. split; [by rewrite log_events_app, <- Hev|]. exists (ch ++ c2), e2. by rewrite app_assoc.
Qed.

(** The files of the first message, and behind them those of the rest. *)
Lemma logged_split st msg q chunks cur es :
  logged st chunks cur es → as_queue st = msg :: q →
  ∃ ch chunks', let log2 := mjoin chunks' ++ cur ++ [(active_id (as_wal st), es)] in
    dir_log (as_walfs st) (ch ++ log2) ∧ Forall2 message_of (q ++ as_sending st) chunks'
    ∧ Forall (λ p, p.1 ≤ fm_sealed_wal_id msg) ch ∧ Forall (λ p, fm_sealed_wal_id msg < p.1) log2
    ∧ m_last_sealed_wal_id (as_manifest st) < fm_sealed_wal_id msg.
Proof.
  intros (Hd & Hq & _ & _ & _ & Hlast) Hqq. rewrite (pending_head _ _ _ Hqq) in Hq.
  apply Forall2_cons_inv_l in Hq as (ch & chunks' & [_ (ch' & es' & Hch)] & Hq & ->). exists ch, chunks'.
  change (mjoin (ch :: chunks')) with (ch ++ mjoin chunks') in Hd, Hlast. rewrite <- app_assoc in Hd, Hlast. cbv zeta.
  set (log2 := mjoin chunks' ++ cur ++ [(active_id (as_wal st), es)]) in *.
  pose proof (dl_sorted _ _ Hd) as Hs. rewrite fmap_app in Hs. apply StronglySorted_app in Hs as (Hcross & Hs1 & _).
  split; [done|]. split; [done|]. split; [|split].
  - rewrite Hch in Hs1 |- *. apply sorted_last_max in Hs1. apply Forall_app. split; [|by apply Forall_singleton].
    eapply Forall_impl; [exact Hs1|]. cbn. lia.
  - apply Forall_forall. intros p Hp. apply Hcross; [|by apply (list_elem_of_fmap_2 fst)].
    rewrite Hch, fmap_app. apply elem_of_snoc. by right.
  - apply Forall_app in Hlast as [Hlast _]. rewrite Hch in Hlast. apply Forall_app in Hlast as [_ Hlast].
    by rewrite Forall_singleton in Hlast.
Qed.

(** A flushed message: its files are deleted and the pointer moves past them. *)
Lemma logged_flush st msg q chunks cur es env :
  logged st chunks cur es → as_queue st = msg :: q →
  fe_walfs env = WalOps.delete_files_through (as_walfs st) (fm_sealed_wal_id msg) →
  m_last_sealed_wal_id (fe_manifest env) = Z.max (m_last_sealed_wal_id (as_manifest st)) (fm_sealed_wal_id msg) →
  ∃ chunks', logged (MkAppState env (as_wal st) (as_memtable st) (as_dedupe st) q (as_sending st) (as_config st)) chunks' cur es.
Proof.
  intros Hl Hqq Hw Hls. destruct (logged_split st msg q chunks cur es Hl Hqq) as (ch & chunks' & Hd & Hq & H1 & H2 & Hlt).
  destruct Hl as (_ & _ & Hm & Hf & Hb & _). exists chunks'.
  unfold logged. cbn [as_wal as_queue as_memtable as_walfs as_env as_manifest].
  split; [|split; [done|split; [done|split; [done|split; [done|]]]]].
  - unfold as_walfs in *. cbn [as_env]. rewrite Hw. by eapply dir_log_delete.
  - unfold as_manifest in *. cbn [as_env]. rewrite Hls. eapply Forall_impl; [exact H2|]. cbn. lia.
Qed.

Lemma inv_flush now draws msg q st acked :
  sys_inv st acked → as_queue st = msg :: q →
  Flush.good_draws draws → Flush.fresh_for draws (as_manifest st) →
  Forall (λ p, seg_fits (sort_events_canonical p.2)) (Flush.flush_groups (as_env st) (fm_events msg)) →
  0 ≤ m_current_generation (as_manifest st) < u64_max →
  sys_inv (flush_one now draws msg q st) acked.
Proof.
  intros [(chunks & cur & es & Hl) Hman Hse Hbk Hsg Hmode Hack] Hq Hd Hfr Hfit Hg.
  unfold flush_one, Flush.handle_message. case_bool_decide as He.
  - destruct (logged_skip st msg q chunks cur es Hl Hq He) as (chunks' & cur' & Hl').
    split; try done; [by eexists _, _, _|]. rewrite Hack. apply reflexive_eq. f_equal.
    unfold Ing.buffered. rewrite (pending_head _ _ _ Hq). cbn. by rewrite He.
  - destruct (Flush.flush_effect draws (as_env st) (fm_events msg) (fm_sealed_wal_id msg) Hd Hfr Hfit Hg)
      as (env & -> & Hst & _ & Hload & Hls & Hw & Hbc & Hsegs & _).
    destruct (logged_flush st msg q chunks cur es env Hl Hq Hw Hls) as (chunks' & Hl').
    unfold as_manifest, as_files in *. split; unfold as_manifest, as_files; cbn [as_env as_config].
    + by eexists _, _, _.
    + done.
    + rewrite Hls. lia.
    + by rewrite Hbc.
    + apply Forall_forall. intros s Hs. rewrite Forall_forall in Hsg.
      destruct (Hsegs s Hs) as [(Hin & _ & Hk)|?]; [|done]. by apply Hk, Hsg.
    + done.
    + rewrite Hack, Hst. unfold Ing.buffered. rewrite (pending_head _ _ _ Hq), fmap_cons. cbn [as_memtable].
      change (mjoin (?x :: ?l)) with (x ++ mjoin l). by rewrite <- !app_assoc.
Qed.

Lemma rebuild_succeeds files cutoff segs d :
  Forall (λ s, Flush.seg_at files s (Flush.seg_events files s)) segs →
  ∃ d', Rec.rebuild_dedupe files cutoff segs d = Ok d'.
Proof.
  intros Hs. revert d. induction Hs as [|s segs (bs & Eb & Er) _ IH]; intros d; [by exists d|].
  cbn [Rec.rebuild_dedupe]. unfold Rec.register_segment. destruct (_ <? cutoff); [apply IH|]. rewrite Eb.
  destruct (Idx.usable_index _); [apply IH|]. unfold seg_read_all in Er.
  destruct (seg_open bs) as [[es [[]| |]]| |]; cbn in Er; try done. apply IH.
Qed.

(** A log directory that holds what is buffered in [log], after files that
    are sealed and not deleted yet. *)
Definition rests_after (old : Log) (st : AppState) (fs : WalFs) : Prop :=
  ∃ log, dir_log fs (old ++ log) ∧ log_events log = Ing.buffered st
    ∧ Forall (λ p, m_last_sealed_wal_id (as_manifest st) < p.1) log.

Definition rests (st : AppState) (fs : WalFs) : Prop :=
  ∃ old, rests_after old st fs ∧ Forall (λ p, p.1 ≤ m_last_sealed_wal_id (as_manifest st)) old
    ∧ (old ≠ [] → 0 < m_last_sealed_wal_id (as_manifest st)).

Lemma clean_rests st fs : rests_after [] st fs → rests st fs.
Proof. intros H. by exists []. Qed.

Lemma inv_sealed st acked : sys_inv st acked → 0 ≤ m_last_sealed_wal_id (as_manifest st) < u64_max.
Proof.
  intros [(chunks & cur & es & Hd & _ & _ & _ & _ & Hlast) _ Hse _ _ _ _].
  assert ((active_id (as_wal st), es) ∈ mjoin chunks ++ cur ++ [(active_id (as_wal st), es)]) as Hin
    by (rewrite app_assoc; apply elem_of_snoc; by right).
  rewrite Forall_forall in Hlast. specialize (Hlast _ Hin). pose proof (dir_log_range _ _ _ Hd Hin). cbn [fst] in *. lia.
Qed.

Lemma inv_rests st acked : sys_inv st acked → rests st (as_walfs st).
Proof.
  intros [(chunks & cur & es & Hl) _ _ _ _ _ _]. pose proof (logged_buffered _ _ _ _ Hl) as Hbuf.
  destruct Hl as (Hd & _ & _ & _ & _ & Hlast). apply clean_rests. by eexists.
Qed.

Lemma crash_rests st acked fs' : sys_inv st acked → crashed (as_walfs st) fs' → rests st fs'.
Proof.
  intros [(chunks & cur & es & Hl) _ _ _ _ _ _] Hc. pose proof (logged_buffered _ _ _ _ Hl) as Hbuf.
  destruct Hl as (Hd & _ & _ & _ & _ & Hlast). pose proof (dir_log_crash _ _ _ Hd Hc) as Hd'.
  apply clean_rests. eexists. split; [exact Hd'|]. split; [by rewrite (survivors_events _ _ _ _ Hd Hc)|].
  rewrite Forall_forall in Hlast. apply Forall_forall. intros p [_ Hp]%list_elem_of_filter. by apply Hlast.
Qed.

(** Opening the log only adds an empty file, if any. *)
Lemma open_rests st acked fs :
  sys_inv st acked → rests st fs → rests st (WalOps.open fs (m_last_sealed_wal_id (as_manifest st))).1.
Proof.
  intros Hi (old & (log & Hd & Hev & Hlast) & Hold & Hpos). pose proof (inv_sealed _ _ Hi) as Hlr.
  pose proof (dir_log_open fs old log _ Hd Hold Hlast Hlr) as Ho. destruct (WalOps.open _ _) as [fs2 w].
  destruct Ho as (log2 & es2 & Hd2 & Hev2 & Hgt & Hlt2 & _). exists old. split; [|done].
  eexists. split; [exact Hd2|]. split; [by rewrite Hev2|].
  apply Forall_app. split; [done|]. by apply Forall_singleton.
Qed.

(** Recovery on a directory that holds what is buffered: the sealed files go,
    and the rest is replayed. *)
Lemma recovery_rests capacity now clk st acked fs' :
  sys_inv st acked → rests st fs' →
  ∃ d m fs2, Rec.run_startup_recovery size_of_event capacity None now clk (fe_manfs (as_env st)) (as_files st) fs'
         = (fe_manfs (as_env st), fs2, Ok (MkRecoveryResult (as_manifest st) d m))
    ∧ mt_events m = Ing.buffered st ∧ rests_after [] st fs2.
Proof.
  intros Hi (old & (log & Hd & Hev & Hlast) & Hold & Hpos).
  destruct Hi as [_ Hman Hse _ Hsg _ _]. set (last := m_last_sealed_wal_id (as_manifest st)) in *.
  unfold Rec.run_startup_recovery. rewrite Hman. cbn [default from_option id]. fold last.
  set (fs2 := if 0 <? last then WalOps.delete_files_through fs' last else fs').
  assert (dir_log fs2 log) as Hd2.
  { unfold fs2. destruct (Z.ltb_spec 0 last); [by eapply dir_log_delete|].
    destruct old as [|p old]; [done|]. specialize (Hpos ltac:(done)). lia. }
  pose proof (Rec.replay_memtable size_of_event clk 0 (Hot.new capacity) Mem.new (Rec.unsealed_events fs2 last)) as Hm.
  destruct (Rec.replay_events _ _ _ _ _ _) as [d m]. cbn [snd] in Hm.
  rewrite (unsealed_log fs2 log last Hd2), (filter_all _ log Hlast) in Hm. cbn [mt_events Mem.new app] in Hm.
  destruct (rebuild_succeeds (as_files st) (sat_sub_i64 now DEFAULT_TTL_MS) (m_raw_segments (as_manifest st)) d Hsg) as [d' ->].
  exists d', m, fs2. split; [done|]. split; [rewrite <- Hev; exact Hm|]. by exists log.
Qed.

(** The server state built on what recovery returns. *)
Lemma opened_inv cfg st acked fs' d m :
  sys_inv st acked → rests_after [] st fs' → durability_mode cfg = Strict → mt_events m = Ing.buffered st →
  let '(walfs, wal) := WalOps.open fs' (m_last_sealed_wal_id (as_manifest st)) in
  sys_inv (MkAppState (MkFlushEnv (as_files st) (fe_manfs (as_env st)) (as_manifest st) walfs) wal m d [] [] cfg) acked.
Proof.
  intros Hi (log' & Hd' & Hev & Hlast') Hcfg Hm. pose proof (inv_sealed _ _ Hi) as Hlr.
  destruct Hi as [_ Hman Hse Hbk Hsg Hmode Hack]. set (last := m_last_sealed_wal_id (as_manifest st)) in *.
  pose proof (dir_log_open fs' [] log' last Hd' (Forall_nil_2 _) Hlast' Hlr) as Ho.
  destruct (WalOps.open fs' last) as [fs2 w]. destruct Ho as (log2 & es2 & Hd2 & Hev2 & Hgt & Hlt2 & Hwf & Hwb).
  split; try done.
  - exists [], log2, es2. unfold logged. cbn [mjoin list_join app as_wal as_memtable as_queue].
    split; [done|]. split; [done|]. split; [by rewrite Hm, Hev2|]. split; [done|]. split; [done|].
    apply Forall_app. split; [done|]. by apply Forall_singleton.
  - rewrite Hack. apply reflexive_eq. f_equal. symmetry. exact Hm.
Qed.

(** Deleting sealed files one by one, interrupted. *)
Definition deleting (up : Z) (fs fs' : WalFs) : Prop :=
  wf_synced fs' = wf_synced fs
  ∧ ∀ name, wf_files fs' !! name = wf_files fs !! name ∨ wf_files fs' !! name = None ∧ WalOps.id_through up name = true.

(** A log whose first message is in segments, with any of its files left. *)
Lemma flushed_rests st acked msg q st' fs0 fs' :
  sys_inv st acked → as_queue st = msg :: q →
  as_queue st' = q → as_sending st' = as_sending st → as_memtable st' = as_memtable st →
  m_last_sealed_wal_id (as_manifest st') = Z.max (m_last_sealed_wal_id (as_manifest st)) (fm_sealed_wal_id msg) →
  deleting (fm_sealed_wal_id msg) (as_walfs st) fs0 → crashed fs0 fs' → rests st' fs'.
Proof.
  intros [(chunks & cur & es & Hl) _ Hse _ _ _ _] Hqq Hq' Hs' Hm' Hls [Hsy Hdel] Hc.
  destruct (logged_split st msg q chunks cur es Hl Hqq) as (ch & chunks' & Hd & Hq & H1 & H2 & Hlt).
  set (log2 := mjoin chunks' ++ cur ++ [(active_id (as_wal st), es)]) in *.
  assert (log2 ≠ []) as Hne by (unfold log2; intros E; by apply app_eq_nil in E as [_ [_ ?]%app_eq_nil]).
  assert (dir_log fs0 (filter (λ p, ¬ wf_files fs0 !! WalOps.wal_filename p.1 = None) ch ++ log2)) as Hd0.
  { apply (dir_log_remove (as_walfs st)); [done|done| |done]. intros name c. split.
    - intros Hn. split; [|intros p _ Hg ->; by rewrite Hg in Hn]. destruct (Hdel name) as [E|[E _]]; congruence.
    - intros [Hn Hg]. destruct (Hdel name) as [E|[E Hid]]; [by rewrite E|]. exfalso.
      apply (dl_files _ _ Hd) in Hn as (p & [Hp|Hp]%elem_of_app & -> & _); [by apply (Hg p)|].
      rewrite WalOps.id_through_filename in Hid; [|eapply dir_log_range; [exact Hd|apply elem_of_app; by right]].
      apply Z.leb_le in Hid. rewrite Forall_forall in H2. specialize (H2 p Hp). lia. }
  pose proof (dir_log_crash _ _ _ Hd0 Hc) as Hd'. rewrite filter_app in Hd'.
  eexists. split; [eexists; split; [exact Hd'|split]|split].
  - rewrite (survivors_events _ _ _ log2 Hd0 Hc) by (intros p Hp; apply elem_of_app; by right).
    destruct Hl as (_ & _ & Hm & _). unfold Ing.buffered, pending, log2. rewrite Hq', Hs', Hm', (message_events _ _ Hq), Hm.
    by rewrite (log_events_app (mjoin chunks')), log_events_join.
  - rewrite Hls. rewrite Forall_forall in H2. apply Forall_forall. intros p [_ Hp]%list_elem_of_filter. specialize (H2 p Hp). lia.
  - rewrite Hls. rewrite Forall_forall in H1. apply Forall_forall. intros p [_ [_ Hp]%list_elem_of_filter]%list_elem_of_filter.
    specialize (H1 p Hp). lia.
  - intros _. rewrite Hls. lia.
Qed.

(** Starting on such a directory. *)
Lemma inv_restart cfg now clk st acked fs' :
  sys_inv st acked → rests st fs' → durability_mode cfg = Strict →
  ∃ st', Rec.startup size_of_event cfg None None now clk (fe_manfs (as_env st)) (as_files st) fs' = Ok st'
    ∧ sys_inv st' acked ∧ pending st' = [] ∧ as_manifest st' = as_manifest st ∧ as_files st' = as_files st
    ∧ Ing.buffered st' = Ing.buffered st.
Proof.
  intros Hi Hr Hcfg. destruct (recovery_rests (dedupe_capacity cfg) now clk st acked fs' Hi Hr) as (d & m & fs2 & E & Hm & Hr2).
  pose proof (opened_inv cfg st acked fs2 d m Hi Hr2 Hcfg Hm) as Ho. unfold Rec.startup. rewrite E.
  cbn [rec_manifest rec_memtable rec_dedupe]. rewrite (proj2 (Z.eqb_neq _ _)) by apply (si_buckets _ _ Hi).
  cbn [mbind outcome_bind]. destruct (WalOps.open fs2 _) as [fs3 w]. eexists. split; [reflexivity|].
  split; [exact Ho|]. do 3 (split; [done|]). exact Hm.
Qed.

(** Restarting on what a crash left. *)
Lemma inv_crash now clk st acked fs' :
  sys_inv st acked → crashed (as_walfs st) fs' →
  ∃ st', Rec.startup size_of_event (as_config st) None None now clk (fe_manfs (as_env st)) (as_files st) fs' = Ok st'
    ∧ sys_inv st' acked ∧ pending st' = [] ∧ as_manifest st' = as_manifest st ∧ as_files st' = as_files st
    ∧ Ing.buffered st' = Ing.buffered st.
Proof.
  intros Hi Hc. destruct (inv_restart (as_config st) now clk st acked fs' Hi (crash_rests _ _ _ Hi Hc) (si_mode _ _ Hi))
    as (st' & E & Hi' & Hq & Hm & Hf & Hb). by exists st'.
Qed.

(** ** Reachable states *)

(** What the write path does when no call on a file fails and the drained
    messages reach the channel in the order of their drains, and a crash with
    the restart after it.  Segment names are drawn anew, rows fit the segment
    format, and counters stay within u64.  The second component collects what
    the requests accepted.  [overtaken_message_lost], [Ing.ingest_rotate_failure_hides_events],
    [Flush.flush_failure_forgets_buckets] and [RecoveryExample.failed_sync_counts_twice]
    are about what is left out here. *)
Inductive step : AppState * list UsageEvent → AppState * list UsageEvent → Prop :=
| step_ingest io now clk events st st' r acked :
    Ing.handle_ingest size_of_event io now clk st events = (st', Ok r) →
    ins 64 now → Forall event_wf events → active_id (as_wal st) < u64_max →
    step (st, acked) (st', acked ++ Ing.admitted st now events)
| step_drain bud fsync_ok open_ok st st' msg acked :
    drain_and_rotate bud fsync_ok open_ok st = (st', Ok msg) → active_id (as_wal st) < u64_max →
    step (st, acked) (hand_over msg st', acked)
| step_send st acked :
    can_send st = true → step (st, acked) (send true 0 st, acked)
| step_flush now draws msg q st acked :
    as_queue st = msg :: q → Flush.good_draws draws → Flush.fresh_for draws (as_manifest st) →
    Forall (λ p, seg_fits (sort_events_canonical p.2)) (Flush.flush_groups (as_env st) (fm_events msg)) →
    0 ≤ m_current_generation (as_manifest st) < u64_max →
    step (st, acked) (flush_one now draws msg q st, acked)
| step_crash now clk st fs' st' acked :
    crashed (as_walfs st) fs' →
    Rec.startup size_of_event (as_config st) None None now clk (fe_manfs (as_env st)) (as_files st) fs' = Ok st' →
    step (st, acked) (st', acked).

Lemma step_inv x y : step x y → sys_inv x.1 x.2 → sys_inv y.1 y.2.
Proof.
  destruct 1; cbn [fst snd]; intros Hi.
  - by eapply inv_ingest.
  - by eapply inv_drain.
  - by apply inv_send.
  - by apply inv_flush.
  - destruct (inv_crash now clk st acked fs' Hi H) as (st1 & E & Hi' & _). rewrite H0 in E. by injection E as ->.
Qed.

Lemma steps_inv x y : rtc step x y → sys_inv x.1 x.2 → sys_inv y.1 y.2.
Proof. induction 1 as [|x y z Hs _ IH]; intros Hi; [done|]. by eapply IH, step_inv. Qed.

(** A database started on an empty directory. *)
Definition fresh_start (cfg : Config) (now : Z) (clk : nat → Z) : outcome Man.man_error AppState :=
  Rec.startup size_of_event cfg None None now clk (Man.MkManFs ∅ None) ∅ (MkWalFs ∅ ∅).

Lemma empty_dir_log : dir_log (MkWalFs ∅ ∅) [].
Proof.
  split; try by constructor.
  intros name c. cbn. rewrite lookup_empty. split; [done|]. by intros (p & ?%not_elem_of_nil & _).
Qed.

Lemma fresh_inv cfg now clk :
  durability_mode cfg = Strict → default_bucket_count cfg ≠ 0 →
  ∃ st, fresh_start cfg now clk = Ok st ∧ sys_inv st []
    ∧ m_raw_segments (as_manifest st) = [] ∧ m_compacted_replacements (as_manifest st) = []
    ∧ m_rollup_segments (as_manifest st) = [] ∧ m_hourly_rollup_ms (as_manifest st) = 0.
Proof.
  intros Hmode Hb. unfold fresh_start, Rec.startup, Rec.run_startup_recovery.
  assert (Man.load None (Man.MkManFs ∅ None) = (Man.MkManFs ∅ None, Ok None)) as -> by done.
  cbn [default from_option id m_last_sealed_wal_id manifest_default]. change (0 <? 0) with false. cbn match.
  rewrite (unsealed_log _ _ 0 empty_dir_log). cbn [Rec.replay_events log_events filter list_filter fmap list_fmap mjoin list_join].
  cbn [Rec.rebuild_dedupe m_raw_segments manifest_default mbind outcome_bind rec_manifest m_bucket_count].
  change (0 =? 0) with true. cbn match.
  destruct (Man.save_then_load None (Man.MkManFs ∅ None) (Rec.set_bucket_count (default_bucket_count cfg) manifest_default))
    as (manfs & -> & Hl); [by vm_compute|].
  cbn [mbind outcome_bind].
  change (m_last_sealed_wal_id (set_generation _ (Rec.set_bucket_count (default_bucket_count cfg) manifest_default))) with 0.
  pose proof (dir_log_open _ [] [] 0 empty_dir_log (Forall_nil_2 _) ltac:(constructor) ltac:(by vm_compute)) as Ho.
  destruct (WalOps.open (MkWalFs ∅ ∅) 0) as [fs w]. destruct Ho as (log & es & Hd & Hev & Hgt & Hlt & Hwf & Hwb).
  eexists. split; [reflexivity|]. split; [|done]. split; try done.
  exists [], log, es. unfold logged. cbn [mjoin list_join app as_wal as_memtable as_queue rec_memtable].
  split; [done|]. split; [done|]. split; [by rewrite Hev|]. split; [done|]. split; [done|].
  apply Forall_app. split; [done|]. by apply Forall_singleton.
Qed.



(** ** Messages that overtake each other *)

(** With two messages waiting to be sent, the second is sent and flushed
    first: behind its files the log is as if the first had been flushed too. *)
Lemma logged_overtaken st m1 m2 rest chunks cur es env :
  logged st chunks cur es → as_queue st = [] → as_sending st = m1 :: m2 :: rest →
  fe_walfs env = WalOps.delete_files_through (as_walfs st) (fm_sealed_wal_id m2) →
  m_last_sealed_wal_id (fe_manifest env) = Z.max (m_last_sealed_wal_id (as_manifest st)) (fm_sealed_wal_id m2) →
  ∃ chunks', logged (MkAppState env (as_wal st) (as_memtable st) (as_dedupe st) [] rest (as_config st)) chunks' cur es.
Proof.
  intros (Hd & Hq & Hm & Hf & Hb & Hlast) Hqq Hs Hw Hls. unfold pending in Hq. rewrite Hqq, Hs in Hq. cbn [app] in Hq.
  apply Forall2_cons_inv_l in Hq as (ch1 & c' & [E1 _] & Hq & ->).
  apply Forall2_cons_inv_l in Hq as (ch2 & chunks' & [E2 (ch & e2 & Hch)] & Hq & ->).
  set (both := MkFlushMessage (fm_events m1 ++ fm_events m2) (fm_sealed_wal_id m2)).
  assert (mjoin (ch1 :: ch2 :: chunks') = mjoin ((ch1 ++ ch2) :: chunks')) as Ej by (cbn; by rewrite <- app_assoc).
  rewrite Ej in Hd, Hlast.
  refine (logged_flush (MkAppState (as_env st) (as_wal st) (as_memtable st) (as_dedupe st) [both] rest (as_config st))
    both [] ((ch1 ++ ch2) :: chunks') cur es env _ eq_refl Hw Hls).
  split; [exact Hd|]. split; [|by split_and!].
  constructor; [|exact Hq]. split; [cbn; by rewrite E1, E2, log_events_app|].
  exists (ch1 ++ ch), e2. by rewrite Hch, app_assoc.
Qed.

(** C3: a message that is overtaken is lost by a crash: in strict mode, take a
    state that requests, drains, sends in order, flushes and crashes with
    recovery reach from an empty database without a failing call on a file, in
    which the channel is empty and two drained messages wait to be sent, and
    let the second reach the channel first, which nothing prevents once the
    locks are released. When it has been flushed without a fault (new segment
    names, rows that fit the format, generation below [u64::MAX]), the log of
    the first has been deleted with its own, and a crash before the first is
    sent and flushed loses exactly the first one's events, which were
    accepted: the server starts, and its segments and memtable hold the other
    accepted events. *)
Theorem overtaken_message_lost cfg now clk st0 st acked m1 m2 rest nowf draws fs' now' clk' :
  durability_mode cfg = Strict → default_bucket_count cfg ≠ 0 →
  fresh_start cfg now clk = Ok st0 →
  rtc step (st0, []) (st, acked) →
  as_queue st = [] → as_sending st = m1 :: m2 :: rest → fm_events m2 ≠ [] →
  Flush.good_draws draws → Flush.fresh_for draws (as_manifest st) →
  Forall (λ p, seg_fits (sort_events_canonical p.2)) (Flush.flush_groups (as_env st) (fm_events m2)) →
  0 ≤ m_current_generation (as_manifest st) < u64_max →
  let st2 := flush_one nowf draws m2 [] (send true 1 st) in
  crashed (as_walfs st2) fs' →
  ∃ st', Rec.startup size_of_event (as_config st2) None None now' clk' (fe_manfs (as_env st2)) (as_files st2) fs' = Ok st'
    ∧ pending st' = []
    ∧ acked ≡ₚ fm_events m1 ++ Flush.stored (as_files st') (m_raw_segments (as_manifest st')) ++ mt_events (as_memtable st').
Proof.
  intros Hmode Hb H0 Hr Hq Hs Hne Hd Hfr Hfit Hg st2 Hc.
  destruct (fresh_inv cfg now clk Hmode Hb) as (st1 & E & Hi & _). rewrite H0 in E. injection E as <-.
  apply (steps_inv _ _ Hr) in Hi. destruct Hi as [(chunks & cur & es & Hl) Hman Hse Hbk Hsg Hmo Hack]. cbn [fst snd] in *.
  destruct (Flush.flush_effect draws (as_env st) (fm_events m2) (fm_sealed_wal_id m2) Hd Hfr Hfit Hg)
    as (env & Ef & Hst & _ & Hload & Hls & Hw & Hbc & Hsegs & _).
  assert (st2 = MkAppState env (as_wal st) (as_memtable st) (as_dedupe st) [] (m1 :: rest) (as_config st)) as E2.
  { unfold st2, flush_one, send, Flush.handle_message. rewrite Hs. cbn [lookup list_lookup as_env as_memtable].
    rewrite bool_decide_eq_false_2 by done. by rewrite Ef. }
  destruct (logged_overtaken st m1 m2 rest chunks cur es env Hl Hq Hs Hw Hls) as (chunks' & Hl').
  set (stv := MkAppState env (as_wal st) (as_memtable st) (as_dedupe st) [] rest (as_config st)) in *.
  assert (sys_inv stv (Flush.stored (as_files stv) (m_raw_segments (as_manifest stv)) ++ Ing.buffered stv)) as Hiv.
  { split; unfold stv, as_manifest, as_files in *; cbn [as_env as_config] in *; try done.
    - by eexists _, _, _.
    - rewrite Hls. lia.
    - by rewrite Hbc.
    - apply Forall_forall. intros s Hin. rewrite Forall_forall in Hsg.
      destruct (Hsegs s Hin) as [(Hin' & _ & Hk)|?]; [|done]. by apply Hk, Hsg. }
  rewrite E2 in *.
  destruct (inv_crash now' clk' stv _ fs' Hiv Hc) as (st' & Es & Hi' & Hp & Hm' & Hf' & Hbuf). exists st'.
  split; [exact Es|]. split; [done|].
  assert (mt_events (as_memtable st') = Ing.buffered stv) as ->.
  { rewrite <- Hbuf. unfold Ing.buffered. by rewrite Hp. }
  rewrite Hm', Hf', Hack. unfold stv, as_files, as_manifest in *. cbn [as_env]. rewrite Hst.
  unfold Ing.buffered, pending. rewrite Hq, Hs. cbn [app as_queue as_sending as_memtable fmap list_fmap].
  change (mjoin (?x :: ?y :: ?l)) with (x ++ y ++ mjoin l). rewrite <- !app_assoc. solve_Permutation.
Qed.
End system.
End Sys.

(** ** Witnesses *)
Module SystemExample.
#[local] Existing Instances poly_digest code_bincode stored_codecs poly_digest_ok code_bincode_ok stored_codecs_ok.
#[local] Existing Instances text_json text_json_ok Per.flat_calendar ManExample.text_manifest ManExample.text_manifest_ok.
#[local] Existing Instances Files.file_segments Files.file_segments_ok.

Definition cfg : Config := IngestExample.cfg 10.

Definition dummy : AppState := IngestExample.st 10.

(** A new database takes a batch, which also rotates the log. *)
Definition st0 : AppState := match Sys.fresh_start 200 cfg 0 (λ _, 0) with Ok st => st | _ => dummy end.
Definition ingested := Ing.handle_ingest 200 no_faults 2000 IngestExample.clk st0 IngestExample.batch.
Definition handed : AppState := ingested.1.
Definition st1 : AppState := send true 0 handed.
Definition acked : list UsageEvent := Ing.admitted st0 2000 IngestExample.batch.

Lemma fresh_ok : Sys.fresh_start 200 cfg 0 (λ _, 0) = Ok st0.
Proof.
  destruct (Sys.fresh_inv 200 cfg 0 (λ _, 0)) as (st & E & _); [done|done|]. unfold st0. by rewrite E.
Qed.

Lemma ingested_ok : ingested = (handed, Ok (MkIngestResponse 1 1 1 1)).
Proof.
  assert (ingested.2 = Ok (MkIngestResponse 1 1 1 1)) as E by (vm_compute; reflexivity).
  unfold handed. by destruct ingested as [s r]; cbn in *; subst.
Qed.

Lemma ingest_step : Sys.step 200 (st0, []) (handed, acked).
Proof.
  apply (Sys.step_ingest 200 no_faults 2000 IngestExample.clk IngestExample.batch st0 handed (MkIngestResponse 1 1 1 1) []).
  - exact ingested_ok.
  - by vm_compute.
  - refine (bool_decide_unpack _ _). by vm_compute.
  - by vm_compute.
Qed.

Lemma send_step : Sys.step 200 (handed, acked) (st1, acked).
Proof. apply Sys.step_send. vm_compute. reflexivity. Qed.

Lemma reach_ingest : rtc (Sys.step 200) (st0, []) (st1, acked).
Proof. eapply rtc_l; [exact ingest_step|]. apply rtc_once. exact send_step. Qed.

(** The flusher writes the message the rotation queued. *)
Definition msg : FlushMessage := MkFlushMessage acked 1.
Definition st2 : AppState := Sys.flush_one 200 2500 FlushExample.good msg [] st1.

Lemma queue1 : as_queue st1 = [msg].
Proof. vm_compute. reflexivity. Qed.

Lemma fresh1 : Flush.fresh_for FlushExample.good (as_manifest st1).
Proof.
  assert (m_raw_segments (as_manifest st1) = []) as E by (vm_compute; reflexivity).
  intros i meta Hin. exfalso. rewrite E in Hin. exact (not_elem_of_nil meta Hin).
Qed.

Lemma fits1 : Forall (λ p, seg_fits (sort_events_canonical p.2)) (Flush.flush_groups (as_env st1) (fm_events msg)).
Proof.
  set (ev := set_ingested_at 2000 IngestExample.ev).
  assert (Flush.flush_groups (as_env st1) (fm_events msg) = [(bucket_for_account "acct_1" 4, [ev])]) as ->;
    [vm_compute; reflexivity|].
  apply Forall_singleton. change (sort_events_canonical _) with [ev]. split; [|by vm_compute].
  apply Forall_singleton. by vm_compute.
Qed.

Lemma generation1 : 0 ≤ m_current_generation (as_manifest st1) < u64_max.
Proof. by vm_compute. Qed.

Lemma flush_step : Sys.step 200 (st1, acked) (st2, acked).
Proof.
  apply Sys.step_flush; [exact queue1| |exact fresh1|exact fits1|exact generation1].
  apply FlushExample.good_draws_good.
Qed.

Lemma reach_flush : rtc (Sys.step 200) (st0, []) (st2, acked).
Proof. eapply rtc_r; [exact reach_ingest|exact flush_step]. Qed.


(** Then the process dies, with nothing of the empty new log file on disk. *)
Definition after_crash : WalFs :=
  let files := delete (WalOps.wal_filename 2) (wf_files (as_walfs st1)) in
  MkWalFs files (length <$> files).

Lemma crashed_after : Sys.crashed (as_walfs st1) after_crash.
Proof.
  split; [|intros name; unfold after_crash; cbn; by rewrite lookup_fmap].
  assert (wf_files (as_walfs st1) !! WalOps.wal_filename 2 = Some [] ∧ wf_synced (as_walfs st1) !! WalOps.wal_filename 2 = None)
    as [Hf Hs] by (vm_compute; done).
  intros name. unfold after_crash. cbn [wf_files]. destruct (decide (name = WalOps.wal_filename 2)) as [->|Hn].
  - by rewrite Hf, lookup_delete_eq.
  - rewrite lookup_delete_ne by done. apply (IngestExample.crash_keeps_all (as_walfs st1) name).
Qed.


(** A second batch, drained before the first message was sent. *)
Definition ev2 : UsageEvent := sample_event "b" "acct_1" 1000 7.
Definition ingested2 := Ing.handle_ingest 200 no_faults 2100 IngestExample.clk handed [ev2].
Definition acked2 : list UsageEvent := acked ++ Ing.admitted handed 2100 [ev2].

Lemma ingested2_ok : ingested2 = (ingested2.1, Ok (MkIngestResponse 1 0 0 0)).
Proof.
  assert (ingested2.2 = Ok (MkIngestResponse 1 0 0 0)) as E by (vm_compute; reflexivity).
  by destruct ingested2 as [s r]; cbn in *; subst.
Qed.

Lemma reach_two : rtc (Sys.step 200) (st0, []) (ingested2.1, acked2).
Proof.
  eapply rtc_l; [exact ingest_step|]. apply rtc_once.
  apply (Sys.step_ingest 200 no_faults 2100 IngestExample.clk [ev2] handed ingested2.1 (MkIngestResponse 1 0 0 0) acked).
  - exact ingested2_ok.
  - by vm_compute.
  - refine (bool_decide_unpack _ _). by vm_compute.
  - by vm_compute.
Qed.

Definition msg2 : FlushMessage := MkFlushMessage [set_ingested_at 2100 ev2] 2.

Definition overtaken : AppState := Sys.flush_one 200 2500 FlushExample.good msg2 [] (send true 1 ingested2.1).

Lemma crashed_all fs : Sys.crashed fs (MkWalFs (wf_files fs) (length <$> wf_files fs)).
Proof. split; [exact (IngestExample.crash_keeps_all fs)|]. intros name. cbn. by rewrite lookup_fmap. Qed.

Lemma overtaken_message_lost_witness :
  ∃ st', Rec.startup 200 (as_config overtaken) None None 3000 (λ _, 3000) (fe_manfs (as_env overtaken)) (as_files overtaken)
           (MkWalFs (wf_files (as_walfs overtaken)) (length <$> wf_files (as_walfs overtaken))) = Ok st'
    ∧ pending st' = []
    ∧ acked2 ≡ₚ acked ++ Flush.stored (as_files st') (m_raw_segments (as_manifest st')) ++ mt_events (as_memtable st').
Proof.
  refine (Sys.overtaken_message_lost 200 cfg 0 (λ _, 0) st0 ingested2.1 acked2 msg msg2 [] 2500 FlushExample.good _ 3000
    (λ _, 3000) eq_refl _ fresh_ok reach_two _ _ _ FlushExample.good_draws_good _ _ _ (crashed_all _)).
  - done.
  - vm_compute. reflexivity.
  - vm_compute. reflexivity.
  - done.
  - assert (m_raw_segments (as_manifest ingested2.1) = []) as E by (vm_compute; reflexivity).
    intros i meta Hin. exfalso. rewrite E in Hin. exact (not_elem_of_nil meta Hin).
  - assert (Flush.flush_groups (as_env ingested2.1) (fm_events msg2)
            = [(bucket_for_account "acct_1" 4, [set_ingested_at 2100 ev2])]) as ->; [vm_compute; reflexivity|].
    apply Forall_singleton. change (sort_events_canonical _) with [set_ingested_at 2100 ev2]. split; [|by vm_compute].
    apply Forall_singleton. by vm_compute.
  - by vm_compute.
Defined.

(** The directory entry of the first log file was never synced: without it the
    acknowledged and synced batch is gone. *)
Lemma unsynced_log_entry_lost :
  acked ≠ [] ∧ wf_synced (as_walfs handed) !! WalOps.wal_filename 1
               = length <$> wf_files (as_walfs handed) !! WalOps.wal_filename 1
  ∧ match Rec.startup 200 cfg None None 3000 (λ _, 3000) (fe_manfs (as_env handed)) (as_files handed) (MkWalFs ∅ ∅) with
    | Ok st => mt_events (as_memtable st) = [] ∧ m_raw_segments (as_manifest st) = []
    | _ => False
    end.
Proof. vm_compute. split_and!; done. Qed.
End SystemExample.
