(* ===== verification/FastMode.v ===== *)
(** * Acknowledging before the sync

    [DurabilityMode::Fast] of [src/runtime/config.rs]: the ingest handler hands
    its lines to the kernel and answers without [sync_data]; only a rotation
    syncs.  A log in this mode is compared with its shadow, the same log with
    the active file synced, which is a log of the strict mode. *)

From Stdlib Require Import Ascii.
From stdpp Require Import sorting numbers strings base gmap list.
From S2P Require Import Prelude Model Instances Encoding Segment SegmentSpec DedupeIndex SegmentApi.
From S2P Require Import Memtable Dedupe Wal Manifest Period Flusher State Ingest Recovery System.

Module Unsynced.
Section unsynced.
Context {BL : Blake3} {BN : Bincode} {SJ : SerdeJson} {RS : RawSegments} {MJ : ManifestJson} {CH : Chrono}.
Context (size_of_event : Z).

(** The write path between two crashes. *)
Inductive act : AppState * list UsageEvent → AppState * list UsageEvent → Prop :=
| act_ingest io now clk events st st' r acked :
    Ing.handle_ingest size_of_event io now clk st events = (st', Ok r) →
    ins 64 now → Forall event_wf events → active_id (as_wal st) < u64_max →
    act (st, acked) (st', acked ++ Ing.admitted st now events)
| act_drain bud fsync_ok open_ok st st' msg acked :
    drain_and_rotate bud fsync_ok open_ok st = (st', Ok msg) → active_id (as_wal st) < u64_max →
    act (st, acked) (hand_over msg st', acked)
| act_send st acked :
    can_send st = true → act (st, acked) (send true 0 st, acked)
| act_flush now draws msg q st acked :
    as_queue st = msg :: q → Flush.good_draws draws → Flush.fresh_for draws (as_manifest st) →
    Forall (λ p, seg_fits (sort_events_canonical p.2)) (Flush.flush_groups (as_env st) (fm_events msg)) →
    0 ≤ m_current_generation (as_manifest st) < u64_max →
    act (st, acked) (Sys.flush_one size_of_event now draws msg q st, acked).

(** ** The shadow *)
Definition resync (s : gmap string nat) (fs : WalFs) : WalFs := MkWalFs (wf_files fs) s.

Definition strict_mode (c : Config) : Config :=
  MkConfig (max_memtable_size_bytes c) (dedupe_capacity c) (default_bucket_count c) (rollup_tick_interval_secs c)
    (rollup_safety_lag_ms c) (compaction_tick_interval_secs c) (compaction_grace_ms c) (compaction_max_small_segments c)
    Strict (memtable_max_age_ms c).

Definition shadow (s : gmap string nat) (st : AppState) : AppState :=
  MkAppState (set_walfs (resync s (as_walfs st)) (as_env st)) (as_wal st) (as_memtable st) (as_dedupe st) (as_queue st)
    (as_sending st) (strict_mode (as_config st)).

(** The writing operations of the log do not look at what is synced. *)
Lemma file_write_all_resync s bud fs name data :
  WalOps.file_write_all bud (resync s fs) name data
  = let '(b, fs', r) := WalOps.file_write_all bud fs name data in (b, resync s fs', r).
Proof. unfold WalOps.file_write_all. destruct bud as [k|]; [|done]. by destruct (_ <=? _)%nat. Qed.

Lemma flush_buf_resync s bud fs w :
  WalOps.flush_buf bud (resync s fs) w
  = let '(b, fs', w', r) := WalOps.flush_buf bud fs w in (b, resync s fs', w', r).
Proof.
  unfold WalOps.flush_buf. rewrite file_write_all_resync.
  by destruct (WalOps.file_write_all _ _ _ _) as [[b fs'] [n|e|]].
Qed.

Lemma write_all_resync s bud fs w data :
  WalOps.write_all bud (resync s fs) w data
  = let '(b, fs', w', r) := WalOps.write_all bud fs w data in (b, resync s fs', w', r).
Proof.
  unfold WalOps.write_all. destruct (_ <? _)%nat; [done|].
  assert ((if (WalOps.spare_capacity w <? length data)%nat then WalOps.flush_buf bud (resync s fs) w else (bud, resync s fs, w, Ok tt))
    = let '(b, fs', w', r) := (if (WalOps.spare_capacity w <? length data)%nat then WalOps.flush_buf bud fs w else (bud, fs, w, Ok tt))
      in (b, resync s fs', w', r)) as ->.
  { destruct (_ <? _)%nat; [apply flush_buf_resync|done]. }
  destruct (if (WalOps.spare_capacity w <? length data)%nat then WalOps.flush_buf bud fs w else (bud, fs, w, Ok tt))
    as [[[b fs1] w1] [u|e|]]; [|done..].
  destruct (_ <=? _)%nat; [|done]. rewrite file_write_all_resync.
  by destruct (WalOps.file_write_all _ _ _ _) as [[b' fs'] [n|e|]].
Qed.

Lemma append_batch_resync s bud fs w es :
  WalOps.append_batch bud (resync s fs) w es
  = let '(b, fs', w', r) := WalOps.append_batch bud fs w es in (b, resync s fs', w', r).
Proof.
  revert bud fs w. induction es as [|e es IH]; intros bud fs w; [done|]. cbn [WalOps.append_batch].
  destruct (json_to e) as [j|]; [|done]. unfold WalOps.write_line. rewrite write_all_resync.
  destruct (WalOps.write_all bud fs w j) as [[[b fs1] w1] [u|e1|]]; [|done..]. rewrite write_all_resync.
  destruct (WalOps.write_all b fs1 w1 [10]) as [[[b2 fs2] w2] [u2|e2|]]; [|done..]. apply IH.
Qed.

(** Syncs agree but for the active file. *)
Definition agree (name : string) (s s' : gmap string nat) : Prop := ∀ n, n ≠ name → s' !! n = s !! n.

Context {SJok : SerdeJsonOk} {RSok : RawSegmentsOk} {MJok : ManifestJsonOk}.

(** Flushing to the kernel, and syncing as well. *)
Lemma write_ahead_shadow s fs w new fs1 w1 :
  Ing.write_ahead no_faults Fast fs w new = (fs1, w1, Ok tt) →
  wf_synced fs1 = wf_synced fs ∧ wal_file w1 = wal_file w
  ∧ ∃ s1, Ing.write_ahead no_faults Strict (resync s fs) w new = (resync s1 fs1, w1, Ok tt) ∧ agree (wal_file w) s s1.
Proof.
  unfold Ing.write_ahead. cbn [no_faults ii_budget ii_fsync]. case_bool_decide.
  { intros [= <- <-]. split; [done|]. split; [done|]. by exists s. }
  rewrite append_batch_resync. destruct (WalOps.encode_lines_total new) as [data Hd].
  destruct (WalOps.append_batch_ok fs w new data Hd) as (fs2 & w2 & -> & _ & Hf & _ & Hs & _).
  unfold WalOps.flush_buffer, WalOps.sync. rewrite flush_buf_resync.
  destruct (WalOps.flush_buf_ok fs2 w2) as (fs3 & -> & (_ & _ & _ & Hs3 & _) & _). intros [= <- <-].
  split; [by rewrite Hs3|]. split; [done|]. eexists. split; [reflexivity|].
  intros n Hn. cbn. rewrite Hf. by rewrite lookup_insert_ne.
Qed.

Lemma rotate_shadow s fs w fs1 w1 sealed :
  WalOps.rotate None true true fs w = (fs1, w1, Ok sealed) → agree (wal_file w) (wf_synced fs) s →
  ∃ s1, WalOps.rotate None true true (resync s fs) w = (resync s1 fs1, w1, Ok sealed) ∧ wf_synced fs1 = s1.
Proof.
  unfold WalOps.rotate, WalOps.sync. rewrite flush_buf_resync.
  destruct (WalOps.flush_buf_ok fs w) as (fs2 & -> & (_ & _ & _ & Hs & _) & _). intros [= <- <- <-] Ha.
  eexists. split; [reflexivity|]. cbn. rewrite Hs. apply map_eq. intros n.
  destruct (decide (n = wal_file w)) as [->|Hn]; [by rewrite !lookup_insert_eq|]. rewrite !lookup_insert_ne by done. symmetry. by apply Ha.
Qed.

(** ** Steps of the shadow *)
Lemma ingest_shadow s io now clk st events st' r :
  durability_mode (as_config st) = Fast → agree (wal_file (as_wal st)) (wf_synced (as_walfs st)) s →
  Ing.handle_ingest size_of_event io now clk st events = (st', Ok r) →
  ∃ s', Ing.handle_ingest size_of_event no_faults now clk (shadow s st) events = (shadow s' st', Ok r)
    ∧ agree (wal_file (as_wal st')) (wf_synced (as_walfs st')) s' ∧ as_config st' = as_config st.
Proof.
  intros Hmode Ha H. unfold Ing.handle_ingest in *.
  change (as_manifest (shadow s st)) with (as_manifest st).
  destruct (Ing.validate_batch _ _ _) as [rejected cs]. unfold Ing.ingest_critical_section in *.
  change (as_dedupe (shadow s st)) with (as_dedupe st). change (as_memtable (shadow s st)) with (as_memtable st).
  change (as_walfs (shadow s st)) with (resync s (as_walfs st)). change (as_wal (shadow s st)) with (as_wal st).
  change (as_queue (shadow s st)) with (as_queue st). change (as_sending (shadow s st)) with (as_sending st). change (durability_mode (as_config (shadow s st))) with Strict.
  rewrite Hmode in H. destruct (Ing.screen _ _ _) as [[new dup] conf].
  destruct (Ing.write_ahead io _ _ _ _) as [[fs w] [[]| |]] eqn:Ew; try done. apply Ing.write_ahead_ok in Ew.
  destruct (write_ahead_shadow s _ _ _ _ _ Ew) as (Hs1 & Hf1 & s1 & -> & Ha1).
  destruct (Ing.commit_all _ _ _ _ _ _) as [d m].
  assert (agree (wal_file w) (wf_synced fs) s1) as Ha2.
  { intros n Hn. rewrite Hf1 in Hn. by rewrite Hs1, Ha1, Ha. }
  change (max_memtable_size_bytes (strict_mode (as_config st))) with (max_memtable_size_bytes (as_config st)).
  change (max_memtable_size_bytes (as_config (MkAppState _ _ _ _ _ _ (as_config (shadow s st)))))
    with (max_memtable_size_bytes (as_config st)).
  cbn [as_config] in H |- *. destruct (_ <? _).
  - unfold drain_and_rotate in H |- *. cbn [Mem.drain_all as_memtable as_walfs as_wal as_env set_walfs fe_walfs no_faults ii_rotate fst snd] in H |- *.
    destruct (WalOps.rotate (ii_rotate io).1.1 (ii_rotate io).1.2 (ii_rotate io).2 fs w) as [[fs2 w2] [sealed| |]] eqn:Er; try done.
    apply Ing.rotate_budget in Er. destruct (rotate_shadow s1 _ _ _ _ _ Er Ha2) as (s2 & -> & Hs2).
    cbn [io_drained] in H |- *. injection H as <- <-. exists s2. split; [reflexivity|]. split; [|done].
    intros n _. cbn. by rewrite <- Hs2.
  - injection H as <- <-. exists s1. split; [reflexivity|]. split; [exact Ha2|done].
Qed.

Lemma drain_shadow s bud fsync_ok open_ok st st1 msg :
  agree (wal_file (as_wal st)) (wf_synced (as_walfs st)) s → drain_and_rotate bud fsync_ok open_ok st = (st1, Ok msg) →
  ∃ s', drain_and_rotate None true true (shadow s st) = (shadow s' st1, Ok msg)
    ∧ agree (wal_file (as_wal st1)) (wf_synced (as_walfs st1)) s' ∧ as_config st1 = as_config st.
Proof.
  intros Ha H. unfold drain_and_rotate in *.
  change (as_walfs (shadow s st)) with (resync s (as_walfs st)). change (as_wal (shadow s st)) with (as_wal st).
  change (as_memtable (shadow s st)) with (as_memtable st). cbn [Mem.drain_all] in *.
  destruct (WalOps.rotate bud fsync_ok open_ok _ _) as [[fs2 w2] [sealed| |]] eqn:Er; try done. apply Ing.rotate_budget in Er.
  destruct (rotate_shadow s _ _ _ _ _ Er Ha) as (s2 & -> & Hs2). injection H as <- <-. exists s2.
  split; [reflexivity|]. split; [|done]. intros n _. cbn. by rewrite <- Hs2.
Qed.

Lemma flush_shadow s now draws msg q st :
  agree (wal_file (as_wal st)) (wf_synced (as_walfs st)) s →
  let st' := Sys.flush_one size_of_event now draws msg q st in
  ∃ s', Sys.flush_one size_of_event now draws msg q (shadow s st) = shadow s' st'
    ∧ agree (wal_file (as_wal st')) (wf_synced (as_walfs st')) s' ∧ as_config st' = as_config st.
Proof.
  intros Ha st'. subst st'. unfold Sys.flush_one, Flush.handle_message. case_bool_decide; [by exists s|].
  unfold Flush.attempt_flush. cbn [as_env shadow set_walfs fe_manifest fe_files fe_manfs fe_walfs as_memtable].
  destruct (Flush.flush_buckets _ _ _ _ _ _) as [files [[metas paths]|f|]]; [|by exists s..].
  destruct (Man.save _ _ _) as [[manfs m] [u|e|]]; [|by exists s..].
  eexists. split; [reflexivity|]. split; [|done]. intros n Hn. cbn [as_wal] in Hn. cbn.
  destruct (WalOps.id_through (fm_sealed_wal_id msg) n) eqn:Ei.
  - rewrite !map_lookup_filter_None_2; [done|..]; right; intros x _; cbn; by rewrite Ei.
  - assert (∀ m : gmap string nat, filter (λ kv : string * nat, WalOps.id_through (fm_sealed_wal_id msg) kv.1 = false) m !! n = m !! n) as Hfl.
    { intros m'. destruct (m' !! n) as [x|] eqn:E; [by apply map_lookup_filter_Some_2|]. apply map_lookup_filter_None_2. by left. }
    rewrite !Hfl. by apply Ha.
Qed.

(** ** The invariant *)
Definition fast_inv (st : AppState) (acked : list UsageEvent) : Prop :=
  durability_mode (as_config st) = Fast
  ∧ ∃ s, agree (wal_file (as_wal st)) (wf_synced (as_walfs st)) s ∧ Sys.sys_inv (shadow s st) acked.

Lemma act_inv x y : act x y → fast_inv x.1 x.2 → fast_inv y.1 y.2.
Proof.
  destruct 1 as [io now clk events st st' r acked H Hn Hwf Hmax|bud f o st st1 msg acked H Hmax|st acked Hcs|now draws msg q st acked Hq Hd Hfr Hfit Hg];
    cbn [fst snd]; intros (Hmode & s & Ha & Hi).
  - destruct (ingest_shadow s _ _ _ _ _ _ _ Hmode Ha H) as (s' & E & Ha' & Hc). split; [by rewrite Hc|]. exists s'. split; [done|].
    exact (Sys.inv_ingest size_of_event _ _ _ _ _ _ _ _ Hi E Hn Hwf Hmax).
  - destruct (drain_shadow s _ _ _ _ _ _ Ha H) as (s' & E & Ha' & Hc). split; [by rewrite <- Hc in Hmode|]. exists s'. split; [done|].
    exact (Sys.inv_drain _ _ _ _ _ _ _ Hi E Hmax).
  - split; [by rewrite (proj2 (proj2 (proj2 (Sys.send_same 0 st))))|]. exists s.
    assert (send true 0 (shadow s st) = shadow s (send true 0 st)) as E.
    { unfold send. change (as_sending (shadow s st)) with (as_sending st). by destruct (as_sending st !! 0%nat). }
    split; [|rewrite <- E; by apply Sys.inv_send].
    destruct (Sys.send_same 0 st) as (He & Hw & _). unfold as_walfs. by rewrite He, Hw.
  - destruct (flush_shadow s now draws msg q st Ha) as (s' & E & Ha' & Hc). split; [by rewrite Hc|]. exists s'. split; [done|].
    rewrite <- E. by apply Sys.inv_flush.
Qed.

Lemma acts_inv x y : rtc act x y → fast_inv x.1 x.2 → fast_inv y.1 y.2.
Proof. induction 1 as [|x y z Hs _ IH]; intros Hi; [done|]. by eapply IH, act_inv. Qed.

Lemma startup_shadow cfg now clk manfs files walfs st :
  Rec.startup size_of_event cfg None None now clk manfs files walfs = Ok st →
  Rec.startup size_of_event (strict_mode cfg) None None now clk manfs files walfs = Ok (shadow (wf_synced (as_walfs st)) st)
  ∧ as_config st = cfg.
Proof.
  unfold Rec.startup. change (dedupe_capacity (strict_mode cfg)) with (dedupe_capacity cfg).
  change (default_bucket_count (strict_mode cfg)) with (default_bucket_count cfg).
  destruct (Rec.run_startup_recovery _ _ _ _ _ _ _ _) as [[manfs1 walfs1] [r|e|]]; [|done..].
  destruct (if _ =? _ then _ else _) as [[manfs2 m] [u|e|]]; cbn [mbind outcome_bind]; [|done..].
  destruct (WalOps.open _ _) as [walfs2 w]. intros [= <-]. split; [|done]. f_equal. unfold shadow, resync, as_walfs. cbn. by destruct walfs2.
Qed.

Lemma fresh_fast cfg now clk st :
  durability_mode cfg = Fast → default_bucket_count cfg ≠ 0 → Sys.fresh_start size_of_event cfg now clk = Ok st → fast_inv st [].
Proof.
  intros Hmode Hb E. destruct (startup_shadow _ _ _ _ _ _ _ E) as [Es Hc].
  destruct (Sys.fresh_inv size_of_event (strict_mode cfg) now clk) as (st1 & E1 & Hi & _); [done|done|].
  unfold Sys.fresh_start in E1. rewrite Es in E1. injection E1 as <-.
  split; [by rewrite Hc|]. exists (wf_synced (as_walfs st)). by split.
Qed.

(** ** Recovery reads lines, not bytes *)
Definition alike (fs fs' : WalFs) : Prop :=
  (∀ name, is_Some (wf_files fs !! name) ↔ is_Some (wf_files fs' !! name))
  ∧ ∀ id, WalOps.replay_file fs id = WalOps.replay_file fs' id.

Lemma names_NoDup fs : NoDup (WalOps.names fs).
Proof. apply NoDup_fst_map_to_list. Qed.

Lemma alike_names fs fs' : alike fs fs' → WalOps.names fs ≡ₚ WalOps.names fs'.
Proof.
  intros [Hd _]. apply NoDup_Permutation; [apply names_NoDup|apply names_NoDup|]. intros n.
  assert (∀ g, n ∈ WalOps.names g ↔ is_Some (wf_files g !! n)) as H.
  { intros g. unfold WalOps.names. rewrite list_elem_of_fmap. split.
    - intros ([k v] & -> & Hin%elem_of_map_to_list). eauto.
    - intros [v Hv]. exists (n, v). split; [done|]. by apply elem_of_map_to_list. }
  by rewrite !H.
Qed.

Lemma alike_unsealed fs fs' last : alike fs fs' → Rec.unsealed_events fs last = Rec.unsealed_events fs' last.
Proof.
  intros H. pose proof (alike_names fs fs' H) as Hn. unfold Rec.unsealed_events, WalOps.list_files_after, WalOps.wal_ids.
  rewrite (Sys.sort_perm_eq _ (filter (λ id, last < id) (omap WalOps.parse_wal_id (WalOps.names fs')))).
  - f_equal. apply list_fmap_ext. intros i id _. apply H.
  - by rewrite Hn.
Qed.

Lemma alike_delete fs fs' up : alike fs fs' → alike (WalOps.delete_files_through fs up) (WalOps.delete_files_through fs' up).
Proof.
  intros [Hd Hr].
  assert (∀ g n, wf_files (WalOps.delete_files_through g up) !! n
    = if WalOps.id_through up n then None else wf_files g !! n) as Hl.
  { intros g n. cbn. destruct (WalOps.id_through up n) eqn:Ei.
    - apply map_lookup_filter_None_2. right. intros x _. cbn. by rewrite Ei.
    - destruct (wf_files g !! n) as [x|] eqn:E; [by apply map_lookup_filter_Some_2|]. apply map_lookup_filter_None_2. by left. }
  split.
  - intros n. rewrite !Hl. destruct (WalOps.id_through up n); [done|]. apply Hd.
  - intros id. specialize (Hr id). unfold WalOps.replay_file in *. rewrite !Hl. by destruct (WalOps.id_through up _).
Qed.

Lemma recovery_alike capacity now clk manfs files fs fs' :
  alike fs fs' →
  (Rec.run_startup_recovery size_of_event capacity None now clk manfs files fs).1.1
  = (Rec.run_startup_recovery size_of_event capacity None now clk manfs files fs').1.1
  ∧ (Rec.run_startup_recovery size_of_event capacity None now clk manfs files fs).2
    = (Rec.run_startup_recovery size_of_event capacity None now clk manfs files fs').2.
Proof.
  intros H. unfold Rec.run_startup_recovery. destruct (Man.load _ _) as [manfs1 [om|e|]]; [|done..].
  set (last := m_last_sealed_wal_id _).
  rewrite (alike_unsealed (if 0 <? last then WalOps.delete_files_through fs last else fs)
    (if 0 <? last then WalOps.delete_files_through fs' last else fs')) by (destruct (0 <? last); [by apply alike_delete|done]).
  by destruct (Rec.replay_events _ _ _ _ _ _).
Qed.

(** Starting on a directory that replays like one at rest. *)
Lemma restart_alike cfg now clk st acked fs fs' :
  Sys.sys_inv st acked → Sys.rests st fs' → alike fs fs' →
  ∃ st', Rec.startup size_of_event cfg None None now clk (fe_manfs (as_env st)) (as_files st) fs = Ok st'
    ∧ pending st' = [] ∧ as_manifest st' = as_manifest st ∧ as_files st' = as_files st
    ∧ mt_events (as_memtable st') = Ing.buffered st.
Proof.
  intros Hi Hr Hal. destruct (Sys.recovery_rests size_of_event (dedupe_capacity cfg) now clk st acked fs' Hi Hr) as (d & m & fs2 & E & Hm & _).
  destruct (recovery_alike (dedupe_capacity cfg) now clk (fe_manfs (as_env st)) (as_files st) fs fs' Hal) as [E1 E2]. rewrite E in E1, E2.
  unfold Rec.startup. destruct (Rec.run_startup_recovery _ _ _ _ _ _ _ fs) as [[manfs fs3] r]. cbn [fst snd] in E1, E2. subst manfs r.
  cbn [rec_manifest rec_memtable rec_dedupe]. rewrite (proj2 (Z.eqb_neq _ _)) by apply (Sys.si_buckets _ _ Hi).
  cbn [mbind outcome_bind]. destruct (WalOps.open fs3 _) as [fs4 w]. eexists. split; [reflexivity|]. done.
Qed.

(** ** Crashes *)

(** What is left of the active file replays to its first events. *)
Lemma torn_active fs fs' a c es :
  wf_files fs !! WalOps.wal_filename a = Some c → WalOps.encode_lines es = Some c → Forall event_wf es → WalOps.crash_keeps fs fs' →
  ∃ kept lost, es = kept ++ lost ∧ WalOps.replay_file fs' a = kept
    ∧ (wf_files fs' !! WalOps.wal_filename a = None → kept = [])
    ∧ (wf_files fs' !! WalOps.wal_filename a = Some c → lost = []).
Proof.
  intros Hc He Hwf Hk. specialize (Hk (WalOps.wal_filename a)). rewrite Hc in Hk. unfold WalOps.replay_file.
  destruct (wf_files fs' !! WalOps.wal_filename a) as [c'|]; [|by exists [], es].
  destruct Hk as (n & -> & _). destruct (decide (take n c = c)) as [->|Hne].
  - exists es, []. rewrite app_nil_r. split; [done|]. split; [|done].
    rewrite <- (app_nil_r c), (WalOps.replay_encode es) by done. by rewrite app_nil_r.
  - destruct (WalOps.replay_torn es c n Hwf He) as [k Ek]. exists (take k es), (drop k es).
    split; [by rewrite take_drop|]. split; [done|]. split; [done|]. by intros [= ?].
Qed.

(** The directory with the active file cut after [kept], as the crash found
    it and as it left it. *)
Definition cut_before (fs fs' : WalFs) (s : gmap string nat) (name : string) (c : bytes) : WalFs :=
  MkWalFs (<[name := c]> (wf_files fs))
    (match wf_files fs' !! name with Some _ => <[name := length c]> s | None => delete name s end).

Definition cut_after (fs' : WalFs) (name : string) (c : bytes) : WalFs :=
  let files := match wf_files fs' !! name with Some _ => <[name := c]> (wf_files fs') | None => wf_files fs' end in
  MkWalFs files (length <$> files).

Lemma cut_crashed fs fs' s name c :
  agree name (wf_synced fs) s → WalOps.crash_keeps fs fs' →
  Sys.crashed (cut_before fs fs' s name c) (cut_after fs' name c).
Proof.
  intros Ha Hk. split; [|intros n; cbn; by rewrite lookup_fmap]. intros n. specialize (Hk n). cbn.
  destruct (decide (n = name)) as [->|Hn].
  - rewrite lookup_insert_eq. destruct (wf_files fs' !! name) as [c'|] eqn:E.
    + rewrite lookup_insert_eq. exists (length c). rewrite lookup_insert_eq, take_ge by done. done.
    + by rewrite E, lookup_delete_eq.
  - rewrite lookup_insert_ne by done.
    assert ((match wf_files fs' !! name with Some _ => <[name:=c]> (wf_files fs') | None => wf_files fs' end) !! n = wf_files fs' !! n) as ->
      by (destruct (wf_files fs' !! name); [by rewrite lookup_insert_ne|done]).
    assert ((match wf_files fs' !! name with Some _ => <[name:=length c]> s | None => delete name s end) !! n = wf_synced fs !! n) as ->.
    { destruct (wf_files fs' !! name); rewrite ?lookup_insert_ne, ?lookup_delete_ne by done; by apply Ha. }
    exact Hk.
Qed.

Lemma cut_alike fs' a kept c :
  WalOps.replay_file fs' a = kept → Forall event_wf kept → WalOps.encode_lines kept = Some c →
  alike fs' (cut_after fs' (WalOps.wal_filename a) c).
Proof.
  intros Hr Hwf He. unfold WalOps.replay_file in Hr. unfold cut_after.
  destruct (wf_files fs' !! WalOps.wal_filename a) as [c'|] eqn:E; [|by split]. split.
  - intros n. cbn. destruct (decide (n = WalOps.wal_filename a)) as [->|Hn]; [by rewrite E, lookup_insert_eq|].
    by rewrite lookup_insert_ne.
  - intros id. unfold WalOps.replay_file. cbn. destruct (decide (WalOps.wal_filename id = WalOps.wal_filename a)) as [->|Hn].
    + rewrite E, lookup_insert_eq, Hr, <- (app_nil_r c), (WalOps.replay_encode kept) by done. by rewrite app_nil_r.
    + by rewrite lookup_insert_ne.
Qed.

(** The state a crash amounts to: the log and the memtable without the lost
    events. *)
Definition cut_state (fs : WalFs) (events : list UsageEvent) (st : AppState) : AppState :=
  MkAppState (set_walfs fs (as_env st)) (as_wal st) (MkMemtable events 0 None) (as_dedupe st) (as_queue st)
    (as_sending st) (strict_mode (as_config st)).

Lemma cut_inv s st acked fs' :
  agree (wal_file (as_wal st)) (wf_synced (as_walfs st)) s → Sys.sys_inv (shadow s st) acked →
  WalOps.crash_keeps (as_walfs st) fs' →
  ∃ kept lost c, mt_events (as_memtable st) = kept ++ lost
    ∧ let st' := cut_state (cut_before (as_walfs st) fs' s (wal_file (as_wal st)) c) kept st in
      Sys.sys_inv st' (Flush.stored (as_files st') (m_raw_segments (as_manifest st')) ++ Ing.buffered st')
      ∧ alike fs' (cut_after fs' (wal_file (as_wal st)) c)
      ∧ (wf_files fs' = wf_files (as_walfs st) → lost = []).
Proof.
  intros Ha [(chunks & cur & es & Hl) Hman Hse Hbk Hsg _ Hack] Hk. destruct Hl as (Hd & Hq & Hm & Hf & Hb & Hlast).
  change (as_wal (shadow s st)) with (as_wal st) in *. set (a := active_id (as_wal st)) in *.
  assert ((a, es) ∈ mjoin chunks ++ cur ++ [(a, es)]) as Hin by (rewrite app_assoc; apply Sys.elem_of_snoc; by right).
  destruct (Sys.dir_log_file _ _ _ Hd Hin) as (c0 & Hc0 & He0). cbn [fst snd] in Hc0, He0.
  pose proof (Sys.dl_ids _ _ Hd) as Hi. rewrite Forall_forall in Hi. destruct (Hi _ Hin) as [_ Hwf]. cbn [snd] in Hwf.
  destruct (torn_active (as_walfs st) fs' a c0 es Hc0 He0 Hwf Hk) as (kept & lost & -> & Hr & Hnone & Hsome).
  apply Forall_app in Hwf as [Hwf _]. destruct (WalOps.encode_lines_total kept) as [c Hc]. rewrite Hf in *.
  exists (Sys.log_events cur ++ kept), lost, c.
  change (as_memtable (shadow s st)) with (as_memtable st) in Hm. rewrite Sys.log_events_app in Hm.
  unfold Sys.log_events in Hm at 2. cbn in Hm. rewrite app_nil_r in Hm. split; [by rewrite Hm, app_assoc|].
  cbv zeta. split; [|split].
  - split; try done. exists chunks, cur, kept. split; [|split; [done|split; [|split; [done|split; [done|]]]]].
    + rewrite app_assoc in Hd |- *. apply (Sys.dir_log_last (as_walfs (shadow s st)) _ _ a (kept ++ lost) kept c Hd Hwf Hc); cbn.
      * by rewrite lookup_insert_eq.
      * destruct (wf_files fs' !! WalOps.wal_filename a) as [c'|]; [by rewrite lookup_insert_eq|]. rewrite lookup_delete_eq.
        rewrite (Hnone eq_refl) in Hc. cbn in Hc. by injection Hc as <-.
      * intros n Hn. rewrite lookup_insert_ne by done. split; [done|].
        by destruct (wf_files fs' !! WalOps.wal_filename a); rewrite ?lookup_insert_ne, ?lookup_delete_ne by done.
    + rewrite Sys.log_events_app. unfold Sys.log_events at 3. cbn. by rewrite app_nil_r.
    + rewrite app_assoc, Forall_app, Forall_singleton in Hlast |- *. done.
  - by eapply cut_alike.
  - intros E. apply Hsome. by rewrite E.
Qed.

(** C5: Without a sync a crash loses the tail and no more: in fast mode, in
    every state reached from an empty database by requests, drains, sends to
    the flusher and flushes, without a failing call on a file, with drained
    messages sent in the order of their drains, new segment names, rows that
    fit the format and counters within u64, whatever a failure of the machine
    that keeps the segment files and the entries of synced files leaves of the
    log, a start succeeds; all stored events and those of all messages on
    their way to the flusher are there, of the memtable a first part in the
    order of acceptance is, and only the accepted events behind it are lost.
    When only the process dies, which leaves every byte the kernel was given,
    nothing is lost. *)
Theorem fast_crash_loses_tail cfg now clk st0 st acked fs' now' clk' :
  durability_mode cfg = Fast → default_bucket_count cfg ≠ 0 →
  Sys.fresh_start size_of_event cfg now clk = Ok st0 → rtc act (st0, []) (st, acked) → Sys.crashed (as_walfs st) fs' →
  ∃ st' kept lost,
    Rec.startup size_of_event (as_config st) None None now' clk' (fe_manfs (as_env st)) (as_files st) fs' = Ok st'
    ∧ mt_events (as_memtable st) = kept ++ lost
    ∧ mt_events (as_memtable st') = mjoin (fm_events <$> pending st) ++ kept
    ∧ acked ≡ₚ (Flush.stored (as_files st') (m_raw_segments (as_manifest st')) ++ mt_events (as_memtable st')) ++ lost
    ∧ (wf_files fs' = wf_files (as_walfs st) → lost = []).
Proof.
  intros Hmode Hb H0 Hr [Hk _]. pose proof (acts_inv _ _ Hr (fresh_fast cfg now clk st0 Hmode Hb H0)) as (_ & s & Ha & Hi).
  cbn [fst snd] in Ha, Hi. destruct (cut_inv s st acked fs' Ha Hi Hk) as (kept & lost & c & Hm & Hi' & Hal & Hfull).
  pose proof (Sys.crash_rests _ _ _ Hi' (cut_crashed _ fs' s _ c Ha Hk)) as Hrest.
  destruct (restart_alike (as_config st) now' clk' _ _ fs' _ Hi' Hrest Hal) as (st' & E & _ & Em & Ef & Hmt).
  exists st', kept, lost. split; [exact E|]. split; [done|]. split; [exact Hmt|]. split; [|done].
  rewrite (Sys.si_acked _ _ Hi), Em, Ef, Hmt. unfold Ing.buffered. change (pending (cut_state _ _ st)) with (pending st).
  change (pending (shadow s st)) with (pending st). cbn [cut_state as_memtable mt_events shadow].
  rewrite Hm. by rewrite !app_assoc.
Qed.
End unsynced.
End Unsynced.

(** A batch is acknowledged, and the machine fails with five bytes of it on
    disk. *)
Module UnsyncedExample.
#[local] Existing Instances poly_digest code_bincode stored_codecs poly_digest_ok code_bincode_ok stored_codecs_ok.
#[local] Existing Instances text_json text_json_ok Per.flat_calendar ManExample.text_manifest ManExample.text_manifest_ok.
#[local] Existing Instances Files.file_segments Files.file_segments_ok.

Definition cfg : Config := MkConfig 1000000 10 4 30 60000 60 30000 16 Fast 60000.
Definition st0 : AppState := match Sys.fresh_start 200 cfg 0 (λ _, 0) with Ok st => st | _ => SystemExample.dummy end.
Definition ingested := Ing.handle_ingest 200 no_faults 2000 IngestExample.clk st0 IngestExample.batch.
Definition st1 : AppState := ingested.1.
Definition acked : list UsageEvent := Ing.admitted st0 2000 IngestExample.batch.

Lemma fast_fresh_ok : Sys.fresh_start 200 cfg 0 (λ _, 0) = Ok st0.
Proof.
  assert (match Sys.fresh_start 200 cfg 0 (λ _, 0) with Ok _ => true | _ => false end = true) as E by (vm_compute; reflexivity).
  unfold st0. by destruct (Sys.fresh_start _ _ _ _).
Qed.

Lemma fast_ingested_ok : ingested = (st1, Ok (MkIngestResponse 1 1 1 1)).
Proof.
  assert (ingested.2 = Ok (MkIngestResponse 1 1 1 1)) as E by (vm_compute; reflexivity).
  unfold st1. by destruct ingested as [s r]; cbn in *; subst.
Qed.

Lemma ingest_act : Unsynced.act 200 (st0, []) (st1, acked).
Proof.
  apply (Unsynced.act_ingest 200 no_faults 2000 IngestExample.clk IngestExample.batch st0 st1 (MkIngestResponse 1 1 1 1) []).
  - exact fast_ingested_ok.
  - by vm_compute.
  - refine (bool_decide_unpack _ _). by vm_compute.
  - by vm_compute.
Qed.

Definition after : WalFs :=
  let files := alter (take 5) (WalOps.wal_filename 1) (wf_files (as_walfs st1)) in MkWalFs files (length <$> files).

Lemma machine_failed : Sys.crashed (as_walfs st1) after.
Proof.
  split; [|intros name; unfold after; cbn; by rewrite lookup_fmap].
  assert (wf_synced (as_walfs st1) !! WalOps.wal_filename 1 = None) as Hs by (vm_compute; reflexivity).
  intros name. unfold after. cbn [wf_files]. destruct (decide (name = WalOps.wal_filename 1)) as [->|Hn].
  - rewrite lookup_alter_eq, Hs. destruct (wf_files (as_walfs st1) !! WalOps.wal_filename 1); cbn; [|done].
    exists 5%nat. split; [done|]. cbn. lia.
  - rewrite lookup_alter_ne by done. apply (IngestExample.crash_keeps_all (as_walfs st1) name).
Qed.

Lemma fast_crash_loses_tail_witness :
  ∃ st' kept lost,
    Rec.startup 200 (as_config st1) None None 3000 (λ _, 3000) (fe_manfs (as_env st1)) (as_files st1) after = Ok st'
    ∧ mt_events (as_memtable st1) = kept ++ lost
    ∧ acked ≡ₚ (Flush.stored (as_files st') (m_raw_segments (as_manifest st')) ++ mt_events (as_memtable st')) ++ lost.
Proof.
  destruct (Unsynced.fast_crash_loses_tail 200 cfg 0 (λ _, 0) st0 st1 acked after 3000 (λ _, 3000))
    as (st' & kept & lost & E & Hm & _ & Ha & _).
  - reflexivity.
  - discriminate.
  - exact fast_fresh_ok.
  - exact (rtc_once _ _ ingest_act).
  - exact machine_failed.
  - exists st', kept, lost. split; [exact E|]. split; [exact Hm|exact Ha].
Defined.

(** The acknowledged event is gone in this case. *)
Lemma tail_lost :
  acked ≠ [] ∧ match Rec.startup 200 (as_config st1) None None 3000 (λ _, 3000) (fe_manfs (as_env st1)) (as_files st1) after with
               | Ok st' => mt_events (as_memtable st') = []
               | _ => False
               end.
Proof. vm_compute. split; [discriminate|reflexivity]. Qed.
End UnsyncedExample.
