(* ===== verification/Rollup.v ===== *)
(** * Hourly rollups

    The aggregation of [src/rollup/builder.rs] and [src/rollup/hourly.rs], the
    file format of [src/rollup/writer.rs] and [src/rollup/reader.rs], and
    [src/rollup/watermark.rs].

    The builder's [HashMap] is an association list in insertion order; the
    order in which [finalize] lists the rows is not specified by the code, and
    no statement below depends on it.  Row counts are exact: 2^64 rows do not
    fit any segment. *)

From Stdlib Require Import Ascii.
From stdpp Require Import sorting numbers strings base gmap list.
From S2P Require Import Prelude Model Instances Encoding Segment.

(** [serde_json::to_string] on the dimensions. *)
Class DimJson := dim_json : SmallDimensions → option string.

Record HourlyRollupKey := MkRollupKey {
  rk_account_id : string;
  rk_subscription_id : option string;
  rk_product_id : string;
  rk_meter_id : string;
  rk_model_id : option string;
  rk_source : string;
  rk_unit : string;
  rk_hour_start_ms : Z;
  rk_dimensions_canonical : string;
}.

#[export] Instance HourlyRollupKey_eq_dec : EqDecision HourlyRollupKey.
Proof. solve_decision. Defined.

Definition HOUR_MS : Z := 3600000.

(** Rust's [/] truncates towards zero. *)
Definition floor_hour (ts : Z) : Z := Z.quot ts HOUR_MS * HOUR_MS.

Definition HourlyRollupState : Type := list (HourlyRollupKey * HourlyRollupRecord).

Module Roll.
Section builder.
Context {DJ : DimJson}.

Definition event_key (e : UsageEvent) : HourlyRollupKey :=
  MkRollupKey (ev_account_id e) (ev_subscription_id e) (ev_product_id e) (ev_meter_id e)
    (ev_model_id e) (ev_source e) (ev_unit e) (floor_hour (ev_timestamp_ms e))
    (default "" (dim_json (ev_dimensions e))).

(** The record [or_insert] puts in for a new key. *)
Definition fresh_record (k : HourlyRollupKey) (ts : Z) : HourlyRollupRecord :=
  MkRollupRecord (rk_account_id k) (rk_subscription_id k) (rk_product_id k) (rk_meter_id k)
    (rk_model_id k) (rk_source k) (rk_unit k) (rk_hour_start_ms k) (rk_dimensions_canonical k)
    0 0 ts ts.

(** The updates behind [let entry = ...]. *)
Definition add_to_record (r : HourlyRollupRecord) (e : UsageEvent) : HourlyRollupRecord :=
  MkRollupRecord (rr_account_id r) (rr_subscription_id r) (rr_product_id r) (rr_meter_id r)
    (rr_model_id r) (rr_source r) (rr_unit r) (rr_hour_start_ms r) (rr_dimensions_canonical r)
    (sat_add_i128 (rr_quantity_sum r) (ev_quantity e))
    (rr_event_count r + 1)
    (if ev_timestamp_ms e <? rr_first_event_ms r then ev_timestamp_ms e else rr_first_event_ms r)
    (if rr_last_event_ms r <? ev_timestamp_ms e then ev_timestamp_ms e else rr_last_event_ms r).

Fixpoint update_entry (k : HourlyRollupKey) (e : UsageEvent) (st : HourlyRollupState) : HourlyRollupState :=
  match st with
  | [] => [(k, add_to_record (fresh_record k (ev_timestamp_ms e)) e)]
  | (k', r) :: st' =>
      if decide (k = k') then (k', add_to_record r e) :: st' else (k', r) :: update_entry k e st'
  end.

Definition process_event (st : HourlyRollupState) (e : UsageEvent) : HourlyRollupState :=
  update_entry (event_key e) e st.

Definition finalize (st : HourlyRollupState) : list HourlyRollupRecord := st.*2.

(** A builder fed with a batch. *)
Definition build (events : list UsageEvent) : HourlyRollupState := foldl process_event [] events.

(** ** The reference: one group of events, one row *)
Definition group_record (k : HourlyRollupKey) (es : list UsageEvent) : option HourlyRollupRecord :=
  match es with
  | [] => None
  | e :: _ => Some (foldl add_to_record (fresh_record k (ev_timestamp_ms e)) es)
  end.

Fixpoint assoc (k : HourlyRollupKey) (st : HourlyRollupState) : option HourlyRollupRecord :=
  match st with
  | [] => None
  | (k', r) :: st => if decide (k = k') then Some r else assoc k st
  end.

Definition record_key (r : HourlyRollupRecord) : HourlyRollupKey :=
  MkRollupKey (rr_account_id r) (rr_subscription_id r) (rr_product_id r) (rr_meter_id r)
    (rr_model_id r) (rr_source r) (rr_unit r) (rr_hour_start_ms r) (rr_dimensions_canonical r).

Lemma record_key_add r e : record_key (add_to_record r e) = record_key r.
Proof. done. Qed.

Lemma record_key_fresh k ts : record_key (fresh_record k ts) = k.
Proof. by destruct k. Qed.

Lemma assoc_update k e st k' :
  assoc k' (update_entry k e st)
  = if decide (k' = k)
    then Some (add_to_record (default (fresh_record k (ev_timestamp_ms e)) (assoc k st)) e)
    else assoc k' st.
Proof.
  induction st as [|[k1 r] st IH]; cbn.
  { destruct (decide (k' = k)); [done|]. done. }
  destruct (decide (k = k1)) as [<-|Hne]; cbn.
  - by destruct (decide (k' = k)).
  - rewrite IH. destruct (decide (k' = k1)) as [->|]; [|done].
    rewrite (decide_False (P := k1 = k)) by congruence. done.
Qed.

Definition state_wf (st : HourlyRollupState) : Prop :=
  NoDup st.*1 ∧ Forall (λ p, record_key p.2 = p.1) st.

Lemma update_entry_keys k e st : (update_entry k e st).*1 = if decide (k ∈ st.*1) then st.*1 else st.*1 ++ [k].
Proof.
  induction st as [|[k1 r] st IH]; [done|]. cbn. destruct (decide (k = k1)) as [<-|Hne]; cbn.
  - rewrite decide_True; [done|]. set_solver.
  - rewrite IH. destruct (decide (k ∈ st.*1)).
    + rewrite decide_True; [done|]. set_solver.
    + rewrite decide_False; [done|]. set_solver.
Qed.

Lemma update_entry_wf k e st : state_wf st → state_wf (update_entry k e st).
Proof.
  intros [Hnd Hk]. split.
  - rewrite update_entry_keys. case_decide; [done|]. apply NoDup_app. split; [done|].
    split; [|apply NoDup_singleton]. intros x Hx ->%list_elem_of_singleton. done.
  - clear Hnd. induction Hk as [|[k1 r] st Hr Hk IH]; cbn.
    + constructor; [|done]. cbn. by rewrite record_key_add, record_key_fresh.
    + destruct (decide (k = k1)); constructor; auto.
Qed.

Lemma build_fold_wf st es : state_wf st → state_wf (foldl process_event st es).
Proof. revert st. induction es; intros; cbn; [done|]. by apply IHes, update_entry_wf. Qed.

Lemma build_wf es : state_wf (build es).
Proof. apply build_fold_wf. split; constructor. Qed.

Lemma group_record_snoc k es e :
  group_record k (es ++ [e])
  = Some (add_to_record (default (fresh_record k (ev_timestamp_ms e)) (group_record k es)) e).
Proof. destruct es as [|e0 es]; cbn; [done|]. by rewrite foldl_snoc. Qed.

Lemma build_assoc es k :
  assoc k (build es) = group_record k (filter (λ e, event_key e = k) es).
Proof.
  unfold build. induction es as [|e es IH] using rev_ind; [done|].
  rewrite foldl_snoc, filter_app. unfold process_event at 1. rewrite assoc_update.
  destruct (decide (k = event_key e)) as [->|Hne].
  - rewrite (filter_cons_True _ e []) by done. rewrite filter_nil, group_record_snoc, IH. done.
  - rewrite (filter_cons_False _ e []) by congruence. by rewrite filter_nil, app_nil_r, IH.
Qed.

(** Every row stands for at least one event, of its key. *)
Lemma update_entry_rows (P : HourlyRollupRecord → Prop) k e st :
  (∀ r, P r → P (add_to_record r e)) → P (add_to_record (fresh_record k (ev_timestamp_ms e)) e) →
  Forall P st.*2 → Forall P (update_entry k e st).*2.
Proof.
  intros Hadd Hnew. induction st as [|[k' r] st IH]; cbn; intros Hs; [by constructor|].
  apply Forall_cons in Hs as [Hr Hs]. case_decide; cbn; constructor; auto.
Qed.

Lemma build_rows es :
  Forall (λ r, 1 ≤ rr_event_count r ∧ ∃ e, e ∈ es ∧ record_key r = event_key e) (finalize (build es)).
Proof.
  unfold build. induction es as [|e es IH] using rev_ind; [constructor|]. rewrite foldl_snoc.
  apply update_entry_rows.
  - intros r (Hc & e' & He' & Hk). split; [cbn; lia|]. exists e'. by rewrite record_key_add.
  - split; [done|]. exists e. rewrite record_key_add, record_key_fresh. split; [|done].
    apply elem_of_app. right. by left.
  - eapply Forall_impl; [exact IH|]. intros r (Hc & e' & He' & Hk). split; [done|]. exists e'.
    split; [|done]. apply elem_of_app. by left.
Qed.

(** ** Sums *)
Definition abs_total (es : list UsageEvent) : Z := sumZ (λ e, Z.abs (ev_quantity e)) es.

Definition abs_state (st : HourlyRollupState) : Z := sumZ (λ p, Z.abs (rr_quantity_sum p.2)) st.

Lemma sumZ_nonneg {A} (f : A → Z) l : (∀ x, 0 ≤ f x) → 0 ≤ sumZ f l.
Proof. intros H. induction l as [|x l IH]; [done|]. rewrite sumZ_cons. specialize (H x). lia. Qed.

(** A sum over the rows that depends only on the row's key. *)
Definition row_sum (f : HourlyRollupKey → bool) (st : HourlyRollupState) : Z :=
  sumZ (λ p, if f p.1 then rr_quantity_sum p.2 else 0) st.
Definition row_count (f : HourlyRollupKey → bool) (st : HourlyRollupState) : Z :=
  sumZ (λ p, if f p.1 then rr_event_count p.2 else 0) st.

Lemma sat_add_small a b : Z.abs a + Z.abs b ≤ i128_max → sat_add_i128 a b = a + b.
Proof. intros H. apply sat_add_i128_exact. unfold i128_max, i128_min in *. lia. Qed.

Lemma update_entry_sums (f : HourlyRollupKey → bool) k e st :
  abs_state st + Z.abs (ev_quantity e) ≤ i128_max →
  row_sum f (update_entry k e st) = row_sum f st + (if f k then ev_quantity e else 0)
  ∧ row_count f (update_entry k e st) = row_count f st + (if f k then 1 else 0)
  ∧ abs_state (update_entry k e st) ≤ abs_state st + Z.abs (ev_quantity e).
Proof.
  unfold abs_state, row_sum, row_count. induction st as [|[k1 r] st IH]; intros Hb; cbn [update_entry].
  - rewrite sumZ_nil in Hb. rewrite !sumZ_cons, !sumZ_nil. cbn [fst snd].
    change (rr_quantity_sum (add_to_record _ e)) with (sat_add_i128 0 (ev_quantity e)).
    change (rr_event_count (add_to_record _ e)) with (0 + 1).
    rewrite sat_add_small by lia. destruct (f k); lia.
  - rewrite sumZ_cons in Hb. cbn [snd] in Hb.
    assert (0 ≤ sumZ (λ p : HourlyRollupKey * HourlyRollupRecord, Z.abs (rr_quantity_sum p.2)) st)
      by (apply sumZ_nonneg; intros; lia).
    destruct (decide (k = k1)) as [<-|Hne]; rewrite !sumZ_cons; cbn [fst snd].
    + change (rr_quantity_sum (add_to_record r e)) with (sat_add_i128 (rr_quantity_sum r) (ev_quantity e)).
      change (rr_event_count (add_to_record r e)) with (rr_event_count r + 1).
      rewrite sat_add_small by lia. destruct (f k); lia.
    + destruct IH as (I1 & I2 & I3); [lia|]. rewrite I1, I2. lia.
Qed.

Lemma build_sums (f : HourlyRollupKey → bool) es :
  abs_total es ≤ i128_max →
  row_sum f (build es) = sumZ (λ e, if f (event_key e) then ev_quantity e else 0) es
  ∧ row_count f (build es) = sumZ (λ e, if f (event_key e) then 1 else 0) es
  ∧ abs_state (build es) ≤ abs_total es.
Proof.
  unfold build. induction es as [|e es IH] using rev_ind; [done|]. intros Hb. unfold abs_total in *.
  rewrite sumZ_app, sumZ_cons, sumZ_nil in Hb.
  destruct IH as (I1 & I2 & I3); [lia|].
  rewrite foldl_snoc. destruct (update_entry_sums f (event_key e) e (foldl process_event [] es)) as (U1 & U2 & U3);
    [lia|]. unfold process_event at 1 3 5. rewrite U1, U2, !sumZ_app, !sumZ_cons, I1, I2, !sumZ_nil.
  split_and!; lia.
Qed.

Lemma finalize_sum (g : HourlyRollupRecord → Z) (f : HourlyRollupKey → bool) st :
  Forall (λ p, record_key p.2 = p.1) st →
  sumZ (λ r, if f (record_key r) then g r else 0) (finalize st) = sumZ (λ p, if f p.1 then g p.2 else 0) st.
Proof.
  intros H. unfold finalize. rewrite sumZ_fmap. apply sumZ_ext. intros p Hp. cbn.
  rewrite Forall_forall in H. by rewrite (H p Hp).
Qed.

Lemma finalize_sums (f : HourlyRollupKey → bool) es :
  abs_total es ≤ i128_max →
  sumZ (λ r, if f (record_key r) then rr_quantity_sum r else 0) (finalize (build es))
  = sumZ (λ e, if f (event_key e) then ev_quantity e else 0) es
  ∧ sumZ (λ r, if f (record_key r) then rr_event_count r else 0) (finalize (build es))
    = sumZ (λ e, if f (event_key e) then 1 else 0) es.
Proof.
  intros Hb. destruct (build_sums f es Hb) as (S1 & S2 & _). destruct (build_wf es) as [_ Hk].
  rewrite !finalize_sum by done. done.
Qed.

(** Saturation never enlarges a row. *)
Lemma sat_add_abs a b : Z.abs (sat_add_i128 a b) ≤ Z.abs a + Z.abs b.
Proof. unfold sat_add_i128, i128_min, i128_max. lia. Qed.

Lemma update_entry_abs (f : HourlyRollupKey → bool) k e st :
  sumZ (λ p, if f p.1 then Z.abs (rr_quantity_sum p.2) else 0) (update_entry k e st)
  ≤ sumZ (λ p, if f p.1 then Z.abs (rr_quantity_sum p.2) else 0) st + (if f k then Z.abs (ev_quantity e) else 0).
Proof.
  induction st as [|[k1 r] st IH]; cbn [update_entry].
  - rewrite sumZ_cons, sumZ_nil. cbn [fst snd add_to_record fresh_record rr_quantity_sum].
    pose proof (sat_add_abs 0 (ev_quantity e)). destruct (f k); lia.
  - destruct (decide (k = k1)) as [<-|]; rewrite !sumZ_cons; cbn [fst snd]; [|lia].
    cbn [add_to_record rr_quantity_sum]. pose proof (sat_add_abs (rr_quantity_sum r) (ev_quantity e)).
    destruct (f k); lia.
Qed.

(** The rows of a batch are no larger than the batch. *)
Lemma finalize_abs (f : HourlyRollupKey → bool) es :
  sumZ (λ r, if f (record_key r) then Z.abs (rr_quantity_sum r) else 0) (finalize (build es))
  ≤ sumZ (λ e, if f (event_key e) then Z.abs (ev_quantity e) else 0) es.
Proof.
  destruct (build_wf es) as [_ Hk]. rewrite (finalize_sum (λ r, Z.abs (rr_quantity_sum r))) by done. clear Hk.
  unfold build. induction es as [|e es IH] using rev_ind; [done|].
  rewrite foldl_snoc, sumZ_app, sumZ_cons, sumZ_nil. unfold process_event at 1.
  etrans; [apply update_entry_abs|]. lia.
Qed.

(** ** The row of a group of events, written out *)

(** Events of one account, subscription, product, meter, model, source, unit
    and hour with the same text of their dimensions. *)
Definition dimensions_text (e : UsageEvent) : string := default "" (dim_json (ev_dimensions e)).

Definition same_row (e e' : UsageEvent) : Prop :=
  ev_account_id e' = ev_account_id e ∧ ev_subscription_id e' = ev_subscription_id e
  ∧ ev_product_id e' = ev_product_id e ∧ ev_meter_id e' = ev_meter_id e ∧ ev_model_id e' = ev_model_id e
  ∧ ev_source e' = ev_source e ∧ ev_unit e' = ev_unit e
  ∧ Z.quot (ev_timestamp_ms e') 3600000 = Z.quot (ev_timestamp_ms e) 3600000
  ∧ dimensions_text e' = dimensions_text e.

#[global] Instance same_row_dec e e' : Decision (same_row e e').
Proof. unfold same_row. apply _. Defined.

Definition row_of (e : UsageEvent) (g : list UsageEvent) : HourlyRollupRecord :=
  MkRollupRecord (ev_account_id e) (ev_subscription_id e) (ev_product_id e) (ev_meter_id e) (ev_model_id e)
    (ev_source e) (ev_unit e) (3600000 * Z.quot (ev_timestamp_ms e) 3600000) (dimensions_text e)
    (sumZ ev_quantity g) (Z.of_nat (length g))
    (foldr Z.min (ev_timestamp_ms e) (ev_timestamp_ms <$> g)) (foldr Z.max (ev_timestamp_ms e) (ev_timestamp_ms <$> g)).

Lemma same_row_key e e' : event_key e' = event_key e ↔ same_row e e'.
Proof.
  unfold event_key, same_row, dimensions_text, floor_hour, HOUR_MS. split.
  - intros E. injection E as E1 E2 E3 E4 E5 E6 E7 E8 E9. split_and!; try done. lia.
  - intros (-> & -> & -> & -> & -> & -> & -> & -> & ->). done.
Qed.

(** Adding the events of a group to a record, field by field. *)
Lemma add_group r g :
  Z.abs (rr_quantity_sum r) + abs_total g ≤ i128_max →
  foldl add_to_record r g
  = MkRollupRecord (rr_account_id r) (rr_subscription_id r) (rr_product_id r) (rr_meter_id r)
      (rr_model_id r) (rr_source r) (rr_unit r) (rr_hour_start_ms r) (rr_dimensions_canonical r)
      (rr_quantity_sum r + sumZ ev_quantity g) (rr_event_count r + Z.of_nat (length g))
      (foldr Z.min (rr_first_event_ms r) (ev_timestamp_ms <$> g)) (foldr Z.max (rr_last_event_ms r) (ev_timestamp_ms <$> g)).
Proof.
  unfold abs_total. revert r. induction g as [|e g IH]; intros r Hb.
  { cbn [foldl fmap list_fmap foldr length Z.of_nat]. rewrite sumZ_nil, !Z.add_0_r. by destruct r. }
  rewrite sumZ_cons in Hb. pose proof (sumZ_nonneg (λ e, Z.abs (ev_quantity e)) g ltac:(lia)).
  assert (sat_add_i128 (rr_quantity_sum r) (ev_quantity e) = rr_quantity_sum r + ev_quantity e) as Hs
    by (apply sat_add_small; lia).
  cbn [foldl]. rewrite IH; unfold add_to_record; cbn [rr_account_id rr_subscription_id rr_product_id rr_meter_id rr_model_id
    rr_source rr_unit rr_hour_start_ms rr_dimensions_canonical rr_quantity_sum rr_event_count rr_first_event_ms
    rr_last_event_ms]; rewrite Hs; [|lia].
  assert (∀ f : Z → Z → Z, (∀ a b c, f a (f b c) = f b (f a c)) → ∀ x z (l : list Z), foldr f (f x z) l = f x (foldr f z l)) as Hf.
  { intros f Hc x z l. induction l as [|y l IHl]; [done|]. cbn. by rewrite IHl, Hc. }
  rewrite fmap_cons, sumZ_cons, length_cons. cbn [foldr]. rewrite <- (Hf Z.min) by lia. rewrite <- (Hf Z.max) by lia.
  f_equal; [lia|lia| |]; f_equal; destruct (Z.ltb_spec (ev_timestamp_ms e) (rr_first_event_ms r)),
    (Z.ltb_spec (rr_last_event_ms r) (ev_timestamp_ms e)); lia.
Qed.

(** The start value of a minimum or maximum may be any member. *)
Lemma fold_member (f : Z → Z → Z) (x y : Z) (l : list Z) :
  (∀ a b c, f a (f b c) = f b (f a c)) → (∀ a b, f a (f a b) = f a b) → (∀ a b, f a b = f b a) →
  x ∈ l → y ∈ l → foldr f x l = foldr f y l.
Proof.
  intros Hc Hi Hs.
  assert (∀ x z (l : list Z), foldr f (f x z) l = f x (foldr f z l)) as Hf.
  { intros a z k. induction k as [|b k IH]; [done|]. cbn. by rewrite IH, Hc. }
  assert (∀ x z (l : list Z), x ∈ l → f x (foldr f z l) = foldr f z l) as Hm.
  { intros a z k. induction k as [|b k IH]; [by intros ?%not_elem_of_nil|].
    intros [->|Hin]%elem_of_cons; cbn; [apply Hi|]. by rewrite Hc, IH. }
  intros Hx Hy. rewrite <- (Hm y x l Hy), <- (Hf y x l), Hs, Hf. by apply Hm.
Qed.

Lemma group_record_row e g :
  abs_total g ≤ i128_max → e ∈ g → Forall (same_row e) g → group_record (event_key e) g = Some (row_of e g).
Proof.
  intros Hb He Hg. destruct g as [|e0 g]; [by apply not_elem_of_nil in He|]. unfold group_record.
  set (g' := e0 :: g) in *. assert (ev_timestamp_ms e0 ∈ ev_timestamp_ms <$> g') as H0 by by left.
  assert (ev_timestamp_ms e ∈ ev_timestamp_ms <$> g') as H1 by by apply list_elem_of_fmap_2.
  rewrite add_group by (cbn [fresh_record rr_quantity_sum Z.abs]; lia). cbn [fresh_record event_key rr_account_id rr_subscription_id rr_product_id rr_meter_id rr_model_id
    rr_source rr_unit rr_hour_start_ms rr_dimensions_canonical rr_quantity_sum rr_event_count rr_first_event_ms
    rr_last_event_ms rk_account_id rk_subscription_id rk_product_id rk_meter_id rk_model_id rk_source rk_unit
    rk_hour_start_ms rk_dimensions_canonical].
  unfold row_of, dimensions_text, floor_hour, HOUR_MS. do 2 f_equal.
  - lia.
  - apply fold_member; try done; lia.
  - apply fold_member; try done; lia.
Qed.

Lemma abs_total_filter (P : UsageEvent → Prop) `{!∀ e, Decision (P e)} es : abs_total (filter P es) ≤ abs_total es.
Proof.
  unfold abs_total. induction es as [|e es IH]; [done|]. rewrite filter_cons, sumZ_cons.
  case_decide; rewrite ?sumZ_cons; lia.
Qed.

Lemma assoc_elem st k r : NoDup st.*1 → assoc k st = Some r ↔ (k, r) ∈ st.
Proof.
  induction st as [|[k' r'] st IH]; cbn [assoc fmap list_fmap fst].
  { intros _. split; [done|by intros ?%not_elem_of_nil]. }
  intros [Hn Hnd]%NoDup_cons. rewrite elem_of_cons. destruct (decide (k = k')) as [->|Hne].
  - split; [intros [= ->]; by left|]. intros [[= ->]|Hin]; [done|]. destruct Hn.
    apply list_elem_of_fmap. by exists (k', r).
  - rewrite IH by done. split; [by right|]. intros [[= -> _]|?]; done.
Qed.

Lemma build_row es r :
  abs_total es ≤ i128_max →
  r ∈ finalize (build es) ↔ ∃ e, e ∈ es ∧ r = row_of e (filter (same_row e) es).
Proof.
  intros Hb. destruct (build_wf es) as [Hnd _].
  assert (∀ e, e ∈ es → assoc (event_key e) (build es) = Some (row_of e (filter (same_row e) es))) as Hrow.
  { intros e He. rewrite build_assoc.
    rewrite (list_filter_iff (λ e', event_key e' = event_key e) (same_row e)) by (intros; apply same_row_key).
    apply group_record_row; [pose proof (abs_total_filter (same_row e) es); lia| |].
    - apply list_elem_of_filter. split; [by apply same_row_key|done].
    - apply Forall_forall. by intros e' [? _]%list_elem_of_filter. }
  split.
  - intros ([k r'] & -> & Hin)%list_elem_of_fmap. apply assoc_elem in Hin; [|done]. cbn [snd].
    assert (∃ e, e ∈ es ∧ k = event_key e) as (e & He & ->).
    { rewrite build_assoc in Hin. destruct (filter (λ e, event_key e = k) es) as [|e g] eqn:Eg; [done|].
      exists e. assert (e ∈ filter (λ e, event_key e = k) es) as [Hk He]%list_elem_of_filter by (rewrite Eg; by left). done. }
    exists e. split; [done|]. rewrite Hrow in Hin by done. by injection Hin.
  - intros (e & He & ->). apply list_elem_of_fmap. exists (event_key e, row_of e (filter (same_row e) es)).
    split; [done|]. apply assoc_elem; auto.
Qed.
End builder.

(** ** The file format *)
Inductive rseg_error :=
| RsegSerialize | RsegChecksum (stored computed : Z) | RsegTruncatedLength
| RsegTruncatedPayload | RsegDeserialize.

Record RollupSegmentReader := MkRollupReader {
  rrd_records : list HourlyRollupRecord;
  rrd_cursor : nat;
}.

Section format.
Context {BL : Blake3} {BN : Bincode}.

Definition write_record (buf : bytes) (record : HourlyRollupRecord) : outcome rseg_error bytes :=
  data ← ok_or RsegSerialize (bser BRollup record);
  Ok (buf ++ le_bytes 4 (wrapu 32 (Z.of_nat (length data))) ++ data).

Fixpoint write_records (buf : bytes) (records : list HourlyRollupRecord) : outcome rseg_error bytes :=
  match records with
  | [] => Ok buf
  | r :: records => buf ← write_record buf r; write_records buf records
  end.

(** [new], [write_record] for each row, [finish]: the file, the row count and
    the checksum of the file. *)
Definition write_rollup_file (records : list HourlyRollupRecord) : outcome rseg_error (bytes * Z * Z) :=
  buf ← write_records [] records;
  Ok (buf, Z.of_nat (length records), checksum buf).

(** The decoding loop on what is left of the file.  A turn consumes at least
    the four length bytes, so the length is enough fuel. *)
Fixpoint decode_records (fuel : nat) (l : bytes) : outcome rseg_error (list HourlyRollupRecord) :=
  match l with
  | [] => Ok []
  | _ =>
      match fuel with
      | O => Panic
      | S fuel =>
          _ ← guard_err (negb (length l <? 4)%nat) RsegTruncatedLength;
          let len := Z.to_nat (le_value (take 4 l)) in
          let l := drop 4 l in
          _ ← guard_err (negb (length l <? len)%nat) RsegTruncatedPayload;
          record ← ok_or RsegDeserialize (bde BRollup (take len l));
          rest ← decode_records fuel (drop len l);
          Ok (record :: rest)
      end
  end.

Definition rollup_open (bs : bytes) (expected_checksum : Z) : outcome rseg_error RollupSegmentReader :=
  let computed := checksum bs in
  _ ← guard_err (computed =? expected_checksum) (RsegChecksum expected_checksum computed);
  records ← decode_records (length bs) bs;
  Ok (MkRollupReader records 0).

Definition rollup_read_next (r : RollupSegmentReader) : option (HourlyRollupRecord * RollupSegmentReader) :=
  x ← rrd_records r !! rrd_cursor r;
  Some (x, MkRollupReader (rrd_records r) (S (rrd_cursor r))).

Definition into_records (r : RollupSegmentReader) : list HourlyRollupRecord := rrd_records r.

Lemma decode_records_no_panic fuel l : (length l ≤ fuel)%nat → decode_records fuel l ≠ Panic.
Proof.
  revert l. induction fuel as [|fuel IH]; intros l Hl; [destruct l; [done|cbn in Hl; lia]|].
  destruct l as [|b l]; [done|]. cbn [decode_records]. unfold guard_err, ok_or.
  destruct (Nat.ltb_spec (length (b :: l)) 4); cbn [negb mbind outcome_bind]; [done|].
  destruct (length (drop 4 (b :: l)) <? _)%nat; cbn [negb mbind outcome_bind]; [done|].
  destruct (bde BRollup _) as [r|]; cbn [mbind outcome_bind]; [|done].
  match goal with |- context [decode_records fuel ?x] => pose proof (IH x) as Hx; destruct (decode_records fuel x) end;
    cbn; try done.
  exfalso. apply Hx; [|done]. rewrite !length_drop. cbn [length] in *. lia.
Qed.

Context {BLok : Blake3Ok} {BNok : BincodeOk}.

(** A row as it lies in the file. *)
Definition row_entry (r : HourlyRollupRecord) (data : bytes) : Prop :=
  bser BRollup r = Some data ∧ bde BRollup data = Some r ∧ Z.of_nat (length data) < 2 ^ 32.

Definition entry_bytes (data : bytes) : bytes := le_bytes 4 (wrapu 32 (Z.of_nat (length data))) ++ data.

Lemma write_records_entries buf records datas :
  Forall2 row_entry records datas → write_records buf records = Ok (buf ++ mjoin (entry_bytes <$> datas)).
Proof.
  intros H. revert buf. induction H as [|r data records datas (E & _ & _) _ IH]; intros buf; cbn [write_records].
  { cbn. by rewrite app_nil_r. }
  unfold write_record. rewrite E. cbn [ok_or mbind outcome_bind]. rewrite IH, fmap_cons.
  change (mjoin (?x :: ?l)) with (x ++ mjoin l). unfold entry_bytes at 2. by rewrite <- !app_assoc.
Qed.

Lemma decode_records_entries fuel records datas :
  Forall2 row_entry records datas → (length (mjoin (entry_bytes <$> datas)) ≤ fuel)%nat →
  decode_records fuel (mjoin (entry_bytes <$> datas)) = Ok records.
Proof.
  intros H. revert fuel. induction H as [|r data records datas (E & D & Hl) _ IH]; intros fuel Hf.
  { by destruct fuel. }
  rewrite fmap_cons in *. change (mjoin (?x :: ?l)) with (x ++ mjoin l) in *.
  change (entry_bytes data) with (le_bytes 4 (wrapu 32 (Z.of_nat (length data))) ++ data) in *.
  rewrite wrapu_small in * by (unfold inu; lia).
  rewrite <- app_assoc in *. set (hd := le_bytes 4 (Z.of_nat (length data))) in *.
  assert (length hd = 4%nat) as Hhd by apply length_le_bytes.
  set (rest := mjoin (entry_bytes <$> datas)) in *. rewrite !length_app, Hhd in Hf.
  destruct fuel as [|fuel]; [lia|].
  assert (∃ b l, hd ++ data ++ rest = b :: l) as (b & l & El).
  { destruct hd as [|b l]; [done|]. eexists _, _. done. }
  cbn [decode_records]. rewrite El. rewrite <- El. clear b l El.
  destruct (Nat.ltb_spec (length (hd ++ data ++ rest)) 4) as [Hlt|_].
  { rewrite !length_app in Hlt. lia. }
  cbn [negb guard_err mbind outcome_bind].
  rewrite (take_app_length' hd), (drop_app_length' hd) by done.
  unfold hd. rewrite le_value_le_bytes by (unfold inu; cbn; lia). rewrite Nat2Z.id.
  destruct (Nat.ltb_spec (length (data ++ rest)) (length data)) as [Hlt|_].
  { rewrite length_app in Hlt. lia. }
  cbn [negb guard_err mbind outcome_bind]. rewrite take_app_length, drop_app_length, D.
  cbn [ok_or mbind outcome_bind]. rewrite IH by lia. done.
Qed.

(** Rows that can be written: values of their types, each below 4 GiB. *)
Definition row_fits (r : HourlyRollupRecord) : Prop :=
  record_wf r ∧ ∀ data, bser BRollup r = Some data → Z.of_nat (length data) < 2 ^ 32.

Lemma rows_entries records : Forall row_fits records → ∃ datas, Forall2 row_entry records datas.
Proof.
  induction 1 as [|r records [Hwf Hl] _ [datas IH]]; [by exists []|].
  destruct (bde_bser BRollup r Hwf) as (data & E & D). exists (data :: datas).
  constructor; [|done]. split; [done|]. split; [done|]. by apply Hl.
Qed.

Lemma rollup_write_open records :
  Forall row_fits records →
  ∃ bs cs, write_rollup_file records = Ok (bs, Z.of_nat (length records), cs)
    ∧ rollup_open bs cs = Ok (MkRollupReader records 0).
Proof.
  intros H. destruct (rows_entries records H) as (datas & Hd).
  unfold write_rollup_file. rewrite (write_records_entries [] _ _ Hd). cbn [app mbind outcome_bind].
  eexists _, _. split; [reflexivity|]. unfold rollup_open. rewrite Z.eqb_refl.
  cbn [guard_err mbind outcome_bind]. by rewrite (decode_records_entries _ records datas).
Qed.
End format.

(** ** [watermark.rs] *)
Record WatermarkTracker := MkTracker { wt_watermarks : gmap string Z }.

Definition update_watermark (t : WatermarkTracker) (partition : string) (watermark_ms : Z) : WatermarkTracker :=
  MkTracker (<[partition := watermark_ms]> (wt_watermarks t)).

Definition get_watermark (t : WatermarkTracker) (partition : string) : option Z :=
  wt_watermarks t !! partition.

(** ** What rollups promise *)

(** C35: what the rollup builder computes, whatever order the events come in:
    there is exactly one row for every combination of account, subscription,
    product, meter, model, source, unit, hour and text of the dimensions that
    some event has; the row carries these nine values, its quantity is the sum and
    its count the number of the events with that combination, its first and
    last times the earliest and latest of their timestamps; and there are no
    other rows. Hypothesis: the absolute quantities of the batch add up to at
    most the largest i128, so that no saturating addition saturates. *)
Theorem rollup_rows_exact {DJ : DimJson} (es : list UsageEvent) :
  sumZ (λ e, Z.abs (ev_quantity e)) es ≤ i128_max →
  (∀ r, r ∈ finalize (build es) ↔ ∃ e, e ∈ es ∧ r = row_of e (filter (same_row e) es))
  ∧ NoDup (record_key <$> finalize (build es)).
Proof.
  intros Hb. split; [intros r; by apply build_row|]. destruct (build_wf es) as [Hnd Hk]. unfold finalize.
  replace (record_key <$> (build es).*2) with (build es).*1; [done|].
  rewrite <- list_fmap_compose. apply list_fmap_ext. intros i p Hp. cbn.
  symmetry. by apply (Forall_lookup_1 _ _ _ _ Hk Hp).
Qed.

(** Rolling up preserves totals: for any selection by the key columns
    (account, product, meter, model, source, unit, subscription, hour,
    dimensions), the quantities and the event counts of the selected rows add
    up to those of the selected events, as long as the absolute quantities
    together stay within i128. *)
Theorem rollup_preserves_totals {DJ : DimJson} (es : list UsageEvent) (sel : HourlyRollupKey → bool) :
  abs_total es ≤ i128_max →
  sumZ (λ r, if sel (record_key r) then rr_quantity_sum r else 0) (finalize (build es))
  = sumZ (λ e, if sel (event_key e) then ev_quantity e else 0) es
  ∧ sumZ (λ r, if sel (record_key r) then rr_event_count r else 0) (finalize (build es))
    = sumZ (λ e, if sel (event_key e) then 1 else 0) es.
Proof. apply finalize_sums. Qed.

(** A rollup file opened with the checksum its writer returned yields the
    rows that were written; opened with any other checksum it is refused; and
    no contents make the decoder panic or loop. *)
Theorem rollup_file_roundtrip {BL : Blake3} {BN : Bincode} {BLok : Blake3Ok} {BNok : BincodeOk} records :
  Forall row_fits records →
  (∃ bs cs, write_rollup_file records = Ok (bs, Z.of_nat (length records), cs)
     ∧ rollup_open bs cs = Ok (MkRollupReader records 0)
     ∧ ∀ cs', cs' ≠ cs → rollup_open bs cs' = Err (RsegChecksum cs' cs))
  ∧ ∀ bs cs, rollup_open bs cs ≠ Panic.
Proof.
  intros H. split.
  - destruct (rollup_write_open records H) as (bs & cs & E1 & E2). exists bs, cs. split; [done|].
    split; [done|]. intros cs' Hne. unfold write_rollup_file in E1. outcome_inv. simplify_eq.
    unfold rollup_open. rewrite (proj2 (Z.eqb_neq _ _)) by congruence. done.
  - intros bs cs. unfold rollup_open, guard_err. destruct (_ =? cs); cbn [mbind outcome_bind]; [|done].
    pose proof (decode_records_no_panic (length bs) bs ltac:(lia)).
    by destruct (decode_records (length bs) bs).
Qed.

(** ** Witnesses *)
Definition plain_dims : DimJson := λ d, Some "{}".

Definition two : list UsageEvent :=
  [sample_event "a" "acct_1" 3600001 5; sample_event "b" "acct_1" 3700000 (-7)].

(** Two events of one key: the sum, the count, the first and the last time. *)
Lemma rollup_rows_exact_witness :
  @row_of plain_dims (sample_event "b" "acct_1" 3700000 (-7)) two ∈ finalize (@build plain_dims two)
  ∧ rr_quantity_sum (@row_of plain_dims (sample_event "b" "acct_1" 3700000 (-7)) two) = -2
  ∧ rr_first_event_ms (@row_of plain_dims (sample_event "b" "acct_1" 3700000 (-7)) two) = 3600001.
Proof.
  split; [|split; reflexivity].
  apply (proj1 (@rollup_rows_exact plain_dims two ltac:(by vm_compute))).
  exists (sample_event "b" "acct_1" 3700000 (-7)). split; [right; left|vm_compute; reflexivity].
Defined.

Lemma rollup_preserves_totals_witness :
  sumZ rr_quantity_sum (finalize (@build plain_dims two)) = -2
  ∧ length (finalize (@build plain_dims two)) = 1%nat.
Proof.
  split; [|by vm_compute].
  destruct (@rollup_preserves_totals plain_dims two (λ _, true)) as [H _]; [by vm_compute|].
  exact H.
Defined.

Lemma rollup_file_roundtrip_witness :
  ∃ bs cs, @write_rollup_file poly_digest code_bincode (finalize (@build plain_dims two)) = Ok (bs, 1, cs)
    ∧ @rollup_open poly_digest code_bincode bs cs = Ok (MkRollupReader (finalize (@build plain_dims two)) 0).
Proof.
  destruct (@rollup_file_roundtrip poly_digest code_bincode poly_digest_ok code_bincode_ok
              (finalize (@build plain_dims two))) as [(bs & cs & E1 & E2 & _) _].
  - apply Forall_singleton. split; [by vm_compute|]. intros data E. vm_compute in E. by injection E as <-.
  - exists bs, cs. split; [exact E1|exact E2].
Defined.
End Roll.
