(* ===== verification/RollupWorker.v ===== *)
(** * The rollup worker

    [src/rollup/worker.rs]: each tick rolls the hours between the watermark and
    a safe target up into one rollup segment per hour and bucket, and commits
    the segments with the new watermark in one manifest save. *)

From Stdlib Require Import Ascii.
From stdpp Require Import sorting numbers strings base gmap list.
From S2P Require Import Prelude Model Instances Encoding Segment SegmentSpec DedupeIndex SegmentApi.
From S2P Require Import Memtable Dedupe Wal Manifest Flusher State Rollup.

Record RollupTickStats := MkTickStats {
  segments_written : nat;
  watermark_ms : Z;
  hours_processed : nat;
  forced_flush : bool;
  skipped_for_in_flight : bool;
}.

Inductive tick_error := TickRead (e : seg_error) | TickWrite | TickSave | TickRotate (e : io_error).

(** A failed write of a rollup file: the file was not created, or holds only
    its first bytes. *)
Inductive rw_fault := RFaultCreate | RFaultWrite (n : nat).

Definition rseg_path (segment_id : string) : string := segment_id +:+ ".rseg".

Module RW.
(** ** [build_rollup_segment_meta] *)
Record rmeta_acc := MkRmetaAcc {
  ra_product_ids : gset string;
  ra_meter_ids : gset string;
  ra_model_ids : gset string;
  ra_min_account : option string;
  ra_max_account : option string;
  ra_quantity_sum : Z;
}.

Definition rmeta_step (a : rmeta_acc) (r : HourlyRollupRecord) : rmeta_acc :=
  MkRmetaAcc
    ({[rr_product_id r]} ∪ ra_product_ids a)
    ({[rr_meter_id r]} ∪ ra_meter_ids a)
    (match rr_model_id r with Some m => {[m]} ∪ ra_model_ids a | None => ra_model_ids a end)
    (min_string (ra_min_account a) (rr_account_id r))
    (max_string (ra_max_account a) (rr_account_id r))
    (sat_add_i128 (ra_quantity_sum a) (rr_quantity_sum r)).

Definition build_rollup_segment_meta (segment_id : string) (records : list HourlyRollupRecord)
    (bucket cs min_ts max_ts row_count : Z) (input_segment_ids : list string) : SegmentMeta :=
  let a := foldl rmeta_step (MkRmetaAcc ∅ ∅ ∅ None None 0) records in
  MkSegmentMeta segment_id RollupKind min_ts max_ts bucket row_count
    (ra_min_account a) (ra_max_account a) (ra_product_ids a) (ra_meter_ids a) (ra_model_ids a)
    (Some (ra_quantity_sum a)) cs input_segment_ids.

Section worker.
Context {BL : Blake3} {BN : Bincode} {RS : RawSegments} {MJ : ManifestJson} {DJ : DimJson}.

Definition write_rollup_segment (fault : option rw_fault) (files : gmap string bytes) (uuid : string)
    (records : list HourlyRollupRecord) (bucket hour_start hour_end : Z) (inputs : list string)
    : gmap string bytes * outcome tick_error (SegmentMeta * string) :=
  let segment_id := "rollup_" +:+ uuid in
  let path := rseg_path segment_id in
  match Roll.write_rollup_file records, fault with
  | _, Some RFaultCreate => (files, Err TickWrite)
  | Ok (bs, _, _), Some (RFaultWrite n) => (<[path := take n bs]> files, Err TickWrite)
  | Ok (bs, row_count, cs), None =>
      (<[path := bs]> files,
       Ok (build_rollup_segment_meta segment_id records bucket cs hour_start (hour_end - 1) row_count inputs, path))
  | _, _ => (<[path := []]> files, Err TickWrite)
  end.

(** ** One hour *)

(** Events of the hour whose (hour, bucket) is not rolled up yet, with their
    bucket and the segment they come from, in reading order. *)
Definition wanted (bucket_count : Z) (already_rolled : list (Z * Z)) (hour hour_end : Z) (e : UsageEvent) : bool :=
  negb ((ev_timestamp_ms e <? hour) || (hour_end <=? ev_timestamp_ms e))
  && negb (bool_decide ((hour, Flush.bucket_of bucket_count e) ∈ already_rolled)).

Fixpoint scan_hour (files : gmap string bytes) (bucket_count : Z) (already_rolled : list (Z * Z))
    (hour hour_end : Z) (segs : list SegmentMeta) : outcome seg_error (list (string * UsageEvent)) :=
  match segs with
  | [] => Ok []
  | seg :: segs =>
      if (sm_max_timestamp_ms seg <? hour) || (hour_end <=? sm_min_timestamp_ms seg)
      then scan_hour files bucket_count already_rolled hour hour_end segs
      else
        match files !! seg_path (sm_segment_id seg) with
        | None => scan_hour files bucket_count already_rolled hour hour_end segs
        | Some bs =>
            es ← seg_read_all bs;
            rest ← scan_hour files bucket_count already_rolled hour hour_end segs;
            Ok (((λ e, (sm_segment_id seg, e))
                   <$> filter (λ e, wanted bucket_count already_rolled hour hour_end e = true) es) ++ rest)
        end
  end.

(** [BTreeSet<String>] into a vector. *)
Definition input_ids (items : list (string * UsageEvent)) : list string :=
  sort_by str_cmp (remove_dups items.*1).

(** [for (bucket, builder) in by_bucket]: the builder of a bucket has
    processed the bucket's events in reading order. *)
Fixpoint write_groups (draws : nat → string * option rw_fault) (i : nat) (files : gmap string bytes)
    (hour hour_end : Z) (groups : list (Z * list (string * UsageEvent)))
    (new_segments : list (SegmentMeta * string))
    : gmap string bytes * nat * outcome tick_error (list (SegmentMeta * string)) :=
  match groups with
  | [] => (files, i, Ok new_segments)
  | (bucket, items) :: groups =>
      let records := Roll.finalize (Roll.build items.*2) in
      if bool_decide (records = []) then write_groups draws i files hour hour_end groups new_segments
      else
        match write_rollup_segment (draws i).2 files (draws i).1 records bucket hour hour_end (input_ids items) with
        | (files, Ok seg) => write_groups draws (S i) files hour hour_end groups (new_segments ++ [seg])
        | (files, Err e) => (files, S i, Err e)
        | (files, Panic) => (files, S i, Panic)
        end
  end.

Fixpoint roll_hours (draws : nat → string * option rw_fault) (i : nat) (files : gmap string bytes)
    (bucket_count : Z) (already_rolled : list (Z * Z)) (segs : list SegmentMeta) (hours : list Z)
    (new_segments : list (SegmentMeta * string))
    : gmap string bytes * outcome tick_error (list (SegmentMeta * string)) :=
  match hours with
  | [] => (files, Ok new_segments)
  | hour :: hours =>
      let hour_end := hour + HOUR_MS in
      match scan_hour files bucket_count already_rolled hour hour_end segs with
      | Ok items =>
          let groups := group_by_key (λ it : string * UsageEvent, Flush.bucket_of bucket_count it.2) items in
          match write_groups draws i files hour hour_end groups new_segments with
          | (files, i, Ok new_segments) =>
              roll_hours draws i files bucket_count already_rolled segs hours new_segments
          | (files, _, Err e) => (files, Err e)
          | (files, _, Panic) => (files, Panic)
          end
      | Err e => (files, Err (TickRead e))
      | Panic => (files, Panic)
      end
  end.

(** [while hour < target_hour], with enough fuel for every hour. *)
Fixpoint hours_loop (fuel : nat) (hour target : Z) : list Z :=
  match fuel with
  | O => []
  | S fuel => if hour <? target then hour :: hours_loop fuel (hour + HOUR_MS) target else []
  end.

Definition hours_between (hour target : Z) : list Z :=
  hours_loop (Z.to_nat ((target - hour) / HOUR_MS + 1)) hour target.

(** ** [tick] *)

(** The values the tick reads, each under its own lock. *)
Record TickReads := MkTickReads {
  tr_manifest : Manifest;
  tr_active_wal_id : Z;
  tr_memtable_age : Memtable;
  tr_memtable_min : Memtable;
}.

Definition reads_of (st : AppState) : TickReads :=
  MkTickReads (as_manifest st) (active_id (as_wal st)) (as_memtable st) (as_memtable st).

Definition in_flight (reads : TickReads) : bool :=
  m_last_sealed_wal_id (tr_manifest reads) + 1 <? tr_active_wal_id reads.

Definition needs_force_drain (max_age now : Z) (reads : TickReads) : bool :=
  match Mem.oldest_insert_at_ms (tr_memtable_age reads) with
  | Some at_ => max_age <=? now - at_
  | None => false
  end.

Definition target_hour (safety_lag now : Z) (reads : TickReads) : Z :=
  let time_target := floor_hour (now - safety_lag) in
  match Mem.min_event_timestamp_ms (tr_memtable_min reads) with
  | Some ts => Z.min time_target (floor_hour ts)
  | None => time_target
  end.

Definition start_watermark (m : Manifest) : Z :=
  let w := m_hourly_rollup_ms m in
  if (w =? 0) && negb (bool_decide (m_raw_segments m = []))
  then floor_hour (default 0 (Mem.min_list (sm_min_timestamp_ms <$> m_raw_segments m)))
  else w.

Definition already_rolled (m : Manifest) : list (Z * Z) :=
  (λ s, (sm_min_timestamp_ms s, sm_bucket s)) <$> m_rollup_segments m.

(** The send comes after the locks are released ([send]). *)
Definition force_drain_memtable (bud : budget) (fsync_ok open_ok : bool) (st : AppState)
    : AppState * outcome tick_error unit :=
  if Mem.is_empty (as_memtable st) then (st, Ok tt)
  else
    match drain_and_rotate bud fsync_ok open_ok st with
    | (st, Ok msg) => (hand_over msg st, Ok tt)
    | (st, Err e) => (st, Err (TickRotate e))
    | (st, Panic) => (st, Panic)
    end.

(** The commit under the manifest's write lock. *)
Definition commit_rollups (sfault : Man.save_fault) (env : FlushEnv) (files : gmap string bytes)
    (new_segments : list (SegmentMeta * string)) (target : Z) : FlushEnv * outcome tick_error unit :=
  let m := fe_manifest env in
  let m := set_rollup_segments (m_rollup_segments m ++ new_segments.*1) m in
  let m := set_watermark target m in
  match Man.save sfault (fe_manfs env) m with
  | (manfs, m, Ok _) => (MkFlushEnv files manfs m (fe_walfs env), Ok tt)
  | (manfs, m, _) =>
      (MkFlushEnv (Flush.rollback_partial files new_segments.*2) manfs m (fe_walfs env), Err TickSave)
  end.

Definition tick_with (reads : TickReads) (draws : nat → string * option rw_fault) (sfault : Man.save_fault)
    (rot : budget * bool * bool) (now : Z) (st : AppState) : AppState * outcome tick_error RollupTickStats :=
  let m := tr_manifest reads in
  let cfg := as_config st in
  if in_flight reads then (st, Ok (MkTickStats 0 (m_hourly_rollup_ms m) 0 false true))
  else if needs_force_drain (memtable_max_age_ms cfg) now reads then
    match force_drain_memtable rot.1.1 rot.1.2 rot.2 st with
    | (st, Ok _) => (st, Ok (MkTickStats 0 (m_hourly_rollup_ms m) 0 true false))
    | (st, Err e) => (st, Err e)
    | (st, Panic) => (st, Panic)
    end
  else
    let target := target_hour (rollup_safety_lag_ms cfg) now reads in
    let current := start_watermark m in
    if target <=? current then (st, Ok (MkTickStats 0 current 0 false false))
    else
      let hours := hours_between current target in
      match roll_hours draws 0 (as_files st) (Z.max (m_bucket_count m) 1) (already_rolled m)
              (m_raw_segments m) hours [] with
      | (files, Ok new_segments) =>
          match commit_rollups sfault (as_env st) files new_segments target with
          | (env, Ok _) =>
              (set_env env st, Ok (MkTickStats (length new_segments) target (length hours) false false))
          | (env, Err e) => (set_env env st, Err e)
          | (env, Panic) => (set_env env st, Panic)
          end
      | (files, Err e) =>
          (set_env (MkFlushEnv files (fe_manfs (as_env st)) (as_manifest st) (as_walfs st)) st, Err e)
      | (files, Panic) =>
          (set_env (MkFlushEnv files (fe_manfs (as_env st)) (as_manifest st) (as_walfs st)) st, Panic)
      end.

(** A tick no other worker interleaves with. *)
Definition tick (draws : nat → string * option rw_fault) (sfault : Man.save_fault)
    (rot : budget * bool * bool) (now : Z) (st : AppState) : AppState * outcome tick_error RollupTickStats :=
  tick_with (reads_of st) draws sfault rot now st.

(** ** [rebuild_rollups] *)
Definition rebuild_rollups (sfault : Man.save_fault) (from_ms to_ms : Z) (env : FlushEnv)
    : FlushEnv * outcome tick_error nat :=
  let m := fe_manifest env in
  let kept := filter (λ s, negb ((sm_min_timestamp_ms s <? to_ms) && (from_ms <=? sm_max_timestamp_ms s)) = true)
                (m_rollup_segments m) in
  let dropped := (length (m_rollup_segments m) - length kept)%nat in
  let m := set_rollup_segments kept m in
  let m := if from_ms <? m_hourly_rollup_ms m then set_watermark from_ms m else m in
  match Man.save sfault (fe_manfs env) m with
  | (manfs, m, Ok _) => (MkFlushEnv (fe_files env) manfs m (fe_walfs env), Ok dropped)
  | (manfs, m, _) => (MkFlushEnv (fe_files env) manfs m (fe_walfs env), Err TickSave)
  end.

(** ** Lemmas: names and rows *)
Lemma rseg_path_inj a b : rseg_path a = rseg_path b → a = b.
Proof.
  intros E. apply (f_equal (str_strip_suffix ".rseg")) in E. unfold rseg_path in E.
  rewrite !str_strip_suffix_app in E. congruence.
Qed.

Lemma seg_path_not_rseg a b : seg_path a ≠ rseg_path b.
Proof.
  intros E. apply (f_equal (str_strip_suffix ".rseg")) in E. unfold rseg_path in E.
  rewrite str_strip_suffix_app in E. unfold seg_path, str_strip_suffix in E.
  rewrite list_ascii_append, reverse_app in E.
  change (reverse (String.list_ascii_of_string ".seg")) with (String.list_ascii_of_string "ges.") in E.
  change (reverse (String.list_ascii_of_string ".rseg")) with (String.list_ascii_of_string "gesr.") in E.
  discriminate E.
Qed.

(** The rows of a rollup segment, none when it is missing or refused. *)
Definition rollup_rows (files : gmap string bytes) (meta : SegmentMeta) : list HourlyRollupRecord :=
  match files !! rseg_path (sm_segment_id meta) with
  | Some bs =>
      match Roll.rollup_open bs (sm_checksum meta) with
      | Ok r => Roll.into_records r
      | _ => []
      end
  | None => []
  end.

Definition rolled (files : gmap string bytes) (metas : list SegmentMeta) : list HourlyRollupRecord :=
  mjoin (rollup_rows files <$> metas).

Lemma rollup_rows_same files files' m :
  files' !! rseg_path (sm_segment_id m) = files !! rseg_path (sm_segment_id m) →
  rollup_rows files' m = rollup_rows files m.
Proof. intros H. unfold rollup_rows. by rewrite H. Qed.

Lemma rolled_same files files' metas :
  (∀ m, m ∈ metas → files' !! rseg_path (sm_segment_id m) = files !! rseg_path (sm_segment_id m)) →
  rolled files' metas = rolled files metas.
Proof.
  intros H. unfold rolled. f_equal. apply list_fmap_ext. intros i m Hm.
  unfold rollup_rows. rewrite H; [done|]. by eapply list_elem_of_lookup_2.
Qed.

Lemma rolled_app files l1 l2 : rolled files (l1 ++ l2) = rolled files l1 ++ rolled files l2.
Proof. unfold rolled. by rewrite fmap_app, join_app. Qed.

(** ** Lemmas: reading an hour *)

(** Segments a scan can read, whose time range covers their rows. *)
Definition readable (files : gmap string bytes) (seg : SegmentMeta) : Prop :=
  Flush.seg_at files seg (Flush.seg_events files seg)
  ∧ ∀ e, e ∈ Flush.seg_events files seg →
         sm_min_timestamp_ms seg ≤ ev_timestamp_ms e ≤ sm_max_timestamp_ms seg.

Lemma wanted_time bc al hour hour_end e :
  wanted bc al hour hour_end e = true → hour ≤ ev_timestamp_ms e < hour_end.
Proof. unfold wanted. intros H. zbool. lia. Qed.

Lemma scan_hour_spec files bc al hour hour_end segs :
  Forall (readable files) segs →
  ∃ items, scan_hour files bc al hour hour_end segs = Ok items
    ∧ items.*2 = filter (λ e, wanted bc al hour hour_end e = true) (Flush.stored files segs).
Proof.
  induction 1 as [|seg segs [(bs & E & Er) Hr] _ (items & IH & Hi)]; [by exists []|].
  assert (Flush.stored files (seg :: segs) = Flush.seg_events files seg ++ Flush.stored files segs) as -> by done.
  rewrite filter_app. cbn [scan_hour].
  destruct ((sm_max_timestamp_ms seg <? hour) || (hour_end <=? sm_min_timestamp_ms seg)) eqn:Eo.
  - exists items. split; [done|]. rewrite Hi, (filter_none _ (Flush.seg_events files seg)); [done|].
    apply Forall_forall. intros e He Hw%wanted_time. specialize (Hr e He).
    apply orb_true_iff in Eo as [Eo|Eo]; zbool; lia.
  - rewrite E, Er. cbn [mbind outcome_bind]. rewrite IH. cbn [mbind outcome_bind].
    eexists. split; [reflexivity|]. rewrite fmap_app, Hi. f_equal.
    rewrite <- list_fmap_compose. apply list_fmap_id.
Qed.

Lemma scan_hour_same files files' bc al hour hour_end segs :
  (∀ id, files' !! seg_path id = files !! seg_path id) →
  scan_hour files' bc al hour hour_end segs = scan_hour files bc al hour hour_end segs.
Proof.
  intros H. induction segs as [|seg segs IH]; [done|]. cbn [scan_hour]. by rewrite H, IH.
Qed.

(** ** Lemmas: writing an hour *)
Context {BLok : Blake3Ok} {BNok : BincodeOk}.

Definition rdraw_id (draws : nat → string * option rw_fault) (i : nat) : string := "rollup_" +:+ (draws i).1.

Definition good_rdraws (draws : nat → string * option rw_fault) : Prop :=
  (∀ i, (draws i).2 = None) ∧ (∀ i j, (draws i).1 = (draws j).1 → i = j).

Definition group_rows (g : Z * list (string * UsageEvent)) : list HourlyRollupRecord :=
  Roll.finalize (Roll.build g.2.*2).

Lemma write_rollup_segment_ok files uuid records bucket hour hour_end inputs :
  Forall Roll.row_fits records →
  ∃ bs meta, write_rollup_segment None files uuid records bucket hour hour_end inputs
      = (<[rseg_path ("rollup_" +:+ uuid) := bs]> files, Ok (meta, rseg_path ("rollup_" +:+ uuid)))
    ∧ sm_segment_id meta = "rollup_" +:+ uuid
    ∧ (sm_min_timestamp_ms meta = hour ∧ sm_max_timestamp_ms meta = hour_end - 1 ∧ sm_bucket meta = bucket)
    ∧ ∀ files', files' !! rseg_path ("rollup_" +:+ uuid) = Some bs → rollup_rows files' meta = records.
Proof.
  intros Hf. destruct (Roll.rollup_write_open records Hf) as (bs & cs & Ew & Eo).
  unfold write_rollup_segment. rewrite Ew. eexists bs, _. split; [reflexivity|]. cbn. split; [done|].
  split; [done|]. intros files' E. unfold rollup_rows. cbn. by rewrite E, Eo.
Qed.

(** What a batch of written segments adds: the rows, in segments and for rows
    that [P] describes, under new names. *)
Definition adds (draws : nat → string * option rw_fault) (i i' : nat) (files files' : gmap string bytes)
    (added : list (SegmentMeta * string)) (rows : list HourlyRollupRecord)
    (P : SegmentMeta → list HourlyRollupRecord → Prop) : Prop :=
  rolled files' added.*1 = rows
  ∧ Forall (λ p, P p.1 (rollup_rows files' p.1)) added
  ∧ Forall (λ p, ∃ j, (i ≤ j < i')%nat ∧ sm_segment_id p.1 = rdraw_id draws j) added
  ∧ (i ≤ i')%nat
  ∧ ∀ name, (∀ j, (i ≤ j)%nat → name ≠ rseg_path (rdraw_id draws j)) → files' !! name = files !! name.

Lemma rdraw_id_inj draws i j : good_rdraws draws → rdraw_id draws i = rdraw_id draws j → i = j.
Proof. intros [_ Hinj] E%append_inj_r. by apply Hinj. Qed.

(** Later writes do not disturb earlier segments. *)
Lemma adds_app draws i i1 i2 files files1 files2 a1 a2 r1 r2 P :
  good_rdraws draws →
  adds draws i i1 files files1 a1 r1 P → adds draws i1 i2 files1 files2 a2 r2 P →
  adds draws i i2 files files2 (a1 ++ a2) (r1 ++ r2) P.
Proof.
  intros Hd (R1 & H1 & I1 & L1 & S1) (R2 & H2 & I2 & L2 & S2).
  assert (∀ p, p ∈ a1 → files2 !! rseg_path (sm_segment_id p.1) = files1 !! rseg_path (sm_segment_id p.1)) as Hold.
  { intros p Hp. apply S2. intros j Hj Heq%rseg_path_inj.
    rewrite Forall_forall in I1. destruct (I1 p Hp) as (k & Hk & Ek). rewrite Ek in Heq.
    apply rdraw_id_inj in Heq; [lia|done]. }
  split; [|split; [|split; [|split; [lia|]]]].
  - rewrite fmap_app, rolled_app, R2. f_equal. rewrite <- R1. apply rolled_same.
    intros m (p & -> & Hp)%list_elem_of_fmap. by apply Hold.
  - apply Forall_app. split; [|done]. rewrite Forall_forall in H1 |- *. intros p Hp.
    rewrite (rollup_rows_same files1 files2) by (by apply Hold). by apply H1.
  - apply Forall_app. split; (eapply Forall_impl; [done|]); intros p (j & Hj & E); exists j; (split; [lia|done]).
  - intros name Hn. rewrite S2 by (intros; apply Hn; lia). apply S1. intros. by apply Hn.
Qed.

Lemma adds_nil draws i files P : adds draws i i files files [] [] P.
Proof. repeat (split; [done || constructor|]). done. Qed.

Lemma adds_one draws i files bs meta rows (P : SegmentMeta → list HourlyRollupRecord → Prop) :
  sm_segment_id meta = rdraw_id draws i → P meta rows →
  (∀ files', files' !! rseg_path (rdraw_id draws i) = Some bs → rollup_rows files' meta = rows) →
  adds draws i (S i) files (<[rseg_path (rdraw_id draws i) := bs]> files)
    [(meta, rseg_path (rdraw_id draws i))] rows P.
Proof.
  intros Hid Hm Hr. specialize (Hr (<[rseg_path (rdraw_id draws i) := bs]> files)).
  rewrite lookup_insert_eq in Hr. specialize (Hr eq_refl). split; [|split; [|split; [|split; [lia|]]]].
  - unfold rolled. cbn. by rewrite app_nil_r.
  - apply Forall_singleton. cbn. by rewrite Hr.
  - constructor; [|constructor]. exists i. split; [lia|done].
  - intros name Hn. apply lookup_insert_ne. apply not_eq_sym, Hn. lia.
Qed.

(** [P] holds of the segment a group is written to. *)
Definition group_gives (P : SegmentMeta → list HourlyRollupRecord → Prop) (hour hour_end : Z)
    (g : Z * list (string * UsageEvent)) : Prop :=
  ∀ meta, sm_min_timestamp_ms meta = hour → sm_max_timestamp_ms meta = hour_end - 1 → sm_bucket meta = g.1 →
          P meta (group_rows g).

Lemma write_groups_ok draws i files hour hour_end groups acc P :
  good_rdraws draws → Forall (group_gives P hour hour_end) groups →
  Forall (λ g, Forall Roll.row_fits (group_rows g)) groups →
  ∃ files' i' added, write_groups draws i files hour hour_end groups acc = (files', i', Ok (acc ++ added))
    ∧ adds draws i i' files files' added (mjoin (group_rows <$> groups)) P.
Proof.
  intros Hd HP Hf. revert i files acc HP. induction Hf as [|[b items] groups Hg _ IH]; intros i files acc HP.
  { exists files, i, []. rewrite app_nil_r. split; [done|apply adds_nil]. }
  apply Forall_cons in HP as [HP0 HP].
  cbn [write_groups]. unfold group_rows in Hg at 1. cbn [snd] in Hg.
  change (mjoin (group_rows <$> (b, items) :: groups))
    with (Roll.finalize (Roll.build items.*2) ++ mjoin (group_rows <$> groups)).
  case_bool_decide as He.
  { destruct (IH i files acc HP) as (files' & i' & added & E & Ha). exists files', i', added. by rewrite He. }
  rewrite (proj1 Hd).
  destruct (write_rollup_segment_ok files (draws i).1 (Roll.finalize (Roll.build items.*2)) b hour hour_end
              (input_ids items) Hg) as (bs & meta & -> & Hid & (Hmin & Hmax & Hb) & Hrows).
  fold (rdraw_id draws i) in *.
  destruct (IH (S i) (<[rseg_path (rdraw_id draws i):=bs]> files)
              (acc ++ [(meta, rseg_path (rdraw_id draws i))]) HP) as (files' & i' & added & E & Ha).
  exists files', i', ([(meta, rseg_path (rdraw_id draws i))] ++ added). rewrite E, <- app_assoc.
  split; [done|]. eapply adds_app; [done| |exact Ha]. apply adds_one; [done|by apply HP0|done].
Qed.

(** The rows of one hour, in the order they are written. *)
Definition hour_groups (files : gmap string bytes) (bc : Z) (al : list (Z * Z)) (segs : list SegmentMeta) (hour : Z)
    : list (Z * list (string * UsageEvent)) :=
  match scan_hour files bc al hour (hour + HOUR_MS) segs with
  | Ok items => group_by_key (λ it : string * UsageEvent, Flush.bucket_of bc it.2) items
  | _ => []
  end.

Definition hour_rows files bc al segs hour : list HourlyRollupRecord :=
  mjoin (group_rows <$> hour_groups files bc al segs hour).

Lemma hour_groups_same files files' bc al segs hour :
  (∀ id, files' !! seg_path id = files !! seg_path id) →
  hour_groups files' bc al segs hour = hour_groups files bc al segs hour.
Proof. intros H. unfold hour_groups. by rewrite (scan_hour_same files files'). Qed.

Lemma readable_same files files' seg :
  (∀ id, files' !! seg_path id = files !! seg_path id) → readable files seg → readable files' seg.
Proof. intros H. unfold readable, Flush.seg_at, Flush.seg_events. by rewrite H. Qed.

(** Rows where their segment's metadata says they are. *)
Definition placed (bc : Z) (s : SegmentMeta) (rows : list HourlyRollupRecord) : Prop :=
  Forall (λ r, 1 ≤ rr_event_count r
               ∧ sm_min_timestamp_ms s ≤ rr_hour_start_ms r ≤ sm_max_timestamp_ms s
               ∧ bucket_for_account (rr_account_id r) bc = sm_bucket s) rows.

(** What a segment of one of the hours looks like. *)
Definition hour_segment (bc : Z) (hours : list Z) (s : SegmentMeta) (rows : list HourlyRollupRecord) : Prop :=
  sm_min_timestamp_ms s ∈ hours
  ∧ sm_max_timestamp_ms s = sm_min_timestamp_ms s + HOUR_MS - 1
  ∧ (0 ≤ sm_min_timestamp_ms s → (HOUR_MS | sm_min_timestamp_ms s) → placed bc s rows).

Lemma floor_hour_of h ts : 0 ≤ h → (HOUR_MS | h) → h ≤ ts < h + HOUR_MS → floor_hour ts = h.
Proof.
  intros Hh [q ->] Hts. unfold floor_hour. f_equal. rewrite Z.quot_div_nonneg by (unfold HOUR_MS in *; lia).
  unfold HOUR_MS in *. symmetry. apply (Z.div_unique _ _ _ (ts - q * 3600000)); lia.
Qed.

Lemma hour_groups_give files bc al segs hours h :
  Forall (readable files) segs → h ∈ hours →
  Forall (group_gives (hour_segment bc hours) h (h + HOUR_MS)) (hour_groups files bc al segs h).
Proof.
  intros Hr Hh. destruct (scan_hour_spec files bc al h (h + HOUR_MS) segs Hr) as (items & Es & Hi).
  unfold hour_groups. rewrite Es. pose proof (group_by_key_ok (λ it : string * UsageEvent, Flush.bucket_of bc it.2) items) as Hok.
  apply Forall_forall. intros g Hg meta Hmin Hmax Hb. split; [by rewrite Hmin|]. split; [lia|]. rewrite Hmin. intros H0 Hdiv.
  unfold groups_ok in Hok. rewrite Forall_forall in Hok. destruct (Hok g Hg) as [_ Hk]. rewrite Forall_forall in Hk.
  eapply Forall_impl; [apply Roll.build_rows|]. cbn. intros r (Hc & e & He & Hkey). split; [done|].
  apply list_elem_of_fmap in He as (it & -> & Hit).
  assert (it.2 ∈ items.*2) as Hin.
  { apply list_elem_of_fmap. exists it. split; [done|].
    rewrite <- (group_by_key_perm (λ it : string * UsageEvent, Flush.bucket_of bc it.2) items).
    apply list_elem_of_join. exists g.2. split; [done|]. apply list_elem_of_fmap. eauto. }
  rewrite Hi in Hin. apply list_elem_of_filter in Hin as [Hw%wanted_time _].
  assert (rr_hour_start_ms r = floor_hour (ev_timestamp_ms it.2)) as -> by (by injection Hkey).
  assert (rr_account_id r = ev_account_id it.2) as -> by (by injection Hkey).
  rewrite (floor_hour_of h) by done. rewrite Hmin, Hmax, Hb. split; [unfold HOUR_MS; lia|].
  apply (Hk it Hit).
Qed.

Lemma roll_hours_gen draws bc al segs all_hours hours :
  good_rdraws draws → Forall (λ h, h ∈ all_hours) hours → ∀ i files acc,
  Forall (readable files) segs →
  Forall (λ h, Forall (λ g, Forall Roll.row_fits (group_rows g)) (hour_groups files bc al segs h)) hours →
  ∃ files' i' added, roll_hours draws i files bc al segs hours acc = (files', Ok (acc ++ added))
    ∧ adds draws i i' files files' added (mjoin (hour_rows files bc al segs <$> hours)) (hour_segment bc all_hours).
Proof.
  intros Hd HP. induction HP as [|h hours Hh _ IH]; intros i files acc Hr Hf.
  { exists files, i, []. rewrite app_nil_r. split; [done|apply adds_nil]. }
  apply Forall_cons in Hf as [Hg Hf]. cbn [roll_hours].
  change (mjoin (hour_rows files bc al segs <$> h :: hours))
    with (hour_rows files bc al segs h ++ mjoin (hour_rows files bc al segs <$> hours)).
  pose proof (hour_groups_give files bc al segs all_hours h Hr Hh) as Hgive.
  unfold hour_rows at 1. unfold hour_groups in Hg at 1. unfold hour_groups at 1. unfold hour_groups in Hgive at 1.
  destruct (scan_hour_spec files bc al h (h + HOUR_MS) segs Hr) as (items & Es & _).
  rewrite Es in *.
  destruct (write_groups_ok draws i files h (h + HOUR_MS) _ acc _ Hd Hgive Hg) as (files1 & i1 & a1 & -> & A1).
  assert (∀ id, files1 !! seg_path id = files !! seg_path id) as Hsame.
  { intros id. apply A1. intros. apply seg_path_not_rseg. }
  destruct (IH i1 files1 (acc ++ a1)) as (files2 & i2 & a2 & E2 & A2).
  - eapply Forall_impl; [exact Hr|]. intros seg. by apply readable_same.
  - eapply Forall_impl; [exact Hf|]. cbn. intros h' Hh'. by rewrite (hour_groups_same files files1).
  - exists files2, i2, (a1 ++ a2). rewrite E2, <- app_assoc. split; [done|].
    eapply adds_app; [done|exact A1|].
    replace (mjoin (hour_rows files bc al segs <$> hours)) with (mjoin (hour_rows files1 bc al segs <$> hours));
      [exact A2|]. f_equal. apply list_fmap_ext. intros k h' _. unfold hour_rows.
    by rewrite (hour_groups_same files files1).
Qed.

Lemma roll_hours_ok draws i files bc al segs hours acc :
  good_rdraws draws → Forall (readable files) segs →
  Forall (λ h, Forall (λ g, Forall Roll.row_fits (group_rows g)) (hour_groups files bc al segs h)) hours →
  ∃ files' i' added, roll_hours draws i files bc al segs hours acc = (files', Ok (acc ++ added))
    ∧ adds draws i i' files files' added (mjoin (hour_rows files bc al segs <$> hours)) (hour_segment bc hours).
Proof. intros Hd Hr Hf. apply roll_hours_gen; try done. by apply Forall_forall. Qed.

(** ** Lemmas: totals *)
Definition row_total (sel : HourlyRollupKey → bool) (rows : list HourlyRollupRecord) : Z :=
  sumZ (λ r, if sel (Roll.record_key r) then rr_quantity_sum r else 0) rows.
Definition row_events (sel : HourlyRollupKey → bool) (rows : list HourlyRollupRecord) : Z :=
  sumZ (λ r, if sel (Roll.record_key r) then rr_event_count r else 0) rows.

(** The raw side: the same selection on events in a time window. *)
Definition in_window (from to : Z) (e : UsageEvent) : bool :=
  (from <=? ev_timestamp_ms e) && (ev_timestamp_ms e <? to).
Definition raw_total (sel : HourlyRollupKey → bool) (from to : Z) (es : list UsageEvent) : Z :=
  sumZ (λ e, if in_window from to e then (if sel (Roll.event_key e) then ev_quantity e else 0) else 0) es.
Definition raw_events (sel : HourlyRollupKey → bool) (from to : Z) (es : list UsageEvent) : Z :=
  sumZ (λ e, if in_window from to e then (if sel (Roll.event_key e) then 1 else 0) else 0) es.

Lemma abs_filter (b : UsageEvent → bool) es : Roll.abs_total (filter (λ e, b e = true) es) ≤ Roll.abs_total es.
Proof.
  unfold Roll.abs_total. rewrite sumZ_filter. induction es as [|e es IH]; [done|].
  rewrite !sumZ_cons. destruct (b e); lia.
Qed.

Lemma group_totals sel (groups : list (Z * list (string * UsageEvent))) (items : list (string * UsageEvent)) :
  mjoin groups.*2 ≡ₚ items → Roll.abs_total items.*2 ≤ i128_max →
  row_total sel (mjoin (group_rows <$> groups))
  = sumZ (λ e, if sel (Roll.event_key e) then ev_quantity e else 0) items.*2
  ∧ row_events sel (mjoin (group_rows <$> groups))
    = sumZ (λ e, if sel (Roll.event_key e) then 1 else 0) items.*2.
Proof.
  intros Hp Hb.
  assert (∀ f : UsageEvent → Z, sumZ f items.*2 = sumZ (λ g : Z * list (string * UsageEvent), sumZ f g.2.*2) groups) as Hsum.
  { intros f. rewrite sumZ_fmap, <- Hp, sumZ_mjoin, sumZ_fmap. apply sumZ_ext. intros g _.
    cbn. by rewrite sumZ_fmap. }
  assert (∀ g, g ∈ groups → Roll.abs_total g.2.*2 ≤ i128_max) as Hg.
  { intros g Hin. etrans; [|exact Hb]. unfold Roll.abs_total. rewrite Hsum.
    apply (sumZ_elem_le (λ g : Z * list (string * UsageEvent), sumZ (λ e, Z.abs (ev_quantity e)) g.2.*2)); [|done].
    intros. apply Roll.sumZ_nonneg. intros. lia. }
  unfold row_total, row_events. rewrite !Hsum, !sumZ_mjoin, !(sumZ_fmap group_rows). split; apply sumZ_ext; intros g Hin; cbn.
  - by apply Roll.finalize_sums, Hg.
  - by apply Roll.finalize_sums, Hg.
Qed.

Lemma hour_totals sel files bc al segs h :
  Forall (readable files) segs → Roll.abs_total (Flush.stored files segs) ≤ i128_max →
  (∀ b, (h, b) ∉ al) →
  row_total sel (hour_rows files bc al segs h) = raw_total sel h (h + HOUR_MS) (Flush.stored files segs)
  ∧ row_events sel (hour_rows files bc al segs h) = raw_events sel h (h + HOUR_MS) (Flush.stored files segs).
Proof.
  intros Hr Hb Hal. destruct (scan_hour_spec files bc al h (h + HOUR_MS) segs Hr) as (items & Es & Hi).
  unfold hour_rows, hour_groups. rewrite Es.
  destruct (group_totals sel (group_by_key (λ it : string * UsageEvent, Flush.bucket_of bc it.2) items) items)
    as [-> ->]; [apply group_by_key_perm|rewrite Hi; etrans; [apply abs_filter|done]|].
  rewrite Hi, !sumZ_filter. unfold raw_total, raw_events.
  assert (∀ e, wanted bc al h (h + HOUR_MS) e = in_window h (h + HOUR_MS) e) as Hw.
  { intros e. unfold wanted, in_window. rewrite bool_decide_false by apply Hal. rewrite andb_true_r.
    rewrite negb_orb, <- Z.leb_antisym, <- Z.ltb_antisym. done. }
  split; apply sumZ_ext; intros e _; by rewrite Hw.
Qed.

(** The hours of the loop tile the window. *)
Lemma window_split a b c e : a ≤ b ≤ c →
  ∀ x : Z, (if in_window a c e then x else 0) = (if in_window a b e then x else 0) + (if in_window b c e then x else 0).
Proof.
  intros H x. unfold in_window.
  destruct (Z.leb_spec a (ev_timestamp_ms e)), (Z.ltb_spec (ev_timestamp_ms e) c),
    (Z.leb_spec b (ev_timestamp_ms e)), (Z.ltb_spec (ev_timestamp_ms e) b); cbn; lia.
Qed.

Lemma hours_loop_sum (f : UsageEvent → Z) es fuel (k : nat) h :
  (k ≤ fuel)%nat →
  sumZ (λ h', sumZ (λ e, if in_window h' (h' + HOUR_MS) e then f e else 0) es)
    (hours_loop fuel h (h + HOUR_MS * Z.of_nat k))
  = sumZ (λ e, if in_window h (h + HOUR_MS * Z.of_nat k) e then f e else 0) es.
Proof.
  revert fuel h. induction k as [|k IH]; intros fuel h Hk.
  - rewrite Z.mul_0_r, Z.add_0_r. symmetry. destruct fuel as [|fuel]; cbn [hours_loop];
      [|rewrite Z.ltb_irrefl]; apply sumZ_zero; intros e _; unfold in_window;
      destruct (Z.leb_spec h (ev_timestamp_ms e)), (Z.ltb_spec (ev_timestamp_ms e) h); cbn; lia.
  - destruct fuel as [|fuel]; [lia|]. cbn [hours_loop].
    assert (0 < HOUR_MS) by done.
    destruct (Z.ltb_spec h (h + HOUR_MS * Z.of_nat (S k))); [|lia].
    rewrite sumZ_cons. replace (h + HOUR_MS * Z.of_nat (S k)) with (h + HOUR_MS + HOUR_MS * Z.of_nat k) by lia.
    rewrite IH by lia. rewrite <- sumZ_add. apply sumZ_ext. intros e _. symmetry. apply window_split. lia.
Qed.

Lemma hours_between_elem h target x :
  x ∈ hours_between h target → ∃ j : nat, x = h + HOUR_MS * Z.of_nat j ∧ x < target.
Proof.
  unfold hours_between. generalize (Z.to_nat ((target - h) / HOUR_MS + 1)). intros fuel.
  revert h. induction fuel as [|fuel IH]; intros h; cbn [hours_loop]; [by intros ?%not_elem_of_nil|].
  destruct (Z.ltb_spec h target); [|by intros ?%not_elem_of_nil].
  intros [->|(j & -> & Hj)%IH]%elem_of_cons; [exists 0%nat|exists (S j)]; lia.
Qed.

(** All hours of an aligned window. *)
Lemma hours_totals sel files bc al segs h target :
  Forall (readable files) segs → Roll.abs_total (Flush.stored files segs) ≤ i128_max →
  (∀ x b, (x, b) ∈ al → x < h) → h ≤ target → (HOUR_MS | target - h) →
  row_total sel (mjoin (hour_rows files bc al segs <$> hours_between h target))
  = raw_total sel h target (Flush.stored files segs)
  ∧ row_events sel (mjoin (hour_rows files bc al segs <$> hours_between h target))
    = raw_events sel h target (Flush.stored files segs).
Proof.
  intros Hr Hb Hal Hle [k Hk].
  assert (∀ x, x ∈ hours_between h target → ∀ b, (x, b) ∉ al) as Hnot.
  { intros x (j & -> & _)%hours_between_elem b Hin%Hal. unfold HOUR_MS in Hin. lia. }
  assert (0 < HOUR_MS) as Hpos by done.
  assert (target = h + HOUR_MS * Z.of_nat (Z.to_nat k)) as Et.
  { rewrite Z2Nat.id; [lia|]. unfold HOUR_MS in *. lia. }
  assert (Z.to_nat k ≤ Z.to_nat ((target - h) / HOUR_MS + 1))%nat as Hfuel.
  { rewrite Hk, Z.div_mul by done. lia. }
  unfold row_total, row_events, raw_total, raw_events. rewrite !sumZ_mjoin, !sumZ_fmap.
  unfold hours_between in *. rewrite Et in *. split.
  - rewrite <- hours_loop_sum with (fuel := Z.to_nat ((h + HOUR_MS * Z.of_nat (Z.to_nat k) - h) / HOUR_MS + 1)) by done.
    apply sumZ_ext. intros x Hx. apply (hour_totals sel files bc al segs x); [done|done|by apply Hnot].
  - rewrite <- hours_loop_sum with (fuel := Z.to_nat ((h + HOUR_MS * Z.of_nat (Z.to_nat k) - h) / HOUR_MS + 1)) by done.
    apply sumZ_ext. intros x Hx. apply (hour_totals sel files bc al segs x); [done|done|by apply Hnot].
Qed.

(** The rows of the window are no larger than its events. *)
Definition row_abs (sel : HourlyRollupKey → bool) (rows : list HourlyRollupRecord) : Z :=
  sumZ (λ r, if sel (Roll.record_key r) then Z.abs (rr_quantity_sum r) else 0) rows.
Definition raw_abs (sel : HourlyRollupKey → bool) (from to : Z) (es : list UsageEvent) : Z :=
  sumZ (λ e, if in_window from to e then (if sel (Roll.event_key e) then Z.abs (ev_quantity e) else 0) else 0) es.

Lemma hour_abs sel files bc al segs h :
  Forall (readable files) segs →
  row_abs sel (hour_rows files bc al segs h) ≤ raw_abs sel h (h + HOUR_MS) (Flush.stored files segs).
Proof.
  intros Hr. destruct (scan_hour_spec files bc al h (h + HOUR_MS) segs Hr) as (items & Es & Hi).
  unfold hour_rows, hour_groups, row_abs. rewrite Es, sumZ_mjoin, sumZ_fmap.
  set (groups := group_by_key _ items).
  transitivity (sumZ (λ e, if sel (Roll.event_key e) then Z.abs (ev_quantity e) else 0) items.*2).
  - rewrite sumZ_fmap, <- (group_by_key_perm (λ it : string * UsageEvent, Flush.bucket_of bc it.2) items). fold groups.
    rewrite sumZ_mjoin, sumZ_fmap. apply sumZ_mono. intros g _. cbn. rewrite <- sumZ_fmap. apply Roll.finalize_abs.
  - rewrite Hi, sumZ_filter. apply sumZ_mono. intros e _. destruct (wanted _ _ _ _ e) eqn:Ew.
    + apply wanted_time in Ew. unfold in_window. rewrite (proj2 (Z.leb_le _ _)), (proj2 (Z.ltb_lt _ _)) by lia. done.
    + repeat case_match; lia.
Qed.

Lemma hours_abs sel files bc al segs h target :
  Forall (readable files) segs → h ≤ target → (HOUR_MS | target - h) →
  row_abs sel (mjoin (hour_rows files bc al segs <$> hours_between h target))
  ≤ raw_abs sel h target (Flush.stored files segs).
Proof.
  intros Hr Hle [k Hk]. assert (0 < HOUR_MS) by done.
  assert (target = h + HOUR_MS * Z.of_nat (Z.to_nat k)) as Et.
  { rewrite Z2Nat.id; [lia|]. unfold HOUR_MS in *. lia. }
  assert (Z.to_nat k ≤ Z.to_nat ((target - h) / HOUR_MS + 1))%nat as Hfuel.
  { rewrite Hk, Z.div_mul by done. lia. }
  unfold row_abs, raw_abs. rewrite sumZ_mjoin, sumZ_fmap. unfold hours_between. rewrite Et in *.
  rewrite <- hours_loop_sum with (fuel := Z.to_nat ((h + HOUR_MS * Z.of_nat (Z.to_nat k) - h) / HOUR_MS + 1)) by done.
  apply sumZ_mono. intros x _. by apply hour_abs.
Qed.

Lemma floor_hour_divides ts : (HOUR_MS | floor_hour ts).
Proof. exists (Z.quot ts HOUR_MS). done. Qed.

Lemma floor_hour_le ts : 0 ≤ ts → floor_hour ts ≤ ts.
Proof.
  intros H. unfold floor_hour. rewrite Z.quot_div_nonneg by done. rewrite Z.mul_comm. by apply Z.mul_div_le.
Qed.

Lemma target_divides lag now reads : (HOUR_MS | target_hour lag now reads).
Proof.
  unfold target_hour. destruct (Mem.min_event_timestamp_ms _) as [ts|]; [|apply floor_hour_divides].
  destruct (Z.min_dec (floor_hour (now - lag)) (floor_hour ts)) as [-> | ->]; apply floor_hour_divides.
Qed.

(** No buffered event lies below the target. *)
Lemma target_below_memtable lag now reads :
  Forall (λ e, 0 ≤ ev_timestamp_ms e) (mt_events (tr_memtable_min reads)) →
  Forall (λ e, target_hour lag now reads ≤ ev_timestamp_ms e) (mt_events (tr_memtable_min reads)).
Proof.
  intros Hpos. unfold target_hour. apply Forall_forall. intros e He.
  destruct (Mem.min_event_timestamp_ms (tr_memtable_min reads)) as [ts|] eqn:E.
  - apply Mem.min_event_timestamp_spec in E as [Hmin (e' & He' & Ets)].
    rewrite Forall_forall in Hpos. pose proof (Hpos e' He'). pose proof (floor_hour_le ts ltac:(lia)).
    specialize (Hmin e He). lia.
  - apply Mem.min_event_timestamp_none in E. rewrite E in He. by apply not_elem_of_nil in He.
Qed.

Context {MJok : ManifestJsonOk}.

(** What a tick needs of the database: readable segments, rollups only below
    an aligned watermark, quantities within range, rows that fit their format
    and file names that are new. *)
Record rollup_ready (draws : nat → string * option rw_fault) (st : AppState) : Prop := {
  ready_segments : Forall (readable (as_files st)) (m_raw_segments (as_manifest st));
  ready_range : Roll.abs_total (Flush.stored (as_files st) (m_raw_segments (as_manifest st))) ≤ i128_max;
  ready_aligned : (HOUR_MS | start_watermark (as_manifest st));
  ready_rolled : Forall (λ s, sm_min_timestamp_ms s < start_watermark (as_manifest st))
                   (m_rollup_segments (as_manifest st));
  ready_fit : ∀ l, l ⊆+ Flush.stored (as_files st) (m_raw_segments (as_manifest st)) →
                   Forall Roll.row_fits (Roll.finalize (Roll.build l));
  ready_draws : good_rdraws draws;
  ready_fresh : ∀ s i, s ∈ m_rollup_segments (as_manifest st) → sm_segment_id s ≠ rdraw_id draws i;
  ready_generation : 0 ≤ m_current_generation (as_manifest st) < u64_max;
}.

Lemma hour_groups_fit files bc al segs h :
  Forall (readable files) segs →
  (∀ l, l ⊆+ Flush.stored files segs → Forall Roll.row_fits (Roll.finalize (Roll.build l))) →
  Forall (λ g, Forall Roll.row_fits (group_rows g)) (hour_groups files bc al segs h).
Proof.
  intros Hr Hf. destruct (scan_hour_spec files bc al h (h + HOUR_MS) segs Hr) as (items & Es & Hi).
  unfold hour_groups. rewrite Es. apply Forall_forall. intros g Hg. apply Hf.
  destruct (mjoin_perm_elem (group_by_key (λ it : string * UsageEvent, Flush.bucket_of bc it.2) items).*2 g.2)
    as [rest Hrest]; [by apply (list_elem_of_fmap_2 snd) in Hg|].
  rewrite group_by_key_perm in Hrest.
  transitivity items.*2.
  - rewrite Hrest, fmap_app. apply submseteq_inserts_r. done.
  - rewrite Hi. apply sublist_submseteq, sublist_filter.
Qed.

Lemma tick_runs draws rot now st :
  rollup_ready draws st →
  in_flight (reads_of st) = false →
  needs_force_drain (memtable_max_age_ms (as_config st)) now (reads_of st) = false →
  let target := target_hour (rollup_safety_lag_ms (as_config st)) now (reads_of st) in
  let start := start_watermark (as_manifest st) in
  start < target →
  ∃ env' added i', tick draws None rot now st
      = (set_env env' st, Ok (MkTickStats (length added) target (length (hours_between start target)) false false))
    ∧ fe_manifest env' = set_generation (m_current_generation (as_manifest st) + 1)
        (set_watermark target
          (set_rollup_segments (m_rollup_segments (as_manifest st) ++ added.*1) (as_manifest st)))
    ∧ (Man.load None (fe_manfs env')).2 = Ok (Some (fe_manifest env'))
    ∧ adds draws 0 i' (as_files st) (fe_files env') added
        (mjoin (hour_rows (as_files st) (Z.max (m_bucket_count (as_manifest st)) 1)
                  (already_rolled (as_manifest st)) (m_raw_segments (as_manifest st)) <$> hours_between start target))
        (hour_segment (Z.max (m_bucket_count (as_manifest st)) 1) (hours_between start target)).
Proof.
  intros [Hseg Hrange Hal Hrolled Hfit Hd Hfresh Hg] Hif Hfd target start Hlt.
  unfold tick, tick_with. rewrite Hif, Hfd. fold target. fold (as_manifest st). cbn [reads_of tr_manifest].
  fold start. rewrite (proj2 (Z.leb_gt _ _)) by done.
  destruct (roll_hours_ok draws 0 (as_files st) (Z.max (m_bucket_count (as_manifest st)) 1)
              (already_rolled (as_manifest st)) (m_raw_segments (as_manifest st)) (hours_between start target) [] Hd Hseg)
    as (files' & i' & added & -> & Ha).
  { apply Forall_forall. intros h _. by apply hour_groups_fit. }
  cbn [app]. unfold commit_rollups.
  destruct (Man.save_then_load None (fe_manfs (as_env st))
    (set_watermark target (set_rollup_segments (m_rollup_segments (fe_manifest (as_env st)) ++ added.*1)
       (fe_manifest (as_env st))))) as (manfs & -> & Hl); [exact Hg|].
  eexists _, added, i'. split; [reflexivity|]. split; [reflexivity|]. split; [cbn [fe_manfs]; by rewrite Hl|exact Ha].
Qed.

Lemma tick_window draws rot now st :
  rollup_ready draws st →
  in_flight (reads_of st) = false →
  needs_force_drain (memtable_max_age_ms (as_config st)) now (reads_of st) = false →
  Forall (λ e, 0 ≤ ev_timestamp_ms e) (mt_events (as_memtable st)) →
  let target := target_hour (rollup_safety_lag_ms (as_config st)) now (reads_of st) in
  let start := start_watermark (as_manifest st) in
  start < target →
  ∃ st' stats, tick draws None rot now st = (st', Ok stats)
    ∧ m_hourly_rollup_ms (as_manifest st') = target
    ∧ (∀ sel,
        row_total sel (rolled (as_files st') (m_rollup_segments (as_manifest st')))
        = row_total sel (rolled (as_files st) (m_rollup_segments (as_manifest st)))
          + raw_total sel start target (Flush.stored (as_files st) (m_raw_segments (as_manifest st)))
        ∧ row_events sel (rolled (as_files st') (m_rollup_segments (as_manifest st')))
          = row_events sel (rolled (as_files st) (m_rollup_segments (as_manifest st)))
            + raw_events sel start target (Flush.stored (as_files st) (m_raw_segments (as_manifest st))))
    ∧ Flush.stored (as_files st') (m_raw_segments (as_manifest st'))
      = Flush.stored (as_files st) (m_raw_segments (as_manifest st))
    ∧ Forall (λ e, target ≤ ev_timestamp_ms e) (mt_events (as_memtable st'))
    ∧ (Man.load None (fe_manfs (as_env st'))).2 = Ok (Some (as_manifest st'))
    ∧ as_wal st' = as_wal st ∧ as_memtable st' = as_memtable st ∧ pending st' = pending st
    ∧ m_bucket_count (as_manifest st') = m_bucket_count (as_manifest st)
    ∧ m_raw_segments (as_manifest st') = m_raw_segments (as_manifest st)
    ∧ Forall (λ s, s ∈ m_rollup_segments (as_manifest st)
                     ∧ rollup_rows (as_files st') s = rollup_rows (as_files st) s
                   ∨ hour_segment (Z.max (m_bucket_count (as_manifest st)) 1) (hours_between start target) s
                       (rollup_rows (as_files st') s)) (m_rollup_segments (as_manifest st'))
    ∧ (∀ sel, row_abs sel (rolled (as_files st') (m_rollup_segments (as_manifest st')))
              ≤ row_abs sel (rolled (as_files st) (m_rollup_segments (as_manifest st)))
                + raw_abs sel start target (Flush.stored (as_files st) (m_raw_segments (as_manifest st)))).
Proof.
  intros Hready Hif Hfd Hmt target start Hlt.
  destruct (tick_runs draws rot now st Hready Hif Hfd Hlt) as (env' & added & i' & E & Hm & Hl & Hrows & Hsegs & _ & _ & Hsame).
  destruct Hready as [Hseg Hrange Hal Hrolled Hfit Hd Hfresh Hg].
  eexists _, _. split; [exact E|]. change (as_manifest (set_env env' st)) with (fe_manifest env').
  change (as_files (set_env env' st)) with (fe_files env'). change (as_env (set_env env' st)) with env'.
  rewrite Hm. cbn [set_generation set_watermark set_rollup_segments m_hourly_rollup_ms m_rollup_segments m_raw_segments].
  assert (rolled (fe_files env') (m_rollup_segments (as_manifest st))
          = rolled (as_files st) (m_rollup_segments (as_manifest st))) as Hold.
  { apply rolled_same. intros s Hs. apply Hsame. intros j _ Heq%rseg_path_inj. by eapply Hfresh. }
  assert ((HOUR_MS | target - start)) as Hdiv by (apply Z.divide_sub_r; [apply target_divides|exact Hal]).
  split; [done|]. split; [|split; [|split; [|split; [by rewrite <- Hm|]]]].
  - intros sel. rewrite rolled_app, Hrows. unfold row_total, row_events. rewrite !sumZ_app, Hold.
    destruct (hours_totals sel (as_files st) (Z.max (m_bucket_count (as_manifest st)) 1)
        (already_rolled (as_manifest st)) (m_raw_segments (as_manifest st)) start target) as [H1 H2]; try done; [|lia|].
    + intros x b (s & Heq & Hs)%list_elem_of_fmap. injection Heq as -> _.
      rewrite Forall_forall in Hrolled. by apply Hrolled.
    + unfold row_total, row_events in H1, H2. fold target start. rewrite H1, H2. done.
  - apply Flush.stored_same. intros s _. apply Hsame. intros j _. apply seg_path_not_rseg.
  - cbn [as_memtable set_env]. by apply (target_below_memtable _ _ (reads_of st)).
  - do 5 (split; [done|]). split; [apply Forall_app; split|].
    + apply Forall_forall. intros s Hs. left. split; [done|]. apply rollup_rows_same, Hsame.
      intros j _ Heq%rseg_path_inj. by eapply Hfresh.
    + rewrite Forall_forall in Hsegs. apply Forall_forall. intros s (p & -> & Hp)%list_elem_of_fmap.
      right. by apply Hsegs.
    + intros sel. rewrite rolled_app, Hrows. unfold row_abs at 1. rewrite sumZ_app, Hold.
      apply Z.add_le_mono_l. apply (hours_abs sel); [done|lia|done].
Qed.

(** A tick rolls up exactly the window it seals: it advances the watermark
    from [start] to a target that no buffered event lies below, and adds, for
    every selection by key columns, exactly the quantity and the number of the
    stored raw events with a timestamp in [start, target); raw segments, the
    WAL, the memtable and the rollups written before are untouched. *)
Theorem tick_rolls_window draws rot now st :
  rollup_ready draws st →
  in_flight (reads_of st) = false →
  needs_force_drain (memtable_max_age_ms (as_config st)) now (reads_of st) = false →
  Forall (λ e, 0 ≤ ev_timestamp_ms e) (mt_events (as_memtable st)) →
  let target := target_hour (rollup_safety_lag_ms (as_config st)) now (reads_of st) in
  let start := start_watermark (as_manifest st) in
  start < target →
  ∃ st' stats, tick draws None rot now st = (st', Ok stats)
    ∧ m_hourly_rollup_ms (as_manifest st') = target
    ∧ (∀ sel,
        row_total sel (rolled (as_files st') (m_rollup_segments (as_manifest st')))
        = row_total sel (rolled (as_files st) (m_rollup_segments (as_manifest st)))
          + raw_total sel start target (Flush.stored (as_files st) (m_raw_segments (as_manifest st)))
        ∧ row_events sel (rolled (as_files st') (m_rollup_segments (as_manifest st')))
          = row_events sel (rolled (as_files st) (m_rollup_segments (as_manifest st)))
            + raw_events sel start target (Flush.stored (as_files st) (m_raw_segments (as_manifest st))))
    ∧ Flush.stored (as_files st') (m_raw_segments (as_manifest st'))
      = Flush.stored (as_files st) (m_raw_segments (as_manifest st))
    ∧ Forall (λ e, target ≤ ev_timestamp_ms e) (mt_events (as_memtable st'))
    ∧ (Man.load None (fe_manfs (as_env st'))).2 = Ok (Some (as_manifest st'))
    ∧ as_wal st' = as_wal st ∧ as_memtable st' = as_memtable st ∧ pending st' = pending st.
Proof.
  intros Hready Hif Hfd Hmt target start Hlt.
  destruct (tick_window draws rot now st Hready Hif Hfd Hmt Hlt)
    as (st' & stats & E & Hw & Hsel & Hst & Hopen & Hl & Hwal & Hmem & Hq & _).
  exists st', stats. repeat (split; [assumption|]). exact Hq.
Qed.

(** Rollups that are the rollup of [es] below the watermark, with metadata
    pruning can rely on. *)
Record rollups_of (st : AppState) (es : list UsageEvent) : Prop := {
  ro_aligned : (HOUR_MS | m_hourly_rollup_ms (as_manifest st));
  ro_totals sel :
    let rows := rolled (as_files st) (m_rollup_segments (as_manifest st)) in
    row_total sel rows = raw_total sel 0 (m_hourly_rollup_ms (as_manifest st)) es
    ∧ row_events sel rows = raw_events sel 0 (m_hourly_rollup_ms (as_manifest st)) es;
  ro_rows : Forall (λ s, placed (Z.max (m_bucket_count (as_manifest st)) 1) s (rollup_rows (as_files st) s))
              (m_rollup_segments (as_manifest st));
}.

(** The rollups of all that is stored, and nothing buffered below the
    watermark. *)
Record rollups_sound (st : AppState) : Prop := {
  rs_stored : rollups_of st (Flush.stored (as_files st) (m_raw_segments (as_manifest st)));
  rs_open : Forall (λ e, m_hourly_rollup_ms (as_manifest st) ≤ ev_timestamp_ms e) (mt_events (as_memtable st));
}.

(** Events at or above a mark are in no sum below it, events below it in none
    above it. *)
Lemma sum_above (f : UsageEvent → Z) from to es :
  Forall (λ e, to ≤ ev_timestamp_ms e) es → sumZ (λ e, if in_window from to e then f e else 0) es = 0.
Proof.
  intros H. apply sumZ_zero. intros e He. rewrite Forall_forall in H. specialize (H e He). unfold in_window.
  by rewrite (proj2 (Z.ltb_ge (ev_timestamp_ms e) to)), andb_false_r.
Qed.

Lemma sum_under (f : UsageEvent → Z) from to es :
  Forall (λ e, ev_timestamp_ms e < from) es → sumZ (λ e, if in_window from to e then f e else 0) es = 0.
Proof.
  intros H. apply sumZ_zero. intros e He. rewrite Forall_forall in H. specialize (H e He). unfold in_window.
  by rewrite (proj2 (Z.leb_gt from (ev_timestamp_ms e))).
Qed.

(** Rollups do not depend on the events above the watermark. *)
Lemma rollups_of_above st es es' extra :
  rollups_of st es → es' ≡ₚ es ++ extra →
  Forall (λ e, m_hourly_rollup_ms (as_manifest st) ≤ ev_timestamp_ms e) extra → rollups_of st es'.
Proof.
  intros [Hal Htot Hrows] Hp Hx. split; [done| |done]. intros sel. cbv zeta. destruct (Htot sel) as [-> ->].
  unfold raw_total, raw_events. rewrite Hp, !sumZ_app, !(sum_above _ _ _ extra Hx). split; lia.
Qed.

(** Where the window starts, nothing stored lies between the watermark and it. *)
Lemma start_covers st e :
  Forall (readable (as_files st)) (m_raw_segments (as_manifest st)) →
  0 ≤ start_watermark (as_manifest st) → 0 ≤ ev_timestamp_ms e →
  e ∈ Flush.stored (as_files st) (m_raw_segments (as_manifest st)) →
  start_watermark (as_manifest st) = m_hourly_rollup_ms (as_manifest st)
  ∨ m_hourly_rollup_ms (as_manifest st) = 0 ∧ start_watermark (as_manifest st) ≤ ev_timestamp_ms e.
Proof.
  intros Hr H0 He Hin. unfold start_watermark in *. case_match eqn:Ew; [right|by left]. zbool. split; [done|].
  apply list_elem_of_join in Hin as (es & Hes & (seg & -> & Hseg)%list_elem_of_fmap).
  rewrite Forall_forall in Hr. destruct (Hr seg Hseg) as [_ Hts]. specialize (Hts e Hes).
  destruct (sm_min_timestamp_ms <$> m_raw_segments (as_manifest st)) as [|x l] eqn:El.
  { by destruct (m_raw_segments (as_manifest st)); [apply not_elem_of_nil in Hseg|discriminate El]. }
  cbn [Mem.min_list from_option id] in *. set (m := foldl Z.min x l) in *.
  assert (m ≤ sm_min_timestamp_ms seg).
  { destruct (Mem.foldl_min_spec x l) as (Hx & Hl & _).
    assert (sm_min_timestamp_ms seg ∈ x :: l) as [->|?]%elem_of_cons; [|done|by apply Hl].
    rewrite <- El. by apply (list_elem_of_fmap_2 sm_min_timestamp_ms). }
  destruct (Z_lt_le_dec m 0) as [Hm|Hm].
  - enough (floor_hour m ≤ 0) by (cbn in *; lia). unfold floor_hour, HOUR_MS.
    pose proof (Z.quot_opp_l m 3600000 ltac:(lia)). pose proof (Z.quot_pos (- m) 3600000 ltac:(lia) ltac:(lia)). lia.
  - pose proof (floor_hour_le m Hm). cbn in *. lia.
Qed.

(** The totals below the watermark and those of the window add up to the
    totals below the target, over all stored events or a part of them. *)
Lemma totals_extend (f : UsageEvent → Z) st target es :
  Forall (readable (as_files st)) (m_raw_segments (as_manifest st)) →
  0 ≤ m_hourly_rollup_ms (as_manifest st) → 0 ≤ start_watermark (as_manifest st) < target →
  Forall (λ e, 0 ≤ ev_timestamp_ms e) es →
  (∀ e, e ∈ es → e ∈ Flush.stored (as_files st) (m_raw_segments (as_manifest st))) →
  sumZ (λ e, if in_window 0 (m_hourly_rollup_ms (as_manifest st)) e then f e else 0) es
  + sumZ (λ e, if in_window (start_watermark (as_manifest st)) target e then f e else 0) es
  = sumZ (λ e, if in_window 0 target e then f e else 0) es.
Proof.
  intros Hr Hw Hs Hts Hsub. rewrite <- sumZ_add. apply sumZ_ext. intros e He.
  rewrite Forall_forall in Hts. pose proof (Hts e He).
  destruct (start_covers st e Hr ltac:(lia) ltac:(auto) (Hsub e He)) as [Heq|[H0 Hle]].
  - unfold in_window. rewrite Heq in *. repeat zcase; cbn [andb]; lia.
  - unfold in_window. rewrite H0 in *. repeat zcase; cbn [andb]; lia.
Qed.

Lemma start_above st : 0 ≤ start_watermark (as_manifest st) →
  m_hourly_rollup_ms (as_manifest st) ≤ start_watermark (as_manifest st).
Proof. unfold start_watermark. intros H. case_match; zbool; lia. Qed.

(** What an advancing tick does: the rollups of the events they were the
    rollup of below the old watermark are the rollup of these events below the
    new one; late events, stored below the old watermark, stay out. *)
Lemma tick_exact draws rot now st es late :
  rollup_ready draws st → rollups_of st es →
  Flush.stored (as_files st) (m_raw_segments (as_manifest st)) ≡ₚ es ++ late →
  Forall (λ e, ev_timestamp_ms e < m_hourly_rollup_ms (as_manifest st)) late →
  in_flight (reads_of st) = false →
  needs_force_drain (memtable_max_age_ms (as_config st)) now (reads_of st) = false →
  Forall (λ e, 0 ≤ ev_timestamp_ms e) (mt_events (as_memtable st)) →
  Forall (λ e, 0 ≤ ev_timestamp_ms e) (Flush.stored (as_files st) (m_raw_segments (as_manifest st))) →
  0 ≤ m_hourly_rollup_ms (as_manifest st) → 0 ≤ start_watermark (as_manifest st) →
  start_watermark (as_manifest st) < target_hour (rollup_safety_lag_ms (as_config st)) now (reads_of st) →
  ∃ st' stats, tick draws None rot now st = (st', Ok stats)
    ∧ m_hourly_rollup_ms (as_manifest st) < m_hourly_rollup_ms (as_manifest st')
    ∧ rollups_of st' es
    ∧ Forall (λ e, m_hourly_rollup_ms (as_manifest st') ≤ ev_timestamp_ms e) (mt_events (as_memtable st'))
    ∧ Flush.stored (as_files st') (m_raw_segments (as_manifest st'))
      = Flush.stored (as_files st) (m_raw_segments (as_manifest st))
    ∧ as_memtable st' = as_memtable st ∧ pending st' = pending st
    ∧ m_raw_segments (as_manifest st') = m_raw_segments (as_manifest st)
    ∧ m_hourly_rollup_ms (as_manifest st')
      = target_hour (rollup_safety_lag_ms (as_config st)) now (reads_of st)
    ∧ Forall (λ s, s ∈ m_rollup_segments (as_manifest st)
                   ∨ sm_min_timestamp_ms s
                       ∈ hours_between (start_watermark (as_manifest st)) (m_hourly_rollup_ms (as_manifest st'))
                     ∧ sm_max_timestamp_ms s = sm_min_timestamp_ms s + HOUR_MS - 1)
        (m_rollup_segments (as_manifest st'))
    ∧ (∀ sel, row_abs sel (rolled (as_files st') (m_rollup_segments (as_manifest st')))
              ≤ row_abs sel (rolled (as_files st) (m_rollup_segments (as_manifest st)))
                + raw_abs sel (start_watermark (as_manifest st)) (m_hourly_rollup_ms (as_manifest st'))
                    (Flush.stored (as_files st) (m_raw_segments (as_manifest st)))).
Proof.
  intros Hready [Hal Htot Hrows] Hperm Hlate Hif Hfd Hmt Hst Hwm Hs0 Hlt.
  destruct (tick_window draws rot now st Hready Hif Hfd Hmt Hlt)
    as (st' & stats & E & Hw & Hsel & Hstored & Hopen' & _ & _ & Hmem & Hq & Hbc & Hraw & Hsegs & Habs).
  exists st', stats. split; [exact E|]. rewrite Hw. pose proof (start_above st Hs0) as Hsa.
  split; [lia|]. split; [split|].
  - rewrite Hw. apply target_divides.
  - intros sel. cbv zeta. rewrite Hw. destruct (Hsel sel) as [-> ->]. destruct (Htot sel) as [-> ->].
    assert (Forall (λ e, ev_timestamp_ms e < start_watermark (as_manifest st)) late) as Hl
      by (eapply Forall_impl; [exact Hlate|]; cbn; lia).
    assert (Forall (λ e, 0 ≤ ev_timestamp_ms e) es) as Hes by (rewrite Hperm in Hst; by apply Forall_app in Hst as [? _]).
    unfold raw_total, raw_events. rewrite Hperm, !sumZ_app, !(sum_under _ _ _ late Hl), !Z.add_0_r.
    split; apply totals_extend; try done; try (by apply (ready_segments _ _ Hready));
      intros e He; rewrite Hperm; apply elem_of_app; by left.
  - rewrite Hbc. rewrite Forall_forall in Hrows. eapply Forall_impl; [exact Hsegs|].
    intros s [[Hin ->]|(Hmin & _ & Hp)]; [by apply Hrows|].
    apply hours_between_elem in Hmin as (k & Hk & _). apply Hp; rewrite Hk; [unfold HOUR_MS; lia|].
    apply Z.divide_add_r; [apply (ready_aligned _ _ Hready)|]. apply Z.divide_factor_l.
  - do 6 (split; [done|]). split; [|exact Habs].
    eapply Forall_impl; [exact Hsegs|]. intros s [[? _]|(? & ? & _)]; [by left|by right].
Qed.

(** Ticks keep the rollups exact: if the rollups are the rollup of the
    stored events below the watermark, with metadata pruning can rely on and
    nothing buffered below it, they still are after a tick that advances it. *)
Theorem tick_keeps_rollups_exact draws rot now st :
  rollup_ready draws st → rollups_sound st →
  in_flight (reads_of st) = false →
  needs_force_drain (memtable_max_age_ms (as_config st)) now (reads_of st) = false →
  Forall (λ e, 0 ≤ ev_timestamp_ms e) (mt_events (as_memtable st)) →
  Forall (λ e, 0 ≤ ev_timestamp_ms e) (Flush.stored (as_files st) (m_raw_segments (as_manifest st))) →
  0 ≤ m_hourly_rollup_ms (as_manifest st) → 0 ≤ start_watermark (as_manifest st) →
  start_watermark (as_manifest st) < target_hour (rollup_safety_lag_ms (as_config st)) now (reads_of st) →
  ∃ st' stats, tick draws None rot now st = (st', Ok stats)
    ∧ m_hourly_rollup_ms (as_manifest st) < m_hourly_rollup_ms (as_manifest st')
    ∧ rollups_sound st'.
Proof.
  intros Hr [Hs Ho] Hif Hfd Hmt Hst Hwm Hs0 Hlt.
  destruct (tick_exact draws rot now st _ [] Hr Hs) as (st' & stats & E & Hw & Hs' & Ho' & Est & _); try done; [by rewrite app_nil_r|].
  exists st', stats. split; [done|]. split; [done|]. split; [by rewrite Est|done].
Qed.

Lemma roll_hours_no_segments draws i files bc al hours acc :
  roll_hours draws i files bc al [] hours acc = (files, Ok acc).
Proof. induction hours as [|h hours IH]; [done|]. exact IH. Qed.

(** The tick reads the manifest, the WAL id and the memtable under three
    separate locks.  If an ingest drains the memtable between the second and
    the third, nothing stops the watermark: it moves past the drained events
    although they are in no segment the tick has seen, and they stay out of
    the rollups. *)
Theorem tick_race_passes_drained st st1 msg e draws rot now :
  drain_and_rotate None true true st = (st1, Ok msg) →
  m_raw_segments (as_manifest st) = [] →
  0 ≤ m_current_generation (as_manifest st) < u64_max →
  in_flight (reads_of st) = false →
  let reads := MkTickReads (as_manifest st) (active_id (as_wal st)) (as_memtable st1) (as_memtable st1) in
  let target := floor_hour (now - rollup_safety_lag_ms (as_config st)) in
  e ∈ fm_events msg →
  start_watermark (as_manifest st) ≤ ev_timestamp_ms e < target →
  ∃ st2 stats, tick_with reads draws None rot now (hand_over msg st1) = (st2, Ok stats)
    ∧ ev_timestamp_ms e < m_hourly_rollup_ms (as_manifest st2)
    ∧ m_rollup_segments (as_manifest st2) = m_rollup_segments (as_manifest st)
    ∧ e ∈ mjoin (fm_events <$> pending st2).
Proof.
  intros Hdr Hraw Hg Hif reads target He Hts. unfold drain_and_rotate, Mem.drain_all in Hdr.
  destruct (WalOps.rotate None true true (as_walfs st) (as_wal st)) as [[fs w] r].
  destruct r as [sealed| |]; try discriminate Hdr. injection Hdr as <- <-.
  unfold tick_with. change (in_flight reads) with (in_flight (reads_of st)). rewrite Hif.
  change (needs_force_drain _ now reads) with false. cbv iota.
  change (target_hour (rollup_safety_lag_ms _) now reads) with target.
  change (tr_manifest reads) with (as_manifest st).
  rewrite (proj2 (Z.leb_gt _ _)) by lia. rewrite Hraw, roll_hours_no_segments.
  unfold commit_rollups. cbn [fmap list_fmap hand_over as_env set_walfs fe_manifest fe_manfs].
  destruct (Man.save_then_load None (fe_manfs (as_env st))
    (set_watermark target (set_rollup_segments (m_rollup_segments (fe_manifest (as_env st)) ++ [])
       (fe_manifest (as_env st))))) as (manfs & -> & _); [exact Hg|].
  eexists _, _. split; [reflexivity|]. cbn. split; [lia|]. split; [by rewrite app_nil_r|].
  unfold pending. cbn. rewrite app_assoc, fmap_app, join_app. apply elem_of_app. right. cbn. by rewrite app_nil_r.
Qed.

(** Rebuilding from a time that is not on the hour leaves a hole: the
    rollup of the hour it cuts is dropped, the watermark is set inside that
    hour, and no hour a later tick rolls up contains the events between the
    start of the hour and the given time. *)
Theorem rebuild_unaligned_leaves_hole env seg hour from_ms to_ms :
  seg ∈ m_rollup_segments (fe_manifest env) →
  sm_min_timestamp_ms seg = hour → sm_max_timestamp_ms seg = hour + HOUR_MS - 1 →
  hour < from_ms < hour + HOUR_MS → from_ms < to_ms →
  from_ms < m_hourly_rollup_ms (fe_manifest env) →
  0 ≤ m_current_generation (fe_manifest env) < u64_max →
  ∃ env' n, rebuild_rollups None from_ms to_ms env = (env', Ok n)
    ∧ (seg ∉ m_rollup_segments (fe_manifest env'))
    ∧ m_hourly_rollup_ms (fe_manifest env') = from_ms
    ∧ ∀ target h ts, h ∈ hours_between from_ms target → hour ≤ ts < from_ms → ts < h.
Proof.
  intros Hin Hmin Hmax Hf Ht Hw Hg. unfold rebuild_rollups.
  match goal with |- context [Man.save None _ ?m] =>
    destruct (Man.save_then_load None (fe_manfs env) m) as (manfs & -> & _) end.
  { by destruct (from_ms <? _). }
  eexists _, _. split; [reflexivity|]. cbn [fe_manifest].
  cbn [m_hourly_rollup_ms set_rollup_segments]. rewrite (proj2 (Z.ltb_lt _ _)) by lia.
  cbn [set_generation set_watermark set_rollup_segments m_rollup_segments m_hourly_rollup_ms].
  split; [|split; [done|]].
  - intros [Hk _]%list_elem_of_filter. rewrite Hmin, Hmax in Hk.
    rewrite (proj2 (Z.ltb_lt _ _)), (proj2 (Z.leb_le _ _)) in Hk by lia. discriminate Hk.
  - intros target h ts (j & -> & _)%hours_between_elem Hts. unfold HOUR_MS. lia.
Qed.
End worker.
End RW.

(** ** Witnesses *)
Module RollupExample.
#[local] Existing Instances poly_digest code_bincode stored_codecs ManExample.text_manifest.
#[local] Existing Instances poly_digest_ok code_bincode_ok stored_codecs_ok ManExample.text_manifest_ok.
#[local] Existing Instances Files.file_segments Files.file_segments_ok Roll.plain_dims.

(** One event at 01:01:40, rolled up at 02:01:40 with a lag of a minute. *)
Definition ev : UsageEvent := sample_event "a" "acct_1" 3700000 5.
Definition now : Z := 7300000.
Definition cfg : Config := MkConfig 1000 10 4 30 60000 60 30000 16 Strict 60000.

Definition raw_file : bytes := match seg_write [ev] with Ok (bs, _, _) => bs | _ => [] end.
Definition raw_meta : SegmentMeta := build_segment_meta "raw_a" [ev] 2 0.

Definition st1 : AppState :=
  MkAppState
    (MkFlushEnv {[seg_path "raw_a" := raw_file]} ManExample.empty_man
       (set_raw_segments [raw_meta] ManExample.gen0) (WalOps.open WalOps.empty_fs 0).1)
    (WalOps.open WalOps.empty_fs 0).2 Mem.new (Hot.new 10) [] [] cfg.

Definition draws (i : nat) : string * option rw_fault := (FlushExample.uuid_of i, None).

Lemma rollup_raw_at : Flush.seg_at (as_files st1) raw_meta [ev].
Proof. eexists. split; [reflexivity|]. vm_compute. reflexivity. Qed.

Lemma stored1 : Flush.stored (as_files st1) (m_raw_segments (as_manifest st1)) = [ev].
Proof.
  change (Flush.stored (as_files st1) (m_raw_segments (as_manifest st1)))
    with (Flush.seg_events (as_files st1) raw_meta ++ []).
  by rewrite (Flush.seg_at_events _ _ _ rollup_raw_at).
Qed.

Lemma ready1 : RW.rollup_ready draws st1.
Proof.
  split.
  - apply Forall_singleton. unfold RW.readable. rewrite (Flush.seg_at_events _ _ _ rollup_raw_at).
    split; [apply rollup_raw_at|]. intros e ->%list_elem_of_singleton. by vm_compute.
  - rewrite stored1. by vm_compute.
  - exists 1. reflexivity.
  - constructor.
  - rewrite stored1. intros l Hl. apply submseteq_Permutation in Hl as [k Hp].
    assert (l = [] ∨ l = [ev]) as [->| ->].
    { destruct l as [|x [|y l]]; [by left| |].
      - right. apply Permutation_length in Hp as Hlen. destruct k; [|discriminate Hlen].
        rewrite app_nil_r in Hp. by apply Permutation_singleton_l in Hp as ->.
      - apply Permutation_length in Hp. discriminate Hp. }
    + constructor.
    + apply Forall_singleton. split; [by vm_compute|]. intros data E. vm_compute in E. by injection E as <-.
  - split; [done|]. intros i j. apply FlushExample.uuid_of_inj.
  - intros s i Hs. by apply not_elem_of_nil in Hs.
  - by vm_compute.
Qed.

Lemma tick_rolls_window_witness :
  ∃ st' stats, RW.tick draws None (None, true, true) now st1 = (st', Ok stats)
    ∧ m_hourly_rollup_ms (as_manifest st') = 7200000
    ∧ RW.row_total (λ _, true) (RW.rolled (as_files st') (m_rollup_segments (as_manifest st'))) = 5.
Proof.
  destruct (RW.tick_rolls_window draws (None, true, true) now st1) as (st' & stats & E & Hw & Hsel & _).
  - apply ready1.
  - reflexivity.
  - reflexivity.
  - constructor.
  - vm_compute. reflexivity.
  - exists st', stats. split; [exact E|]. split; [exact Hw|].
    destruct (Hsel (λ _, true)) as [-> _]. rewrite stored1. vm_compute. reflexivity.
Defined.

Lemma tick_keeps_rollups_exact_witness :
  ∃ st' stats, RW.tick draws None (None, true, true) now st1 = (st', Ok stats)
    ∧ m_hourly_rollup_ms (as_manifest st1) < m_hourly_rollup_ms (as_manifest st') ∧ RW.rollups_sound st'.
Proof.
  apply (RW.tick_keeps_rollups_exact draws (None, true, true) now st1).
  - apply ready1.
  - split; [split; [by exists 0| |constructor]|constructor]. intros sel. rewrite stored1. split; reflexivity.
  - reflexivity.
  - reflexivity.
  - constructor.
  - rewrite stored1. apply Forall_singleton. by vm_compute.
  - by vm_compute.
  - by vm_compute.
  - by vm_compute.
Defined.

(** The same event still in the memtable of an otherwise empty database. *)
Definition st0 : AppState :=
  MkAppState
    (MkFlushEnv ∅ ManExample.empty_man ManExample.gen0 (WalOps.open WalOps.empty_fs 0).1)
    (WalOps.open WalOps.empty_fs 0).2 (MkMemtable [ev] 100 (Some 7299000)) (Hot.new 10) [] [] cfg.

Lemma tick_race_passes_drained_witness :
  ∃ st2 stats,
    RW.tick_with
      (RW.MkTickReads (as_manifest st0) (active_id (as_wal st0))
         (as_memtable (drain_and_rotate None true true st0).1) (as_memtable (drain_and_rotate None true true st0).1))
      draws None (None, true, true) now
      (hand_over (MkFlushMessage [ev] 1) (drain_and_rotate None true true st0).1) = (st2, Ok stats)
    ∧ ev_timestamp_ms ev < m_hourly_rollup_ms (as_manifest st2)
    ∧ m_rollup_segments (as_manifest st2) = []
    ∧ ev ∈ mjoin (fm_events <$> pending st2).
Proof.
  apply (RW.tick_race_passes_drained st0 (drain_and_rotate None true true st0).1 (MkFlushMessage [ev] 1) ev
           draws (None, true, true) now).
  - reflexivity.
  - reflexivity.
  - by vm_compute.
  - reflexivity.
  - left.
  - by vm_compute.
Defined.

Lemma rebuild_unaligned_leaves_hole_witness :
  let seg := RW.build_rollup_segment_meta "rollup_x" [] 2 0 3600000 7199999 0 [] in
  let m := set_watermark 7200000 (set_rollup_segments [seg] ManExample.gen0) in
  ∃ env' n, RW.rebuild_rollups None 5000000 6000000 (MkFlushEnv ∅ ManExample.empty_man m (MkWalFs ∅ ∅)) = (env', Ok n)
    ∧ m_hourly_rollup_ms (fe_manifest env') = 5000000
    ∧ ∀ target h ts, h ∈ RW.hours_between 5000000 target → 3600000 ≤ ts < 5000000 → ts < h.
Proof.
  cbv zeta.
  match goal with |- context [RW.rebuild_rollups None 5000000 6000000 ?e] =>
    destruct (RW.rebuild_unaligned_leaves_hole e
      (RW.build_rollup_segment_meta "rollup_x" [] 2 0 3600000 7199999 0 []) 3600000 5000000 6000000)
      as (env' & n & E & _ & Hw & Hh) end.
  - left.
  - reflexivity.
  - reflexivity.
  - by vm_compute.
  - lia.
  - by vm_compute.
  - by vm_compute.
  - exists env', n. split; [exact E|]. split; [exact Hw|exact Hh].
Defined.
End RollupExample.
