(* ===== verification/Shutdown.v ===== *)
(** * Shutting down

    The end of [run_server] in [src/main.rs]: the shutdown drain, and the
    protocol between the main task, the flusher and the two workers.  The
    flush channel closes when the last [Arc] of the shared state is dropped,
    because the sender is a field of that state ([src/runtime/state.rs]); the
    flusher's loop ends when the channel is closed and empty
    ([FlusherWorker::run] of [src/ingest/flusher.rs]). *)

From Stdlib Require Import Ascii.
From stdpp Require Import sorting numbers strings base gmap list.
From S2P Require Import Prelude Model Instances Encoding Segment SegmentSpec DedupeIndex SegmentApi.
From S2P Require Import Memtable Dedupe Wal Manifest Period Flusher Compaction State Ingest Recovery System.
From S2P Require Import Rollup RollupWorker.

(** Where the main task is behind [start_server]; [Sending]: it waits for its
    drained message to be taken. *)
Inductive MainPc := Served | Sending (msg : FlushMessage) | Drained | Notified | Joining | Exited.

(** A worker's loop: in [select!], inside a tick, at the end of a tick that
    waits to send the message it drained, woken by the notification, gone. *)
Inductive WorkerPc := InSelect | Ticking | Waiting | Woken | Stopped.

#[export] Instance WorkerPc_eq_dec : EqDecision WorkerPc.
Proof. solve_decision. Defined.

Record Tasks := MkTasks {
  tk_state : AppState;
  tk_main : MainPc;
  tk_main_holds : bool;
  tk_flusher_runs : bool;
  tk_rollup : WorkerPc;
  tk_compaction : WorkerPc;
}.

Module Shut.
Section shut.
Context {BL : Blake3} {BN : Bincode} {SJ : SerdeJson} {RS : RawSegments} {MJ : ManifestJson} {CH : Chrono}.
Context {DJ : DimJson} (size_of_event : Z).

(** [drain_msg]: a failed rotation loses the message; the events are still in
    the log. *)
Definition shutdown_drain (rot : budget * bool * bool) (st : AppState) : AppState * option FlushMessage :=
  if Mem.is_empty (as_memtable st) then (st, None)
  else
    match drain_and_rotate rot.1.1 rot.1.2 rot.2 st with
    | (st, Ok msg) => (hand_over msg st, Some msg)
    | (st, _) => (st, None)
    end.

Definition after_drain (drain_msg : option FlushMessage) : MainPc :=
  match drain_msg with Some msg => Sending msg | None => Drained end.

(** A tick that drained the memtable has a message to send. *)
Definition after_tick (st st' : AppState) : WorkerPc :=
  if (length (as_sending st) <? length (as_sending st'))%nat then Waiting else InSelect.

Definition runs (w : WorkerPc) : bool := negb (bool_decide (w = Stopped)).

(** The holders of the shared state, each of which keeps the sender alive. *)
Definition senders (t : Tasks) : nat :=
  length (filter (λ b, b = true) [tk_main_holds t; tk_flusher_runs t; runs (tk_rollup t); runs (tk_compaction t)]).

(** [notify_waiters] wakes the workers that are waiting, and nobody else. *)
Definition notify (w : WorkerPc) : WorkerPc := match w with InSelect => Woken | _ => w end.

Definition set_state (st : AppState) (t : Tasks) : Tasks :=
  MkTasks st (tk_main t) (tk_main_holds t) (tk_flusher_runs t) (tk_rollup t) (tk_compaction t).

Definition flush_head (now : Z) (draws : nat → string * option wb_fault) (sfault : Man.save_fault)
    (msg : FlushMessage) (q : list FlushMessage) (st : AppState) : AppState :=
  let '(env, memtable) := Flush.handle_message size_of_event now draws sfault (as_env st) (as_memtable st)
                            (fm_events msg) (fm_sealed_wal_id msg) in
  MkAppState env (as_wal st) memtable (as_dedupe st) q (as_sending st) (as_config st).

Inductive step (t : Tasks) : Tasks → Prop :=
| main_drains rot :
    tk_main t = Served →
    step t (MkTasks (shutdown_drain rot (tk_state t)).1 (after_drain (shutdown_drain rot (tk_state t)).2) (tk_main_holds t)
              (tk_flusher_runs t) (tk_rollup t) (tk_compaction t))
| main_sends i msg :
    tk_main t = Sending msg → as_sending (tk_state t) !! i = Some msg → can_send (tk_state t) = true →
    step t (MkTasks (send (tk_flusher_runs t) i (tk_state t)) Drained (tk_main_holds t) (tk_flusher_runs t)
              (tk_rollup t) (tk_compaction t))
| main_notifies :
    tk_main t = Drained →
    step t (MkTasks (tk_state t) Notified (tk_main_holds t) (tk_flusher_runs t)
              (notify (tk_rollup t)) (notify (tk_compaction t)))
| main_drops :
    tk_main t = Notified →
    step t (MkTasks (tk_state t) Joining false (tk_flusher_runs t) (tk_rollup t) (tk_compaction t))
| main_joins :
    tk_main t = Joining → tk_flusher_runs t = false → tk_rollup t = Stopped → tk_compaction t = Stopped →
    step t (MkTasks (tk_state t) Exited (tk_main_holds t) (tk_flusher_runs t) (tk_rollup t) (tk_compaction t))
| flusher_takes now draws sfault msg q :
    tk_flusher_runs t = true → as_queue (tk_state t) = msg :: q →
    step t (set_state (flush_head now draws sfault msg q (tk_state t)) t)
| flusher_ends :
    tk_flusher_runs t = true → as_queue (tk_state t) = [] → senders t = 0%nat →
    step t (MkTasks (tk_state t) (tk_main t) (tk_main_holds t) false (tk_rollup t) (tk_compaction t))
| rollup_ticks :
    tk_rollup t = InSelect →
    step t (MkTasks (tk_state t) (tk_main t) (tk_main_holds t) (tk_flusher_runs t) Ticking (tk_compaction t))
| rollup_ticked reads draws sfault rot now :
    tk_rollup t = Ticking →
    let st' := (RW.tick_with reads draws sfault rot now (tk_state t)).1 in
    step t (MkTasks st' (tk_main t) (tk_main_holds t) (tk_flusher_runs t) (after_tick (tk_state t) st') (tk_compaction t))
| rollup_sends i msg :
    tk_rollup t = Waiting → as_sending (tk_state t) !! i = Some msg → tk_main t ≠ Sending msg →
    can_send (tk_state t) = true →
    step t (MkTasks (send (tk_flusher_runs t) i (tk_state t)) (tk_main t) (tk_main_holds t) (tk_flusher_runs t) InSelect
              (tk_compaction t))
| rollup_ends :
    tk_rollup t = Woken →
    step t (MkTasks (tk_state t) (tk_main t) (tk_main_holds t) (tk_flusher_runs t) Stopped (tk_compaction t))
| compaction_ticks :
    tk_compaction t = InSelect →
    step t (MkTasks (tk_state t) (tk_main t) (tk_main_holds t) (tk_flusher_runs t) (tk_rollup t) Ticking)
| compaction_ticked now sweep_fault draws sfaults :
    tk_compaction t = Ticking →
    step t (MkTasks (set_env (Compact.tick (compaction_max_small_segments (as_config (tk_state t)))
                        (compaction_grace_ms (as_config (tk_state t))) now sweep_fault draws sfaults
                        (as_env (tk_state t))).1 (tk_state t))
              (tk_main t) (tk_main_holds t) (tk_flusher_runs t) (tk_rollup t) InSelect)
| compaction_ends :
    tk_compaction t = Woken →
    step t (MkTasks (tk_state t) (tk_main t) (tk_main_holds t) (tk_flusher_runs t) (tk_rollup t) Stopped).

(** When the HTTP server has returned: its handlers are done, and a message
    that still waits is the rollup worker's. *)
Definition served (st : AppState) : Tasks :=
  MkTasks st Served true true (if bool_decide (as_sending st = []) then InSelect else Waiting) InSelect.

(** C40: shutdown does not end: the flusher waits for the channel to close, the
    channel stays open as long as anyone holds the shared state, and the
    flusher itself holds it, so the main task never gets past the wait for the
    flusher, whatever the interleaving. *)
Theorem shutdown_never_exits st t : rtc step (served st) t → tk_main t ≠ Exited ∧ tk_flusher_runs t = true.
Proof.
  intros Hr. assert (tk_main (served st) ≠ Exited ∧ tk_flusher_runs (served st) = true) as H0 by done.
  revert H0. generalize dependent (served st). intros a. induction 1 as [|a b c Hs _ IH]; [done|].
  intros [Hm Hf]. apply IH. clear IH.
  destruct Hs; cbn; try done; [by destruct (shutdown_drain _ _).2|congruence|]. exfalso. unfold senders in *. rewrite Hf in *.
  destruct (tk_main_holds a); discriminate.
Qed.

(** ** What the drain achieves *)
Context {SJok : SerdeJsonOk} {RSok : RawSegmentsOk} {MJok : ManifestJsonOk}.

(** What waits is sent in order, and the flusher works through its queue
    without faults. *)
Definition flushes (st st' : AppState) : Prop :=
  can_send st = true ∧ st' = send true 0 st
  ∨ ∃ now draws msg q, as_queue st = msg :: q ∧ Flush.good_draws draws ∧ Flush.fresh_for draws (as_manifest st)
    ∧ Forall (λ p, seg_fits (sort_events_canonical p.2)) (Flush.flush_groups (as_env st) (fm_events msg))
    ∧ 0 ≤ m_current_generation (as_manifest st) < u64_max
    ∧ st' = flush_head now draws None msg q st.

Lemma flushes_inv st st' acked :
  flushes st st' → Sys.sys_inv st acked → mt_events (as_memtable st) = [] →
  Sys.sys_inv st' acked ∧ mt_events (as_memtable st') = [].
Proof.
  intros [[_ ->]|(now & draws & msg & q & Hq & Hd & Hf & Hs & Hg & ->)] Hi Hm.
  { split; [by apply Sys.inv_send|]. by rewrite (proj1 (proj2 (proj2 (Sys.send_same 0 st)))). }
  split.
  - exact (Sys.inv_flush size_of_event now draws msg q st acked Hi Hq Hd Hf Hs Hg).
  - unfold flush_head, Flush.handle_message. case_bool_decide; [done|].
    by destruct (Flush.flush_effect draws (as_env st) (fm_events msg) (fm_sealed_wal_id msg) Hd Hf Hs Hg) as (env & -> & _).
Qed.

Lemma flush_run_inv st st' acked :
  rtc flushes st st' → Sys.sys_inv st acked ∧ mt_events (as_memtable st) = [] →
  Sys.sys_inv st' acked ∧ mt_events (as_memtable st') = [].
Proof. induction 1 as [|a b c Hs _ IH]; [done|]. intros [Ha Hm]. apply IH. by eapply flushes_inv. Qed.

Lemma drain_inv rot st acked :
  Sys.sys_inv st acked → active_id (as_wal st) < u64_max →
  (∃ st1 msg, drain_and_rotate rot.1.1 rot.1.2 rot.2 st = (st1, Ok msg)) →
  Sys.sys_inv (shutdown_drain rot st).1 acked ∧ mt_events (as_memtable (shutdown_drain rot st).1) = [].
Proof.
  intros Hi Hmax (st1 & msg & E). unfold shutdown_drain, Mem.is_empty. case_bool_decide as He; [done|].
  rewrite E. split; [by apply (Sys.inv_drain rot.1.1 rot.1.2 rot.2 st st1 msg)|]. unfold drain_and_rotate in E.
  cbn [Mem.drain_all] in E. destruct (WalOps.rotate _ _ _ _ _) as [[fs w] [id| |]]; by injection E as <- _.
Qed.

End shut.
End Shut.

Module ShutExample.
#[local] Existing Instances poly_digest code_bincode stored_codecs poly_digest_ok code_bincode_ok stored_codecs_ok.
#[local] Existing Instances Files.file_segments Files.file_segments_ok text_json text_json_ok.
#[local] Existing Instances ManExample.text_manifest ManExample.text_manifest_ok Per.flat_calendar Roll.plain_dims.

Definition joining : Tasks := MkTasks SystemExample.st2 Joining false true Stopped Stopped.

Lemma drained : Shut.shutdown_drain (None, true, true) SystemExample.st1 = (SystemExample.st1, None).
Proof. unfold Shut.shutdown_drain. replace (Mem.is_empty (as_memtable SystemExample.st1)) with true; [done|]. vm_compute. reflexivity. Qed.

Lemma sending1 : bool_decide (as_sending SystemExample.st1 = []) = true.
Proof. vm_compute. reflexivity. Qed.

Lemma drains : Shut.step 200 (Shut.served SystemExample.st1) (MkTasks SystemExample.st1 Drained true true InSelect InSelect).
Proof.
  pose proof (Shut.main_drains 200 (Shut.served SystemExample.st1) (None, true, true) eq_refl) as H.
  cbn [Shut.served tk_state tk_main_holds tk_flusher_runs tk_rollup tk_compaction] in H. rewrite drained in H.
  rewrite sending1 in H. exact H.
Qed.

(** Drained, notified, dropped; the flusher has emptied its queue and both
    workers are gone: the main task still waits. *)
Lemma waiting : rtc (Shut.step 200) (Shut.served SystemExample.st1) joining.
Proof.
  eapply rtc_l; [exact drains|].
  eapply rtc_l; [apply Shut.main_notifies; reflexivity|]. eapply rtc_l; [apply Shut.main_drops; reflexivity|].
  eapply rtc_l; [apply Shut.rollup_ends; reflexivity|]. eapply rtc_l; [apply Shut.compaction_ends; reflexivity|].
  apply rtc_once.
  refine (Shut.flusher_takes 200 (MkTasks SystemExample.st1 Joining false true Stopped Stopped) 2500
    FlushExample.good None SystemExample.msg [] _ SystemExample.queue1). reflexivity.
Qed.

Lemma shutdown_never_exits_witness : tk_main joining ≠ Exited.
Proof. apply (Shut.shutdown_never_exits 200 SystemExample.st1 joining). exact waiting. Defined.

End ShutExample.
