(* ===== verification/Query.v ===== *)
(** * Queries

    [src/query/plan.rs] and [src/query/executor.rs]: a plan selects events of
    the raw segments and the memtable, or rollup rows below the watermark with
    a raw tail, prunes segments by their metadata and aggregates. *)

From Stdlib Require Import Ascii.
From stdpp Require Import sorting numbers strings base gmap list.
From S2P Require Import Prelude Model Instances Encoding Segment SegmentSpec DedupeIndex SegmentApi.
From S2P Require Import Memtable Dedupe Wal Manifest Flusher State Rollup RollupWorker.

Inductive QuerySource := RawEvents | RollupHourly.

Record QueryFilter := MkQueryFilter { qf_field : string; qf_values : list string }.

Inductive AggregationFunction := Sum | Count.

Record QueryPlan := MkQueryPlan {
  qp_source : QuerySource;
  qp_account_id : option string;
  qp_from_ms : Z;
  qp_to_ms : Z;
  qp_filters : list QueryFilter;
  qp_group_by : list string;
  qp_metrics : gmap string AggregationFunction;
  qp_limit : option nat;
}.

(** The JSON values the executor builds. *)
Inductive QValue := VString (s : string) | VNumber (n : Z).
Inductive QRow := RowEvent (e : UsageEvent) | RowNull | RowObject (fields : gmap string QValue).

(** The integers a [serde_json::Value] holds: those of i64 and of u64. *)
Definition json_number (z : Z) : bool := (i64_min <=? z) && (z <=? u64_max).

(** [serde_json::from_str] on canonical dimensions, an inverse of [dim_json]. *)
Class DimParse := dim_parse : string → option SmallDimensions.
Class DimJsonOk `{!DimJson, !DimParse} : Prop := {
  dim_total d : is_Some (dim_json d);
  dim_roundtrip d s : dim_json d = Some s → dim_parse s = Some d;
}.

Module Exec.
(** ** Matching *)
Definition kind_name (k : EventKind) : string :=
  match k with Usage => "Usage" | Correction => "Correction" | Retraction => "Retraction" end.

(** The value a filter on [field] looks at; [None] fails the filter. *)
Definition field_value (field : string) (e : UsageEvent) : option string :=
  if String.eqb field "account_id" then Some (ev_account_id e)
  else if String.eqb field "subscription_id" then ev_subscription_id e
  else if String.eqb field "product_id" then Some (ev_product_id e)
  else if String.eqb field "meter_id" then Some (ev_meter_id e)
  else if String.eqb field "model_id" then ev_model_id e
  else if String.eqb field "source" then Some (ev_source e)
  else if String.eqb field "unit" then Some (ev_unit e)
  else if String.eqb field "kind" then Some (kind_name (ev_kind e))
  else inner (ev_dimensions e) !! field.

Definition filter_ok (f : QueryFilter) (e : UsageEvent) : bool :=
  match field_value (qf_field f) e with
  | Some v => existsb (String.eqb v) (qf_values f)
  | None => false
  end.

Definition matches_plan (plan : QueryPlan) (e : UsageEvent) : bool :=
  if (ev_timestamp_ms e <? qp_from_ms plan) || (qp_to_ms plan <=? ev_timestamp_ms e) then false
  else if match qp_account_id plan with Some account => negb (String.eqb (ev_account_id e) account) | None => false end
  then false
  else forallb (λ f, filter_ok f e) (qp_filters plan).

Definition floor_day (ts : Z) : Z := Z.quot ts 86400000 * 86400000.

Definition group_key_value (field : string) (e : UsageEvent) : string :=
  if String.eqb field "account_id" then ev_account_id e
  else if String.eqb field "subscription_id" then default "" (ev_subscription_id e)
  else if String.eqb field "product_id" then ev_product_id e
  else if String.eqb field "meter_id" then ev_meter_id e
  else if String.eqb field "model_id" then default "" (ev_model_id e)
  else if String.eqb field "source" then ev_source e
  else if String.eqb field "unit" then ev_unit e
  else if String.eqb field "hour_start_ms" then to_string_i (floor_hour (ev_timestamp_ms e))
  else if String.eqb field "day" then to_string_i (floor_day (ev_timestamp_ms e))
  else if String.eqb field "kind" then kind_name (ev_kind e)
  else default "" (inner (ev_dimensions e) !! field).

(** ** Pruning *)
Definition filter_intersects (filters : list QueryFilter) (field : string) (ids : gset string) : bool :=
  let values := mjoin (qf_values <$> filter (λ f, qf_field f = field) filters) in
  bool_decide (values = []) || existsb (λ x, bool_decide (x ∈ values)) (elements ids).

Section prune.
Context {BL : Blake3}.

Definition account_pruned (s : SegmentMeta) (account : string) (bucket_count : Z) : bool :=
  negb (sm_bucket s =? bucket_for_account account bucket_count)
  || match sm_min_account_id s, sm_max_account_id s with
     | Some lo, Some hi => str_ltb account lo || str_ltb hi account
     | _, _ => false
     end.

Definition segment_overlaps_plan (s : SegmentMeta) (plan : QueryPlan) (from_ms to_ms bucket_count : Z) : bool :=
  if negb ((sm_min_timestamp_ms s <? to_ms) && (from_ms <=? sm_max_timestamp_ms s)) then false
  else if match qp_account_id plan with Some a => account_pruned s a bucket_count | None => false end then false
  else filter_intersects (qp_filters plan) "product_id" (sm_product_ids s)
       && filter_intersects (qp_filters plan) "meter_id" (sm_meter_ids s)
       && filter_intersects (qp_filters plan) "model_id" (sm_model_ids s).
End prune.

(** ** Collecting *)
Section collect.
Context {BL : Blake3} {BN : Bincode} {RS : RawSegments} {DJ : DimJson} {DP : DimParse}.

(** Rows of one segment file: a read error keeps the rows before it, a file
    that is missing or refused gives none.  A panic of the reader is the
    query's: [None]. *)
Definition scan_file (files : gmap string bytes) (id : string) : option (list UsageEvent) :=
  match files !! seg_path id with
  | None => Some []
  | Some bs =>
      match seg_open bs with
      | Ok (es, Panic) => None
      | Ok (es, _) => Some es
      | Err _ => Some []
      | Panic => None
      end
  end.

Definition in_range (from_ms to_ms : Z) (e : UsageEvent) : bool :=
  (from_ms <=? ev_timestamp_ms e) && (ev_timestamp_ms e <? to_ms).

Definition collect_raw_events (st : AppState) (plan : QueryPlan) (from_ms to_ms : Z) : option (list UsageEvent) :=
  let m := as_manifest st in
  let bc := Z.max (m_bucket_count m) 1 in
  let segs := filter (λ s, segment_overlaps_plan s plan from_ms to_ms bc = true) (m_raw_segments m) in
  scanned ← mapM (λ s, scan_file (as_files st) (sm_segment_id s)) segs;
  Some (filter (λ e, in_range from_ms to_ms e = true) (mjoin scanned)
        ++ filter (λ e, in_range from_ms to_ms e = true) (Mem.snapshot (as_memtable st))).

(** The synthetic event of a rollup row. *)
Definition rollup_record_to_event (r : HourlyRollupRecord) : UsageEvent :=
  MkUsageEvent ("rollup_" +:+ to_string_i (rr_hour_start_ms r)) Usage None (rr_account_id r)
    (rr_subscription_id r) (rr_product_id r) (rr_meter_id r) (rr_hour_start_ms r) (rr_quantity_sum r)
    (rr_unit r) (rr_source r) (rr_model_id r)
    (default (MkSmallDimensions ∅) (dim_parse (rr_dimensions_canonical r))) (rr_last_event_ms r).

Definition rollup_selected (m : Manifest) (plan : QueryPlan) (rollup_upper : Z) (s : SegmentMeta) : bool :=
  (sm_min_timestamp_ms s <? rollup_upper) && (qp_from_ms plan <=? sm_max_timestamp_ms s)
  && match qp_account_id plan with
     | Some account => sm_bucket s =? bucket_for_account account (Z.max (m_bucket_count m) 1)
     | None => true
     end.

Definition collect_rollup_then_raw_tail (st : AppState) (plan : QueryPlan) : option (list UsageEvent) :=
  let m := as_manifest st in
  let wm := m_hourly_rollup_ms m in
  let rollup_upper := Z.min (qp_to_ms plan) wm in
  let segs := filter (λ s, rollup_selected m plan rollup_upper s = true) (m_rollup_segments m) in
  let rows := RW.rolled (as_files st) segs in
  let rows := filter (λ r, negb ((rr_hour_start_ms r <? qp_from_ms plan)
                                 || (rollup_upper <=? rr_hour_start_ms r)) = true) rows in
  let events := rollup_record_to_event <$> rows in
  if wm <? qp_to_ms plan
  then tail ← collect_raw_events st plan (Z.max (qp_from_ms plan) wm) (qp_to_ms plan); Some (events ++ tail)
  else Some events.

Definition collect_events (st : AppState) (plan : QueryPlan) : option (list UsageEvent) :=
  match qp_source plan with
  | RawEvents => collect_raw_events st plan (qp_from_ms plan) (qp_to_ms plan)
  | RollupHourly => collect_rollup_then_raw_tail st plan
  end.

(** ** Aggregating *)
Record Agg := MkAgg { ag_quantity_sum : Z; ag_count : Z }.

Definition add_agg (a : Agg) (e : UsageEvent) : Agg :=
  MkAgg (sat_add_i128 (ag_quantity_sum a) (ev_quantity e)) (ag_count a + 1).

Definition key_cmp : list string → list string → comparison := lex_cmp str_cmp.

(** [BTreeMap<Vec<String>, Agg>]: kept in key order. *)
Fixpoint agg_entry (k : list string) (e : UsageEvent) (groups : list (list string * Agg))
    : list (list string * Agg) :=
  match groups with
  | [] => [(k, add_agg (MkAgg 0 0) e)]
  | (k', a) :: rest =>
      match key_cmp k k' with
      | Lt => (k, add_agg (MkAgg 0 0) e) :: groups
      | Eq => (k', add_agg a e) :: rest
      | Gt => (k', a) :: agg_entry k e rest
      end
  end.

Definition group_key (plan : QueryPlan) (e : UsageEvent) : list string :=
  (λ g, group_key_value g e) <$> qp_group_by plan.

Definition group_events (plan : QueryPlan) (events : list UsageEvent) : list (list string * Agg) :=
  foldl (λ groups e, agg_entry (group_key plan e) e groups) [] events.

Definition metric_value (a : Agg) (f : AggregationFunction) : QValue :=
  match f with
  | Sum => VString (to_string_i (ag_quantity_sum a))
  | Count => VNumber (ag_count a)
  end.

(** The group columns, then the metrics, which win on equal names. *)
Definition result_row (plan : QueryPlan) (key_values : list string) (a : Agg) : QRow :=
  let cols : gmap string QValue :=
    foldl (λ m p, <[p.1 := VString p.2]> m) ∅ (zip (qp_group_by plan) key_values) in
  RowObject ((metric_value a <$> qp_metrics plan) ∪ cols).

(** [serde_json::to_value(e).unwrap_or(Value::Null)]: the quantity is the one
    field that may not fit. *)
Definition event_row (e : UsageEvent) : QRow := if json_number (ev_quantity e) then RowEvent e else RowNull.

Definition aggregate (plan : QueryPlan) (events : list UsageEvent) : list QRow :=
  let filtered := filter (λ e, matches_plan plan e = true) events in
  if bool_decide (qp_group_by plan = []) && bool_decide (qp_metrics plan = ∅) then event_row <$> filtered
  else
    let results := (λ g, result_row plan g.1 g.2) <$> group_events plan filtered in
    if bool_decide (qp_group_by plan = []) && negb (bool_decide (qp_metrics plan = ∅)) && bool_decide (results = [])
    then [RowObject (metric_value (MkAgg 0 0) <$> qp_metrics plan)]
    else results.

Definition execute_plan (st : AppState) (plan : QueryPlan) : option (list QRow) :=
  events ← collect_events st plan; Some (aggregate plan events).

(** ** Lemmas: pruning keeps every matching row *)

(** Everything the database holds: what the segments of the manifest hold,
    then the memtable. *)
Definition db_events (st : AppState) : list UsageEvent :=
  Flush.stored (as_files st) (m_raw_segments (as_manifest st)) ++ mt_events (as_memtable st).

(** Segments a query can rely on: readable, with sound metadata. *)
Definition segs_sound (st : AppState) : Prop :=
  Forall (λ s, Flush.seg_at (as_files st) s (Flush.seg_events (as_files st) s)
               ∧ Flush.meta_sound (Z.max (m_bucket_count (as_manifest st)) 1) (as_files st) s)
    (m_raw_segments (as_manifest st)).

Lemma matches_time plan e :
  matches_plan plan e = true → qp_from_ms plan ≤ ev_timestamp_ms e < qp_to_ms plan.
Proof. unfold matches_plan. case_match eqn:E; [done|]. intros _. zbool. lia. Qed.

Lemma matches_account plan e a :
  matches_plan plan e = true → qp_account_id plan = Some a → ev_account_id e = a.
Proof.
  unfold matches_plan. intros H Ha. rewrite Ha in H. case_match; [done|].
  destruct (String.eqb_spec (ev_account_id e) a); [done|]. by cbn in H.
Qed.

Lemma matches_filter plan e f :
  matches_plan plan e = true → f ∈ qp_filters plan → filter_ok f e = true.
Proof.
  unfold matches_plan. intros H Hf. repeat (case_match; [done|]).
  rewrite forallb_forall in H. apply H. by apply list_elem_of_In.
Qed.

(** A filter on [field] meets the identifier set of a segment that covers the
    event's value. *)
Lemma filter_intersects_covers plan e field ids :
  matches_plan plan e = true →
  (∀ v, field_value field e = Some v → v ∈ ids) →
  filter_intersects (qp_filters plan) field ids = true.
Proof.
  intros Hm Hv. unfold filter_intersects.
  destruct (filter (λ f, qf_field f = field) (qp_filters plan)) as [|f rest] eqn:E; [done|].
  assert (f ∈ filter (λ f, qf_field f = field) (qp_filters plan)) as Hf by (rewrite E; by left).
  apply list_elem_of_filter in Hf as [Hfield Hf].
  pose proof (matches_filter _ _ _ Hm Hf) as Hok. unfold filter_ok in Hok. rewrite Hfield in Hok.
  destruct (field_value field e) as [v|] eqn:Ev; [|done].
  apply existsb_exists in Hok as (x & Hx & ->%String.eqb_eq).
  apply orb_true_iff. right. apply existsb_exists. exists x. split.
  - apply list_elem_of_In, elem_of_elements. by apply Hv.
  - apply bool_decide_eq_true. cbn. apply elem_of_app. left. by apply list_elem_of_In.
Qed.

Lemma str_ltb_irreflexive_le a b : str_le a b → str_ltb b a = false.
Proof.
  unfold str_le, cmp_le, str_ltb. intros H. destruct (str_cmp b a) eqn:E; try done.
  exfalso. apply H. rewrite cmp_antisym, E. done.
Qed.

Lemma overlaps_covering plan e s from_ms to_ms bc :
  matches_plan plan e = true → from_ms ≤ ev_timestamp_ms e < to_ms →
  meta_covers s e → Flush.bucket_of bc e = sm_bucket s →
  segment_overlaps_plan s plan from_ms to_ms bc = true.
Proof.
  intros Hm Ht (Hts & (lo & hi & Elo & Ehi & Hlo & Hhi) & Hp & Hme & Hmo) Hb. unfold segment_overlaps_plan.
  rewrite (proj2 (Z.ltb_lt _ _)), (proj2 (Z.leb_le _ _)) by lia. cbn [andb negb].
  rewrite (filter_intersects_covers plan e "product_id"), (filter_intersects_covers plan e "meter_id"),
    (filter_intersects_covers plan e "model_id"); try done;
    try (by intros v [= <-]).
  destruct (qp_account_id plan) as [a|] eqn:Ea; [|done].
  pose proof (matches_account _ _ _ Hm Ea) as <-. unfold account_pruned.
  rewrite Elo, Ehi. rewrite !str_ltb_irreflexive_le by done.
  unfold Flush.bucket_of in Hb. rewrite Hb, Z.eqb_refl. done.
Qed.

Lemma scan_file_at files s es :
  Flush.seg_at files s es → scan_file files (sm_segment_id s) = Some es.
Proof.
  intros (bs & E & Er). unfold scan_file. rewrite E. unfold seg_read_all in Er.
  destruct (seg_open bs) as [[es' [[]| |]]| |]; cbn in Er; by simplify_eq.
Qed.

(** The scan of the segments that are not pruned, filtered, is the filtered
    contents of all of them. *)
Lemma scan_pruned plan files bc from_ms to_ms segs :
  Forall (λ s, Flush.seg_at files s (Flush.seg_events files s) ∧ Flush.meta_sound bc files s) segs →
  ∃ scanned,
    mapM (λ s, scan_file files (sm_segment_id s))
      (filter (λ s, segment_overlaps_plan s plan from_ms to_ms bc = true) segs) = Some scanned
    ∧ filter (λ e, matches_plan plan e = true) (filter (λ e, in_range from_ms to_ms e = true) (mjoin scanned))
      = filter (λ e, matches_plan plan e = true)
          (filter (λ e, in_range from_ms to_ms e = true) (Flush.stored files segs)).
Proof.
  intros Hs. induction Hs as [|s segs [Hat [_ Hc]] _ (scanned & E & Hf)]; [by exists []|].
  unfold Flush.stored. rewrite fmap_cons. change (mjoin (?x :: ?l)) with (x ++ mjoin l).
  fold (Flush.stored files segs). rewrite !filter_app, <- Hf. rewrite filter_cons. case_decide as Ho.
  - cbn [mapM]. rewrite (scan_file_at _ _ _ Hat). cbn. rewrite E. cbn.
    eexists. split; [done|]. change (mjoin (?x :: ?l)) with (x ++ mjoin l). by rewrite !filter_app.
  - exists scanned. split; [done|].
    rewrite (filter_none _ (filter _ (Flush.seg_events files s))); [done|].
    apply Forall_forall. intros e [Hr He]%list_elem_of_filter Hm. destruct (Hc e He) as [Hcov Hb].
    apply Ho. apply overlaps_covering with e; try done. unfold in_range in Hr. zbool. lia.
Qed.

Lemma collect_raw_spec st plan from_ms to_ms :
  segs_sound st →
  ∃ es, collect_raw_events st plan from_ms to_ms = Some es
    ∧ filter (λ e, matches_plan plan e = true) es
      = filter (λ e, matches_plan plan e = true) (filter (λ e, in_range from_ms to_ms e = true) (db_events st)).
Proof.
  intros Hs. destruct (scan_pruned plan _ _ from_ms to_ms _ Hs) as (scanned & E & Hf).
  unfold collect_raw_events. rewrite E. cbn. eexists. split; [done|].
  unfold db_events. by rewrite !filter_app, Hf.
Qed.

Lemma aggregate_matching plan es es' :
  filter (λ e, matches_plan plan e = true) es = filter (λ e, matches_plan plan e = true) es' →
  aggregate plan es = aggregate plan es'.
Proof. intros H. unfold aggregate. by rewrite H. Qed.

Lemma raw_query_spec st plan :
  segs_sound st → qp_source plan = RawEvents →
  execute_plan st plan = Some (aggregate plan (db_events st)).
Proof.
  intros Hs Hsrc. destruct (collect_raw_spec st plan (qp_from_ms plan) (qp_to_ms plan) Hs) as (es & E & Hf).
  unfold execute_plan, collect_events. rewrite Hsrc, E. cbn. f_equal. apply aggregate_matching. rewrite Hf.
  rewrite list_filter_filter. apply list_filter_iff. intros e.
  split; [by intros []|]. intros Hm. split; [done|]. pose proof (matches_time _ _ Hm).
  unfold in_range. apply andb_true_iff. rewrite Z.leb_le, Z.ltb_lt. lia.
Qed.

(** C13: a raw query answers for the whole database: whatever the manifest's
    time ranges, buckets, account bounds and identifier sets let it skip, the
    result is the aggregation over every event of every segment and of the
    memtable, provided the metadata describes the segments. *)
Theorem raw_query_exact st plan :
  segs_sound st → qp_source plan = RawEvents →
  execute_plan st plan = Some (aggregate plan (db_events st)).
Proof. apply raw_query_spec. Qed.

(** ** Lemmas: grouping *)

(** The group of a key: what the events with that key add up to. *)
Definition group_agg (plan : QueryPlan) (es : list UsageEvent) (k : list string) : Agg :=
  let mine := filter (λ e, group_key plan e = k) es in
  MkAgg (sumZ ev_quantity mine) (Z.of_nat (length mine)).

(** Reference grouping: the distinct keys in order, each with its group. *)
Definition spec_groups (plan : QueryPlan) (es : list UsageEvent) : list (list string * Agg) :=
  (λ k, (k, group_agg plan es k)) <$> sort_by key_cmp (remove_dups (group_key plan <$> es)).

Definition key_lt (k k' : list string) : Prop := key_cmp k k' = Lt.

Lemma key_cmp_eq k k' : key_cmp k k' = Eq → k = k'.
Proof.
  revert k'. unfold key_cmp. induction k as [|s k IH]; intros [|s' k']; cbn; try done.
  destruct (str_cmp s s') eqn:E; try done. intros ->%IH. by apply str_cmp_eq in E as ->.
Qed.

#[local] Instance key_cmp_ok : CmpOk key_cmp := lex_cmp_ok str_cmp.

Lemma key_cmp_gt k k' : key_cmp k k' = Gt → key_lt k' k.
Proof. intros H. unfold key_lt. by rewrite (cmp_antisym k k'), H. Qed.

Lemma key_lt_irrefl k : ¬ key_lt k k.
Proof. unfold key_lt. by rewrite (cmp_refl key_cmp). Qed.

Definition sorted_groups (groups : list (list string * Agg)) : Prop := StronglySorted key_lt groups.*1.

Lemma agg_entry_keys k e groups k' :
  k' ∈ (agg_entry k e groups).*1 ↔ k' = k ∨ k' ∈ groups.*1.
Proof.
  induction groups as [|[k0 a] groups IH]; cbn; [by rewrite elem_of_cons|].
  destruct (key_cmp k k0) eqn:E; cbn; rewrite !elem_of_cons, ?IH; [|tauto..].
  apply key_cmp_eq in E as ->. tauto.
Qed.

Lemma agg_entry_sorted k e groups : sorted_groups groups → sorted_groups (agg_entry k e groups).
Proof.
  unfold sorted_groups. induction groups as [|[k0 a] groups IH]; cbn; intros Hs; [by repeat constructor|].
  apply StronglySorted_inv in Hs as [Hs H0]. destruct (key_cmp k k0) eqn:E; cbn.
  - by constructor.
  - constructor; [by constructor|]. constructor; [done|].
    eapply Forall_impl; [exact H0|]. cbn. intros k' Hk'. by eapply cmp_lt_trans.
  - constructor; [by apply IH|]. apply Forall_forall. intros k' [->|Hk']%agg_entry_keys.
    + by apply key_cmp_gt.
    + rewrite Forall_forall in H0. by apply H0.
Qed.

(** The group of a key, empty when there is none. *)
Fixpoint find_group (k : list string) (groups : list (list string * Agg)) : Agg :=
  match groups with
  | [] => MkAgg 0 0
  | (k', a) :: rest => if decide (k = k') then a else find_group k rest
  end.

Lemma find_group_absent k groups : k ∉ groups.*1 → find_group k groups = MkAgg 0 0.
Proof.
  induction groups as [|[k' a] groups IH]; cbn; [done|].
  rewrite not_elem_of_cons. intros [H1 H2]. rewrite decide_False by done. by apply IH.
Qed.

Lemma agg_entry_find k e groups k' :
  sorted_groups groups →
  find_group k' (agg_entry k e groups)
  = if decide (k' = k) then add_agg (find_group k groups) e else find_group k' groups.
Proof.
  unfold sorted_groups. induction groups as [|[k0 a] groups IH]; cbn; intros Hs; [done|].
  apply StronglySorted_inv in Hs as [Hs H0]. destruct (key_cmp k k0) eqn:E; cbn.
  - apply key_cmp_eq in E as ->. rewrite (decide_True (P := k0 = k0)) by done. by case_decide.
  - destruct (decide (k' = k)) as [->|]; [|done]. f_equal.
    rewrite decide_False by (intros ->; by apply key_lt_irrefl in E).
    rewrite find_group_absent; [done|]. intros Hin. rewrite Forall_forall in H0.
    apply (key_lt_irrefl k). eapply (cmp_lt_trans (cmp := key_cmp)); [exact E|by apply H0].
  - assert (k ≠ k0) as Hne by (intros <-; by rewrite (cmp_refl key_cmp) in E).
    rewrite IH by done. rewrite (decide_False (P := k = k0)) by done.
    destruct (decide (k' = k0)) as [->|]; [|done]. by rewrite decide_False.
Qed.

Lemma group_events_snoc plan es e :
  group_events plan (es ++ [e]) = agg_entry (group_key plan e) e (group_events plan es).
Proof. unfold group_events. by rewrite foldl_app. Qed.

Lemma group_events_keys plan es k : k ∈ (group_events plan es).*1 ↔ k ∈ group_key plan <$> es.
Proof.
  induction es as [|e es IH] using rev_ind; [done|].
  rewrite group_events_snoc, agg_entry_keys, IH, fmap_app, elem_of_app. cbn. rewrite list_elem_of_singleton. tauto.
Qed.

Lemma group_events_sorted plan es : sorted_groups (group_events plan es).
Proof.
  induction es as [|e es IH] using rev_ind; [constructor|]. rewrite group_events_snoc. by apply agg_entry_sorted.
Qed.

Lemma sumZ_abs_filter (b : UsageEvent → Prop) `{∀ e, Decision (b e)} es :
  Z.abs (sumZ ev_quantity (filter b es)) ≤ Roll.abs_total es.
Proof.
  unfold Roll.abs_total. induction es as [|e es IH]; [done|].
  rewrite filter_cons. case_decide; rewrite ?sumZ_cons; lia.
Qed.

Lemma group_events_find plan es k :
  Roll.abs_total es ≤ i128_max → find_group k (group_events plan es) = group_agg plan es k.
Proof.
  induction es as [|e es IH] using rev_ind; [done|]. unfold Roll.abs_total. rewrite sumZ_app, sumZ_cons, sumZ_nil.
  fold (Roll.abs_total es). intros H. rewrite group_events_snoc, agg_entry_find by apply group_events_sorted.
  unfold group_agg. rewrite filter_app, filter_cons, filter_nil, sumZ_app, length_app. case_decide as E.
  - subst k. rewrite (decide_True (P := group_key plan e = group_key plan e)) by done.
    pose proof (sumZ_abs_filter (λ e', group_key plan e' = group_key plan e) es).
    rewrite IH by lia. unfold group_agg, add_agg. cbn [ag_quantity_sum ag_count]. rewrite Roll.sat_add_small by lia.
    cbn [length]. rewrite sumZ_cons, sumZ_nil. f_equal; lia.
  - rewrite decide_False by done. rewrite IH by lia. unfold group_agg. cbn. f_equal; lia.
Qed.

Lemma groups_by_find groups :
  sorted_groups groups → groups = (λ k, (k, find_group k groups)) <$> groups.*1.
Proof.
  unfold sorted_groups. induction groups as [|[k a] groups IH]; cbn; [done|].
  intros [Hs H0]%StronglySorted_inv. rewrite decide_True by done. f_equal.
  rewrite (IH Hs) at 1. rewrite <- !list_fmap_compose. apply list_fmap_ext. intros i [k' a'] Hk'. cbn.
  rewrite decide_False; [done|]. intros ->. apply (key_lt_irrefl k). rewrite Forall_forall in H0. apply H0.
  apply list_elem_of_lookup_2 in Hk'. by apply (list_elem_of_fmap_2 fst) in Hk'.
Qed.

Lemma sorted_keys_unique ks ks' :
  StronglySorted key_lt ks → StronglySorted key_lt ks' → (∀ k, k ∈ ks ↔ k ∈ ks') → ks = ks'.
Proof.
  revert ks'. induction ks as [|k ks IH]; intros [|k' ks'] Hs Hs' H; [done|..].
  - exfalso. apply (not_elem_of_nil k'), H. by left.
  - exfalso. apply (not_elem_of_nil k), H. by left.
  - apply StronglySorted_inv in Hs as [Hs H0], Hs' as [Hs' H0']. rewrite Forall_forall in H0, H0'.
    assert (k = k') as ->.
    { destruct (decide (k = k')); [done|]. exfalso. apply (key_lt_irrefl k). eapply (cmp_lt_trans (cmp := key_cmp)).
      - apply H0. specialize (H k'). rewrite !elem_of_cons in H. naive_solver.
      - apply H0'. specialize (H k). rewrite !elem_of_cons in H. naive_solver. }
    f_equal. apply IH; [done..|]. intros x. specialize (H x). rewrite !elem_of_cons in H.
    split; intros Hx.
    + destruct H as [[->|?] _]; [by right|by destruct (key_lt_irrefl k'); apply H0|done].
    + destruct H as [_ [->|?]]; [by right|by destruct (key_lt_irrefl k'); apply H0'|done].
Qed.

Lemma sort_keys_sorted ks : StronglySorted key_lt (sort_by key_cmp (remove_dups ks)).
Proof.
  pose proof (sort_by_sorted key_cmp (remove_dups ks)) as Hs.
  assert (NoDup (sort_by key_cmp (remove_dups ks))) as Hn.
  { rewrite sort_by_perm. apply NoDup_remove_dups. }
  induction (sort_by key_cmp (remove_dups ks)) as [|k l IH]; [constructor|].
  apply StronglySorted_inv in Hs as [Hs H0]. apply NoDup_cons in Hn as [Hk Hn].
  constructor; [by apply IH|]. rewrite Forall_forall in *. intros x Hx. unfold key_lt.
  destruct (key_cmp k x) eqn:E; [|done|by apply H0 in Hx].
  apply key_cmp_eq in E as ->. done.
Qed.

Lemma group_events_spec plan es :
  Roll.abs_total es ≤ i128_max → group_events plan es = spec_groups plan es.
Proof.
  intros H. rewrite (groups_by_find (group_events plan es)) by apply group_events_sorted.
  unfold spec_groups. rewrite (sorted_keys_unique (group_events plan es).*1
    (sort_by key_cmp (remove_dups (group_key plan <$> es)))).
  - apply list_fmap_ext. intros i k _. by rewrite group_events_find.
  - apply group_events_sorted.
  - apply sort_keys_sorted.
  - intros k. by rewrite group_events_keys, sort_by_perm, elem_of_remove_dups.
Qed.

Lemma aggregate_spec plan es :
  qp_group_by plan ≠ [] ∨ qp_metrics plan ≠ ∅ →
  Roll.abs_total es ≤ i128_max →
  let matching := filter (λ e, matches_plan plan e = true) es in
  aggregate plan es =
    if decide (qp_group_by plan = [])
    then [RowObject (metric_value (MkAgg (sumZ ev_quantity matching) (Z.of_nat (length matching))) <$> qp_metrics plan)]
    else (λ g, result_row plan g.1 g.2) <$> spec_groups plan matching.
Proof.
  intros Hg Ha matching. pose proof (RW.abs_filter (matches_plan plan) es) as Hle. fold matching in Hle.
  unfold aggregate. fold matching. rewrite (group_events_spec plan matching) by lia.
  case_decide as E; [|by rewrite bool_decide_eq_false_2].
  destruct Hg as [?|Hm]; [done|]. rewrite (bool_decide_eq_true_2 _ E), (bool_decide_eq_false_2 _ Hm). cbn [andb negb].
  unfold spec_groups, group_key, group_agg, group_key. rewrite E. cbn [fmap list_fmap].
  destruct matching as [|e rest]; [done|].
  assert (remove_dups ((λ _ : UsageEvent, @nil string) <$> (e :: rest)) = [[]]) as Hd.
  { clear. cbn [fmap list_fmap]. induction rest as [|e' rest IH]; [done|]. cbn [fmap list_fmap remove_dups].
    case_decide as Hin; [exact IH|]. destruct Hin. by left. }
  rewrite Hd. cbn [sort_by foldr insert_by fmap list_fmap]. rewrite bool_decide_eq_false_2 by done.
  rewrite filter_all by (by apply Forall_forall). unfold result_row. rewrite E. cbn [zip foldl fst snd].
  by rewrite (right_id_L ∅ (∪)).
Qed.

(** C23: aggregation is exact: with a grouping there is one row per distinct
    key of the matching events, in key order, carrying the key's columns and
    the true sum and count of its events; without one there is a single row
    with the overall totals, zeros when nothing matches, as long as the
    absolute quantities together stay within i128. *)
Theorem aggregate_exact plan es :
  qp_group_by plan ≠ [] ∨ qp_metrics plan ≠ ∅ →
  Roll.abs_total es ≤ i128_max →
  let matching := filter (λ e, matches_plan plan e = true) es in
  aggregate plan es =
    if decide (qp_group_by plan = [])
    then [RowObject (metric_value (MkAgg (sumZ ev_quantity matching) (Z.of_nat (length matching))) <$> qp_metrics plan)]
    else (λ g, result_row plan g.1 g.2) <$> spec_groups plan matching.
Proof. apply aggregate_spec. Qed.

(** ** Lemmas: rollup rows stand for their events *)
Context {DJok : DimJsonOk}.

(** Plans that only look at what a rollup key keeps, on hour boundaries. *)
Record plan_aligned (plan : QueryPlan) : Prop := {
  pa_from : (HOUR_MS | qp_from_ms plan);
  pa_to : (HOUR_MS | qp_to_ms plan);
  pa_filters : Forall (λ f, qf_field f ≠ "kind") (qp_filters plan);
  pa_group_by : "kind" ∉ qp_group_by plan;
}.

(** The synthetic event of a key. *)
Definition key_event (k : HourlyRollupKey) : UsageEvent := rollup_record_to_event (Roll.fresh_record k 0).

Lemma floor_hour_bounds ts : 0 ≤ ts → floor_hour ts ≤ ts < floor_hour ts + HOUR_MS.
Proof.
  intros H. unfold floor_hour. rewrite Z.quot_div_nonneg by (unfold HOUR_MS; lia).
  pose proof (Z.div_mod ts HOUR_MS ltac:(done)). pose proof (Z.mod_pos_bound ts HOUR_MS ltac:(done)). lia.
Qed.

Lemma floor_hour_le_iff b ts : 0 ≤ ts → (HOUR_MS | b) → b ≤ floor_hour ts ↔ b ≤ ts.
Proof.
  intros H [q ->]. pose proof (floor_hour_bounds ts H) as Hb. split; [lia|]. intros Hq.
  unfold floor_hour in *. unfold HOUR_MS in *. nia.
Qed.

Lemma floor_day_hour ts : 0 ≤ ts → floor_day (floor_hour ts) = floor_day ts.
Proof.
  intros H. pose proof (floor_hour_bounds ts H). unfold floor_day. f_equal.
  rewrite (Z.quot_div_nonneg ts) by lia.
  assert (0 ≤ floor_hour ts) by (unfold floor_hour, HOUR_MS; pose proof (Z.quot_pos ts 3600000); lia).
  rewrite Z.quot_div_nonneg by lia. unfold floor_hour in *.
  rewrite (Z.quot_div_nonneg ts HOUR_MS) in * by (unfold HOUR_MS; lia).
  replace 86400000 with (HOUR_MS * 24) by done. rewrite <- !Z.div_div by (unfold HOUR_MS; lia).
  by rewrite Z.div_mul.
Qed.

Lemma floor_hour_idem ts : floor_hour (floor_hour ts) = floor_hour ts.
Proof. unfold floor_hour. by rewrite Z.quot_mul. Qed.

Lemma key_event_dims e : ev_dimensions (key_event (Roll.event_key e)) = ev_dimensions e.
Proof.
  cbn. destruct (dim_total (ev_dimensions e)) as [s Hs]. rewrite Hs. cbn. by rewrite (dim_roundtrip _ _ Hs).
Qed.

Lemma field_value_key field e : field ≠ "kind" → field_value field (key_event (Roll.event_key e)) = field_value field e.
Proof.
  intros H. unfold field_value. rewrite key_event_dims.
  repeat case_match; try done. by rewrite String.eqb_eq in *.
Qed.

Lemma matches_key plan e :
  plan_aligned plan → 0 ≤ ev_timestamp_ms e →
  matches_plan plan (key_event (Roll.event_key e)) = matches_plan plan e.
Proof.
  intros [Hf Ht Hfi _] Hts. unfold matches_plan. cbn [key_event Roll.event_key Roll.fresh_record rollup_record_to_event
    ev_timestamp_ms ev_account_id rr_hour_start_ms rk_hour_start_ms rr_account_id rk_account_id].
  replace (floor_hour (ev_timestamp_ms e) <? qp_from_ms plan) with (ev_timestamp_ms e <? qp_from_ms plan).
  2:{ pose proof (floor_hour_le_iff _ _ Hts Hf). zcase; zcase; lia. }
  replace (qp_to_ms plan <=? floor_hour (ev_timestamp_ms e)) with (qp_to_ms plan <=? ev_timestamp_ms e).
  2:{ pose proof (floor_hour_le_iff _ _ Hts Ht). zcase; zcase; lia. }
  repeat (case_match; [done|]). clear -Hfi DJok.
  induction Hfi as [|f fs H _ IH]; [done|]. cbn [forallb]. rewrite IH. f_equal.
  unfold filter_ok. by rewrite (field_value_key (qf_field f) e).
Qed.

Lemma group_key_key plan e :
  plan_aligned plan → 0 ≤ ev_timestamp_ms e →
  group_key plan (key_event (Roll.event_key e)) = group_key plan e.
Proof.
  intros [_ _ _ Hg] Hts. unfold group_key. apply list_fmap_ext. intros i g Hi.
  assert (g ≠ "kind") as Hne by (intros ->; by apply Hg, list_elem_of_lookup_2 with i).
  unfold group_key_value. rewrite key_event_dims.
  cbn [key_event Roll.event_key Roll.fresh_record rollup_record_to_event ev_timestamp_ms
       rr_hour_start_ms rk_hour_start_ms].
  rewrite floor_hour_idem, floor_day_hour by done.
  repeat case_match; try done. by rewrite String.eqb_eq in *.
Qed.

Lemma matches_row plan r :
  matches_plan plan (rollup_record_to_event r) = matches_plan plan (key_event (Roll.record_key r)).
Proof. reflexivity. Qed.

Lemma group_key_row plan r :
  group_key plan (rollup_record_to_event r) = group_key plan (key_event (Roll.record_key r)).
Proof. reflexivity. Qed.

(** ** Lemmas: what the rollup path collects *)

Definition below_matches (plan : QueryPlan) (wm : Z) (r : HourlyRollupRecord) : bool :=
  (rr_hour_start_ms r <? wm) && matches_plan plan (rollup_record_to_event r).

(** Rollup rows that are not pruned, filtered, are the filtered rows of all. *)
Lemma rolled_pruned st plan segs :
  let wm := m_hourly_rollup_ms (as_manifest st) in
  let upper := Z.min (qp_to_ms plan) wm in
  Forall (λ s, RW.placed (Z.max (m_bucket_count (as_manifest st)) 1) s (RW.rollup_rows (as_files st) s)) segs →
  filter (λ e, matches_plan plan e = true)
    (rollup_record_to_event <$>
       filter (λ r, negb ((rr_hour_start_ms r <? qp_from_ms plan) || (upper <=? rr_hour_start_ms r)) = true)
         (RW.rolled (as_files st) (filter (λ s, rollup_selected (as_manifest st) plan upper s = true) segs)))
  = rollup_record_to_event <$> filter (λ r, below_matches plan wm r = true) (RW.rolled (as_files st) segs).
Proof.
  intros wm upper Hs. induction Hs as [|s segs Hr _ IH]; [done|].
  assert (RW.rolled (as_files st) (s :: segs)
    = RW.rollup_rows (as_files st) s ++ RW.rolled (as_files st) segs) as -> by done.
  rewrite filter_app, fmap_app, <- IH. rewrite filter_cons. case_decide as Ho.
  - unfold RW.rolled at 1. rewrite fmap_cons. change (mjoin (?x :: ?l)) with (x ++ mjoin l).
    fold (RW.rolled (as_files st) (filter (λ s, rollup_selected (as_manifest st) plan upper s = true) segs)).
    rewrite filter_app, fmap_app, filter_app. f_equal. apply filter_fmap_filter. intros r _.
    pose proof (matches_time plan (rollup_record_to_event r)) as Ht. cbn in Ht. unfold below_matches.
    rewrite andb_true_iff, negb_true_iff, orb_false_iff, Z.ltb_lt, Z.ltb_ge, Z.leb_gt. naive_solver lia.
  - rewrite (filter_none _ (RW.rollup_rows (as_files st) s)); [done|].
    unfold RW.placed in Hr. rewrite Forall_forall in Hr |- *. intros r Hin Hb. destruct (Hr r Hin) as (_ & Hh & Hbk). apply Ho.
    unfold below_matches in Hb. apply andb_true_iff in Hb as [Hlt Hm].
    pose proof (matches_time _ _ Hm) as Ht. cbn in Ht. zbool. unfold rollup_selected.
    rewrite (proj2 (Z.ltb_lt _ _)), (proj2 (Z.leb_le _ _)) by lia. cbn [andb].
    destruct (qp_account_id plan) as [a|] eqn:Ea; [|done].
    pose proof (matches_account _ _ _ Hm Ea) as Hacc. cbn in Hacc. rewrite <- Hacc, Hbk. by apply Z.eqb_refl.
Qed.

Lemma collect_rollup_spec st prompt plan :
  segs_sound st → RW.rollups_of st prompt →
  let wm := m_hourly_rollup_ms (as_manifest st) in
  ∃ es, collect_rollup_then_raw_tail st plan = Some es
    ∧ filter (λ e, matches_plan plan e = true) es
      = (rollup_record_to_event <$> filter (λ r, below_matches plan wm r = true)
           (RW.rolled (as_files st) (m_rollup_segments (as_manifest st))))
        ++ filter (λ e, matches_plan plan e = true ∧ wm ≤ ev_timestamp_ms e) (db_events st).
Proof.
  intros Hs [_ _ Hr] wm. unfold collect_rollup_then_raw_tail. fold wm. case_match eqn:E.
  - destruct (collect_raw_spec st plan (Z.max (qp_from_ms plan) wm) (qp_to_ms plan) Hs) as (tail & -> & Ht). cbn.
    eexists. split; [done|]. rewrite filter_app, Ht. f_equal; [by apply rolled_pruned|].
    rewrite list_filter_filter. apply list_filter_iff. intros e.
    pose proof (matches_time plan e). unfold in_range. rewrite andb_true_iff, Z.leb_le, Z.ltb_lt. naive_solver lia.
  - eexists. split; [done|]. pose proof (rolled_pruned st plan _ Hr) as Hp. cbn zeta in Hp. fold wm in Hp.
    rewrite Hp, (filter_none _ (db_events st)).
    + by rewrite app_nil_r.
    + apply Forall_forall. intros e _ [Hm%matches_time ?]. zbool. lia.
Qed.

(** ** Lemmas: equal groups *)

Lemma result_row_sum plan k a a' :
  map_Forall (λ _ f, f = Sum) (qp_metrics plan) → ag_quantity_sum a = ag_quantity_sum a' →
  result_row plan k a = result_row plan k a'.
Proof.
  intros Hm Hs. unfold result_row. do 2 f_equal. apply map_fmap_ext. intros i f Hf.
  rewrite (Hm _ _ Hf). cbn. by rewrite Hs.
Qed.

(** Two event lists with the same keys and the same sums per key give the
    same rows when only sums are asked for. *)
Lemma same_sums_same_rows plan es es' :
  map_Forall (λ _ f, f = Sum) (qp_metrics plan) →
  (∀ k, k ∈ group_key plan <$> es ↔ k ∈ group_key plan <$> es') →
  (∀ k, sumZ ev_quantity (filter (λ e, group_key plan e = k) es)
        = sumZ ev_quantity (filter (λ e, group_key plan e = k) es')) →
  (λ g, result_row plan g.1 g.2) <$> spec_groups plan es = (λ g, result_row plan g.1 g.2) <$> spec_groups plan es'.
Proof.
  intros Hm Hk Hs. unfold spec_groups. rewrite <- !list_fmap_compose.
  rewrite (sorted_keys_unique (sort_by key_cmp (remove_dups (group_key plan <$> es)))
    (sort_by key_cmp (remove_dups (group_key plan <$> es')))).
  - apply list_fmap_ext. intros i k _. apply result_row_sum; [done|]. apply Hs.
  - apply sort_keys_sorted.
  - apply sort_keys_sorted.
  - intros k. by rewrite !sort_by_perm, !elem_of_remove_dups.
Qed.

Definition selects (plan : QueryPlan) (wm : Z) (g : list string) (k : HourlyRollupKey) : bool :=
  (rk_hour_start_ms k <? wm) && matches_plan plan (key_event k) && bool_decide (group_key plan (key_event k) = g).

Lemma row_part plan wm g rows :
  sumZ ev_quantity (filter (λ e, group_key plan e = g)
    (rollup_record_to_event <$> filter (λ r, below_matches plan wm r = true) rows))
  = RW.row_total (selects plan wm g) rows.
Proof.
  unfold RW.row_total. induction rows as [|r rows IH]; [done|]. rewrite sumZ_cons, <- IH, filter_cons.
  unfold selects, below_matches. rewrite matches_row. cbn [Roll.record_key rk_hour_start_ms].
  destruct (rr_hour_start_ms r <? wm), (matches_plan plan (key_event (Roll.record_key r))); cbn [andb];
    [|rewrite decide_False by done; lia..].
  rewrite decide_True by done. rewrite fmap_cons, filter_cons, group_key_row.
  case_decide as E; [rewrite bool_decide_eq_true_2 by done|rewrite bool_decide_eq_false_2 by done; lia].
  rewrite sumZ_cons. done.
Qed.

Lemma selects_event plan wm g e :
  plan_aligned plan → (HOUR_MS | wm) → 0 ≤ ev_timestamp_ms e →
  selects plan wm g (Roll.event_key e)
  = (ev_timestamp_ms e <? wm) && matches_plan plan e && bool_decide (group_key plan e = g).
Proof.
  intros Hp Hwm Hts. unfold selects. rewrite matches_key, group_key_key by done. cbn [Roll.event_key rk_hour_start_ms].
  do 2 f_equal. pose proof (floor_hour_le_iff _ _ Hts Hwm). zcase; zcase; lia.
Qed.

Lemma raw_part plan wm g es :
  plan_aligned plan → (HOUR_MS | wm) → Forall (λ e, 0 ≤ ev_timestamp_ms e) es →
  sumZ ev_quantity (filter (λ e, group_key plan e = g) (filter (λ e, matches_plan plan e = true) es))
  = RW.raw_total (selects plan wm g) 0 wm es
    + sumZ ev_quantity (filter (λ e, group_key plan e = g)
        (filter (λ e, matches_plan plan e = true ∧ wm ≤ ev_timestamp_ms e) es)).
Proof.
  intros Hp Hwm Hes. unfold RW.raw_total, RW.in_window. induction Hes as [|e es Hts _ IH]; [done|].
  rewrite sumZ_cons, selects_event by done. rewrite (proj2 (Z.leb_le 0 _)) by done. cbn [andb].
  rewrite !(filter_cons _ e).
  destruct (matches_plan plan e) eqn:Em; cycle 1.
  { rewrite !decide_False by naive_solver. rewrite IH. zcase; cbn [andb]; lia. }
  rewrite (decide_True (P := true = true)) by done. rewrite filter_cons. zcase; cbn [andb].
  - rewrite (decide_False (P := true = true ∧ _)) by (intros [_ ?]; lia).
    case_decide; [rewrite bool_decide_eq_true_2 by done|rewrite bool_decide_eq_false_2 by done];
      rewrite ?sumZ_cons, IH; lia.
  - rewrite (decide_True (P := true = true ∧ _)) by done. rewrite filter_cons. case_decide; rewrite ?sumZ_cons, IH; lia.
Qed.

(** A key shows up below the watermark on the rollup side exactly when it does
    on the raw side. *)
Lemma keys_below plan wm g rows es :
  plan_aligned plan → (HOUR_MS | wm) → Forall (λ e, 0 ≤ ev_timestamp_ms e) es →
  Forall (λ r, 1 ≤ rr_event_count r) rows →
  RW.row_events (selects plan wm g) rows = RW.raw_events (selects plan wm g) 0 wm es →
  (∃ r, r ∈ rows ∧ below_matches plan wm r = true ∧ group_key plan (rollup_record_to_event r) = g)
  ↔ (∃ e, e ∈ es ∧ matches_plan plan e = true ∧ ev_timestamp_ms e < wm ∧ group_key plan e = g).
Proof.
  intros Hp Hwm Hes Hr Heq. rewrite Forall_forall in Hes. rewrite Forall_forall in Hr.
  transitivity (0 < RW.row_events (selects plan wm g) rows).
  - unfold RW.row_events. rewrite sumZ_pos.
    2:{ intros r Hin. apply Hr in Hin. case_match; lia. }
    enough (∀ r, r ∈ rows → below_matches plan wm r = true ∧ group_key plan (rollup_record_to_event r) = g
                  ↔ 0 < if selects plan wm g (Roll.record_key r) then rr_event_count r else 0) by naive_solver.
    intros r Hin. apply Hr in Hin.
    unfold below_matches, selects. rewrite matches_row, group_key_row. cbn [Roll.record_key rk_hour_start_ms].
    destruct (rr_hour_start_ms r <? wm), (matches_plan plan (key_event (Roll.record_key r))),
      (decide (group_key plan (key_event (Roll.record_key r)) = g));
      rewrite ?bool_decide_eq_true_2, ?bool_decide_eq_false_2 by done; cbn [andb]; naive_solver lia.
  - rewrite Heq. unfold RW.raw_events. rewrite sumZ_pos by (intros; repeat case_match; lia).
    enough (∀ e, e ∈ es → matches_plan plan e = true ∧ ev_timestamp_ms e < wm ∧ group_key plan e = g
      ↔ 0 < if RW.in_window 0 wm e then (if selects plan wm g (Roll.event_key e) then 1 else 0) else 0)
      by naive_solver.
    intros e Hin. apply Hes in Hin. rewrite selects_event by done. unfold RW.in_window. rewrite (proj2 (Z.leb_le 0 _)) by done. cbn [andb].
    destruct (Z.ltb_spec (ev_timestamp_ms e) wm), (matches_plan plan e), (decide (group_key plan e = g));
      rewrite ?bool_decide_eq_true_2, ?bool_decide_eq_false_2 by done; cbn [andb]; naive_solver lia.
Qed.

(** What the two paths feed the aggregator. *)
Definition rollup_side (st : AppState) (plan : QueryPlan) : list UsageEvent :=
  (rollup_record_to_event <$> filter (λ r, below_matches plan (m_hourly_rollup_ms (as_manifest st)) r = true)
     (RW.rolled (as_files st) (m_rollup_segments (as_manifest st))))
  ++ filter (λ e, matches_plan plan e = true ∧ m_hourly_rollup_ms (as_manifest st) ≤ ev_timestamp_ms e) (db_events st).

Definition raw_side (plan : QueryPlan) (es : list UsageEvent) : list UsageEvent :=
  filter (λ e, matches_plan plan e = true) es.

(** The events the rollup path accounts for: the ones the rollups are the
    rollup of, and all that is at or above the watermark. *)
Record accounts_for (st : AppState) (prompt : list UsageEvent) : Prop := {
  af_rollups : RW.rollups_of st prompt;
  af_tail : filter (λ e, m_hourly_rollup_ms (as_manifest st) ≤ ev_timestamp_ms e) prompt
    ≡ₚ filter (λ e, m_hourly_rollup_ms (as_manifest st) ≤ ev_timestamp_ms e) (db_events st);
  af_times : Forall (λ e, 0 ≤ ev_timestamp_ms e) prompt;
}.

#[global] Instance accounts_for_perm st : Proper ((≡ₚ) ==> iff) (accounts_for st).
Proof.
  assert (∀ l k, l ≡ₚ k → accounts_for st l → accounts_for st k) as H.
  { intros l k Hp [Hr Ht Hts]. split; [|by rewrite <- Hp|by rewrite <- Hp].
    apply (RW.rollups_of_above _ _ k [] Hr); [by rewrite app_nil_r|constructor]. }
  intros l k Hp. split; by apply H.
Qed.

(** Sound rollups and the memtable account for everything. *)
Lemma sound_accounts st :
  RW.rollups_sound st → Forall (λ e, 0 ≤ ev_timestamp_ms e) (db_events st) → accounts_for st (db_events st).
Proof. intros [Hs Ho] Ht. split; [|done|done]. by apply (RW.rollups_of_above _ _ _ _ Hs (Permutation_refl _)). Qed.

Lemma ro_counts st prompt :
  RW.rollups_of st prompt → Forall (λ r, 1 ≤ rr_event_count r) (RW.rolled (as_files st) (m_rollup_segments (as_manifest st))).
Proof.
  intros [_ _ Hr]. unfold RW.rolled. induction Hr as [|s segs H _ IH]; [constructor|].
  rewrite fmap_cons. apply Forall_app. split; [|done]. eapply Forall_impl; [exact H|]. by intros r (? & _).
Qed.

(** The raw tail of a query, over the events of the reference. *)
Lemma tail_matching st prompt plan :
  accounts_for st prompt →
  filter (λ e, matches_plan plan e = true ∧ m_hourly_rollup_ms (as_manifest st) ≤ ev_timestamp_ms e) (db_events st)
  ≡ₚ filter (λ e, matches_plan plan e = true ∧ m_hourly_rollup_ms (as_manifest st) ≤ ev_timestamp_ms e) prompt.
Proof. intros [_ Ht _]. rewrite <- !list_filter_filter. by rewrite Ht. Qed.

Lemma sides_sums st prompt plan g :
  accounts_for st prompt → plan_aligned plan →
  sumZ ev_quantity (filter (λ e, group_key plan e = g) (rollup_side st plan))
  = sumZ ev_quantity (filter (λ e, group_key plan e = g) (raw_side plan prompt)).
Proof.
  intros Ha Hp. unfold rollup_side, raw_side. rewrite (tail_matching st prompt plan Ha).
  destruct Ha as [[Hwm Htot _] _ Hts]. rewrite filter_app, sumZ_app, row_part.
  destruct (Htot (selects plan (m_hourly_rollup_ms (as_manifest st)) g)) as [-> _].
  by rewrite (raw_part plan (m_hourly_rollup_ms (as_manifest st))).
Qed.

Lemma sides_keys st prompt plan g :
  accounts_for st prompt → plan_aligned plan →
  g ∈ group_key plan <$> rollup_side st plan ↔ g ∈ group_key plan <$> raw_side plan prompt.
Proof.
  intros Ha Hp. unfold rollup_side, raw_side. rewrite (tail_matching st prompt plan Ha).
  destruct Ha as [Hr _ Hts]. pose proof (ro_counts st prompt Hr) as Hc. destruct Hr as [Hwm Htot _].
  destruct (Htot (selects plan (m_hourly_rollup_ms (as_manifest st)) g)) as [_ He].
  pose proof (keys_below plan _ g _ _ Hp Hwm Hts Hc He) as Hk. clear Htot He Hc Hts.
  rewrite fmap_app, elem_of_app, !list_elem_of_fmap. setoid_rewrite list_elem_of_filter.
  transitivity ((∃ r, r ∈ RW.rolled (as_files st) (m_rollup_segments (as_manifest st))
      ∧ below_matches plan (m_hourly_rollup_ms (as_manifest st)) r = true
      ∧ group_key plan (rollup_record_to_event r) = g)
    ∨ (∃ e, e ∈ prompt ∧ matches_plan plan e = true ∧ m_hourly_rollup_ms (as_manifest st) ≤ ev_timestamp_ms e
        ∧ group_key plan e = g)).
  - apply ZifyClasses.or_morph; [|naive_solver].
    split; [intros (e & -> & (r & -> & [? ?]%list_elem_of_filter)%list_elem_of_fmap); eauto|].
    intros (r & ? & ? & <-). eexists. split; [done|]. apply list_elem_of_fmap. eexists. split; [done|].
    by apply list_elem_of_filter.
  - rewrite Hk. split; [naive_solver|]. intros (e & -> & Hm & Hin).
    destruct (Z_lt_le_dec (ev_timestamp_ms e) (m_hourly_rollup_ms (as_manifest st))); eauto 10.
Qed.

Lemma rollup_side_abs st plan :
  Roll.abs_total (rollup_side st plan)
  ≤ sumZ (λ r, Z.abs (rr_quantity_sum r)) (RW.rolled (as_files st) (m_rollup_segments (as_manifest st)))
    + Roll.abs_total (db_events st).
Proof.
  unfold Roll.abs_total, rollup_side. rewrite sumZ_app. apply Z.add_le_mono.
  - induction (RW.rolled (as_files st) (m_rollup_segments (as_manifest st))) as [|r rows IH]; [done|].
    rewrite filter_cons. case_decide; rewrite ?fmap_cons, !sumZ_cons; cbn [rollup_record_to_event ev_quantity]; lia.
  - induction (db_events st) as [|e es IH]; [done|]. rewrite filter_cons. case_decide; rewrite !sumZ_cons; lia.
Qed.

Definition set_source (source : QuerySource) (plan : QueryPlan) : QueryPlan :=
  MkQueryPlan source (qp_account_id plan) (qp_from_ms plan) (qp_to_ms plan) (qp_filters plan) (qp_group_by plan)
    (qp_metrics plan) (qp_limit plan).

(** The sums a plan asks for only depend on the keys and sums of the matching
    events. *)
Lemma aggregate_same_sums plan es es' :
  qp_group_by plan ≠ [] ∨ qp_metrics plan ≠ ∅ →
  map_Forall (λ _ f, f = Sum) (qp_metrics plan) →
  Roll.abs_total es ≤ i128_max → Roll.abs_total es' ≤ i128_max →
  let matching := filter (λ e, matches_plan plan e = true) es in
  let matching' := filter (λ e, matches_plan plan e = true) es' in
  (∀ k, k ∈ group_key plan <$> matching ↔ k ∈ group_key plan <$> matching') →
  (∀ k, sumZ ev_quantity (filter (λ e, group_key plan e = k) matching)
        = sumZ ev_quantity (filter (λ e, group_key plan e = k) matching')) →
  aggregate plan es = aggregate plan es'.
Proof.
  intros Hg Hm Ha Ha' matching matching' Hk Hs. rewrite !aggregate_spec by done. fold matching matching'.
  case_decide as E; [|by apply same_sums_same_rows].
  do 2 f_equal. apply map_fmap_ext. intros i f Hf. rewrite (Hm _ _ Hf). cbn. do 2 f_equal.
  specialize (Hs []). rewrite !filter_all in Hs; [done|..];
    apply Forall_forall; intros e _; unfold group_key; by rewrite E.
Qed.

(** The rows the rollup path aggregates. *)
Lemma rollup_collected st prompt plan :
  segs_sound st → RW.rollups_of st prompt → qp_source plan = RollupHourly →
  sumZ (λ r, Z.abs (rr_quantity_sum r)) (RW.rolled (as_files st) (m_rollup_segments (as_manifest st)))
    + Roll.abs_total (db_events st) ≤ i128_max →
  execute_plan st plan = Some (aggregate plan (rollup_side st plan))
  ∧ filter (λ e, matches_plan plan e = true) (rollup_side st plan) = rollup_side st plan
  ∧ Roll.abs_total (rollup_side st plan) ≤ i128_max ∧ Roll.abs_total (db_events st) ≤ i128_max.
Proof.
  intros Hs Hr Hsrc Ha. destruct (collect_rollup_spec st prompt plan Hs Hr) as (es & E & Hes). fold (rollup_side st plan) in Hes.
  assert (filter (λ e, matches_plan plan e = true) (rollup_side st plan) = rollup_side st plan) as Hidem.
  { rewrite <- Hes. rewrite list_filter_filter. apply list_filter_iff. tauto. }
  pose proof (rollup_side_abs st plan). pose proof (sumZ_nonneg_in (λ r, Z.abs (rr_quantity_sum r))
    (RW.rolled (as_files st) (m_rollup_segments (as_manifest st))) ltac:(intros; lia)).
  split; [|split; [done|lia]].
  unfold execute_plan, collect_events. rewrite Hsrc, E. cbn [mbind option_bind]. f_equal.
  apply aggregate_matching. by rewrite Hidem.
Qed.

(** A rollup query is the aggregation of the events it accounts for. *)
Lemma rollup_query_spec st prompt plan :
  segs_sound st → accounts_for st prompt → plan_aligned plan → qp_source plan = RollupHourly →
  qp_group_by plan ≠ [] ∨ qp_metrics plan ≠ ∅ →
  map_Forall (λ _ f, f = Sum) (qp_metrics plan) →
  sumZ (λ r, Z.abs (rr_quantity_sum r)) (RW.rolled (as_files st) (m_rollup_segments (as_manifest st)))
    + Roll.abs_total (db_events st) ≤ i128_max →
  Roll.abs_total prompt ≤ i128_max →
  execute_plan st plan = Some (aggregate plan prompt).
Proof.
  intros Hs Hr Hp Hsrc Hg Hm Ha Hap.
  destruct (rollup_collected st prompt plan Hs (af_rollups _ _ Hr) Hsrc Ha) as (E & Hidem & H1 & H2).
  rewrite E. f_equal. apply aggregate_same_sums; [done|done|lia|lia|..]; rewrite Hidem; fold (raw_side plan prompt);
    intros k; [by apply sides_keys|by apply sides_sums].
Qed.

(** Totals without grouping, by either path. *)
Lemma raw_total_spec st plan :
  segs_sound st → qp_source plan = RawEvents → qp_group_by plan = [] → qp_metrics plan ≠ ∅ →
  Roll.abs_total (db_events st) ≤ i128_max →
  let matching := filter (λ e, matches_plan plan e = true) (db_events st) in
  execute_plan st plan
  = Some [RowObject (metric_value (MkAgg (sumZ ev_quantity matching) (Z.of_nat (length matching))) <$> qp_metrics plan)].
Proof.
  intros Hs Hsrc Hg Hm Ha. cbv zeta. rewrite (raw_query_spec st plan Hs Hsrc), aggregate_spec by auto.
  cbv zeta. by rewrite decide_True.
Qed.

Lemma rollup_total_spec st prompt plan :
  segs_sound st → accounts_for st prompt → plan_aligned plan → qp_source plan = RollupHourly →
  qp_group_by plan = [] → qp_metrics plan ≠ ∅ →
  sumZ (λ r, Z.abs (rr_quantity_sum r)) (RW.rolled (as_files st) (m_rollup_segments (as_manifest st)))
    + Roll.abs_total (db_events st) ≤ i128_max →
  ∃ a, execute_plan st plan = Some [RowObject (metric_value a <$> qp_metrics plan)]
    ∧ ag_quantity_sum a = sumZ ev_quantity (filter (λ e, matches_plan plan e = true) prompt).
Proof.
  intros Hs Hr Hp Hsrc Hg Hm Ha.
  destruct (rollup_collected st prompt plan Hs (af_rollups _ _ Hr) Hsrc Ha) as (E & Hidem & H1 & H2).
  eexists. rewrite E, aggregate_spec by auto. cbv zeta. rewrite decide_True by done. split; [reflexivity|].
  cbn [ag_quantity_sum]. rewrite Hidem. pose proof (sides_sums st prompt plan [] Hr Hp) as Hsum.
  assert (∀ es, Forall (λ e, group_key plan e = []) es) as Hall.
  { intros es. apply Forall_forall. intros e _. unfold group_key. by rewrite Hg. }
  rewrite !filter_all in Hsum by apply Hall. exact Hsum.
Qed.

(** C14: the rollup path answers what the raw path answers: for a plan on hour
    boundaries that neither filters nor groups by the event kind and asks for
    sums, querying the rollups below the watermark and the raw tail above it
    gives the same rows as scanning everything, as long as the rollups are the
    rollup of what the segments hold below the watermark, the memtable holds
    nothing below it, and the quantities stay within i128. *)
Theorem rollup_query_agrees st plan :
  segs_sound st → RW.rollups_sound st → plan_aligned plan → qp_source plan = RollupHourly →
  qp_group_by plan ≠ [] ∨ qp_metrics plan ≠ ∅ →
  map_Forall (λ _ f, f = Sum) (qp_metrics plan) →
  Forall (λ e, 0 ≤ ev_timestamp_ms e) (db_events st) →
  sumZ (λ r, Z.abs (rr_quantity_sum r)) (RW.rolled (as_files st) (m_rollup_segments (as_manifest st)))
    + Roll.abs_total (db_events st) ≤ i128_max →
  ∃ rows, execute_plan st plan = Some rows ∧ execute_plan st (set_source RawEvents plan) = Some rows.
Proof.
  intros Hs Hr Hp Hsrc Hg Hm Hts Ha. pose proof (sumZ_nonneg_in (λ r, Z.abs (rr_quantity_sum r))
    (RW.rolled (as_files st) (m_rollup_segments (as_manifest st))) ltac:(intros; lia)).
  exists (aggregate plan (db_events st)).
  split; [apply rollup_query_spec; [done|by apply sound_accounts|done..|lia]|].
  by rewrite (raw_query_spec st (set_source RawEvents plan) Hs eq_refl).
Qed.
End collect.
End Exec.

(** ** Witnesses *)
Module QueryExample.
#[local] Existing Instances poly_digest code_bincode stored_codecs poly_digest_ok code_bincode_ok stored_codecs_ok.
#[local] Existing Instances Files.file_segments Files.file_segments_ok.

(** A reversible text for dimensions. *)
Definition code_dims : DimJson := λ d, Some (bytes_str (pos_digits (encode d))).
Definition code_dims_parse : DimParse := λ s, p ← digits_pos (str_bytes s); decode p.
#[local] Existing Instances code_dims code_dims_parse.

Lemma str_bytes_digits p : str_bytes (bytes_str (pos_digits p)) = pos_digits p.
Proof.
  pose proof (pos_digits_ascii p) as H. unfold str_bytes, bytes_str.
  rewrite String.list_ascii_of_string_of_list_ascii, <- list_fmap_compose.
  induction H as [|b l Hb _ IH]; [done|]. cbn [fmap list_fmap]. rewrite IH. f_equal.
  by destruct Hb as [->|[->|[->| ->]]].
Qed.

#[local] Instance code_dims_ok : @DimJsonOk code_dims code_dims_parse.
Proof.
  split; [by eexists|]. intros d s [= <-]. unfold dim_parse, code_dims_parse.
  rewrite str_bytes_digits, digits_pos_digits. cbn. apply decode_encode.
Qed.

(** One event in a segment and rolled up, one in the memtable. *)
Definition ev : UsageEvent := sample_event "a" "acct_1" 3700000 5.
Definition ev' : UsageEvent := sample_event "b" "acct_1" 7300000 7.

Definition bucket1 : Z := bucket_for_account "acct_1" 4.
Definition raw_file : bytes := match seg_write [ev] with Ok (bs, _, _) => bs | _ => [] end.
Definition raw_meta : SegmentMeta := build_segment_meta "raw_a" [ev] bucket1 0.

Definition rows : list HourlyRollupRecord := Roll.finalize (Roll.build [ev]).
Definition rollup_file : bytes * Z := match Roll.write_rollup_file rows with Ok (bs, _, cs) => (bs, cs) | _ => ([], 0) end.
Definition rollup_meta : SegmentMeta :=
  RW.build_rollup_segment_meta "rollup_a" rows bucket1 rollup_file.2 3600000 7199999 1 ["raw_a"].

Definition st : AppState :=
  MkAppState
    (MkFlushEnv {[seg_path "raw_a" := raw_file; rseg_path "rollup_a" := rollup_file.1]} ManExample.empty_man
       (set_watermark 7200000 (set_rollup_segments [rollup_meta] (set_raw_segments [raw_meta] ManExample.gen0)))
       (WalOps.open WalOps.empty_fs 0).1)
    (WalOps.open WalOps.empty_fs 0).2 (MkMemtable [ev'] 100 (Some 7299000)) (Hot.new 10) [] [] RollupExample.cfg.

Definition plan (source : QuerySource) (from_ms : Z) : QueryPlan :=
  MkQueryPlan source (Some "acct_1") from_ms 10800000 [MkQueryFilter "region" ["eu"]] ["model_id"]
    {["quantity" := Sum]} None.

Lemma query_raw_at : Flush.seg_at (as_files st) raw_meta [ev].
Proof. eexists. split; [vm_compute; reflexivity|]. vm_compute. reflexivity. Qed.

Lemma sound : Exec.segs_sound st.
Proof.
  apply Forall_singleton. unfold Flush.meta_sound. rewrite (Flush.seg_at_events _ _ _ query_raw_at).
  split; [apply query_raw_at|]. split; [done|]. intros e ->%list_elem_of_singleton.
  split; [|by vm_compute]. apply build_segment_meta_covers. by left.
Qed.

Lemma db : Exec.db_events st = [ev; ev'].
Proof.
  change (Exec.db_events st) with ((Flush.seg_events (as_files st) raw_meta ++ []) ++ [ev']).
  by rewrite (Flush.seg_at_events _ _ _ query_raw_at).
Qed.

Lemma rolled_rows : RW.rolled (as_files st) (m_rollup_segments (as_manifest st)) = rows.
Proof. vm_compute. reflexivity. Qed.

Lemma rollups : RW.rollups_sound st.
Proof.
  split; [split|].
  - by exists 2.
  - intros sel. cbv zeta. rewrite rolled_rows.
    change (Flush.stored (as_files st) (m_raw_segments (as_manifest st)))
      with (Flush.seg_events (as_files st) raw_meta ++ []).
    rewrite (Flush.seg_at_events _ _ _ query_raw_at). split; vm_compute; reflexivity.
  - apply Forall_singleton. replace (RW.rollup_rows (as_files st) rollup_meta) with rows by (vm_compute; reflexivity).
    apply Forall_singleton. by vm_compute.
  - apply Forall_singleton. by vm_compute.
Qed.

Lemma raw_query_exact_witness :
  Exec.execute_plan st (plan RawEvents 0) = Some [RowObject {["model_id" := VString "m1"; "quantity" := VString "12"]}].
Proof.
  rewrite (Exec.raw_query_exact st (plan RawEvents 0)); [|apply sound|reflexivity]. rewrite db.
  vm_compute. reflexivity.
Defined.

Lemma aggregate_exact_witness :
  Exec.aggregate (plan RawEvents 0) [ev; ev'] = [RowObject {["model_id" := VString "m1"; "quantity" := VString "12"]}].
Proof.
  rewrite (Exec.aggregate_exact (plan RawEvents 0) [ev; ev']); [vm_compute; reflexivity|by left|by vm_compute].
Defined.

Lemma rollup_query_agrees_witness :
  ∃ rows, Exec.execute_plan st (plan RollupHourly 3600000) = Some rows
        ∧ Exec.execute_plan st (Exec.set_source RawEvents (plan RollupHourly 3600000)) = Some rows.
Proof.
  apply (Exec.rollup_query_agrees st (plan RollupHourly 3600000)).
  - apply sound.
  - apply rollups.
  - split; [by exists 1|by exists 3| |]; [by apply Forall_singleton|]. refine (bool_decide_unpack _ _). by vm_compute.
  - reflexivity.
  - by left.
  - by apply map_Forall_singleton.
  - rewrite db. refine (bool_decide_unpack _ _). by vm_compute.
  - rewrite rolled_rows, db. by vm_compute.
Defined.

(** On a range that does not start on an hour boundary the two paths
    disagree: the rollup row of the hour the range starts in is left out as a
    whole, so the event in it that the range includes is missing. *)
Theorem rollup_query_unaligned_differs :
  Exec.execute_plan st (plan RawEvents 3650000)
    = Some [RowObject {["model_id" := VString "m1"; "quantity" := VString "12"]}]
  ∧ Exec.execute_plan st (plan RollupHourly 3650000)
    = Some [RowObject {["model_id" := VString "m1"; "quantity" := VString "7"]}].
Proof. split; vm_compute; reflexivity. Qed.
End QueryExample.
