(* ===== verification/Sql.v ===== *)
(** * The SQL front end

    [src/query/sql.rs]: a strict subset of SQL is translated to a query plan.
    The text is parsed by the sqlparser crate, which is the parameter [SqlText];
    the syntax tree below has the constructors and fields the translation
    looks at, with one constructor for every shape it only refuses, and at
    every node the list of the clauses the translation never looks at. *)

From Stdlib Require Import Ascii.
From stdpp Require Import sorting numbers strings base gmap list.
From S2P Require Import Prelude Model Instances Encoding Segment SegmentSpec DedupeIndex SegmentApi.
From S2P Require Import Memtable Dedupe Wal Manifest Flusher State Rollup RollupWorker Query.

(** ** Syntax *)
Inductive SqlValue := SingleQuotedString (s : string) | Number (n : string) | OtherValue.

Inductive BinaryOperator := OpAnd | OpOr | OpEq | OpGtEq | OpGt | OpLt | OpLtEq | OpOther.

(** A clause of the statement that no line of the translation reads: of a call
    FILTER, OVER, WITHIN GROUP and the like, of a table its hints, sampling
    and partitions, of a select TOP, INTO, PREWHERE, lateral views and the like,
    of a query FETCH, locks and the like. *)
Inductive Clause := FilterClause (condition : string) | OverClause (window : string) | OtherClause (text : string).

(** Names are kept as the text that [Display] gives them; [unread] lists the
    clauses of a call the translation does not look at. *)
Inductive Expr :=
| Identifier (value : string)
| CompoundIdentifier (parts : list string)
| ValueExpr (v : SqlValue)
| BinaryOp (left : Expr) (op : BinaryOperator) (right : Expr)
| InList (expr : Expr) (items : list Expr) (negated : bool)
| FunctionCall (name : string) (args : FunctionArguments) (unread : list Clause)
| OtherExpr
with FunctionArguments :=
| ArgumentList (duplicate_treatment : bool) (args : list FunctionArg) (clauses : nat)
| OtherArguments
with FunctionArg :=
| Unnamed (a : FunctionArgExpr)
| Named
| ExprNamed
with FunctionArgExpr :=
| ArgExpr (e : Expr)
| Wildcard
| QualifiedWildcard
| WildcardWithOptions.

Inductive SelectItem :=
| UnnamedExpr (e : Expr) | ExprWithAlias | SelectWildcard | SelectQualifiedWildcard | ExprWithAliases.

Inductive TableFactor := Table (name : string) (alias args version : bool) (unread : list Clause) | OtherTable.
Inductive GroupByExpr := GroupExpressions (exprs : list Expr) (modifiers : nat) | GroupAll.
Inductive OrderByKind := OrderExpressions (exprs : nat) | OrderAll.

Record Select := MkSelect {
  sel_distinct : bool;
  sel_named_window : nat;
  sel_having : bool;
  sel_qualify : bool;
  sel_cluster_by : nat;
  sel_distribute_by : nat;
  sel_sort_by : nat;
  sel_from : list (TableFactor * nat);
  sel_projection : list SelectItem;
  sel_group_by : GroupByExpr;
  sel_selection : option Expr;
  sel_unread : list Clause;
}.

Inductive SetExpr := SetSelect (s : Select) | SetOther.

Record SqlQuery := MkSqlQuery {
  sq_order_by : option OrderByKind;
  sq_with : bool;
  sq_body : SetExpr;
  sq_limit_clause : bool;
  sq_unread : list Clause;
}.

Inductive Statement := StQuery (q : SqlQuery) | StOther.

(** [Parser::parse_sql] with the generic dialect. *)
Class SqlText := sql_parse : string → option (list Statement).

Inductive sql_error :=
| SyntaxError
| StatementCount (n : nat)
| NotSelect | OrderBy | With | CompoundQuery | Distinct | NamedWindow | Having | Qualify | HiveClauses
| FromCount | Joins | NotSimpleTable | TableAlias | TableFunction | TableVersion | UnknownTable (name : string)
| BadProjection | ColumnAlias | SelectStar | QualifiedStar | MultiAlias
| GroupModifiers | BadGroupBy | GroupByAll
| FunctionArgsShape (name : string) | DistinctArgument (name : string) | ArgumentClauses (name : string)
| SumArity (n : nat) | SumColumn | CountArity (n : nat) | CountColumn | UnknownAggregate (name : string)
| WildcardArgument | QualifiedWildcardArgument | OptionsArgument | NamedArgument | ExprNamedArgument
| OrInWhere | BadOperator | InColumn | NotIn | BadWhere | EqColumn
| RangeColumn | RangeField (field : string) | RangeValue (text : string)
| BadLiteral | NotLiteral | Limit.

Module Sql.
(** ** Aggregates *)
Definition upper_ascii (a : ascii) : ascii :=
  let n := N_of_ascii a in
  if (97 <=? n)%N && (n <=? 122)%N then ascii_of_N (n - 32) else a.

(** [str::to_uppercase], as far as a comparison with the two ASCII names can
    tell: besides the ASCII letters only the long s (bytes C5 BF) becomes one of
    their letters. *)
Fixpoint to_uppercase (s : string) : string :=
  match s with
  | EmptyString => EmptyString
  | String a s' =>
      match s' with
      | String b s'' =>
          if Ascii.eqb a "197"%char && Ascii.eqb b "191"%char then String "S"%char (to_uppercase s'')
          else String (upper_ascii a) (to_uppercase s')
      | EmptyString => String (upper_ascii a) EmptyString
      end
  end.

Definition function_arg_expr (arg : FunctionArg) : outcome sql_error Expr :=
  match arg with
  | Unnamed (ArgExpr e) => Ok e
  | Unnamed Wildcard => Err WildcardArgument
  | Unnamed QualifiedWildcard => Err QualifiedWildcardArgument
  | Unnamed WildcardWithOptions => Err OptionsArgument
  | Named => Err NamedArgument
  | ExprNamed => Err ExprNamedArgument
  end.

Definition parse_aggregate (fname : string) (fargs : FunctionArguments)
    : outcome sql_error (string * AggregationFunction) :=
  let name := to_uppercase fname in
  match fargs with
  | OtherArguments => Err (FunctionArgsShape name)
  | ArgumentList duplicate_treatment args clauses =>
      _ ← guard_err (negb duplicate_treatment) (DistinctArgument name);
      _ ← guard_err (clauses =? 0)%nat (ArgumentClauses name);
      if String.eqb name "SUM" then
        match args with
        | [arg] =>
            arg_expr ← function_arg_expr arg;
            match arg_expr with
            | Identifier value => if String.eqb value "quantity" then Ok ("quantity", Sum) else Err SumColumn
            | _ => Err SumColumn
            end
        | _ => Err (SumArity (length args))
        end
      else if String.eqb name "COUNT" then
        match args with
        | [Unnamed Wildcard] => Ok ("count", Count)
        | [_] => Err CountColumn
        | _ => Err (CountArity (length args))
        end
      else Err (UnknownAggregate name)
  end.

(** ** The WHERE clause *)
Definition extract_literal (val : Expr) : outcome sql_error string :=
  match val with
  | ValueExpr (SingleQuotedString s) => Ok s
  | ValueExpr (Number n) => Ok n
  | ValueExpr OtherValue => Err BadLiteral
  | _ => Err NotLiteral
  end.

Fixpoint extract_literals (items : list Expr) : outcome sql_error (list string) :=
  match items with
  | [] => Ok []
  | v :: items => x ← extract_literal v; xs ← extract_literals items; Ok (x :: xs)
  end.

Definition set_account (account : string) (plan : QueryPlan) : QueryPlan :=
  MkQueryPlan (qp_source plan) (Some account) (qp_from_ms plan) (qp_to_ms plan) (qp_filters plan)
    (qp_group_by plan) (qp_metrics plan) (qp_limit plan).
Definition set_range (from_ms to_ms : Z) (plan : QueryPlan) : QueryPlan :=
  MkQueryPlan (qp_source plan) (qp_account_id plan) from_ms to_ms (qp_filters plan)
    (qp_group_by plan) (qp_metrics plan) (qp_limit plan).
Definition push_filter (f : QueryFilter) (plan : QueryPlan) : QueryPlan :=
  MkQueryPlan (qp_source plan) (qp_account_id plan) (qp_from_ms plan) (qp_to_ms plan) (qp_filters plan ++ [f])
    (qp_group_by plan) (qp_metrics plan) (qp_limit plan).

Definition apply_field (field : string) (values : list string) (plan : QueryPlan) : QueryPlan :=
  match values with
  | [value] =>
      if String.eqb field "account_id" then set_account value plan else push_filter (MkQueryFilter field values) plan
  | _ => push_filter (MkQueryFilter field values) plan
  end.

Definition apply_eq (left right : Expr) (plan : QueryPlan) : outcome sql_error QueryPlan :=
  match left with
  | Identifier field => value ← extract_literal right; Ok (apply_field field [value] plan)
  | _ => Err EqColumn
  end.

Definition apply_range (left : Expr) (op : BinaryOperator) (right : Expr) (plan : QueryPlan)
    : outcome sql_error QueryPlan :=
  match left with
  | Identifier field =>
      _ ← guard_err (String.eqb field "timestamp_ms" || String.eqb field "hour_start_ms") (RangeField field);
      text ← extract_literal right;
      v ← ok_or (RangeValue text) (parse_i64 text);
      match op with
      | OpGt => Ok (set_range (Z.max (qp_from_ms plan) (sat_add_i64 v 1)) (qp_to_ms plan) plan)
      | OpGtEq => Ok (set_range (Z.max (qp_from_ms plan) v) (qp_to_ms plan) plan)
      | OpLt => Ok (set_range (qp_from_ms plan) (Z.min (qp_to_ms plan) v) plan)
      | OpLtEq => Ok (set_range (qp_from_ms plan) (Z.min (qp_to_ms plan) (sat_add_i64 v 1)) plan)
      | _ => Panic
      end
  | _ => Err RangeColumn
  end.

Fixpoint extract_filters (expr : Expr) (plan : QueryPlan) : outcome sql_error QueryPlan :=
  match expr with
  | BinaryOp lhs op rhs =>
      match op with
      | OpAnd => plan ← extract_filters lhs plan; extract_filters rhs plan
      | OpOr => Err OrInWhere
      | OpEq => apply_eq lhs rhs plan
      | OpGtEq | OpGt | OpLt | OpLtEq => apply_range lhs op rhs plan
      | OpOther => Err BadOperator
      end
  | InList lhs items false =>
      match lhs with
      | Identifier field => values ← extract_literals items; Ok (apply_field field values plan)
      | _ => Err InColumn
      end
  | InList _ _ true => Err NotIn
  | _ => Err BadWhere
  end.

(** ** The statement *)
Definition check_query (q : SqlQuery) : outcome sql_error Select :=
  _ ← guard_err (negb match sq_order_by q with
                      | Some (OrderExpressions n) => negb (n =? 0)%nat
                      | Some OrderAll => true
                      | None => false
                      end) OrderBy;
  _ ← guard_err (negb (sq_with q)) With;
  select ← match sq_body q with SetSelect s => Ok s | SetOther => Err CompoundQuery end;
  _ ← guard_err (negb (sel_distinct select)) Distinct;
  _ ← guard_err (sel_named_window select =? 0)%nat NamedWindow;
  _ ← guard_err (negb (sel_having select)) Having;
  _ ← guard_err (negb (sel_qualify select)) Qualify;
  _ ← guard_err ((sel_cluster_by select =? 0)%nat && (sel_distribute_by select =? 0)%nat
                 && (sel_sort_by select =? 0)%nat) HiveClauses;
  Ok select.

Definition source_of (select : Select) : outcome sql_error QuerySource :=
  match sel_from select with
  | [(relation, joins)] =>
      _ ← guard_err (joins =? 0)%nat Joins;
      match relation with
      | Table name alias args version _ =>
          _ ← guard_err (negb alias) TableAlias;
          _ ← guard_err (negb args) TableFunction;
          _ ← guard_err (negb version) TableVersion;
          if String.eqb name "usage_events" then Ok RawEvents
          else if String.eqb name "usage_rollup_hourly" then Ok RollupHourly
          else Err (UnknownTable name)
      | OtherTable => Err NotSimpleTable
      end
  | _ => Err FromCount
  end.

Fixpoint project (items : list SelectItem) (cols : list string) (metrics : gmap string AggregationFunction)
    : outcome sql_error (list string * gmap string AggregationFunction) :=
  match items with
  | [] => Ok (cols, metrics)
  | UnnamedExpr (Identifier value) :: items => project items (cols ++ [value]) metrics
  | UnnamedExpr (CompoundIdentifier [value]) :: items => project items (cols ++ [value]) metrics
  | UnnamedExpr (FunctionCall name args _) :: items =>
      '(metric_name, metric) ← parse_aggregate name args;
      project items cols (<[metric_name := metric]> metrics)
  | UnnamedExpr _ :: _ => Err BadProjection
  | ExprWithAlias :: _ => Err ColumnAlias
  | SelectWildcard :: _ => Err SelectStar
  | SelectQualifiedWildcard :: _ => Err QualifiedStar
  | ExprWithAliases :: _ => Err MultiAlias
  end.

Fixpoint group_columns (exprs : list Expr) (group_by : list string) : outcome sql_error (list string) :=
  match exprs with
  | [] => Ok group_by
  | Identifier value :: exprs =>
      group_columns exprs (if existsb (String.eqb value) group_by then group_by else group_by ++ [value])
  | _ :: _ => Err BadGroupBy
  end.

Definition grouping (g : GroupByExpr) (cols : list string) : outcome sql_error (list string) :=
  match g with
  | GroupExpressions exprs modifiers =>
      _ ← guard_err (modifiers =? 0)%nat GroupModifiers;
      group_columns exprs cols
  | GroupAll => Err GroupByAll
  end.

Definition translate (q : SqlQuery) : outcome sql_error QueryPlan :=
  select ← check_query q;
  source ← source_of select;
  '(cols, metrics) ← project (sel_projection select) [] ∅;
  group_by ← grouping (sel_group_by select) cols;
  let plan := MkQueryPlan source None i64_min i64_max [] group_by metrics None in
  plan ← match sel_selection select with
         | Some selection => extract_filters selection plan
         | None => Ok plan
         end;
  _ ← guard_err (negb (sq_limit_clause q)) Limit;
  Ok plan.

Definition parse_sql `{!SqlText} (sql : string) : outcome sql_error QueryPlan :=
  ast ← ok_or SyntaxError (sql_parse sql);
  match ast with
  | [StQuery query] => translate query
  | [StOther] => Err NotSelect
  | _ => Err (StatementCount (length ast))
  end.
(** ** No statement panics *)
Lemma literal_no_panic v : extract_literal v ≠ Panic.
Proof. unfold extract_literal. no_panic. Qed.

#[local] Hint Resolve literal_no_panic : no_panic.

Lemma literals_no_panic items : extract_literals items ≠ Panic.
Proof. induction items as [|v items IH]; cbn [extract_literals]; no_panic. Qed.

Lemma aggregate_no_panic name args : parse_aggregate name args ≠ Panic.
Proof. unfold parse_aggregate, function_arg_expr. no_panic. Qed.

#[local] Hint Resolve literals_no_panic aggregate_no_panic : no_panic.

Lemma filters_no_panic expr plan : extract_filters expr plan ≠ Panic.
Proof.
  revert plan. induction expr; intros plan; cbn [extract_filters]; try done; [|no_panic].
  destruct op; unfold apply_eq, apply_range; no_panic.
Qed.

Lemma project_no_panic items cols metrics : project items cols metrics ≠ Panic.
Proof. revert cols metrics. induction items as [|item items IH]; intros cols metrics; cbn [project]; no_panic. Qed.

Lemma columns_no_panic exprs cols : group_columns exprs cols ≠ Panic.
Proof. revert cols. induction exprs as [|[] exprs IH]; intros cols; cbn [group_columns]; no_panic. Qed.

#[local] Hint Resolve filters_no_panic project_no_panic columns_no_panic : no_panic.

Lemma parse_sql_no_panic `{!SqlText} text : parse_sql text ≠ Panic.
Proof. unfold parse_sql, translate, check_query, source_of, grouping. no_panic. Qed.

(** ** Reference semantics of a WHERE clause

    The clause as its text reads, on the row of the table [usage_events] that
    an event is: text columns compared with a literal, number columns compared
    as numbers, any other name a dimension. *)
Definition literal (x : Expr) : option string :=
  match x with
  | ValueExpr (SingleQuotedString s) => Some s
  | ValueExpr (Number n) => Some n
  | _ => None
  end.

Definition column_number (column : string) (e : UsageEvent) : option Z :=
  if String.eqb column "timestamp_ms" then Some (ev_timestamp_ms e)
  else if String.eqb column "hour_start_ms" then Some (floor_hour (ev_timestamp_ms e))
  else if String.eqb column "day" then Some (Exec.floor_day (ev_timestamp_ms e))
  else if String.eqb column "quantity" then Some (ev_quantity e)
  else if String.eqb column "ingested_at_ms" then Some (ev_ingested_at_ms e)
  else None.

Definition column_text (column : string) (e : UsageEvent) : option string :=
  if String.eqb column "event_id" then Some (ev_event_id e)
  else if String.eqb column "kind" then
    Some (match ev_kind e with Usage => "Usage" | Correction => "Correction" | Retraction => "Retraction" end)
  else if String.eqb column "account_id" then Some (ev_account_id e)
  else if String.eqb column "subscription_id" then ev_subscription_id e
  else if String.eqb column "product_id" then Some (ev_product_id e)
  else if String.eqb column "meter_id" then Some (ev_meter_id e)
  else if String.eqb column "unit" then Some (ev_unit e)
  else if String.eqb column "source" then Some (ev_source e)
  else if String.eqb column "model_id" then ev_model_id e
  else match column_number column e with
       | Some n => Some (to_string_i n)
       | None => inner (ev_dimensions e) !! column
       end.

Definition compares (op : BinaryOperator) (x v : Z) : bool :=
  match op with
  | OpGt => v <? x
  | OpGtEq => v <=? x
  | OpLt => x <? v
  | OpLtEq => x <=? v
  | _ => false
  end.

Definition column_is (column : string) (e : UsageEvent) (x : Expr) : bool :=
  match literal x with
  | Some v => bool_decide (column_text column e = Some v)
  | None => false
  end.

Fixpoint where_holds (w : Expr) (e : UsageEvent) : bool :=
  match w with
  | BinaryOp lhs op rhs =>
      match op, lhs with
      | OpAnd, _ => where_holds lhs e && where_holds rhs e
      | OpEq, Identifier column => column_is column e rhs
      | _, Identifier column =>
          match column_number column e, literal rhs ≫= parse_i64 with
          | Some x, Some v => compares op x v
          | _, _ => false
          end
      | _, _ => false
      end
  | InList (Identifier column) items false => existsb (column_is column e) items
  | _ => false
  end.

(** Clauses the translation reads as their text does. An equality or a
    membership on a column that is a number or the event id is taken as one
    on a dimension of that name; a comparison of [hour_start_ms] is taken as
    one of the timestamp, which is the same for [>=] and [<] with the
    start of an hour after the first. *)
Definition text_column (column : string) : bool :=
  negb (existsb (String.eqb column)
    ["event_id"; "timestamp_ms"; "hour_start_ms"; "day"; "quantity"; "ingested_at_ms"]).

Definition hour_bound (op : BinaryOperator) (rhs : Expr) : bool :=
  match op, literal rhs ≫= parse_i64 with
  | (OpGtEq | OpLt), Some v => (0 <? v) && (v mod 3600000 =? 0)
  | _, _ => false
  end.

Fixpoint plain_where (w : Expr) : bool :=
  match w with
  | BinaryOp lhs op rhs =>
      match op, lhs with
      | OpAnd, _ => plain_where lhs && plain_where rhs
      | OpEq, Identifier column => text_column column
      | _, Identifier column => if String.eqb column "hour_start_ms" then hour_bound op rhs else true
      | _, _ => true
      end
  | InList (Identifier column) _ false => text_column column
  | _ => true
  end.

(** The values the clause gives to the account column alone. *)
Fixpoint where_accounts (w : Expr) : list string :=
  match w with
  | BinaryOp lhs op rhs =>
      match op, lhs with
      | OpAnd, _ => where_accounts lhs ++ where_accounts rhs
      | OpEq, Identifier column => if String.eqb column "account_id" then option_list (literal rhs) else []
      | _, _ => []
      end
  | InList (Identifier column) [item] false =>
      if String.eqb column "account_id" then option_list (literal item) else []
  | _ => []
  end.

(** ** Lemmas: plans *)
Lemma matches_plan_split plan e :
  Exec.matches_plan plan e =
  ((qp_from_ms plan <=? ev_timestamp_ms e) && (ev_timestamp_ms e <? qp_to_ms plan))
  && match qp_account_id plan with Some a => String.eqb (ev_account_id e) a | None => true end
  && forallb (λ f, Exec.filter_ok f e) (qp_filters plan).
Proof.
  unfold Exec.matches_plan.
  destruct (Z.ltb_spec (ev_timestamp_ms e) (qp_from_ms plan)), (Z.leb_spec (qp_to_ms plan) (ev_timestamp_ms e)),
    (Z.leb_spec (qp_from_ms plan) (ev_timestamp_ms e)), (Z.ltb_spec (ev_timestamp_ms e) (qp_to_ms plan));
    try lia; cbn [andb orb]; try done.
  destruct (qp_account_id plan) as [a|]; cbn; [|done]. by destruct (String.eqb _ a).
Qed.

Lemma filter_ok_single field v e :
  Exec.filter_ok (MkQueryFilter field [v]) e = bool_decide (Exec.field_value field e = Some v).
Proof.
  unfold Exec.filter_ok. cbn [qf_field qf_values existsb]. destruct (Exec.field_value field e) as [x|].
  - rewrite orb_false_r. destruct (String.eqb_spec x v) as [->|]; symmetry; [by apply bool_decide_eq_true|].
    apply bool_decide_eq_false. congruence.
  - symmetry. by apply bool_decide_eq_false.
Qed.

Lemma literal_spec x : literal x = match extract_literal x with Ok s => Some s | _ => None end.
Proof. by destruct x as [| |[]| | | |]. Qed.

Lemma text_column_value column e : text_column column = true → Exec.field_value column e = column_text column e.
Proof.
  unfold text_column, column_text, column_number, Exec.field_value, Exec.kind_name.
  intros H%negb_true_iff. cbn [existsb] in H. rewrite !orb_false_iff in H. destruct H as (-> & -> & -> & -> & -> & -> & _).
  repeat match goal with |- context [String.eqb column ?c] => destruct (String.eqb_spec column c) as [->|] end; done.
Qed.

Lemma column_is_filter column x v e :
  text_column column = true → literal x = Some v →
  column_is column e x = Exec.filter_ok (MkQueryFilter column [v]) e.
Proof. intros Hc Hx. unfold column_is. by rewrite Hx, filter_ok_single, text_column_value. Qed.

Lemma extract_literals_spec items values :
  extract_literals items = Ok values → literal <$> items = Some <$> values.
Proof.
  revert values. induction items as [|x items IH]; intros values E; cbn in E; [by injection E as <-|].
  destruct (extract_literal x) as [v| |] eqn:Ex; [|done|done]. cbn in E.
  destruct (extract_literals items) as [vs| |]; [|done|done]. injection E as <-.
  rewrite !fmap_cons, (IH vs eq_refl). f_equal. by rewrite literal_spec, Ex.
Qed.

Lemma filter_ok_items field items values e :
  text_column field = true → literal <$> items = Some <$> values →
  Exec.filter_ok (MkQueryFilter field values) e = existsb (column_is field e) items.
Proof.
  intros Hc. revert values. induction items as [|x items IH]; intros [|v values] E; try discriminate E.
  - unfold Exec.filter_ok. cbn. by destruct (Exec.field_value field e).
  - rewrite !fmap_cons in E. injection E as Ex E. cbn [existsb].
    rewrite (column_is_filter field x v e Hc Ex), <- (IH values E).
    unfold Exec.filter_ok. cbn [qf_field qf_values existsb]. destruct (Exec.field_value field e); [|done].
    by rewrite orb_false_r.
Qed.

(** The start of an hour bounds the hour and the timestamp alike. *)
Lemma hour_floor_bound ts v : 0 < v → v mod 3600000 = 0 → v ≤ floor_hour ts ↔ v ≤ ts.
Proof.
  intros Hv Hm. unfold floor_hour, HOUR_MS.
  apply Z.div_exact in Hm; [|done]. set (k := v / 3600000) in *.
  pose proof (Z.quot_rem' ts 3600000) as Hq. set (h := Z.quot ts 3600000) in *.
  assert (-3600000 < Z.rem ts 3600000 < 3600000 ∧ (0 ≤ ts → 0 ≤ Z.rem ts 3600000)) as [Hr Hr'].
  { split; [pose proof (Z.rem_bound_abs ts 3600000 ltac:(lia)); lia|]. intros. by apply Z.rem_nonneg. }
  lia.
Qed.

(** Adding one membership. *)
Lemma apply_field_matches field values plan e :
  (field = "account_id" → length values = 1%nat → qp_account_id plan = None) →
  Exec.matches_plan (apply_field field values plan) e
  = Exec.matches_plan plan e && Exec.filter_ok (MkQueryFilter field values) e.
Proof.
  intros Hacc. unfold apply_field.
  assert (∀ f, forallb (λ f, Exec.filter_ok f e) (qp_filters plan ++ [f])
               = forallb (λ f, Exec.filter_ok f e) (qp_filters plan) && Exec.filter_ok f e) as Hpush.
  { intros f. rewrite forallb_app. cbn. by rewrite andb_true_r. }
  assert (∀ f, f = MkQueryFilter field values →
    Exec.matches_plan (push_filter f plan) e = Exec.matches_plan plan e && Exec.filter_ok f e) as Hfilter.
  { intros f _. rewrite !matches_plan_split. cbn [push_filter qp_from_ms qp_to_ms qp_account_id qp_filters].
    by rewrite Hpush, andb_assoc. }
  destruct values as [|v [|v' values]]; [by apply Hfilter| |by apply Hfilter].
  destruct (String.eqb_spec field "account_id") as [->|]; [|by apply Hfilter].
  rewrite !matches_plan_split. cbn [set_account qp_from_ms qp_to_ms qp_account_id qp_filters].
  rewrite (Hacc eq_refl eq_refl), filter_ok_single. cbn [Exec.field_value String.eqb Ascii.eqb Bool.eqb].
  replace (bool_decide (Some (ev_account_id e) = Some v)) with (String.eqb (ev_account_id e) v).
  - match goal with |- context [(?x <=? ?y) && ?b] => set (t := (x <=? y) && b) end.
    by destruct t, (String.eqb _ v), (forallb _ _).
  - destruct (String.eqb_spec (ev_account_id e) v) as [->|]; symmetry; [by apply bool_decide_eq_true|].
    apply bool_decide_eq_false. congruence.
Qed.

(** Adding one comparison. *)
Lemma apply_range_inv lhs op rhs plan plan' :
  apply_range lhs op rhs plan = Ok plan' →
  ∃ field v, lhs = Identifier field ∧ (field = "timestamp_ms" ∨ field = "hour_start_ms")
    ∧ literal rhs ≫= parse_i64 = Some v ∧ i64_min ≤ v ≤ i64_max
    ∧ plan' = match op with
              | OpGt => set_range (Z.max (qp_from_ms plan) (sat_add_i64 v 1)) (qp_to_ms plan) plan
              | OpGtEq => set_range (Z.max (qp_from_ms plan) v) (qp_to_ms plan) plan
              | OpLt => set_range (qp_from_ms plan) (Z.min (qp_to_ms plan) v) plan
              | _ => set_range (qp_from_ms plan) (Z.min (qp_to_ms plan) (sat_add_i64 v 1)) plan
              end
    ∧ (op = OpGt ∨ op = OpGtEq ∨ op = OpLt ∨ op = OpLtEq).
Proof.
  unfold apply_range, guard_err. intros E. destruct lhs as [field| | | | | |]; try done.
  destruct (String.eqb field "timestamp_ms" || String.eqb field "hour_start_ms") eqn:Ef; [|done].
  cbn [mbind outcome_bind] in E. destruct (extract_literal rhs) as [text| |] eqn:El; [|done|done].
  cbn [mbind outcome_bind] in E. destruct (parse_i64 text) as [v|] eqn:Ev; [|done]. cbn [ok_or mbind outcome_bind] in E.
  exists field, v. split; [done|]. split.
  { apply orb_true_iff in Ef as [->%String.eqb_eq| ->%String.eqb_eq]; auto. }
  rewrite literal_spec, El. split; [exact Ev|]. split.
  { apply (parse_signed_range i64_min i64_max text); [unfold i64_min, i64_max; lia|exact Ev]. }
  destruct op; try done; injection E as <-; auto 6.
Qed.

Lemma time_compares field op rhs v e :
  field = "timestamp_ms" ∨ field = "hour_start_ms" → literal rhs ≫= parse_i64 = Some v →
  op = OpGt ∨ op = OpGtEq ∨ op = OpLt ∨ op = OpLtEq →
  plain_where (BinaryOp (Identifier field) op rhs) = true →
  where_holds (BinaryOp (Identifier field) op rhs) e = compares op (ev_timestamp_ms e) v.
Proof.
  intros [-> | ->] Hv Hop Hp.
  { destruct Hop as [-> |[-> |[-> | ->]]]; cbn [where_holds]; rewrite Hv; done. }
  change (plain_where (BinaryOp (Identifier "hour_start_ms") op rhs)) with
    (match op with
     | OpAnd => plain_where (Identifier "hour_start_ms") && plain_where rhs
     | OpEq => text_column "hour_start_ms"
     | _ => hour_bound op rhs
     end) in Hp.
  unfold hour_bound in Hp. rewrite Hv in Hp.
  destruct Hop as [-> |[-> |[-> | ->]]]; try discriminate Hp; cbn [where_holds]; rewrite Hv; apply andb_true_iff in Hp as [Hp1%Z.ltb_lt Hp2%Z.eqb_eq];
    pose proof (hour_floor_bound (ev_timestamp_ms e) v Hp1 Hp2) as Hb;
    change (column_number "hour_start_ms" e) with (Some (floor_hour (ev_timestamp_ms e))); cbn [compares];
    apply eq_true_iff_eq; rewrite ?Z.leb_le, ?Z.ltb_lt; lia.
Qed.

Lemma apply_range_matches lhs op rhs plan plan' e :
  apply_range lhs op rhs plan = Ok plan' → qp_to_ms plan ≤ i64_max → plain_where (BinaryOp lhs op rhs) = true →
  Exec.matches_plan plan' e = Exec.matches_plan plan e && where_holds (BinaryOp lhs op rhs) e
  ∧ qp_account_id plan' = qp_account_id plan ∧ qp_to_ms plan' ≤ i64_max.
Proof.
  intros (field & v & -> & Hf & Hl & Hv & -> & Hop)%apply_range_inv Hto Hp.
  rewrite (time_compares field op rhs v e Hf Hl Hop Hp).
  destruct Hop as [-> |[-> |[-> | ->]]]; rewrite !matches_plan_split;
    cbn [set_range qp_from_ms qp_to_ms qp_account_id qp_filters compares];
    (split; [|split; [done|]]); unfold sat_add_i64, i64_max, i64_min in *; try lia.
  all: match goal with |- context [_ && ?acc && ?fs] => set (a := acc); set (f := fs) end; clearbody a f.
  all: destruct a, f; rewrite ?andb_true_r, ?andb_false_r; try done.
  all: apply eq_true_iff_eq; rewrite !andb_true_iff, ?Z.leb_le, ?Z.ltb_lt; lia.
Qed.

Definition account_count (plan : QueryPlan) : nat := length (option_list (qp_account_id plan)).

Lemma apply_field_count field values plan :
  (account_count (apply_field field values plan)
   ≤ account_count plan
     + match values with [_] => if String.eqb field "account_id" then 1 else 0 | _ => 0 end)%nat
  ∧ qp_to_ms (apply_field field values plan) = qp_to_ms plan.
Proof.
  unfold apply_field, account_count. destruct values as [|v [|? ?]]; try (cbn; split; [lia|done]).
  destruct (String.eqb _ _); cbn; split; try done; lia.
Qed.

Lemma extract_filters_where w plan plan' e :
  extract_filters w plan = Ok plan' → qp_to_ms plan ≤ i64_max →
  (account_count plan + length (where_accounts w) ≤ 1)%nat → plain_where w = true →
  Exec.matches_plan plan' e = Exec.matches_plan plan e && where_holds w e
  ∧ qp_to_ms plan' ≤ i64_max
  ∧ (account_count plan' ≤ account_count plan + length (where_accounts w))%nat.
Proof.
  revert plan plan'. induction w as [| | |l IHl op r IHr|l IHl items neg| |]; intros plan plan' E Hto Hc Hp; try done.
  - destruct op; try done.
    + cbn [extract_filters] in E. destruct (extract_filters l plan) as [p1| |] eqn:E1; try done. cbn in E.
      cbn [where_accounts plain_where] in *. rewrite length_app in Hc. apply andb_true_iff in Hp as [Hp1 Hp2].
      destruct (IHl plan p1 E1 Hto) as (H1 & T1 & C1); [lia|done|].
      destruct (IHr p1 plan' E T1) as (H2 & T2 & C2); [lia|done|].
      cbn [where_holds]. rewrite H2, H1, andb_assoc, length_app. split; [done|]. split; [done|lia].
    + cbn [extract_filters] in E. unfold apply_eq in E. destruct l as [field| | | | | |]; try done.
      destruct (extract_literal r) as [v| |] eqn:El; try done. cbn [mbind outcome_bind] in E.
      assert (plan' = apply_field field [v] plan) as -> by congruence. clear E.
      destruct (apply_field_count field [v] plan) as [C T]. cbn [where_accounts] in *.
      assert (literal r = Some v) as Hl by (by rewrite literal_spec, El). rewrite Hl in *.
      rewrite apply_field_matches.
      * cbn [where_holds plain_where] in *. rewrite (column_is_filter field r v e Hp Hl). split; [done|]. rewrite T. split; [done|].
        etrans; [exact C|]. by destruct (String.eqb _ _).
      * intros -> _. cbn in Hc. unfold account_count in Hc. destruct (qp_account_id plan); [cbn in Hc; lia|done].
    + destruct (apply_range_matches l OpGtEq r plan plan' e E Hto Hp) as (H & Ha & T). split; [exact H|]. split; [done|].
      unfold account_count. rewrite Ha. lia.
    + destruct (apply_range_matches l OpGt r plan plan' e E Hto Hp) as (H & Ha & T). split; [exact H|]. split; [done|].
      unfold account_count. rewrite Ha. lia.
    + destruct (apply_range_matches l OpLt r plan plan' e E Hto Hp) as (H & Ha & T). split; [exact H|]. split; [done|].
      unfold account_count. rewrite Ha. lia.
    + destruct (apply_range_matches l OpLtEq r plan plan' e E Hto Hp) as (H & Ha & T). split; [exact H|]. split; [done|].
      unfold account_count. rewrite Ha. lia.
  - destruct neg; [done|]. cbn [extract_filters] in E. destruct l as [field| | | | | |]; try done.
    destruct (extract_literals items) as [vs| |] eqn:El; try done. cbn [mbind outcome_bind] in E.
    assert (plan' = apply_field field vs plan) as -> by congruence. clear E.
    apply extract_literals_spec in El. destruct (apply_field_count field vs plan) as [C T].
    assert (match vs with [_] => if String.eqb field "account_id" then 1 else 0 | _ => 0 end
            ≤ length (where_accounts (InList (Identifier field) items false)))%nat as Hle.
    { destruct items as [|x [|? ?]], vs as [|v [|? ?]]; try discriminate El; try (cbn; lia).
      injection El as Hx. cbn [where_accounts]. destruct (String.eqb _ _); [|lia]. rewrite Hx. cbn. lia. }
    rewrite apply_field_matches.
    + cbn [where_holds]. rewrite (filter_ok_items field items vs e Hp El). split; [done|]. rewrite T. split; [done|lia].
    + intros -> Hl. destruct vs as [|v [|? ?]]; try done. cbn [String.eqb Ascii.eqb Bool.eqb] in Hle.
      assert (account_count plan = 0%nat) as H0 by lia. unfold account_count in H0. by destruct (qp_account_id plan).
Qed.

(** What a WHERE clause leaves alone. *)
Lemma extract_filters_frame w plan plan' :
  extract_filters w plan = Ok plan' →
  qp_source plan' = qp_source plan ∧ qp_group_by plan' = qp_group_by plan
  ∧ qp_metrics plan' = qp_metrics plan ∧ qp_limit plan' = qp_limit plan.
Proof.
  revert plan plan'. induction w as [| | |l IHl op r IHr|l IHl items neg| |]; intros plan plan' E; try done.
  - destruct op; try done; cbn [extract_filters] in E.
    1: { destruct (extract_filters l plan) as [p1| |] eqn:E1; try done. cbn in E.
         destruct (IHl _ _ E1) as (? & ? & ? & ?), (IHr _ _ E) as (? & ? & ? & ?). split_and!; congruence. }
    1: { unfold apply_eq, apply_field in E. destruct l as [field| | | | | |]; try done.
         destruct (extract_literal r); try done. cbn in E. injection E as <-. by destruct (String.eqb _ _). }
    all: unfold apply_range, guard_err in E; destruct l as [field| | | | | |]; try done; destruct (_ || _); try done;
      cbn in E; destruct (extract_literal r) as [text| |]; try done; cbn in E; destruct (parse_i64 text); try done;
      by injection E as <-.
  - destruct neg; [done|]. cbn [extract_filters] in E. destruct l as [field| | | | | |]; try done.
    destruct (extract_literals items) as [vs| |]; try done. cbn in E. injection E as <-.
    unfold apply_field. destruct vs as [|v [|? ?]]; try done. by destruct (String.eqb _ _).
Qed.

(** The plan before the WHERE clause. *)
Definition open_plan (source : QuerySource) (group_by : list string) (metrics : gmap string AggregationFunction)
    : QueryPlan :=
  MkQueryPlan source None i64_min i64_max [] group_by metrics None.

(** Steps of a successful computation. *)
Lemma bind_ok {A B} (m : outcome sql_error A) (f : A → outcome sql_error B) b :
  (m ≫= f) = Ok b → ∃ a, m = Ok a ∧ f a = Ok b.
Proof. destruct m; cbn; try done. eauto. Qed.

Lemma guard_ok (b : bool) (e : sql_error) u : guard_err b e = Ok u → b = true.
Proof. by destruct b. Qed.

Lemma translate_inv q plan :
  translate q = Ok plan →
  ∃ select source cols metrics group_by,
    check_query q = Ok select ∧ source_of select = Ok source
    ∧ project (sel_projection select) [] ∅ = Ok (cols, metrics)
    ∧ grouping (sel_group_by select) cols = Ok group_by
    ∧ sq_limit_clause q = false
    ∧ match sel_selection select with
      | Some w => extract_filters w (open_plan source group_by metrics) = Ok plan
      | None => plan = open_plan source group_by metrics
      end.
Proof.
  unfold translate. intros H.
  apply bind_ok in H as (select & E1 & H). apply bind_ok in H as (source & E2 & H).
  apply bind_ok in H as ([cols metrics] & E3 & H). apply bind_ok in H as (group_by & E4 & H).
  apply bind_ok in H as (plan' & E5 & H). apply bind_ok in H as (u & E6%guard_ok%negb_true_iff & H).
  injection H as ->. exists select, source, cols, metrics, group_by. split_and!; try done.
  destruct (sel_selection select); [done|]. by injection E5.
Qed.

Lemma check_query_inv q select :
  check_query q = Ok select →
  (match sq_order_by q with Some (OrderExpressions n) => n = 0%nat | Some OrderAll => False | None => True end)
  ∧ sq_with q = false ∧ sq_body q = SetSelect select ∧ sel_distinct select = false
  ∧ sel_named_window select = 0%nat ∧ sel_having select = false ∧ sel_qualify select = false
  ∧ sel_cluster_by select = 0%nat ∧ sel_distribute_by select = 0%nat ∧ sel_sort_by select = 0%nat.
Proof.
  unfold check_query. intros H.
  apply bind_ok in H as (? & E1%guard_ok%negb_true_iff & H). apply bind_ok in H as (? & E2%guard_ok%negb_true_iff & H).
  apply bind_ok in H as (s & E3 & H). apply bind_ok in H as (? & E4%guard_ok%negb_true_iff & H).
  apply bind_ok in H as (? & E5%guard_ok%Nat.eqb_eq & H). apply bind_ok in H as (? & E6%guard_ok%negb_true_iff & H).
  apply bind_ok in H as (? & E7%guard_ok%negb_true_iff & H). apply bind_ok in H as (? & E8%guard_ok & H).
  injection H as <-. apply andb_true_iff in E8 as [[E8%Nat.eqb_eq E9%Nat.eqb_eq]%andb_true_iff E10%Nat.eqb_eq].
  split_and!; try done.
  - destruct (sq_order_by q) as [[n|]|]; try done. by apply negb_false_iff, Nat.eqb_eq in E1.
  - destruct (sq_body q); try done. by injection E3 as ->.
Qed.

(** A FROM clause the translation accepts. *)
Definition one_table (source : QuerySource) (select : Select) : Prop :=
  ∃ unread, sel_from select
    = [(Table (match source with RawEvents => "usage_events" | RollupHourly => "usage_rollup_hourly" end)
          false false false unread, 0%nat)].

Lemma source_of_iff select source : source_of select = Ok source ↔ one_table source select.
Proof.
  unfold source_of, one_table. split.
  - intros H. destruct (sel_from select) as [|[relation joins] [|? ?]]; try done.
    apply bind_ok in H as (? & E1%guard_ok%Nat.eqb_eq & H). subst joins.
    destruct relation as [name alias args version unread|]; [|done].
    apply bind_ok in H as (? & E2%guard_ok%negb_true_iff & H). apply bind_ok in H as (? & E3%guard_ok%negb_true_iff & H).
    apply bind_ok in H as (? & E4%guard_ok%negb_true_iff & H). subst. exists unread.
    destruct (String.eqb_spec name "usage_events") as [->|]; [by injection H as <-|].
    destruct (String.eqb_spec name "usage_rollup_hourly") as [->|]; [by injection H as <-|done].
  - intros (unread & ->). by destruct source.
Qed.

(** A projection item the translation accepts: a column, or an aggregate of
    the one kind or the other. *)
Definition column_of (item : SelectItem) : option string :=
  match item with
  | UnnamedExpr (Identifier value) | UnnamedExpr (CompoundIdentifier [value]) => Some value
  | _ => None
  end.

Definition metric_of (item : SelectItem) : option (string * AggregationFunction) :=
  match item with
  | UnnamedExpr (FunctionCall name (ArgumentList false [Unnamed (ArgExpr (Identifier value))] 0) _) =>
      if String.eqb (to_uppercase name) "SUM" && String.eqb value "quantity" then Some ("quantity", Sum) else None
  | UnnamedExpr (FunctionCall name (ArgumentList false [Unnamed Wildcard] 0) _) =>
      if String.eqb (to_uppercase name) "COUNT" then Some ("count", Count) else None
  | _ => None
  end.

Lemma parse_aggregate_metric name args u m :
  parse_aggregate name args = Ok m → metric_of (UnnamedExpr (FunctionCall name args u)) = Some m.
Proof.
  unfold parse_aggregate. destruct args as [dup args clauses|]; [|done].
  intros H. apply bind_ok in H as (? & E1%guard_ok%negb_true_iff & H).
  apply bind_ok in H as (? & E2%guard_ok%Nat.eqb_eq & H). subst dup clauses. cbn [metric_of].
  destruct (String.eqb_spec (to_uppercase name) "SUM") as [E|].
  - destruct args as [|arg [|? ?]]; try done. destruct arg as [[e| | |]| |]; try done.
    cbn [function_arg_expr mbind outcome_bind] in H. destruct e; try done. cbn [andb].
    destruct (String.eqb _ _); [|done]. by injection H as <-.
  - destruct (String.eqb_spec (to_uppercase name) "COUNT") as [E|]; [|done].
    destruct args as [|arg [|? ?]]; try done; destruct arg as [[e| | |]| |]; try done. by injection H as <-.
Qed.

Lemma metric_of_std item m : metric_of item = Some m → m = ("quantity", Sum) ∨ m = ("count", Count).
Proof.
  unfold metric_of. intros H. repeat case_match; try done; injection H as <-; auto.
Qed.

Lemma project_spec items cols metrics cols' metrics' :
  project items cols metrics = Ok (cols', metrics') →
  cols' = cols ++ omap column_of items
  ∧ metrics' = foldl (λ m p, <[p.1 := p.2]> m) metrics (omap metric_of items)
  ∧ Forall (λ item, is_Some (column_of item) ∨ is_Some (metric_of item)) items.
Proof.
  revert cols metrics. induction items as [|item items IH]; intros cols metrics H.
  { injection H as <- <-. by rewrite app_nil_r. }
  destruct item as [e| | | |]; try done. destruct e as [v|parts| | | |name args u|]; try done.
  - cbn [project] in H. apply IH in H as (-> & -> & Hf). cbn [omap list_omap column_of metric_of].
    rewrite <- app_assoc. split_and!; try done. constructor; eauto.
  - destruct parts as [|v [|? ?]]; try done. cbn [project] in H. apply IH in H as (-> & -> & Hf).
    cbn [omap list_omap column_of metric_of]. rewrite <- app_assoc. split_and!; try done. constructor; eauto.
  - cbn [project] in H. apply bind_ok in H as ([n m] & E & H). apply IH in H as (-> & -> & Hf).
    apply (parse_aggregate_metric _ _ u) in E. cbn [omap list_omap]. rewrite E. cbn [column_of].
    split_and!; try done. constructor; [right; eauto|done].
Qed.

Definition std_metric (p : string * AggregationFunction) : Prop := p = ("quantity", Sum) ∨ p = ("count", Count).

Lemma std_metric_fun k f f' : std_metric (k, f) → std_metric (k, f') → f = f'.
Proof. intros [[= -> ->]|[= -> ->]] [[= ->]|[= ->]]; done. Qed.

(** Collecting metrics by name keeps exactly the projected ones. *)
Lemma metrics_lookup l (m : gmap string AggregationFunction) k f :
  Forall std_metric l → (∀ k f, m !! k = Some f → std_metric (k, f)) →
  foldl (λ m p, <[p.1 := p.2]> m) m l !! k = Some f ↔ (k, f) ∈ l ∨ m !! k = Some f.
Proof.
  revert m. induction l as [|[k0 f0] l IH]; intros m Hl Hm; cbn [foldl fst snd].
  { split; [by right|]. by intros [?%not_elem_of_nil|]. }
  apply Forall_cons in Hl as [H0 Hl]. rewrite IH; [|done|].
  - rewrite elem_of_cons. destruct (decide (k = k0)) as [->|Hk].
    + rewrite lookup_insert_eq. split.
      * intros [?|[= ->]]; auto.
      * intros [[[= ->]|?]|Hk]; auto. right. f_equal. eapply std_metric_fun; eauto.
    + rewrite lookup_insert_ne by done. split; [intros [?|?]; auto|]. intros [[[= -> ->]|?]|?]; auto. done.
  - intros k' f'. destruct (decide (k' = k0)) as [->|Hk].
    + rewrite lookup_insert_eq. by intros [= <-].
    + rewrite lookup_insert_ne by done. apply Hm.
Qed.

Lemma omap_metric_std items : Forall std_metric (omap metric_of items).
Proof.
  apply Forall_forall. intros p (item & _ & H)%list_elem_of_omap. by apply metric_of_std in H.
Qed.

Lemma group_columns_spec exprs group_by group_by' :
  group_columns exprs group_by = Ok group_by' →
  (∀ c, c ∈ group_by' ↔ c ∈ group_by ∨ Identifier c ∈ exprs) ∧ group_by `prefix_of` group_by'.
Proof.
  revert group_by. induction exprs as [|x exprs IH]; intros group_by H.
  { injection H as <-. split; [|done]. intros c. split; [by left|]. by intros [?|?%not_elem_of_nil]. }
  destruct x as [v| | | | | |]; try done. cbn [group_columns] in H. apply IH in H as [H Hp].
  assert (existsb (String.eqb v) group_by = true → v ∈ group_by) as Hv.
  { intros (y & Hy & ->%String.eqb_eq)%existsb_exists. by apply list_elem_of_In. }
  split.
  - intros c. rewrite H, elem_of_cons. destruct (existsb _ _).
    + split; [naive_solver|]. intros [?|[[= ->]|?]]; auto.
    + rewrite elem_of_app, list_elem_of_singleton. naive_solver.
  - destruct (existsb _ _); [done|]. etrans; [|exact Hp]. by eexists.
Qed.

(** ** The accepted statements, as a grammar *)
Definition unordered (q : SqlQuery) : Prop :=
  match sq_order_by q with
  | None => True
  | Some (OrderExpressions n) => n = 0%nat
  | Some OrderAll => False
  end.

Fixpoint where_accepted (w : Expr) : bool :=
  match w with
  | BinaryOp lhs op rhs =>
      match op, lhs with
      | OpAnd, _ => where_accepted lhs && where_accepted rhs
      | OpEq, Identifier _ => bool_decide (is_Some (literal rhs))
      | (OpGtEq | OpGt | OpLt | OpLtEq), Identifier column =>
          (String.eqb column "timestamp_ms" || String.eqb column "hour_start_ms")
          && bool_decide (is_Some (literal rhs ≫= parse_i64))
      | _, _ => false
      end
  | InList (Identifier _) items false => forallb (λ x, bool_decide (is_Some (literal x))) items
  | _ => false
  end.

(** One SELECT of columns, SUM(quantity) and COUNT over all rows, from one of
    the two tables, with an optional WHERE clause and plain GROUP BY columns. *)
Definition in_subset (q : SqlQuery) (select : Select) (source : QuerySource) (exprs : list Expr) : Prop :=
  sq_body q = SetSelect select ∧ unordered q ∧ sq_with q = false ∧ sq_limit_clause q = false
  ∧ sel_distinct select = false ∧ sel_having select = false ∧ sel_qualify select = false
  ∧ sel_named_window select = 0%nat ∧ sel_cluster_by select = 0%nat ∧ sel_distribute_by select = 0%nat
  ∧ sel_sort_by select = 0%nat ∧ one_table source select
  ∧ Forall (λ item, is_Some (column_of item) ∨ is_Some (metric_of item)) (sel_projection select)
  ∧ sel_group_by select = GroupExpressions exprs 0
  ∧ Forall (λ x, ∃ column, x = Identifier column) exprs
  ∧ match sel_selection select with Some w => where_accepted w = true | None => True end.

Lemma extract_literals_ok items :
  (∃ values, extract_literals items = Ok values) ↔ forallb (λ x, bool_decide (is_Some (literal x))) items = true.
Proof.
  induction items as [|x items IH]; cbn [extract_literals forallb]; [by split; [|exists []]|].
  rewrite andb_true_iff, <- IH, bool_decide_eq_true, literal_spec. split.
  - intros (vs & (v & E & (vs' & E' & _)%bind_ok)%bind_ok). rewrite E. split; eauto.
  - intros [[v E] [vs E']]. destruct (extract_literal x) as [v'| |]; try done. rewrite E'. by eexists.
Qed.

Lemma apply_range_ok lhs op rhs plan :
  (op = OpGt ∨ op = OpGtEq ∨ op = OpLt ∨ op = OpLtEq) →
  (∃ plan', apply_range lhs op rhs plan = Ok plan') ↔ where_accepted (BinaryOp lhs op rhs) = true.
Proof.
  intros Hop.
  assert (where_accepted (BinaryOp lhs op rhs) = true ↔ ∃ field, lhs = Identifier field
    ∧ (field = "timestamp_ms" ∨ field = "hour_start_ms") ∧ is_Some (literal rhs ≫= parse_i64)) as ->.
  { transitivity (match lhs with Identifier column =>
        (String.eqb column "timestamp_ms" || String.eqb column "hour_start_ms")
        && bool_decide (is_Some (literal rhs ≫= parse_i64)) | _ => false end = true).
    { destruct Hop as [-> |[-> |[-> | ->]]]; by destruct lhs. }
    destruct lhs as [field| | | | | |]; try (split; [done|intros (? & [=] & _)]).
    rewrite andb_true_iff, orb_true_iff, !String.eqb_eq, bool_decide_eq_true. naive_solver. }
  split.
  - intros (plan' & (field & v & -> & Hf & Hv & _)%apply_range_inv). eauto.
  - intros (field & -> & Hf & (v & Hv)). rewrite literal_spec in Hv. unfold apply_range.
    assert (String.eqb field "timestamp_ms" || String.eqb field "hour_start_ms" = true) as ->
      by (by destruct Hf as [-> | ->]).
    cbn [guard_err mbind outcome_bind]. destruct (extract_literal rhs) as [text| |]; try done.
    cbn [mbind option_bind outcome_bind] in Hv |- *. rewrite Hv. cbn [ok_or mbind outcome_bind].
    destruct Hop as [-> |[-> |[-> | ->]]]; by eexists.
Qed.

Lemma extract_filters_ok w plan : (∃ plan', extract_filters w plan = Ok plan') ↔ where_accepted w = true.
Proof.
  revert plan. induction w as [| | |l IHl op r IHr|l IHl items neg| |]; intros plan;
    try (split; [by intros (? & ?)|done]).
  - destruct op; try (split; [by intros (? & ?)|by destruct l]); try (cbn [extract_filters]; apply apply_range_ok; tauto).
    + cbn [extract_filters where_accepted]. rewrite andb_true_iff, <- (IHl plan). split.
      * intros (p & (p1 & E1 & E2)%bind_ok). split; [eauto|]. apply (IHr p1). eauto.
      * intros [[p1 E1] Hr]. rewrite E1. cbn [mbind outcome_bind]. by apply IHr.
    + cbn [extract_filters]. unfold apply_eq. destruct l as [field| | | | | |]; try (split; [by intros (? & ?)|done]).
      cbn [where_accepted]. rewrite bool_decide_eq_true, literal_spec. destruct (extract_literal r); cbn.
      * split; by eexists.
      * split; [by intros (? & ?)|by intros (? & ?)].
      * split; [by intros (? & ?)|by intros (? & ?)].
  - cbn [extract_filters]. destruct neg; [split; [by intros (? & ?)|by destruct l]|].
    destruct l as [field| | | | | |]; try (split; [by intros (? & ?)|done]).
    cbn [where_accepted]. rewrite <- extract_literals_ok. split.
    + intros (p & (vs & E & _)%bind_ok). eauto.
    + intros (vs & ->). by eexists.
Qed.

Lemma metric_parses name args u m :
  metric_of (UnnamedExpr (FunctionCall name args u)) = Some m → parse_aggregate name args = Ok m.
Proof.
  cbn [metric_of]. intros H. destruct args as [dup args clauses|]; [|done].
  destruct dup; [done|]. destruct args as [|arg [|? ?]]; [done| |by destruct arg as [[[]| | |]| |]].
  unfold parse_aggregate.
  destruct arg as [[x| | |]| |]; try done; [destruct x as [value| | | | | |]; try done|];
    (destruct clauses; [|done]); cbn [negb guard_err Nat.eqb mbind outcome_bind].
  - destruct (String.eqb (to_uppercase name) "SUM"); [|done]. cbn [function_arg_expr mbind outcome_bind andb] in *.
    destruct (String.eqb value "quantity"); [|done]. by injection H as <-.
  - destruct (String.eqb_spec (to_uppercase name) "COUNT") as [->|]; [|done]. by injection H as <-.
Qed.

Lemma project_ok items cols metrics :
  Forall (λ item, is_Some (column_of item) ∨ is_Some (metric_of item)) items →
  ∃ cols' metrics', project items cols metrics = Ok (cols', metrics').
Proof.
  intros H. revert cols metrics. induction H as [|item items Hi _ IH]; intros cols metrics; [by eexists _, _|].
  destruct Hi as [[c Hc]|[m Hm]].
  - destruct item as [[]| | | |]; try discriminate Hc; [apply IH|].
    destruct parts as [|? [|? ?]]; try discriminate Hc. apply IH.
  - destruct item as [[]| | | |]; try discriminate Hm. cbn [project]. apply metric_parses in Hm. rewrite Hm.
    cbn [mbind outcome_bind]. destruct m. apply IH.
Qed.

Lemma group_columns_ok exprs cols :
  (∃ cols', group_columns exprs cols = Ok cols') ↔ Forall (λ x, ∃ column, x = Identifier column) exprs.
Proof.
  revert cols. induction exprs as [|x exprs IH]; intros cols; [by split; [|eexists]|].
  rewrite Forall_cons. destruct x; cbn [group_columns]; rewrite ?IH; try (split; [by intros (? & ?)|by intros [(? & [=]) _]]).
  naive_solver.
Qed.

(** What a translated statement is made of. *)
Lemma translate_subset q plan :
  translate q = Ok plan →
  ∃ select exprs, in_subset q select (qp_source plan) exprs
    ∧ (∀ k f, qp_metrics plan !! k = Some f ↔ (k, f) ∈ omap metric_of (sel_projection select))
    ∧ (∀ c, c ∈ qp_group_by plan ↔ c ∈ omap column_of (sel_projection select) ∨ Identifier c ∈ exprs)
    ∧ omap column_of (sel_projection select) `prefix_of` qp_group_by plan
    ∧ qp_limit plan = None.
Proof.
  intros Ht.
  destruct (translate_inv q plan Ht) as (select & source & cols & metrics & group_by & Ec & Es & Ep & Eg & El & Ew).
  apply check_query_inv in Ec as (Ho & ? & ? & ? & ? & ? & ? & ? & ? & ?). apply source_of_iff in Es.
  apply project_spec in Ep as (-> & -> & Hp). unfold grouping in Eg.
  destruct (sel_group_by select) as [exprs modifiers|] eqn:Egb; [|done].
  apply bind_ok in Eg as (? & ->%guard_ok%Nat.eqb_eq & Eg). pose proof (proj1 (group_columns_ok _ _) (ex_intro _ _ Eg)).
  apply group_columns_spec in Eg as [Hg Hpre].
  assert (qp_source plan = source ∧ qp_group_by plan = group_by
    ∧ qp_metrics plan = foldl (λ m p, <[p.1 := p.2]> m) ∅ (omap metric_of (sel_projection select))
    ∧ qp_limit plan = None) as (-> & -> & -> & Hlim).
  { destruct (sel_selection select); [|by subst plan]. by apply extract_filters_frame in Ew. }
  exists select, exprs. split; [|split; [|done]].
  - unfold in_subset, unordered. split_and!; try done. destruct (sel_selection select) as [w|]; [|done].
    apply (extract_filters_ok w (open_plan source group_by (foldl (λ m p, <[p.1 := p.2]> m) ∅ (omap metric_of (sel_projection select))))).
    eauto.
  - intros k f. rewrite metrics_lookup; [|apply omap_metric_std|by intros ??; rewrite lookup_empty].
    rewrite lookup_empty. split; [intros [?|?]; done|by left].
Qed.

Lemma subset_translates q select source exprs :
  in_subset q select source exprs → ∃ plan, translate q = Ok plan.
Proof.
  intros (Hb & Ho & Hw & Hl & H1 & H2 & H3 & H4 & H5 & H6 & H7 & Ht & Hp & Hg & He & Hs).
  unfold translate. assert (check_query q = Ok select) as ->.
  { unfold check_query, unordered in *. rewrite Hw, Hb. cbn [negb].
    destruct (sq_order_by q) as [[n|]|]; try done; try subst n; cbn [guard_err negb mbind outcome_bind Nat.eqb];
      by rewrite H1, H2, H3, H4, H5, H6, H7. }
  apply source_of_iff in Ht. cbn [mbind outcome_bind]. rewrite Ht. cbn [mbind outcome_bind].
  destruct (project_ok (sel_projection select) [] ∅ Hp) as (cols & metrics & ->). cbn [mbind outcome_bind].
  unfold grouping. rewrite Hg. cbn [guard_err Nat.eqb mbind outcome_bind].
  destruct (proj2 (group_columns_ok exprs cols) He) as (group_by & ->). cbn [mbind outcome_bind]. rewrite Hl.
  destruct (sel_selection select) as [w|]; [|by eexists].
  destruct (proj2 (extract_filters_ok w (MkQueryPlan source None i64_min i64_max [] group_by metrics None)) Hs) as (plan & ->).
  by eexists.
Qed.

(** ** Writing a plan as a statement *)
Definition quoted (s : string) : Expr := ValueExpr (SingleQuotedString s).

Definition conjuncts (plan : QueryPlan) : list Expr :=
  match qp_account_id plan with Some a => [BinaryOp (Identifier "account_id") OpEq (quoted a)] | None => [] end
  ++ [BinaryOp (Identifier "timestamp_ms") OpLt (quoted (to_string_i (qp_to_ms plan)))]
  ++ ((λ f, InList (Identifier (qf_field f)) (quoted <$> qf_values f) false) <$> qp_filters plan).

Definition where_of (plan : QueryPlan) : Expr :=
  foldl (λ a b, BinaryOp a OpAnd b)
    (BinaryOp (Identifier "timestamp_ms") OpGtEq (quoted (to_string_i (qp_from_ms plan)))) (conjuncts plan).

Definition aggregate_items (metrics : gmap string AggregationFunction) : list SelectItem :=
  match metrics !! "quantity" with
  | Some _ => [UnnamedExpr (FunctionCall "SUM" (ArgumentList false [Unnamed (ArgExpr (Identifier "quantity"))] 0) [])]
  | None => []
  end
  ++ match metrics !! "count" with
     | Some _ => [UnnamedExpr (FunctionCall "count" (ArgumentList false [Unnamed Wildcard] 0) [])]
     | None => []
     end.

Definition select_of (plan : QueryPlan) : Select :=
  MkSelect false 0 false false 0 0 0
    [(Table (match qp_source plan with RawEvents => "usage_events" | RollupHourly => "usage_rollup_hourly" end)
        false false false [], 0%nat)]
    (((λ c, UnnamedExpr (Identifier c)) <$> qp_group_by plan) ++ aggregate_items (qp_metrics plan))
    (GroupExpressions [] 0) (Some (where_of plan)) [].

Definition statement_of (plan : QueryPlan) : SqlQuery :=
  MkSqlQuery None false (SetSelect (select_of plan)) false [].

(** What a statement can say: times of 64 bits, the two aggregates, no limit,
    and a filter on one account as the account itself. *)
Definition expressible (plan : QueryPlan) : Prop :=
  ins 64 (qp_from_ms plan) ∧ ins 64 (qp_to_ms plan) ∧ qp_limit plan = None
  ∧ (∀ k f, qp_metrics plan !! k = Some f → std_metric (k, f))
  ∧ Forall (λ f, ¬ (qf_field f = "account_id" ∧ length (qf_values f) = 1%nat)) (qp_filters plan).

Fixpoint extract_all (ws : list Expr) (plan : QueryPlan) : outcome sql_error QueryPlan :=
  match ws with
  | [] => Ok plan
  | w :: ws => plan ← extract_filters w plan; extract_all ws plan
  end.

Lemma extract_conjunction w ws plan :
  extract_filters (foldl (λ a b, BinaryOp a OpAnd b) w ws) plan
  = (plan ← extract_filters w plan; extract_all ws plan).
Proof.
  revert w. induction ws as [|x ws IH]; intros w; cbn [foldl extract_all].
  - by destruct (extract_filters w plan).
  - rewrite IH. cbn [extract_filters]. by destruct (extract_filters w plan).
Qed.

Lemma extract_all_app ws ws' plan :
  extract_all (ws ++ ws') plan = (plan ← extract_all ws plan; extract_all ws' plan).
Proof.
  revert plan. induction ws as [|w ws IH]; intros plan; cbn [app extract_all]; [done|].
  destruct (extract_filters w plan); cbn; [apply IH|done|done].
Qed.

Lemma extract_quoted values : extract_literals (quoted <$> values) = Ok values.
Proof. induction values as [|v values IH]; [done|]. rewrite fmap_cons. cbn [extract_literals]. cbn. by rewrite IH. Qed.

Lemma extract_memberships fs plan :
  Forall (λ f, ¬ (qf_field f = "account_id" ∧ length (qf_values f) = 1%nat)) fs →
  extract_all ((λ f, InList (Identifier (qf_field f)) (quoted <$> qf_values f) false) <$> fs) plan
  = Ok (MkQueryPlan (qp_source plan) (qp_account_id plan) (qp_from_ms plan) (qp_to_ms plan) (qp_filters plan ++ fs)
          (qp_group_by plan) (qp_metrics plan) (qp_limit plan)).
Proof.
  intros H. revert plan. induction H as [|[field values] fs Hf _ IH]; intros plan.
  { rewrite app_nil_r. by destruct plan. }
  rewrite fmap_cons. cbn [extract_all extract_filters qf_field qf_values] in *. rewrite extract_quoted.
  cbn [mbind outcome_bind].
  assert (apply_field field values plan = push_filter (MkQueryFilter field values) plan) as ->.
  { unfold apply_field. destruct values as [|v [|? ?]]; try done.
    destruct (String.eqb_spec field "account_id"); [|done]. by destruct Hf. }
  rewrite IH. cbn. by rewrite <- app_assoc.
Qed.

Lemma quoted_time n : ins 64 n → parse_i64 (to_string_i n) = Some n.
Proof. intros H. apply parse_to_string_i. unfold ins, i64_min, i64_max in *. lia. Qed.

Lemma project_columns cols items cols0 metrics :
  project (((λ c, UnnamedExpr (Identifier c)) <$> cols) ++ items) cols0 metrics = project items (cols0 ++ cols) metrics.
Proof.
  revert cols0. induction cols as [|c cols IH]; intros cols0; [by rewrite app_nil_r|].
  rewrite fmap_cons. cbn [app project]. rewrite IH. by rewrite <- app_assoc.
Qed.

Lemma project_aggregates (metrics : gmap string AggregationFunction) cols :
  (∀ k f, metrics !! k = Some f → std_metric (k, f)) →
  project (aggregate_items metrics) cols ∅ = Ok (cols, metrics).
Proof.
  intros Hm. assert (∀ m, (∀ k, k = "quantity" ∨ k = "count" → m !! k = metrics !! k) →
    (∀ k, k ≠ "quantity" → k ≠ "count" → m !! k = None) → m = metrics) as Heq.
  { intros m H1 H2. apply map_eq. intros k. destruct (decide (k = "quantity")) as [->|]; [apply H1; auto|].
    destruct (decide (k = "count")) as [->|]; [apply H1; auto|]. rewrite H2 by done. symmetry.
    destruct (metrics !! k) as [f|] eqn:E; [|done]. apply Hm in E as [[= -> _]|[= -> _]]; done. }
  unfold aggregate_items.
  destruct (metrics !! "quantity") as [q|] eqn:Eq, (metrics !! "count") as [c|] eqn:Ec;
    try (apply Hm in Eq as Hq; destruct Hq as [[= ->]|[= ]]);
    try (apply Hm in Ec as Hc; destruct Hc as [[= ]|[= ->]]); cbn [app project];
    vm_compute (parse_aggregate _ _); cbn [mbind outcome_bind project]; do 2 f_equal; apply Heq.
  all: try (intros k [->| ->]; rewrite ?Eq, ?Ec; done).
  all: intros k H1 H2; rewrite ?lookup_insert_ne by done; apply lookup_empty.
Qed.

Lemma extract_where_of plan :
  expressible plan →
  extract_filters (where_of plan) (open_plan (qp_source plan) (qp_group_by plan) (qp_metrics plan)) = Ok plan.
Proof.
  intros (Hf & Ht & Hl & _ & Hfs). unfold where_of, conjuncts. rewrite extract_conjunction.
  assert (∀ op v p, op = OpGtEq ∨ op = OpLt → ins 64 v →
    extract_filters (BinaryOp (Identifier "timestamp_ms") op (quoted (to_string_i v))) p
    = Ok (match op with
          | OpGtEq => set_range (Z.max (qp_from_ms p) v) (qp_to_ms p) p
          | _ => set_range (qp_from_ms p) (Z.min (qp_to_ms p) v) p
          end)) as Hr.
  { intros op v p Hop Hv. apply quoted_time in Hv.
    destruct Hop as [-> | ->]; cbn [extract_filters]; unfold apply_range, quoted;
      cbn [extract_literal String.eqb Ascii.eqb Bool.eqb orb guard_err mbind outcome_bind];
      rewrite Hv; done. }
  rewrite Hr by (auto; done). cbn [mbind outcome_bind].
  set (p0 := set_range _ _ _). rewrite extract_all_app.
  assert (extract_all (match qp_account_id plan with
                       | Some a => [BinaryOp (Identifier "account_id") OpEq (quoted a)]
                       | None => []
                       end) p0
    = Ok (MkQueryPlan (qp_source p0) (qp_account_id plan) (qp_from_ms p0) (qp_to_ms p0) [] (qp_group_by p0)
            (qp_metrics p0) None)) as -> by (by destruct (qp_account_id plan)).
  cbn [mbind outcome_bind extract_all app]. rewrite Hr by (auto; done). cbn [mbind outcome_bind].
  rewrite extract_memberships by done. unfold ins, i64_min, i64_max in *.
  destruct plan as [src acc from to fs g m lim]; cbn in *. subst lim. repeat f_equal; unfold i64_min, i64_max; lia.
Qed.

Lemma translate_intro q select source cols metrics group_by w plan :
  check_query q = Ok select → source_of select = Ok source →
  project (sel_projection select) [] ∅ = Ok (cols, metrics) → grouping (sel_group_by select) cols = Ok group_by →
  (sel_selection select = Some w ∧ extract_filters w (open_plan source group_by metrics) = Ok plan) →
  sq_limit_clause q = false → translate q = Ok plan.
Proof.
  intros E1 E2 E3 E4 [E5 E6] E7. unfold translate. rewrite E1. cbn [mbind outcome_bind]. rewrite E2. cbn [mbind outcome_bind].
  rewrite E3. cbn [mbind outcome_bind]. rewrite E4. cbn [mbind outcome_bind]. rewrite E5.
  change (MkQueryPlan source None i64_min i64_max [] group_by metrics None) with (open_plan source group_by metrics).
  rewrite E6. cbn [mbind outcome_bind]. by rewrite E7.
Qed.

Section queries.
Context {ST : SqlText}.

Lemma parse_sql_inv sql plan :
  parse_sql sql = Ok plan → ∃ q, sql_parse sql = Some [StQuery q] ∧ translate q = Ok plan.
Proof.
  unfold parse_sql. destruct (sql_parse sql) as [ast|]; [|done]. cbn [ok_or mbind outcome_bind].
  destruct ast as [|[q|] [|? ?]]; try done. eauto.
Qed.


Definition query_where (q : SqlQuery) : option Expr :=
  match sq_body q with SetSelect s => sel_selection s | SetOther => None end.

(** The events a statement selects. *)
Definition selected (q : SqlQuery) (e : UsageEvent) : bool :=
  match query_where q with Some w => where_holds w e | None => true end.

Lemma translate_matches q plan e :
  translate q = Ok plan →
  (∀ w, query_where q = Some w → (length (where_accounts w) ≤ 1)%nat ∧ plain_where w = true) →
  Exec.matches_plan plan e
  = Exec.matches_plan (open_plan (qp_source plan) (qp_group_by plan) (qp_metrics plan)) e && selected q e.
Proof.
  intros Ht Ha. destruct (translate_inv q plan Ht) as (select & source & cols & metrics & group_by & Ec & _ & _ & _ & _ & Ew).
  apply check_query_inv in Ec as (_ & _ & Hb & _). unfold selected, query_where in *. rewrite Hb in *.
  destruct (sel_selection select) as [w|]; [|subst plan; by rewrite andb_true_r].
  pose proof (extract_filters_frame _ _ _ Ew) as (-> & -> & -> & _).
  apply (extract_filters_where w _ plan e Ew); [done| |]; by apply Ha.
Qed.

(** Which plans the language can say: a plan whose times are of 64 bits,
    that has no limit, whose metrics are among the two aggregates and none of
    whose filters is one on account_id with exactly one value (such a filter
    becomes the plan's own account) is the translation of the statement
    [statement_of] that spells it out, whenever the text parses to that statement: its
    table, account, time range, filters in their order, group columns and
    metrics come back unaltered. *)
Theorem sql_expresses_plan sql plan :
  expressible plan → sql_parse sql = Some [StQuery (statement_of plan)] → parse_sql sql = Ok plan.
Proof.
  intros (Hf & Ht & Hl & Hm & Hfs) Hq. unfold parse_sql. rewrite Hq. cbn [ok_or mbind outcome_bind].
  eapply (translate_intro _ _ (qp_source plan) (qp_group_by plan) (qp_metrics plan) (qp_group_by plan));
    [reflexivity|apply source_of_iff; by eexists| |reflexivity|split; [reflexivity|by apply extract_where_of]|done].
  cbn [sel_projection select_of]. rewrite project_columns. by apply project_aggregates.
Qed.

Context {BL : Blake3} {BN : Bincode} {RS : RawSegments} {DJ : DimJson} {DP : DimParse}.

(** No clause of the statement is one the translation does not look at. *)
Definition no_unread (q : SqlQuery) (select : Select) : Prop :=
  sq_unread q = [] ∧ sel_unread select = []
  ∧ Forall (λ item, match item with UnnamedExpr (FunctionCall _ _ unread) => unread = [] | _ => True end)
      (sel_projection select)
  ∧ Forall (λ f, match f.1 with Table _ _ _ _ unread => unread = [] | OtherTable => True end) (sel_from select).

(** C27: what an accepted SELECT over the raw events answers, for statements
    the translation reads as their text does: no clause is unread (no FILTER
    or OVER, [no_unread]); the WHERE clause gives at most one value for the
    account alone; its equalities and memberships are on text columns or
    dimensions (not event_id, day, hour_start_ms or a number column: those are
    taken as dimensions); and it compares hour_start_ms only by [>=] or [<] with the start
    of an hour ([plain_where]). Then, when every segment of the manifest reads and its metadata is
    sound, the result is the aggregation of exactly those events of
    segments and memtable, with a timestamp below [i64::MAX], for which the
    clause holds, read column by column ([where_holds]); its groups are by
    the projected columns and then the GROUP BY ones, its metrics the
    projected aggregates. *)
Theorem sql_query_exact st sql q select plan :
  Exec.segs_sound st → sql_parse sql = Some [StQuery q] → sq_body q = SetSelect select →
  parse_sql sql = Ok plan → qp_source plan = RawEvents → no_unread q select →
  (∀ w, sel_selection select = Some w → (length (where_accounts w) ≤ 1)%nat ∧ plain_where w = true) →
  Exec.execute_plan st plan
  = Some (Exec.aggregate (open_plan RawEvents (qp_group_by plan) (qp_metrics plan))
            (filter (λ e, selected q e = true) (Exec.db_events st)))
  ∧ (∀ k f, qp_metrics plan !! k = Some f ↔ (k, f) ∈ omap metric_of (sel_projection select))
  ∧ omap column_of (sel_projection select) `prefix_of` qp_group_by plan
  ∧ (∃ exprs, sel_group_by select = GroupExpressions exprs 0
       ∧ ∀ c, c ∈ qp_group_by plan ↔ c ∈ omap column_of (sel_projection select) ∨ Identifier c ∈ exprs).
Proof.
  intros Hs Hq Hb (q' & Hq' & Ht)%parse_sql_inv Hsrc _ Ha. rewrite Hq in Hq'. injection Hq' as <-.
  destruct (translate_subset q plan Ht) as (select' & exprs & Hin & Hm & Hg & Hp & _).
  assert (select' = select) as -> by (destruct Hin as (Hb' & _); congruence).
  split; [|split_and!; [done|done|exists exprs; split; [apply Hin|done]]].
  rewrite (Exec.raw_query_spec st plan Hs Hsrc). f_equal. unfold Exec.aggregate.
  rewrite list_filter_filter.
  assert (filter (λ e, Exec.matches_plan plan e = true) (Exec.db_events st)
    = filter (λ e, Exec.matches_plan (open_plan RawEvents (qp_group_by plan) (qp_metrics plan)) e = true
                   ∧ selected q e = true) (Exec.db_events st)) as ->; [|done].
  apply list_filter_iff. intros e. rewrite (translate_matches q plan e Ht), Hsrc, andb_true_iff; [done|].
  unfold query_where. by rewrite Hb.
Qed.
End queries.
End Sql.

Module SqlExample.
#[local] Existing Instances poly_digest code_bincode stored_codecs poly_digest_ok code_bincode_ok stored_codecs_ok.
#[local] Existing Instances Files.file_segments Files.file_segments_ok QueryExample.code_dims QueryExample.code_dims_parse.

(** A parser that knows one statement. *)
Definition plan : QueryPlan := QueryExample.plan RawEvents 0.
Definition one_statement : SqlText := λ s,
  if String.eqb s "q" then Some [StQuery (Sql.statement_of plan)] else None.
#[local] Existing Instance one_statement.

Lemma plan_expressible : Sql.expressible plan.
Proof.
  split; [by vm_compute|]. split; [by vm_compute|]. split; [done|]. split.
  - intros k f. change (qp_metrics plan) with ({["quantity" := Sum]} : gmap string AggregationFunction).
    intros [<- <-]%lookup_singleton_Some. by left.
  - apply Forall_singleton. by intros [? _].
Qed.

Lemma sql_expresses_plan_witness : Sql.parse_sql "q" = Ok plan.
Proof. apply (Sql.sql_expresses_plan "q" plan plan_expressible). reflexivity. Defined.


Lemma sql_query_exact_witness :
  Exec.execute_plan QueryExample.st plan
  = Some [RowObject {["model_id" := VString "m1"; "quantity" := VString "12"]}].
Proof.
  refine (eq_trans (proj1 (Sql.sql_query_exact QueryExample.st "q" (Sql.statement_of plan) (Sql.select_of plan) plan
    QueryExample.sound _ _ _ _ _ _)) _).
  - reflexivity.
  - reflexivity.
  - vm_compute. reflexivity.
  - reflexivity.
  - repeat constructor.
  - intros w [= <-]. vm_compute. split; [lia|reflexivity].
  - rewrite QueryExample.db. vm_compute. reflexivity.
Defined.

(** Two equalities on the account: the last one stands alone. *)
Example account_equality_last_wins :
  let w := BinaryOp (BinaryOp (Identifier "account_id") OpEq (Sql.quoted "a")) OpAnd
             (BinaryOp (Identifier "account_id") OpEq (Sql.quoted "b")) in
  ∃ p, Sql.extract_filters w (Sql.open_plan RawEvents [] ∅) = Ok p ∧ qp_account_id p = Some "b" ∧ qp_filters p = [].
Proof. by eexists. Qed.

(** An equality on the timestamp is accepted and looks at a dimension of that
    name, so it selects nothing. *)
Example timestamp_equality_selects_nothing :
  ∃ p, Sql.extract_filters (BinaryOp (Identifier "timestamp_ms") OpEq (ValueExpr (Number "3700000")))
         (Sql.open_plan RawEvents [] ∅) = Ok p
    ∧ ev_timestamp_ms QueryExample.ev = 3700000 ∧ Exec.matches_plan p QueryExample.ev = false.
Proof. eexists. split; [reflexivity|]. split; [reflexivity|]. vm_compute. reflexivity. Qed.

(** A comparison of [hour_start_ms] is one of the timestamp: [hour_start_ms <=
    3600000] leaves out an event of that hour. *)
Example hour_comparison_reads_timestamp :
  let w := BinaryOp (Identifier "hour_start_ms") OpLtEq (ValueExpr (Number "3600000")) in
  ∃ p, Sql.extract_filters w (Sql.open_plan RawEvents [] ∅) = Ok p
    ∧ Sql.where_holds w QueryExample.ev = true ∧ Exec.matches_plan p QueryExample.ev = false.
Proof. eexists. split; [reflexivity|]. split; vm_compute; reflexivity. Qed.

(** A FILTER clause of an aggregate changes nothing. *)
Example filter_clause_ignored :
  Sql.project [UnnamedExpr (FunctionCall "COUNT" (ArgumentList false [Unnamed Wildcard] 0) [FilterClause "quantity > 5"])] [] ∅
  = Ok ([], {["count" := Count]}).
Proof. reflexivity. Qed.
End SqlExample.
