(* ===== verification/Api.v ===== *)
(** * Query endpoints

    The read side of [src/api/http_server.rs]: account usage, account events,
    JSON and SQL queries, explain and verify.  A handler parses its parameters,
    builds a plan and runs the executor; the responses are records with the
    fields of the JSON object.  RFC 3339 parsing is chrono's ([Rfc3339]). *)

From Stdlib Require Import Ascii.
From stdpp Require Import sorting numbers strings base gmap list.
From S2P Require Import Prelude Model Instances Encoding Segment SegmentSpec DedupeIndex SegmentApi.
From S2P Require Import Memtable Dedupe Wal Manifest Period Flusher State Rollup RollupWorker Query Sql.

(** [DateTime::parse_from_rfc3339] with [timestamp_millis]. *)
Class Rfc3339 := rfc3339_ms : string → option Z.

Inductive api_error :=
| BadTime (field : string)
| BadPeriod (e : period_error)
| BadSql (e : sql_error)
| SaveFailed (e : Man.man_error).

Record UsageQueryParams := MkUsageParams {
  uq_from : string;
  uq_to : string;
  uq_group_by : option string;
  uq_product_id : option string;
  uq_meter_id : option string;
  uq_model_id : option string;
  uq_source : option string;
}.

Record EventsQueryParams := MkEventsParams {
  eq_from : string;
  eq_to : string;
  eq_meter_id : option string;
  eq_product_id : option string;
}.

Record UsageQueryRequest := MkUsageRequest {
  ur_source : string;
  ur_account_id : string;
  ur_from : string;
  ur_to : string;
  ur_group_by : list string;
  ur_filters : option (gmap string (list string));
  ur_metrics : option (gmap string string);
}.

Record VerifyResponse := MkVerify {
  vr_watermark_ms : Z;
  vr_period_sealed : bool;
  vr_raw_total : Z;
  vr_rollup_total : Z;
  vr_drift : Z;
  vr_matches : bool;
}.

Record ExplainResponse := MkExplain {
  ex_watermark_ms : Z;
  ex_lines : list QRow;
  ex_rollup_segments : list string;
  ex_rollup_inputs : gmap string (list string);
  ex_raw_segments : list string;
  ex_corrections : list QRow;
}.

Module Api.
(** ** Parameters *)

(** [str::split(',')]. *)
Fixpoint split_commas (l : list ascii) : list (list ascii) :=
  match l with
  | [] => [[]]
  | a :: l =>
      if Ascii.eqb a ","%char then [] :: split_commas l
      else match split_commas l with
           | x :: xs => (a :: x) :: xs
           | [] => [[a]]
           end
  end.

Definition split_group_by (s : string) : list string :=
  filter (λ t, t ≠ "")
    ((λ l, bytes_str (trim (str_bytes (String.string_of_list_ascii l)))) <$> split_commas (String.list_ascii_of_string s)).

(** [str::to_lowercase], as far as a comparison with ASCII names without a k
    can tell. *)
Definition lower_ascii (a : ascii) : ascii :=
  let n := N_of_ascii a in
  if (65 <=? n)%N && (n <=? 90)%N then ascii_of_N (n + 32) else a.
Fixpoint to_lowercase (s : string) : string :=
  match s with EmptyString => EmptyString | String a s => String (lower_ascii a) (to_lowercase s) end.

Definition metric_function (name : string) : option AggregationFunction :=
  if String.eqb (to_lowercase name) "sum" then Some Sum
  else if String.eqb (to_lowercase name) "count" then Some Count
  else None.

Definition usage_metrics : gmap string AggregationFunction := {["quantity" := Sum; "count" := Count]}.

(** A filter per parameter that is present. *)
Definition present_filters (params : list (string * option string)) : list QueryFilter :=
  omap (λ p, (λ v, MkQueryFilter p.1 [v]) <$> p.2) params.

Definition usage_plan (account_id : string) (params : UsageQueryParams) (from_ms to_ms : Z) : QueryPlan :=
  MkQueryPlan
    (match uq_source params with
     | Some s => if String.eqb s "raw" then RawEvents else RollupHourly
     | None => RollupHourly
     end)
    (Some account_id) from_ms to_ms
    (present_filters [("product_id", uq_product_id params); ("meter_id", uq_meter_id params);
                      ("model_id", uq_model_id params)])
    (match uq_group_by params with Some s => split_group_by s | None => [] end)
    usage_metrics None.

Definition events_plan (account_id : string) (params : EventsQueryParams) (from_ms to_ms : Z) : QueryPlan :=
  MkQueryPlan RawEvents (Some account_id) from_ms to_ms
    (present_filters [("meter_id", eq_meter_id params); ("product_id", eq_product_id params)]) [] ∅ None.

Definition request_plan (payload : UsageQueryRequest) (from_ms to_ms : Z) : QueryPlan :=
  MkQueryPlan
    (if String.eqb (ur_source payload) "usage_events" then RawEvents else RollupHourly)
    (Some (ur_account_id payload)) from_ms to_ms
    ((λ p, MkQueryFilter p.1 p.2) <$> map_to_list (default ∅ (ur_filters payload)))
    (ur_group_by payload)
    (omap metric_function (default ∅ (ur_metrics payload))) None.

(** The plans of explain and verify. *)
Definition breakdown_plan (account_id : string) (from_ms to_ms : Z) : QueryPlan :=
  MkQueryPlan RollupHourly (Some account_id) from_ms to_ms []
    ["product_id"; "meter_id"; "model_id"; "source"; "unit"] usage_metrics None.

Definition corrections_plan (account_id : string) (from_ms to_ms : Z) : QueryPlan :=
  MkQueryPlan RawEvents (Some account_id) from_ms to_ms
    [MkQueryFilter "kind" ["Correction"; "Retraction"]] [] ∅ None.

Definition total_plan (source : QuerySource) (account_id : string) (from_ms to_ms : Z) : QueryPlan :=
  MkQueryPlan source (Some account_id) from_ms to_ms [] [] {["quantity" := Sum]} None.

(** [v.get("quantity")], [as_str] and [parse], the first row that has them. *)
Definition row_quantity (row : QRow) : option Z :=
  match row with
  | RowObject fields => match fields !! "quantity" with Some (VString s) => parse_i128 s | _ => None end
  | RowEvent _ | RowNull => None
  end.

Definition extract_quantity_sum (result : list QRow) : Z := default 0 (head (omap row_quantity result)).

(** ** Handlers *)
Section handlers.
Context {BL : Blake3} {BN : Bincode} {RS : RawSegments} {DJ : DimJson} {DP : DimParse} {RF : Rfc3339} {ST : SqlText}.

Definition time_range (from to : string) : outcome api_error (Z * Z) :=
  from_ms ← ok_or (BadTime "from") (rfc3339_ms from);
  to_ms ← ok_or (BadTime "to") (rfc3339_ms to);
  Ok (from_ms, to_ms).

(** The executor; a reader that panics takes the request down with it. *)
Definition run_plan (st : AppState) (plan : QueryPlan) : outcome api_error (list QRow) :=
  match Exec.execute_plan st plan with Some rows => Ok rows | None => Panic end.

Definition handle_account_usage (st : AppState) (account_id : string) (params : UsageQueryParams)
    : outcome api_error (Z * list QRow) :=
  '(from_ms, to_ms) ← time_range (uq_from params) (uq_to params);
  results ← run_plan st (usage_plan account_id params from_ms to_ms);
  Ok (m_hourly_rollup_ms (as_manifest st), results).

Definition handle_account_events (st : AppState) (account_id : string) (params : EventsQueryParams)
    : outcome api_error (list QRow) :=
  '(from_ms, to_ms) ← time_range (eq_from params) (eq_to params);
  run_plan st (events_plan account_id params from_ms to_ms).

Definition handle_query_json (st : AppState) (payload : UsageQueryRequest) : outcome api_error (list QRow) :=
  '(from_ms, to_ms) ← time_range (ur_from payload) (ur_to payload);
  run_plan st (request_plan payload from_ms to_ms).

Definition handle_query_sql (st : AppState) (query : string) : outcome api_error (list QRow) :=
  match Sql.parse_sql query with
  | Ok plan => run_plan st plan
  | Err e => Err (BadSql e)
  | Panic => Panic
  end.

(** The rollup segments of the account's bucket that overlap the range. *)
Definition overlapping (bucket from_ms to_ms : Z) (s : SegmentMeta) : bool :=
  negb (negb (sm_bucket s =? bucket) || (to_ms <=? sm_min_timestamp_ms s) || (sm_max_timestamp_ms s <? from_ms)).

Definition handle_explain (st : AppState) (account_id from to : string) : outcome api_error ExplainResponse :=
  '(from_ms, to_ms) ← time_range from to;
  lines ← run_plan st (breakdown_plan account_id from_ms to_ms);
  corrections ← run_plan st (corrections_plan account_id from_ms to_ms);
  let manifest := as_manifest st in
  let target_bucket := bucket_for_account account_id (Z.max (m_bucket_count manifest) 1) in
  let rollups := filter (λ s, overlapping target_bucket from_ms to_ms s = true) (m_rollup_segments manifest) in
  let raws := filter (λ s, (sm_bucket s =? target_bucket) && (sm_min_timestamp_ms s <? to_ms)
                           && (from_ms <=? sm_max_timestamp_ms s) = true) (m_raw_segments manifest) in
  Ok (MkExplain (m_hourly_rollup_ms manifest) lines (sm_segment_id <$> rollups)
        (foldl (λ m s, <[sm_segment_id s := sm_input_segment_ids s]> m) ∅ rollups)
        (sm_segment_id <$> raws) corrections).

Definition handle_verify (st : AppState) (account_id from to : string) : outcome api_error VerifyResponse :=
  '(from_ms, to_ms) ← time_range from to;
  raw_result ← run_plan st (total_plan RawEvents account_id from_ms to_ms);
  rollup_result ← run_plan st (total_plan RollupHourly account_id from_ms to_ms);
  let raw_total := extract_quantity_sum raw_result in
  let rollup_total := extract_quantity_sum rollup_result in
  let drift := sat_sub_i128 raw_total rollup_total in
  let watermark_ms := m_hourly_rollup_ms (as_manifest st) in
  Ok (MkVerify watermark_ms (to_ms <=? watermark_ms) raw_total rollup_total drift (drift =? 0)).

(** ** Lemmas *)
Definition owned (account_id : string) (from_ms to_ms : Z) (es : list UsageEvent) : list UsageEvent :=
  filter (λ e, ev_account_id e = account_id ∧ from_ms ≤ ev_timestamp_ms e < to_ms) es.

Definition account_events (st : AppState) (account_id : string) (from_ms to_ms : Z) : list UsageEvent :=
  owned account_id from_ms to_ms (Exec.db_events st).

Lemma matches_range plan e a :
  qp_account_id plan = Some a → qp_filters plan = [] →
  Exec.matches_plan plan e = true ↔ ev_account_id e = a ∧ qp_from_ms plan ≤ ev_timestamp_ms e < qp_to_ms plan.
Proof.
  intros Ha Hf. rewrite Sql.matches_plan_split, Ha, Hf. cbn [forallb].
  rewrite !andb_true_iff, Z.leb_le, Z.ltb_lt, String.eqb_eq. tauto.
Qed.

Lemma sum_abs_bound (es : list UsageEvent) : Z.abs (sumZ ev_quantity es) ≤ Roll.abs_total es.
Proof. unfold Roll.abs_total. induction es as [|e es IH]; [done|]. rewrite !sumZ_cons. lia. Qed.

Lemma filter_abs_bound (P : UsageEvent → Prop) `{∀ e, Decision (P e)} es :
  Roll.abs_total (filter P es) ≤ Roll.abs_total es.
Proof.
  unfold Roll.abs_total. rewrite (sumZ_split _ P es).
  pose proof (sumZ_nonneg_in (λ e, Z.abs (ev_quantity e)) (filter (λ x, ¬ P x) es) ltac:(intros; lia)). lia.
Qed.

Lemma extract_total a (M : gmap string AggregationFunction) :
  M !! "quantity" = Some Sum → i128_min ≤ Exec.ag_quantity_sum a ≤ i128_max →
  extract_quantity_sum [RowObject (Exec.metric_value a <$> M)] = Exec.ag_quantity_sum a.
Proof.
  intros HM Ha. unfold extract_quantity_sum. cbn [omap list_omap row_quantity]. rewrite lookup_fmap, HM.
  cbn [fmap option_fmap option_map Exec.metric_value]. unfold parse_i128. by rewrite parse_to_string_i.
Qed.

Lemma extract_range rows : i128_min ≤ extract_quantity_sum rows ≤ i128_max.
Proof.
  unfold extract_quantity_sum. assert (Forall (λ v, i128_min ≤ v ≤ i128_max) (omap row_quantity rows)) as H.
  { apply Forall_forall. intros v (row & _ & Hv)%list_elem_of_omap. destruct row as [| |fields]; [done..|].
    cbn in Hv. destruct (fields !! "quantity") as [[s|]|]; try done.
    apply parse_signed_range in Hv; [done|]. unfold i128_min, i128_max. lia. }
  destruct H; cbn; unfold i128_min, i128_max in *; lia.
Qed.

Lemma raw_total_query st account from_ms to_ms :
  Exec.segs_sound st → Roll.abs_total (Exec.db_events st) ≤ i128_max →
  ∃ rows, run_plan st (total_plan RawEvents account from_ms to_ms) = Ok rows
    ∧ extract_quantity_sum rows = sumZ ev_quantity (account_events st account from_ms to_ms).
Proof.
  intros Hs Ha. unfold run_plan. rewrite Exec.raw_total_spec by done. eexists. split; [done|].
  rewrite extract_total; [|done|]; cbn [Exec.ag_quantity_sum].
  - f_equal. apply list_filter_iff. intros e. by apply matches_range.
  - pose proof (filter_abs_bound (λ e, Exec.matches_plan (total_plan RawEvents account from_ms to_ms) e = true)
      (Exec.db_events st)).
    pose proof (sum_abs_bound (filter (λ e, Exec.matches_plan (total_plan RawEvents account from_ms to_ms) e = true)
      (Exec.db_events st))). unfold i128_min, i128_max in *. lia.
Qed.

Lemma rollup_path_runs st plan :
  Exec.segs_sound st → ∃ rows, run_plan st plan = Ok rows.
Proof.
  intros Hs. unfold run_plan, Exec.execute_plan, Exec.collect_events. destruct (qp_source plan).
  - destruct (Exec.collect_raw_spec st plan (qp_from_ms plan) (qp_to_ms plan) Hs) as (es & -> & _). by eexists.
  - unfold Exec.collect_rollup_then_raw_tail. destruct (_ <? _); [|by eexists].
    destruct (Exec.collect_raw_spec st plan (Z.max (qp_from_ms plan) (m_hourly_rollup_ms (as_manifest st)))
      (qp_to_ms plan) Hs) as (es & -> & _). by eexists.
Qed.

Context {DJok : DimJsonOk}.

(** The bounds under which a total over rollups is exact. *)
Record totals_fit (st : AppState) : Prop := {
  tf_segments : Exec.segs_sound st;
  tf_rollups : RW.rollups_sound st;
  tf_times : Forall (λ e, 0 ≤ ev_timestamp_ms e) (Exec.db_events st);
  tf_bound : sumZ (λ r, Z.abs (rr_quantity_sum r)) (RW.rolled (as_files st) (m_rollup_segments (as_manifest st)))
    + Roll.abs_total (Exec.db_events st) ≤ i128_max;
}.

(** The same for rollups that account for a part of what is stored. *)
Record path_fit (st : AppState) (prompt : list UsageEvent) : Prop := {
  pf_segments : Exec.segs_sound st;
  pf_accounts : Exec.accounts_for st prompt;
  pf_bound : sumZ (λ r, Z.abs (rr_quantity_sum r)) (RW.rolled (as_files st) (m_rollup_segments (as_manifest st)))
    + Roll.abs_total (Exec.db_events st) ≤ i128_max;
  pf_part : Roll.abs_total prompt ≤ Roll.abs_total (Exec.db_events st);
}.

#[global] Instance path_fit_perm st : Proper ((≡ₚ) ==> iff) (path_fit st).
Proof.
  assert (∀ l k, l ≡ₚ k → path_fit st l → path_fit st k) as H.
  { intros l k Hp [Hs Ha Hb Hx]. unfold Roll.abs_total in *. split; [done|by rewrite <- Hp|done|]. unfold Roll.abs_total. by rewrite <- Hp. }
  intros l k Hp. split; by apply H.
Qed.

Lemma totals_path st : totals_fit st → path_fit st (Exec.db_events st).
Proof. intros [Hs Hr Ht Hb]. split; [done|by apply Exec.sound_accounts|done|done]. Qed.

Lemma path_range st prompt : path_fit st prompt → Roll.abs_total prompt ≤ i128_max ∧ Roll.abs_total (Exec.db_events st) ≤ i128_max.
Proof.
  intros [_ _ Hb Hp]. pose proof (sumZ_nonneg_in (λ r, Z.abs (rr_quantity_sum r))
    (RW.rolled (as_files st) (m_rollup_segments (as_manifest st))) ltac:(intros; lia)). lia.
Qed.

Lemma rollup_total_query st prompt plan account :
  path_fit st prompt → qp_source plan = RollupHourly → qp_account_id plan = Some account → qp_filters plan = [] →
  qp_group_by plan = [] → qp_metrics plan !! "quantity" = Some Sum →
  (HOUR_MS | qp_from_ms plan) → (HOUR_MS | qp_to_ms plan) →
  ∃ a, run_plan st plan = Ok [RowObject (Exec.metric_value a <$> qp_metrics plan)]
    ∧ extract_quantity_sum [RowObject (Exec.metric_value a <$> qp_metrics plan)] = Exec.ag_quantity_sum a
    ∧ Exec.ag_quantity_sum a = sumZ ev_quantity (owned account (qp_from_ms plan) (qp_to_ms plan) prompt).
Proof.
  intros Hpf Hsrc Ha Hf Hg Hm H1 H2. pose proof (path_range _ _ Hpf) as [Hap _]. destruct Hpf as [Hs Hr Hb _].
  destruct (Exec.rollup_total_spec st prompt plan) as (a & E & Hsum); try done.
  { split; try done; [by rewrite Hf|rewrite Hg; apply not_elem_of_nil]. }
  { intros E. by rewrite E, lookup_empty in Hm. }
  exists a. unfold run_plan. rewrite E. split; [done|].
  assert (Exec.ag_quantity_sum a = sumZ ev_quantity (owned account (qp_from_ms plan) (qp_to_ms plan) prompt)) as Hs'.
  { rewrite Hsum. f_equal. apply list_filter_iff. intros e. by apply matches_range. }
  split; [|done]. apply extract_total; [done|]. rewrite Hs'.
  pose proof (sum_abs_bound (owned account (qp_from_ms plan) (qp_to_ms plan) prompt)).
  assert (Roll.abs_total (owned account (qp_from_ms plan) (qp_to_ms plan) prompt) ≤ Roll.abs_total prompt)
    by apply filter_abs_bound.
  unfold i128_min, i128_max in *. lia.
Qed.

Lemma verify_spec st account from to from_ms to_ms :
  Exec.segs_sound st → rfc3339_ms from = Some from_ms → rfc3339_ms to = Some to_ms →
  Roll.abs_total (Exec.db_events st) ≤ i128_max →
  ∃ r, handle_verify st account from to = Ok r
    ∧ vr_raw_total r = sumZ ev_quantity (account_events st account from_ms to_ms)
    ∧ (vr_matches r = true ↔ vr_rollup_total r = sumZ ev_quantity (account_events st account from_ms to_ms))
    ∧ vr_drift r = sat_sub_i128 (vr_raw_total r) (vr_rollup_total r)
    ∧ (∀ prompt, path_fit st prompt → (HOUR_MS | from_ms) → (HOUR_MS | to_ms) →
         vr_rollup_total r = sumZ ev_quantity (owned account from_ms to_ms prompt)).
Proof.
  intros Hs Hf Ht Ha. unfold handle_verify, time_range. rewrite Hf, Ht. cbn [ok_or mbind outcome_bind].
  destruct (raw_total_query st account from_ms to_ms Hs Ha) as (raw & -> & Eraw).
  destruct (rollup_path_runs st (total_plan RollupHourly account from_ms to_ms) Hs) as (rolled & Er).
  rewrite Er. cbn [mbind outcome_bind]. eexists. split; [reflexivity|].
  cbn [vr_raw_total vr_matches vr_rollup_total vr_drift]. split; [done|].
  pose proof (extract_range raw). pose proof (extract_range rolled).
  assert ((sat_sub_i128 (extract_quantity_sum raw) (extract_quantity_sum rolled) =? 0) = true
    ↔ extract_quantity_sum rolled = sumZ ev_quantity (account_events st account from_ms to_ms)) as Hiff.
  { rewrite Z.eqb_eq, <- Eraw. unfold sat_sub_i128, i128_min, i128_max in *. lia. }
  split; [exact Hiff|]. split; [done|]. intros prompt Hfit H1 H2.
  destruct (rollup_total_query st prompt (total_plan RollupHourly account from_ms to_ms) account Hfit) as (a & E & Ee & Es);
    try done. cbn in Es. rewrite <- Es. rewrite Er in E. by injection E as ->.
Qed.

(** Verify tells the truth about drift: it always answers on a database
    whose metadata is sound, its raw total is the sum over the account's
    events in the range, it reports a match exactly when the rollup total is
    that sum, and on whole hours with sound rollups it does match. *)
Theorem verify_reports_drift st account from to from_ms to_ms :
  Exec.segs_sound st → rfc3339_ms from = Some from_ms → rfc3339_ms to = Some to_ms →
  Roll.abs_total (Exec.db_events st) ≤ i128_max →
  ∃ r, handle_verify st account from to = Ok r
    ∧ vr_raw_total r = sumZ ev_quantity (account_events st account from_ms to_ms)
    ∧ (vr_matches r = true ↔ vr_rollup_total r = sumZ ev_quantity (account_events st account from_ms to_ms))
    ∧ (totals_fit st → (HOUR_MS | from_ms) → (HOUR_MS | to_ms) → vr_matches r = true).
Proof.
  intros Hs Hf Ht Ha. destruct (verify_spec st account from to from_ms to_ms Hs Hf Ht Ha) as (r & E & Hr & Hm & _ & Hp).
  exists r. split; [done|]. split; [done|]. split; [done|]. intros Hfit H1 H2. apply Hm, Hp; [by apply totals_path|done..].
Qed.

Lemma present_filters_ok params e :
  forallb (λ f, Exec.filter_ok f e) (present_filters params) = true
  ↔ Forall (λ p, ∀ v, p.2 = Some v → Exec.field_value p.1 e = Some v) params.
Proof.
  unfold present_filters. induction params as [|[field [v|]] params IH]; cbn [omap list_omap fmap option_fmap option_map snd fst].
  - split; [constructor|done].
  - cbn [forallb]. rewrite andb_true_iff, IH, Sql.filter_ok_single, bool_decide_eq_true, Forall_cons. cbn. naive_solver.
  - rewrite IH, Forall_cons. naive_solver.
Qed.

(** The events an audit request asks for. *)
Definition requested (account : string) (params : EventsQueryParams) (from_ms to_ms : Z) (e : UsageEvent) : Prop :=
  ev_account_id e = account ∧ from_ms ≤ ev_timestamp_ms e < to_ms
  ∧ (∀ m, eq_meter_id params = Some m → ev_meter_id e = m)
  ∧ (∀ p, eq_product_id params = Some p → ev_product_id e = p).

#[export] Instance requested_dec account params from_ms to_ms e : Decision (requested account params from_ms to_ms e).
Proof.
  unfold requested. apply and_dec; [apply _|]. apply and_dec; [apply _|].
  apply and_dec; [destruct (eq_meter_id params) as [m|]|destruct (eq_product_id params) as [m|]].
  - destruct (decide (ev_meter_id e = m)); [left; by intros ? [= <-]|right; intros H; by apply n, H].
  - left. done.
  - destruct (decide (ev_product_id e = m)); [left; by intros ? [= <-]|right; intros H; by apply n, H].
  - left. done.
Defined.

Lemma raw_rows_query st plan :
  Exec.segs_sound st → qp_source plan = RawEvents → qp_group_by plan = [] → qp_metrics plan = ∅ →
  run_plan st plan = Ok (Exec.event_row <$> filter (λ e, Exec.matches_plan plan e = true) (Exec.db_events st)).
Proof.
  intros Hs Hsrc Hg Hm. unfold run_plan. rewrite (Exec.raw_query_spec st plan Hs Hsrc). unfold Exec.aggregate.
  by rewrite (bool_decide_eq_true_2 _ Hg), (bool_decide_eq_true_2 _ Hm).
Qed.

Lemma account_events_spec st account params from_ms to_ms :
  Exec.segs_sound st → rfc3339_ms (eq_from params) = Some from_ms → rfc3339_ms (eq_to params) = Some to_ms →
  handle_account_events st account params
  = Ok (Exec.event_row <$> filter (requested account params from_ms to_ms) (Exec.db_events st)).
Proof.
  intros Hs Hf Ht. unfold handle_account_events, time_range. rewrite Hf, Ht. cbn [ok_or mbind outcome_bind].
  rewrite raw_rows_query by done. do 2 f_equal. apply list_filter_iff. intros e.
  rewrite Sql.matches_plan_split. cbn [events_plan qp_from_ms qp_to_ms qp_account_id qp_filters].
  rewrite !andb_true_iff, present_filters_ok, !Forall_cons, Z.leb_le, Z.ltb_lt, String.eqb_eq. unfold requested.
  cbn [fst snd]. split.
  - intros [[Hr Ha] (Hm & Hp & _)]. split_and!; try done; try lia; intros v Hv.
    + specialize (Hm v Hv). by injection Hm.
    + specialize (Hp v Hv). by injection Hp.
  - intros (Ha & Hr & Hm & Hp). split_and!; try done; try lia; intros v Hv; cbn.
    + f_equal. by apply Hm.
    + f_equal. by apply Hp.
Qed.

(** C30: the audit endpoint answers for exactly the events of the account in
    the half-open range, with the requested meter and product, each once for
    every time it is stored and in storage order: an event whose quantity is a
    JSON number (an i64 or a u64) appears as itself, one with a larger quantity
    as null.  It is asked of segments that are readable and described by their
    metadata. *)
Theorem account_events_exact st account params from_ms to_ms :
  Exec.segs_sound st → rfc3339_ms (eq_from params) = Some from_ms → rfc3339_ms (eq_to params) = Some to_ms →
  handle_account_events st account params
  = Ok (Exec.event_row <$> filter (requested account params from_ms to_ms) (Exec.db_events st)).
Proof. apply account_events_spec. Qed.

Lemma inputs_lookup (segs : list SegmentMeta) (m : gmap string (list string)) s :
  NoDup (sm_segment_id <$> segs) → s ∈ segs →
  foldl (λ m s, <[sm_segment_id s := sm_input_segment_ids s]> m) m segs !! sm_segment_id s
  = Some (sm_input_segment_ids s).
Proof.
  revert m. induction segs as [|x segs IH]; intros m Hn Hs; [by apply not_elem_of_nil in Hs|].
  rewrite fmap_cons in Hn. apply NoDup_cons in Hn as [Hx Hn]. cbn [foldl].
  destruct (decide (s ∈ segs)) as [Hin|Hin]; [by apply IH|]. apply elem_of_cons in Hs as [->|Hs]; [|done].
  clear IH Hin Hn. assert (∀ (m : gmap string (list string)) v, m !! sm_segment_id x = Some v →
    foldl (λ m s, <[sm_segment_id s := sm_input_segment_ids s]> m) m segs !! sm_segment_id x = Some v) as Hk.
  { induction segs as [|y segs IH]; intros m' v Hv; [done|]. cbn [foldl].
    rewrite fmap_cons, not_elem_of_cons in Hx. destruct Hx as [Hy Hx]. apply IH; [done|].
    by rewrite lookup_insert_ne by congruence. }
  apply Hk, lookup_insert_eq.
Qed.

(** Corrections and retractions, as stored. *)
Definition adjustments (st : AppState) (account : string) (from_ms to_ms : Z) : list UsageEvent :=
  filter (λ e, ev_kind e ≠ Usage) (account_events st account from_ms to_ms).

Lemma corrections_query st account from_ms to_ms :
  Exec.segs_sound st →
  run_plan st (corrections_plan account from_ms to_ms) = Ok (Exec.event_row <$> adjustments st account from_ms to_ms).
Proof.
  intros Hs. rewrite raw_rows_query by done. do 2 f_equal. unfold adjustments, account_events, owned.
  rewrite list_filter_filter. apply list_filter_iff. intros e.
  rewrite Sql.matches_plan_split. cbn [corrections_plan qp_from_ms qp_to_ms qp_account_id qp_filters forallb].
  rewrite !andb_true_iff, Z.leb_le, Z.ltb_lt, String.eqb_eq.
  assert (Exec.filter_ok (MkQueryFilter "kind" ["Correction"; "Retraction"]) e = true ↔ ev_kind e ≠ Usage) as ->
    by (by destruct e as [? []]). tauto.
Qed.

(** C31: explain names its sources, when no two rollup segments share a name
    and the raw segments are described by their metadata: the adjustments it
    lists are the rows of the corrections and retractions of the account in the
    range (null for a quantity beyond i64 and u64); the rollup segments it
    names are those of the account's bucket whose hours overlap the range, in
    the order of the manifest, each with its recorded inputs; and every raw
    segment that holds an event of the account in the range is named. *)
Theorem explain_names_sources st account from to from_ms to_ms :
  Exec.segs_sound st → rfc3339_ms from = Some from_ms → rfc3339_ms to = Some to_ms →
  NoDup (sm_segment_id <$> m_rollup_segments (as_manifest st)) →
  ∃ r, handle_explain st account from to = Ok r
    ∧ ex_corrections r
      = Exec.event_row <$> adjustments st account from_ms to_ms
    ∧ (∀ s e, s ∈ m_raw_segments (as_manifest st) → e ∈ Flush.seg_events (as_files st) s →
         ev_account_id e = account → from_ms ≤ ev_timestamp_ms e < to_ms → sm_segment_id s ∈ ex_raw_segments r)
    ∧ ex_rollup_segments r
      = sm_segment_id <$> filter (λ s, sm_bucket s = bucket_for_account account (Z.max (m_bucket_count (as_manifest st)) 1)
                                       ∧ sm_min_timestamp_ms s < to_ms ∧ from_ms ≤ sm_max_timestamp_ms s)
                            (m_rollup_segments (as_manifest st))
    ∧ (∀ s, s ∈ m_rollup_segments (as_manifest st) → sm_segment_id s ∈ ex_rollup_segments r →
         ex_rollup_inputs r !! sm_segment_id s = Some (sm_input_segment_ids s)).
Proof.
  intros Hs Hf Ht Hnd. unfold handle_explain, time_range. rewrite Hf, Ht. cbn [ok_or mbind outcome_bind].
  destruct (rollup_path_runs st (breakdown_plan account from_ms to_ms) Hs) as (lines & ->). cbn [mbind outcome_bind].
  rewrite corrections_query by done. cbn [mbind outcome_bind]. eexists. split; [reflexivity|].
  cbn [ex_corrections ex_raw_segments ex_rollup_segments ex_rollup_inputs]. split; [|split; [|split]].
  - done.
  - intros s e Hin He Ha Hr. apply list_elem_of_fmap_2, list_elem_of_filter. split; [|done].
    unfold Exec.segs_sound in Hs. rewrite Forall_forall in Hs. destruct (Hs s Hin) as [_ [_ Hm]].
    destruct (Hm e He) as [[Hts _] Hb]. unfold Flush.bucket_of in Hb. rewrite Ha in Hb.
    rewrite !andb_true_iff, Z.eqb_eq, Z.ltb_lt, Z.leb_le. lia.
  - f_equal. apply list_filter_iff. intros s. unfold overlapping. rewrite negb_true_iff, !orb_false_iff, negb_false_iff, Z.eqb_eq.
    rewrite Z.leb_gt, Z.ltb_ge. tauto.
  - intros s Hin0 (s' & Heq & Hin)%list_elem_of_fmap. assert (s = s') as <-.
    { apply list_elem_of_filter in Hin as [_ Hin]. by eapply (NoDup_fmap_eq sm_segment_id). }
    apply inputs_lookup; [|done]. eapply sublist_NoDup; [exact Hnd|]. apply fmap_sublist, sublist_filter.
Qed.
End handlers.
End Api.

Module ApiExample.
#[local] Existing Instances poly_digest code_bincode stored_codecs poly_digest_ok code_bincode_ok stored_codecs_ok.
#[local] Existing Instances Files.file_segments Files.file_segments_ok QueryExample.code_dims QueryExample.code_dims_parse.
#[local] Existing Instance QueryExample.code_dims_ok.

(** Timestamps written as milliseconds. *)
Definition millis : Rfc3339 := parse_i64.
#[local] Existing Instance millis.

Lemma bound : Roll.abs_total (Exec.db_events QueryExample.st) ≤ i128_max.
Proof. rewrite QueryExample.db. by vm_compute. Qed.

Lemma api_fits : Api.totals_fit QueryExample.st.
Proof.
  split; [apply QueryExample.sound|apply QueryExample.rollups| |]; rewrite ?QueryExample.rolled_rows, QueryExample.db.
  - refine (bool_decide_unpack _ _). by vm_compute.
  - by vm_compute.
Qed.

Lemma verify_reports_drift_witness :
  ∃ r, Api.handle_verify QueryExample.st "acct_1" "3600000" "10800000" = Ok r ∧ vr_raw_total r = 12 ∧ vr_matches r = true.
Proof.
  destruct (Api.verify_reports_drift QueryExample.st "acct_1" "3600000" "10800000" 3600000 10800000
    QueryExample.sound eq_refl eq_refl bound) as (r & E & Hraw & _ & Hm).
  exists r. split; [exact E|]. split.
  - rewrite Hraw. unfold Api.account_events, Api.owned. rewrite QueryExample.db. by vm_compute.
  - apply Hm; [apply api_fits|by exists 1|by exists 3].
Defined.

Definition params : EventsQueryParams := MkEventsParams "0" "7200000" (Some "tokens.input") None.

Lemma account_events_exact_witness :
  Api.handle_account_events QueryExample.st "acct_1" params = Ok [RowEvent QueryExample.ev].
Proof.
  rewrite (Api.account_events_exact QueryExample.st "acct_1" params 0 7200000 QueryExample.sound eq_refl eq_refl).
  rewrite QueryExample.db. vm_compute. reflexivity.
Defined.

Lemma explain_names_sources_witness :
  ∃ r, Api.handle_explain QueryExample.st "acct_1" "0" "7200000" = Ok r ∧ "raw_a" ∈ ex_raw_segments r.
Proof.
  destruct (Api.explain_names_sources QueryExample.st "acct_1" "0" "7200000" 0 7200000 QueryExample.sound eq_refl eq_refl)
    as (r & E & _ & Hr & _); [apply NoDup_singleton|].
  exists r. split; [exact E|]. refine (Hr QueryExample.raw_meta QueryExample.ev _ _ eq_refl _).
  - apply list_elem_of_here.
  - rewrite (Flush.seg_at_events _ _ _ QueryExample.query_raw_at). apply list_elem_of_here.
  - change (0 ≤ 3700000 < 7200000). lia.
Defined.
End ApiExample.
