(* ===== verification/Periods.v ===== *)
(** * Closing, reopening and reading billing periods

    [handle_close_period], [snapshot_period_totals], [frozen_json],
    [handle_reopen_period] and [handle_get_period] of
    [src/api/http_server.rs].  Closing takes its snapshot outside the manifest
    lock and commits under it; the two parts are separate definitions so that
    other requests may run in between. *)

From Stdlib Require Import Ascii.
From stdpp Require Import sorting numbers strings base gmap list.
From S2P Require Import Prelude Model Instances Encoding Segment SegmentSpec DedupeIndex SegmentApi.
From S2P Require Import Memtable Dedupe Wal Manifest Period Flusher Compaction State Ingest Rollup RollupWorker.
From S2P Require Import Query Sql Api.

Inductive CloseResponse :=
| AlreadyClosed (closed_at_ms : Z) (frozen : option (Z * Z))
| RacedClosed
| NowClosed (closed_at_ms watermark_at_close_ms : Z) (frozen : option (Z * Z)).

Record ClosedReport := MkClosedReport {
  pr_closed_at_ms : Z;
  pr_watermark_at_close_ms : option Z;
  pr_frozen : option (Z * Z);
  pr_pending_adjustments : list QRow;
  pr_adjustments_quantity : Z;
  pr_net_total : option Z;
  pr_live_total_fallback : option Z;
}.

Inductive PeriodState :=
| PeriodOpen (total_quantity : Z)
| PeriodClosed (report : ClosedReport).

Record PeriodResponse := MkPeriodResponse {
  ps_from_ms : Z;
  ps_to_ms : Z;
  ps_state : PeriodState;
}.

Module Close.
Definition frozen_json (entry : ClosedPeriod) : option (Z * Z) :=
  match cp_frozen_quantity entry, cp_frozen_event_count entry with
  | Some q, Some c => Some (q, c)
  | _, _ => None
  end.

(** [v.get("count")] and [as_u64]. *)
Definition row_count (row : QRow) : option Z :=
  match row with
  | RowObject fields =>
      match fields !! "count" with
      | Some (VNumber n) => if (0 <=? n) && (n <=? u64_max) then Some n else None
      | _ => None
      end
  | RowEvent _ | RowNull => None
  end.

(** [v.get("quantity")] and [as_i64] on an event row: a quantity that is not
    an i64 is dropped, whichever JSON number or null it became. *)
Definition row_adjustment (row : QRow) : option Z :=
  match row with
  | RowNull => None
  | RowEvent e => if bool_decide (ins 64 (ev_quantity e)) then Some (ev_quantity e) else None
  | RowObject fields =>
      match fields !! "quantity" with
      | Some (VNumber n) => if bool_decide (ins 64 n) then Some n else None
      | _ => None
      end
  end.

Definition snapshot_plan (account_id : string) (from_ms to_ms : Z) : QueryPlan :=
  MkQueryPlan RollupHourly (Some account_id) from_ms to_ms [] [] Api.usage_metrics None.

Definition set_manifest (m : Manifest) (manfs : Man.ManFs) (st : AppState) : AppState :=
  set_env (MkFlushEnv (as_files st) manfs m (as_walfs st)) st.

Definition parsed_period (period : string) : outcome api_error (Z * Z) :=
  match Per.parse_period period with Ok p => Ok p | Err e => Err (BadPeriod e) | Panic => Panic end.

Section handlers.
Context {BL : Blake3} {BN : Bincode} {RS : RawSegments} {MJ : ManifestJson} {DJ : DimJson} {DP : DimParse} {CH : Chrono}.

Definition bounds (year month : Z) : outcome api_error (Z * Z) :=
  match Per.period_bounds year month with Ok p => Ok p | Err e => Err (BadPeriod e) | Panic => Panic end.

Definition snapshot_period_totals (st : AppState) (account_id : string) (from_ms to_ms : Z)
    : outcome api_error (Z * Z) :=
  result ← Api.run_plan st (snapshot_plan account_id from_ms to_ms);
  Ok (Api.extract_quantity_sum result, default 0 (head (omap row_count result))).

(** The part of closing that holds the write lock. *)
Definition close_commit (sfault : Man.save_fault) (now : Z) (account_id : string) (year month : Z)
    (frozen : Z * Z) (st : AppState) : AppState * outcome api_error CloseResponse :=
  let manifest := as_manifest st in
  if existsb (Per.matches_period account_id year month) (m_closed_periods manifest) then (st, Ok RacedClosed)
  else
    let watermark := m_hourly_rollup_ms manifest in
    let entry := MkClosedPeriod account_id year month now (Some frozen.1) (Some frozen.2) (Some watermark) in
    match Man.save sfault (fe_manfs (as_env st)) (set_closed_periods (m_closed_periods manifest ++ [entry]) manifest) with
    | (manfs, m, Ok _) => (set_manifest m manfs st, Ok (NowClosed now watermark (frozen_json entry)))
    | (manfs, m, Err e) => (set_manifest m manfs st, Err (SaveFailed e))
    | (manfs, m, Panic) => (set_manifest m manfs st, Panic)
    end.

Definition handle_close_period (sfault : Man.save_fault) (now : Z) (st : AppState) (account_id period : string)
    : AppState * outcome api_error CloseResponse :=
  match parsed_period period with
  | Ok (year, month) =>
      match Per.find_closed (as_manifest st) account_id year month with
      | Some existing => (st, Ok (AlreadyClosed (cp_closed_at_ms existing) (frozen_json existing)))
      | None =>
          match ('(from_ms, to_ms) ← bounds year month; snapshot_period_totals st account_id from_ms to_ms) with
          | Ok frozen => close_commit sfault now account_id year month frozen st
          | Err e => (st, Err e)
          | Panic => (st, Panic)
          end
      end
  | Err e => (st, Err e)
  | Panic => (st, Panic)
  end.

Definition handle_reopen_period (sfault : Man.save_fault) (st : AppState) (account_id period : string)
    : AppState * outcome api_error bool :=
  match parsed_period period with
  | Ok (year, month) =>
      let manifest := as_manifest st in
      let kept := filter (λ p, negb (Per.matches_period account_id year month p) = true) (m_closed_periods manifest) in
      let removed := (length (m_closed_periods manifest) - length kept)%nat in
      let manifest := set_closed_periods kept manifest in
      if (0 <? removed)%nat then
        match Man.save sfault (fe_manfs (as_env st)) manifest with
        | (manfs, m, Ok _) => (set_manifest m manfs st, Ok true)
        | (manfs, m, Err e) => (set_manifest m manfs st, Err (SaveFailed e))
        | (manfs, m, Panic) => (set_manifest m manfs st, Panic)
        end
      else (set_manifest manifest (fe_manfs (as_env st)) st, Ok false)
  | Err e => (st, Err e)
  | Panic => (st, Panic)
  end.

Definition handle_get_period (st : AppState) (account_id period : string) : outcome api_error PeriodResponse :=
  '(year, month) ← parsed_period period;
  '(from_ms, to_ms) ← bounds year month;
  let live := Api.run_plan st (Api.total_plan RollupHourly account_id from_ms to_ms) in
  match find (Per.matches_period account_id year month) (m_closed_periods (as_manifest st)) with
  | None =>
      result ← live;
      Ok (MkPeriodResponse from_ms to_ms (PeriodOpen (Api.extract_quantity_sum result)))
  | Some entry =>
      adjustments ← Api.run_plan st (Api.corrections_plan account_id from_ms to_ms);
      let adjustments_quantity := sumZ id (omap row_adjustment adjustments) in
      fallback ← match cp_frozen_quantity entry with
                 | Some _ => Ok None
                 | None => result ← live; Ok (Some (Api.extract_quantity_sum result))
                 end;
      Ok (MkPeriodResponse from_ms to_ms (PeriodClosed (MkClosedReport
            (cp_closed_at_ms entry) (cp_watermark_at_close_ms entry) (frozen_json entry) adjustments
            adjustments_quantity ((λ q, sat_add_i128 q adjustments_quantity) <$> cp_frozen_quantity entry) fallback)))
  end.

(** ** Lemmas *)
Lemma matches_period_iff a y m p :
  Per.matches_period a y m p = true ↔ cp_account_id p = a ∧ cp_year p = y ∧ cp_month p = m.
Proof. unfold Per.matches_period. rewrite !andb_true_iff, bool_decide_eq_true, !Z.eqb_eq. tauto. Qed.

Lemma find_app {A} (f : A → bool) l1 l2 :
  find f (l1 ++ l2) = match find f l1 with Some x => Some x | None => find f l2 end.
Proof. induction l1 as [|x l1 IH]; cbn; [done|]. by destruct (f x). Qed.

Lemma find_existsb {A} (f : A → bool) l : find f l = None ↔ existsb f l = false.
Proof. induction l as [|x l IH]; cbn; [done|]. destruct (f x); [done|exact IH]. Qed.

Lemma find_filter_out {A} (f : A → bool) l : find f (filter (λ x, negb (f x) = true) l) = None.
Proof.
  induction l as [|x l IH]; [done|]. rewrite filter_cons. case_decide as H; [|done].
  cbn. apply negb_true_iff in H. by rewrite H.
Qed.

Lemma find_filter_other {A} (f g : A → bool) l :
  (∀ x, g x = true → f x = false) → find g (filter (λ x, negb (f x) = true) l) = find g l.
Proof.
  intros Hd. induction l as [|x l IH]; [done|]. rewrite filter_cons. cbn [find].
  destruct (g x) eqn:Eg.
  - rewrite decide_True; [cbn [find]; by rewrite Eg|]. by rewrite (Hd x Eg).
  - case_decide; [cbn [find]; by rewrite Eg|done].
Qed.

(** Saving does not touch what the manifest says about periods. *)
Lemma save_closed fault manfs m manfs' m' r :
  Man.save fault manfs m = (manfs', m', r) → m_closed_periods m' = m_closed_periods m.
Proof. unfold Man.save. intros H. repeat case_match; by simplify_eq. Qed.

Lemma parsed_ok period y m : Per.parse_period period = Ok (y, m) → parsed_period period = Ok (y, m).
Proof. unfold parsed_period. by intros ->. Qed.

Lemma bounds_ok y m from to : Per.period_bounds y m = Ok (from, to) → bounds y m = Ok (from, to).
Proof. unfold bounds. by intros ->. Qed.

Lemma db_set_manifest m manfs st :
  m_raw_segments m = m_raw_segments (as_manifest st) → Exec.db_events (set_manifest m manfs st) = Exec.db_events st.
Proof. intros H. unfold Exec.db_events, set_manifest. cbn. unfold as_manifest at 1. cbn. by rewrite H. Qed.

Lemma snapshot_runs st account from_ms to_ms :
  Exec.segs_sound st → ∃ frozen, snapshot_period_totals st account from_ms to_ms = Ok frozen.
Proof.
  intros Hs. unfold snapshot_period_totals.
  destruct (Api.rollup_path_runs st (snapshot_plan account from_ms to_ms) Hs) as (rows & ->). by eexists.
Qed.

Lemma find_matches a y m l p : find (Per.matches_period a y m) l = Some p → Per.matches_period a y m p = true.
Proof. by intros [_ ?]%find_some. Qed.

Context {MJok : ManifestJsonOk}.

(** Closing an open period, in terms of what it snapshots. *)
Lemma close_effect st account period y m from_ms to_ms frozen now :
  Per.parse_period period = Ok (y, m) → Per.period_bounds y m = Ok (from_ms, to_ms) →
  Per.find_closed (as_manifest st) account y m = None → 0 ≤ m_current_generation (as_manifest st) < u64_max →
  snapshot_period_totals st account from_ms to_ms = Ok frozen →
  let entry := MkClosedPeriod account y m now (Some frozen.1) (Some frozen.2) (Some (m_hourly_rollup_ms (as_manifest st))) in
  let m' := set_generation (m_current_generation (as_manifest st) + 1)
              (set_closed_periods (m_closed_periods (as_manifest st) ++ [entry]) (as_manifest st)) in
  ∃ manfs, handle_close_period None now st account period
           = (set_manifest m' manfs st, Ok (NowClosed now (m_hourly_rollup_ms (as_manifest st)) (Some frozen)))
    ∧ Man.load None manfs = (manfs, Ok (Some m')).
Proof.
  intros Hp Hb Hc Hg Hs. cbv zeta. unfold handle_close_period. rewrite (parsed_ok _ _ _ Hp), Hc, (bounds_ok _ _ _ _ Hb).
  cbn [mbind outcome_bind]. rewrite Hs. unfold close_commit.
  unfold Per.find_closed in Hc. rewrite (proj1 (find_existsb _ _) Hc).
  set (m0 := set_closed_periods _ _).
  destruct (Man.save_then_load None (fe_manfs (as_env st)) m0) as (manfs & -> & Hl); [done|].
  exists manfs. destruct frozen. split; [done|exact Hl].
Qed.

Lemma find_closed_appended l account y m entry :
  find (Per.matches_period account y m) l = None → Per.matches_period account y m entry = true →
  find (Per.matches_period account y m) (l ++ [entry]) = Some entry.
Proof. intros H1 H2. rewrite find_app, H1. cbn. by rewrite H2. Qed.

Context {DJok : DimJsonOk}.

Lemma snapshot_exact st prompt account from_ms to_ms :
  Api.path_fit st prompt → (HOUR_MS | from_ms) → (HOUR_MS | to_ms) →
  ∃ count, snapshot_period_totals st account from_ms to_ms
           = Ok (sumZ ev_quantity (Api.owned account from_ms to_ms prompt), count).
Proof.
  intros Hf H1 H2. unfold snapshot_period_totals.
  destruct (Api.rollup_total_query st prompt (snapshot_plan account from_ms to_ms) account Hf) as (a & -> & E & Hs); try done.
  cbn [mbind outcome_bind]. rewrite E, Hs. by eexists.
Qed.

(** What closing an open period on whole hours does. *)
Lemma close_spec st prompt account period y m from_ms to_ms now :
  Api.path_fit st prompt → Per.parse_period period = Ok (y, m) → Per.period_bounds y m = Ok (from_ms, to_ms) →
  (HOUR_MS | from_ms) → (HOUR_MS | to_ms) →
  Per.find_closed (as_manifest st) account y m = None → 0 ≤ m_current_generation (as_manifest st) < u64_max →
  let total := sumZ ev_quantity (Api.owned account from_ms to_ms prompt) in
  let watermark := m_hourly_rollup_ms (as_manifest st) in
  ∃ st' count,
    handle_close_period None now st account period = (st', Ok (NowClosed now watermark (Some (total, count))))
    ∧ Per.find_closed (as_manifest st') account y m
      = Some (MkClosedPeriod account y m now (Some total) (Some count) (Some watermark))
    ∧ Exec.db_events st' = Exec.db_events st ∧ Exec.segs_sound st'
    ∧ Man.load None (fe_manfs (as_env st')) = (fe_manfs (as_env st'), Ok (Some (as_manifest st'))).
Proof.
  intros Hf Hp Hb H1 H2 Hc Hg. cbv zeta. destruct (snapshot_exact st prompt account from_ms to_ms Hf H1 H2) as (count & Hs).
  destruct (close_effect st account period y m from_ms to_ms _ now Hp Hb Hc Hg Hs) as (manfs & E & Hl).
  rewrite E. eexists _, count. split; [reflexivity|]. cbn [fst snd] in *. split; [|split; [|split]].
  - apply find_closed_appended; [exact Hc|]. by apply matches_period_iff.
  - by apply db_set_manifest.
  - exact (Api.pf_segments _ _ Hf).
  - exact Hl.
Qed.

(** C22: closing a period freezes its exact total: on sound rollups the entry
    that is stored and persisted carries the sum over all events of the
    account in the month that segments and memtable hold (events on the way to
    the flusher are in neither), the stored data are unchanged, and a restart
    loads the manifest with the entry. *)
Theorem close_freezes_total st account period y m from_ms to_ms now :
  Api.totals_fit st → Per.parse_period period = Ok (y, m) → Per.period_bounds y m = Ok (from_ms, to_ms) →
  (HOUR_MS | from_ms) → (HOUR_MS | to_ms) →
  Per.find_closed (as_manifest st) account y m = None → 0 ≤ m_current_generation (as_manifest st) < u64_max →
  let total := sumZ ev_quantity (Api.account_events st account from_ms to_ms) in
  let watermark := m_hourly_rollup_ms (as_manifest st) in
  ∃ st' count,
    handle_close_period None now st account period = (st', Ok (NowClosed now watermark (Some (total, count))))
    ∧ Per.find_closed (as_manifest st') account y m
      = Some (MkClosedPeriod account y m now (Some total) (Some count) (Some watermark))
    ∧ Exec.db_events st' = Exec.db_events st ∧ Exec.segs_sound st'
    ∧ Man.load None (fe_manfs (as_env st')) = (fe_manfs (as_env st'), Ok (Some (as_manifest st'))).
Proof. intros Hf. by apply close_spec, Api.totals_path. Qed.

(** The adjustments that are counted: [as_i64] leaves larger ones out. *)
Definition counted (es : list UsageEvent) : list UsageEvent := filter (λ e, ins 64 (ev_quantity e)) es.

Lemma adjustment_sum (es : list UsageEvent) :
  sumZ id (omap row_adjustment (Exec.event_row <$> es)) = sumZ ev_quantity (counted es).
Proof.
  unfold counted. induction es as [|e es IH]; [done|]. rewrite fmap_cons, filter_cons. unfold Exec.event_row at 1, json_number.
  assert (ins 64 (ev_quantity e) → (i64_min <=? ev_quantity e) && (ev_quantity e <=? u64_max) = true) as Hj.
  { intros Hi. apply andb_true_iff. rewrite Z.leb_le, Z.leb_le. unfold ins in Hi. unfold i64_min, u64_max. lia. }
  destruct (decide (ins 64 (ev_quantity e))) as [Hi|Hi].
  - rewrite (Hj Hi). cbn [omap list_omap row_adjustment]. rewrite bool_decide_eq_true_2 by done. by rewrite !sumZ_cons, IH.
  - case_match; cbn [omap list_omap row_adjustment]; [rewrite bool_decide_eq_false_2 by done|]; exact IH.
Qed.

Lemma closed_report_spec st account period y m from_ms to_ms entry q :
  Exec.segs_sound st → Per.parse_period period = Ok (y, m) → Per.period_bounds y m = Ok (from_ms, to_ms) →
  Per.find_closed (as_manifest st) account y m = Some entry → cp_frozen_quantity entry = Some q →
  handle_get_period st account period
  = Ok (MkPeriodResponse from_ms to_ms (PeriodClosed (MkClosedReport
          (cp_closed_at_ms entry) (cp_watermark_at_close_ms entry) (frozen_json entry)
          (Exec.event_row <$> Api.adjustments st account from_ms to_ms)
          (sumZ ev_quantity (counted (Api.adjustments st account from_ms to_ms)))
          (Some (sat_add_i128 q (sumZ ev_quantity (counted (Api.adjustments st account from_ms to_ms))))) None))).
Proof.
  intros Hs Hp Hb Hc Hq. unfold handle_get_period. rewrite (parsed_ok _ _ _ Hp). cbn [mbind outcome_bind].
  rewrite (bounds_ok _ _ _ _ Hb). cbn [mbind outcome_bind]. unfold Per.find_closed in Hc. rewrite Hc.
  rewrite Api.corrections_query by done. cbn [mbind outcome_bind]. rewrite Hq, adjustment_sum. done.
Qed.


(** The net total of a closed period counts earlier adjustments twice:
    right after closing, before anything else arrives, it is the frozen total,
    which already includes every correction and retraction of the month, plus
    the sum of those same events. *)
Theorem net_total_counts_adjustments_twice st account period y m from_ms to_ms now :
  Api.totals_fit st → Per.parse_period period = Ok (y, m) → Per.period_bounds y m = Ok (from_ms, to_ms) →
  (HOUR_MS | from_ms) → (HOUR_MS | to_ms) →
  Per.find_closed (as_manifest st) account y m = None → 0 ≤ m_current_generation (as_manifest st) < u64_max →
  Forall (λ e, ins 64 (ev_quantity e)) (Api.adjustments st account from_ms to_ms) →
  ∃ st' r report,
    handle_close_period None now st account period = (st', Ok r)
    ∧ handle_get_period st' account period = Ok (MkPeriodResponse from_ms to_ms (PeriodClosed report))
    ∧ pr_net_total report
      = Some (sat_add_i128 (sumZ ev_quantity (Api.account_events st account from_ms to_ms))
                (sumZ ev_quantity (Api.adjustments st account from_ms to_ms))).
Proof.
  intros Hf Hp Hb H1 H2 Hc Hg Hi.
  destruct (close_spec st _ account period y m from_ms to_ms now (Api.totals_path _ Hf) Hp Hb H1 H2 Hc Hg) as (st' & count & E & Hc' & Hdb & Hs & _).
  assert (Api.adjustments st' account from_ms to_ms = Api.adjustments st account from_ms to_ms) as Ha.
  { unfold Api.adjustments, Api.account_events, Api.owned. by rewrite Hdb. }
  eexists st', _, _. split; [exact E|]. split.
  - apply (closed_report_spec st' account period y m from_ms to_ms _ _ Hs Hp Hb Hc' eq_refl).
  - cbn [pr_net_total]. unfold counted. by rewrite Ha, filter_all.
Qed.

(** What reopening does when its save succeeds. *)
Lemma reopen_effect st account period y m :
  Per.parse_period period = Ok (y, m) → 0 ≤ m_current_generation (as_manifest st) < u64_max →
  ∃ st' b, handle_reopen_period None st account period = (st', Ok b)
    ∧ b = Per.is_period_closed (as_manifest st) account y m
    ∧ m_closed_periods (as_manifest st')
      = filter (λ p, negb (Per.matches_period account y m p) = true) (m_closed_periods (as_manifest st))
    ∧ m_raw_segments (as_manifest st') = m_raw_segments (as_manifest st)
    ∧ (b = true → Man.load None (fe_manfs (as_env st')) = (fe_manfs (as_env st'), Ok (Some (as_manifest st')))).
Proof.
  intros Hp Hg. unfold handle_reopen_period. rewrite (parsed_ok _ _ _ Hp). cbv zeta.
  set (kept := filter _ _).
  assert ((0 <? length (m_closed_periods (as_manifest st)) - length kept)%nat
          = Per.is_period_closed (as_manifest st) account y m) as ->.
  { unfold Per.is_period_closed, kept. clear. induction (m_closed_periods (as_manifest st)) as [|p l IH]; [done|].
    cbn [existsb]. rewrite filter_cons.
    pose proof (length_filter (λ p, negb (Per.matches_period account y m p) = true) l).
    destruct (Per.matches_period account y m p); cbn [orb negb].
    - rewrite decide_False by done. cbn [length]. apply Nat.ltb_lt. lia.
    - rewrite decide_True by done. cbn [length]. by rewrite <- IH. }
  destruct (Per.is_period_closed (as_manifest st) account y m).
  - destruct (Man.save_then_load None (fe_manfs (as_env st)) (set_closed_periods kept (as_manifest st)))
      as (manfs & -> & Hl); [done|].
    eexists _, true. split; [done|]. split; [done|]. split; [done|]. split; [done|]. intros _. exact Hl.
  - eexists _, false. split_and!; done.
Qed.

(** Reopening removes the one entry it names: afterwards the period is
    open, every other period is as it was, the response says whether there was
    an entry, and a period closed and reopened leaves the list of closed
    periods as before, on disk too. *)
Theorem reopen_undoes_close st account period y m from_ms to_ms now :
  Exec.segs_sound st → Per.parse_period period = Ok (y, m) → Per.period_bounds y m = Ok (from_ms, to_ms) →
  Per.find_closed (as_manifest st) account y m = None →
  0 ≤ m_current_generation (as_manifest st) → m_current_generation (as_manifest st) + 1 < u64_max →
  ∃ st1 r st2,
    handle_close_period None now st account period = (st1, Ok r)
    ∧ Per.is_period_closed (as_manifest st1) account y m = true
    ∧ handle_reopen_period None st1 account period = (st2, Ok true)
    ∧ m_closed_periods (as_manifest st2) = m_closed_periods (as_manifest st)
    ∧ Man.load None (fe_manfs (as_env st2)) = (fe_manfs (as_env st2), Ok (Some (as_manifest st2)))
    ∧ ∀ a' y' m', (a', y', m') ≠ (account, y, m) →
        Per.find_closed (as_manifest st2) a' y' m' = Per.find_closed (as_manifest st1) a' y' m'.
Proof.
  intros Hs Hp Hb Hc Hg0 Hg1. destruct (snapshot_runs st account from_ms to_ms Hs) as (frozen & Hf).
  destruct (close_effect st account period y m from_ms to_ms frozen now Hp Hb Hc) as (manfs & E & _); [lia|done|].
  set (m1 := set_generation _ _) in E.
  destruct (reopen_effect (set_manifest m1 manfs st) account period y m Hp) as (st2 & b & E2 & Hb2 & Hl2 & _ & Hd);
    [cbn; lia|].
  assert (Per.is_period_closed (as_manifest (set_manifest m1 manfs st)) account y m = true) as Hcl.
  { apply Per.find_closed_is_closed. exists (MkClosedPeriod account y m now (Some frozen.1) (Some frozen.2)
      (Some (m_hourly_rollup_ms (as_manifest st)))). apply find_closed_appended; [exact Hc|]. by apply matches_period_iff. }
  rewrite Hcl in Hb2. subst b. eexists _, _, st2. split; [exact E|]. split; [done|]. split; [exact E2|].
  split; [|split; [by apply Hd|]].
  - rewrite Hl2. cbn. rewrite filter_app. unfold Per.find_closed in Hc.
    assert (∀ l, find (Per.matches_period account y m) l = None →
      filter (λ p, negb (Per.matches_period account y m p) = true) l = l) as Hk.
    { intros l Hn. apply filter_all, Forall_forall. intros p Hpin. apply list_elem_of_In in Hpin.
      by rewrite (find_none _ _ Hn p Hpin). }
    rewrite (Hk _ Hc), filter_cons_False, app_nil_r; [done|].
    by rewrite (proj2 (matches_period_iff _ _ _ _)).
  - intros a' y' m' Hne. unfold Per.find_closed. rewrite Hl2. apply find_filter_other. intros p Hp'.
    apply matches_period_iff in Hp' as (<- & <- & <-). apply not_true_is_false. intros (<- & <- & <-)%matches_period_iff.
    by apply Hne.
Qed.
End handlers.
End Close.

(** ** A calendar of one-hour months, and a database with one correction *)
Module CloseExample.
#[local] Existing Instances poly_digest code_bincode stored_codecs poly_digest_ok code_bincode_ok stored_codecs_ok.
#[local] Existing Instances Files.file_segments Files.file_segments_ok QueryExample.code_dims QueryExample.code_dims_parse.
#[local] Existing Instances QueryExample.code_dims_ok ManExample.text_manifest ManExample.text_manifest_ok.

Definition hour_calendar : Chrono := {|
  utc_year_month ts := @utc_year_month Per.flat_calendar (ts / 120000);
  month_start y m := (λ s, s * 120000) <$> @month_start Per.flat_calendar y m;
|}.
#[local] Existing Instance hour_calendar.

#[local] Instance hour_calendar_ok : ChronoOk.
Proof.
  split.
  - intros ts y m. apply (@month_range Per.flat_calendar Per.flat_calendar_ok).
  - intros y m s e ts Hs He. cbn [month_start hour_calendar] in Hs, He.
    destruct (@month_start Per.flat_calendar y m) as [s'|] eqn:Es; [|done].
    destruct (@month_start Per.flat_calendar (next_month y m).1 (next_month y m).2) as [e'|] eqn:Ee; [|done].
    cbn in Hs, He. injection Hs as <-. injection He as <-.
    etransitivity; [exact (@month_of _ Per.flat_calendar_ok y m s' e' (ts / 120000) Es Ee)|].
    pose proof (Z.div_mod ts 120000). pose proof (Z.mod_pos_bound ts 120000). lia.
Qed.

Definition used : UsageEvent := sample_event "a" "acct_1" 3700000 5.
Definition corrected : UsageEvent :=
  MkUsageEvent "c" Correction (Some (MkCorrectionRef "a" "overcount")) "acct_1" None "ai_gateway" "tokens.input" 3800000
    (-2) "token" "test" None (MkSmallDimensions ∅) 0.

Definition st : AppState :=
  MkAppState (MkFlushEnv ∅ ManExample.empty_man ManExample.gen0 (WalOps.open WalOps.empty_fs 0).1)
    (WalOps.open WalOps.empty_fs 0).2 (MkMemtable [used; corrected] 200 (Some 3700000)) (Hot.new 10) [] [] RollupExample.cfg.

Lemma closing_db : Exec.db_events st = [used; corrected].
Proof. reflexivity. Qed.

Lemma closing_fits : Api.totals_fit st.
Proof.
  split.
  - apply Forall_nil_2.
  - split; [split; [by exists 0|by intros sel|apply Forall_nil_2]|]. refine (bool_decide_unpack _ _). by vm_compute.
  - rewrite closing_db. refine (bool_decide_unpack _ _). by vm_compute.
  - rewrite closing_db. by vm_compute.
Qed.

Lemma period_ok : Per.parse_period "0000-02" = Ok (0, 2).
Proof. reflexivity. Qed.
Lemma bounds_are : Per.period_bounds 0 2 = Ok (3600000, 7200000).
Proof. reflexivity. Qed.
Lemma generation_fits : 0 ≤ m_current_generation (as_manifest st) < u64_max.
Proof. by vm_compute. Qed.
Lemma from_aligned : (HOUR_MS | 3600000).
Proof. by exists 1. Qed.
Lemma to_aligned : (HOUR_MS | 7200000).
Proof. by exists 2. Qed.
Lemma narrow : Forall (λ e, ins 64 (ev_quantity e)) (Api.adjustments st "acct_1" 3600000 7200000).
Proof.
  unfold Api.adjustments, Api.account_events, Api.owned. rewrite closing_db. refine (bool_decide_unpack _ _). by vm_compute.
Qed.

Lemma close_freezes_total_witness :
  ∃ st' count, Close.handle_close_period None 9000 st "acct_1" "0000-02" = (st', Ok (NowClosed 9000 0 (Some (3, count)))).
Proof.
  destruct (Close.close_freezes_total st "acct_1" "0000-02" 0 2 3600000 7200000 9000 closing_fits period_ok bounds_are
    from_aligned to_aligned eq_refl generation_fits) as (st' & count & E & _).
  exists st', count. exact E.
Defined.


(** Usage 5 and a correction of -2: frozen 3, reported net total 1. *)
Lemma net_total_counts_adjustments_twice_witness :
  ∃ st' r report,
    Close.handle_close_period None 9000 st "acct_1" "0000-02" = (st', Ok r)
    ∧ Close.handle_get_period st' "acct_1" "0000-02" = Ok (MkPeriodResponse 3600000 7200000 (PeriodClosed report))
    ∧ pr_net_total report = Some 1.
Proof.
  exact (Close.net_total_counts_adjustments_twice st "acct_1" "0000-02" 0 2 3600000 7200000 9000 closing_fits period_ok
    bounds_are from_aligned to_aligned eq_refl generation_fits narrow).
Defined.

Lemma reopen_undoes_close_witness :
  ∃ st1 r st2,
    Close.handle_close_period None 9000 st "acct_1" "0000-02" = (st1, Ok r)
    ∧ Close.handle_reopen_period None st1 "acct_1" "0000-02" = (st2, Ok true)
    ∧ m_closed_periods (as_manifest st2) = [].
Proof.
  destruct (Close.reopen_undoes_close st "acct_1" "0000-02" 0 2 3600000 7200000 9000 (Api.tf_segments _ closing_fits) period_ok
    bounds_are eq_refl ltac:(by vm_compute) ltac:(by vm_compute)) as (st1 & r & st2 & E1 & _ & E2 & E3 & _).
  exists st1, r, st2. split; [exact E1|]. split; [exact E2|]. exact E3.
Defined.
End CloseExample.
