(* ===== verification/Lifecycle.v ===== *)
(** * The life of a closed period

    Everything that runs while a period is closed, interleaved in any order:
    ingest requests (whose validation reads the closed periods before the
    critical section, [handle_ingest] of [src/api/http_server.rs]), the
    flusher, the rollup and compaction workers, other closes and reopens, and
    restarts.  A request in flight is part of the world, so a close between its
    validation and its commit is one of the interleavings. *)

From Stdlib Require Import Ascii.
From stdpp Require Import sorting numbers strings base gmap list.
From S2P Require Import Prelude Model Instances Encoding Segment SegmentSpec DedupeIndex SegmentApi.
From S2P Require Import Memtable Dedupe Wal Manifest Period Flusher Compaction State Ingest Recovery.
From S2P Require Import System Rollup RollupWorker Shutdown Query Sql Api Periods.

(** [w_requests]: the validated batches whose critical section is still to
    come; [w_added]: the events the critical sections took for new. *)
Record World := MkWorld {
  w_state : AppState;
  w_requests : list (nat * list Classified);
  w_added : list UsageEvent;
}.

Inductive op :=
| OpValidate (now : Z) (events : list UsageEvent)
| OpIngest (request : nat) (io : IngestIo) (clk : nat → Z * Z * Z)
| OpSend (receiver : bool) (i : nat)
| OpFlush (now : Z) (draws : nat → string * option wb_fault) (sfault : Man.save_fault)
| OpRollup (reads : RW.TickReads) (draws : nat → string * option rw_fault) (sfault : Man.save_fault)
    (rot : budget * bool * bool) (now : Z)
| OpCompact (now : Z) (sweep_fault : Man.save_fault) (draws : nat → string * option wb_fault)
    (sfaults : nat → Man.save_fault)
| OpClose (sfault : Man.save_fault) (now : Z) (account_id period : string)
| OpCloseCommit (sfault : Man.save_fault) (now : Z) (account_id : string) (year month : Z) (frozen : Z * Z)
| OpReopen (sfault : Man.save_fault) (account_id period : string)
| OpRestart (now : Z) (clk : nat → Z) (walfs : WalFs).

Module Life.
Section life.
Context {BL : Blake3} {BN : Bincode} {SJ : SerdeJson} {RS : RawSegments} {MJ : ManifestJson}.
Context {DJ : DimJson} {DP : DimParse} {CH : Chrono}.
Context (size_of_event : Z).

(** [handle_ingest] from its critical section on, up to the send, which is an
    operation of its own. *)
Definition complete_ingest (io : IngestIo) (clk : nat → Z * Z * Z) (st : AppState)
    (request : nat * list Classified) : AppState * outcome ingest_error IngestBatchResponse :=
  match Ing.ingest_critical_section size_of_event io clk st request.2 request.1 with
  | (st, Ok o) =>
      (match io_drained o with
       | Some msg => hand_over msg st
       | None => st
       end,
       Ok (MkIngestResponse (io_accepted o) (io_duplicates o) (io_conflicts o) (io_rejected o)))
  | (st, Err e) => (st, Err e)
  | (st, Panic) => (st, Panic)
  end.

Definition on_state (f : AppState → AppState) (w : World) : World :=
  MkWorld (f (w_state w)) (w_requests w) (w_added w).

(** One message through the flusher task. *)
Definition flush_next (now : Z) (draws : nat → string * option wb_fault) (sfault : Man.save_fault) (st : AppState)
    : AppState :=
  match as_queue st with
  | [] => st
  | msg :: q => Shut.flush_head size_of_event now draws sfault msg q st
  end.

Definition compact_once (now : Z) (sweep_fault : Man.save_fault) (draws : nat → string * option wb_fault)
    (sfaults : nat → Man.save_fault) (st : AppState) : AppState :=
  set_env (Compact.tick (compaction_max_small_segments (as_config st)) (compaction_grace_ms (as_config st)) now
             sweep_fault draws sfaults (as_env st)).1 st.

(** A restart on whatever the log directory became; a start that fails
    (an unreadable manifest or segment) leaves the manifests as they are. *)
Definition restart (now : Z) (clk : nat → Z) (walfs : WalFs) (w : World) : World :=
  match Rec.startup size_of_event (as_config (w_state w)) None None now clk
          (fe_manfs (as_env (w_state w))) (as_files (w_state w)) walfs with
  | Ok st => MkWorld st [] (w_added w)
  | _ => w
  end.

Definition apply_op (o : op) (w : World) : World :=
  let st := w_state w in
  match o with
  | OpValidate now events =>
      MkWorld st (w_requests w ++ [Ing.validate_batch now (m_closed_periods (as_manifest st)) events]) (w_added w)
  | OpSend receiver i => on_state (send receiver i) w
  | OpIngest i io clk =>
      match w_requests w !! i with
      | None => w
      | Some request =>
          MkWorld (complete_ingest io clk st request).1 (delete i (w_requests w))
            (w_added w ++ (cl_event <$> (Ing.screen (as_dedupe st) ∅ request.2).1.1))
      end
  | OpFlush now draws sfault => on_state (flush_next now draws sfault) w
  | OpRollup reads draws sfault rot now => on_state (λ st, (RW.tick_with reads draws sfault rot now st).1) w
  | OpCompact now sweep_fault draws sfaults => on_state (compact_once now sweep_fault draws sfaults) w
  | OpClose sfault now account period => on_state (λ st, (Close.handle_close_period sfault now st account period).1) w
  | OpCloseCommit sfault now account year month frozen =>
      on_state (λ st, (Close.close_commit sfault now account year month frozen st).1) w
  | OpReopen sfault account period => on_state (λ st, (Close.handle_reopen_period sfault st account period).1) w
  | OpRestart now clk walfs => restart now clk walfs w
  end.

(** Whether an operation reopens this period. *)
Definition reopens (account : string) (year month : Z) (o : op) : Prop :=
  match o with
  | OpReopen _ account' period => account' = account ∧ Per.parse_period period = Ok (year, month)
  | _ => False
  end.

Definition generation (w : World) : Z := m_current_generation (as_manifest (w_state w)).

(** A step other than the reopening of the period, with the generation counter
    below its width. *)
Definition step (account : string) (year month : Z) (w w' : World) : Prop :=
  ∃ o, ¬ reopens account year month o ∧ w' = apply_op o w ∧ generation w' < u64_max.

(** The request as the handler runs it, without interleaving. *)
Lemma handle_ingest_split io now clk st events :
  Ing.handle_ingest size_of_event io now clk st events
  = complete_ingest io clk st (Ing.validate_batch now (m_closed_periods (as_manifest st)) events).
Proof. unfold Ing.handle_ingest, complete_ingest. by destruct (Ing.validate_batch _ _ _). Qed.

(** ** Facts that survive saves, failed or not *)
Section kept.
Context {MJok : ManifestJsonOk} (Q : list ClosedPeriod → Prop).

(** Every generation a start could pick, from [g] on, satisfies [Q]. *)
Definition disk_has (d : gmap string bytes) (g : Z) : Prop :=
  (∃ content c, d !! "CURRENT" = Some content ∧ Man.parse_current content = Some c ∧ g ≤ c)
  ∧ is_Some (Man.gen_valid d g)
  ∧ ∀ x m, g ≤ x ≤ u64_max → Man.gen_valid d x = Some m → Q (m_closed_periods m).

Definition has (env : FlushEnv) : Prop :=
  1 ≤ m_current_generation (fe_manifest env)
  ∧ Q (m_closed_periods (fe_manifest env))
  ∧ disk_has (Man.mf_dir (fe_manfs env)) (m_current_generation (fe_manifest env)).

Lemma newest_valid d g c :
  g ≤ c → is_Some (Man.gen_valid d g) →
  ∃ x m, g ≤ x ≤ c ∧ Man.gen_valid d x = Some m ∧ ∀ x', x < x' ≤ c → Man.gen_valid d x' = None.
Proof.
  intros Hg Hv. remember (Z.to_nat (c - g)) as n eqn:Hn. revert c Hg Hn.
  induction n as [|n IH]; intros c Hg Hn.
  - assert (c = g) as -> by lia. destruct Hv as [m Hm]. exists g, m. split; [lia|]. split; [done|]. lia.
  - destruct (Man.gen_valid d c) as [m|] eqn:Ec.
    + exists c, m. split; [lia|]. split; [done|]. lia.
    + destruct (IH (c - 1)) as (x & m & Hx & Hm & Hnone); [lia|lia|]. exists x, m. split; [lia|]. split; [done|].
      intros x' Hx'. destruct (decide (x' = c)) as [->|]; [done|]. apply Hnone. lia.
Qed.

(** What a start finds. *)
Lemma load_has fault fs g :
  1 ≤ g → disk_has (Man.mf_dir fs) g →
  ∃ m, Man.load fault fs = (fs, Ok (Some m)) ∧ g ≤ m_current_generation m ∧ Q (m_closed_periods m)
    ∧ disk_has (Man.mf_dir fs) (m_current_generation m).
Proof.
  intros H0 ((content & c & Hc & Hp & Hgc) & Hv & HQ).
  destruct (newest_valid _ g c Hgc Hv) as (x & m & Hx & Hm & Hnone).
  pose proof (Man.parse_current_range _ _ Hp).
  exists (set_generation x m). split; [|split; [|split]].
  - apply (Man.load_hit fault fs content c x m); try done. lia.
  - cbn. lia.
  - apply (HQ x m); [lia|done].
  - cbn. split; [by exists content, c; split_and!; try done; lia|]. split; [by eexists|].
    intros x' m' Hx'. apply HQ. lia.
Qed.

Lemma disk_has_mixed torn d d' m json :
  disk_has d (m_current_generation m) → 1 ≤ m_current_generation m < u64_max → Q (m_closed_periods m) →
  mjson_to m = Some json → Man.mixed torn d d' (m_current_generation m + 1) json →
  disk_has d' (m_current_generation m).
Proof.
  intros ((content & c & Hc & Hp & Hgc) & Hv & HQ) Hg Hm Hj (cur & gen & (V1 & V2 & V3) & Hcur & Hgen & _).
  set (g := m_current_generation m) in *. split; [|split].
  - destruct Hcur as [->| ->].
    + rewrite Hc in V1. by exists content, c.
    + exists (Man.current_bytes (g + 1)), (g + 1). split_and!; [done|apply Man.parse_current_bytes; lia|lia].
  - unfold Man.gen_valid in *. rewrite V3 by lia. done.
  - intros x m' Hx Hm'. destruct (decide (x = g + 1)) as [->|Hne].
    + destruct Hgen as [->| ->].
      * apply (HQ (g + 1) m'); [lia|]. unfold Man.gen_valid in *. by rewrite <- V2.
      * rewrite (Man.gen_valid_json d' (g + 1) m json Hj V2) in Hm'. by injection Hm' as <-.
    + apply (HQ x m'); [done|]. unfold Man.gen_valid in *. by rewrite <- V3 by lia.
Qed.

Lemma disk_has_saved fs m manfs m' :
  Man.save None fs m = (manfs, m', Ok tt) → 0 ≤ m_current_generation m < u64_max → Q (m_closed_periods m) →
  (∀ x m', m_current_generation m + 1 < x ≤ u64_max → Man.gen_valid (Man.mf_dir fs) x = Some m' → Q (m_closed_periods m')) →
  disk_has (Man.mf_dir manfs) (m_current_generation m + 1).
Proof.
  intros E Hg Hm HQ. destruct (mjson_total m) as [json Hj]. unfold Man.save in E. rewrite Hj in E.
  injection E as <- <-. destruct (Man.save_view fs m json Hj Hg) as (V1 & V2 & V3).
  set (g := m_current_generation m + 1) in *. set (d := Man.run_ops _ _) in *.
  assert (∀ x, g ≤ x ≤ u64_max →
    Man.prune_old_generations g d !! Man.generation_filename x = d !! Man.generation_filename x) as Hpr.
  { intros x Hx. rewrite Man.prune_lookup, Man.below_gen by lia.
    destruct (Z.ltb_spec x (g - Man.KEEP_GENERATIONS + 1)); [unfold Man.KEEP_GENERATIONS in *; lia|].
    by rewrite andb_false_r. }
  assert (Man.gen_valid (Man.prune_old_generations g d) g = Some (set_generation 0 m)) as Hnew.
  { apply (Man.gen_valid_json _ _ m json); [done|]. rewrite Hpr by lia. done. }
  cbn [Man.mf_dir]. split; [|split].
  - exists (Man.current_bytes g), g. split; [|split; [apply Man.parse_current_bytes; lia|lia]].
    rewrite Man.prune_lookup. unfold Man.below. change (Man.parse_generation "CURRENT") with (@None Z).
    by rewrite andb_false_r.
  - exists (set_generation 0 m). exact Hnew.
  - intros x m' Hx Hm'. destruct (decide (x = g)) as [->|Hne].
    + change (Man.gen_valid (Man.prune_old_generations g d) g = Some m') in Hm'. rewrite Hnew in Hm'.
      injection Hm' as <-. exact Hm.
    + apply (HQ x m'); [lia|]. unfold Man.gen_valid in *. by rewrite Hpr, V3 in Hm' by lia.
Qed.

(** The relation every component keeps: generations grow, and while the
    counter fits, what holds of the closed periods keeps holding in memory and
    for the next start. *)
Definition keeps (env env' : FlushEnv) : Prop :=
  m_current_generation (fe_manifest env) ≤ m_current_generation (fe_manifest env')
  ∧ (m_current_generation (fe_manifest env') < u64_max → has env → has env').

#[export] Instance keeps_preorder : PreOrder keeps.
Proof.
  split; [intros env; split; [lia|tauto]|].
  intros a b c [H1 K1] [H2 K2]. split; [lia|]. intros Hc Ha. apply K2; [done|]. apply K1; [lia|done].
Qed.

Lemma keeps_same env files walfs : keeps env (MkFlushEnv files (fe_manfs env) (fe_manifest env) walfs).
Proof. split; [cbn; lia|]. by intros _ (?&?&?). Qed.

(** A save of a manifest whose periods still satisfy [Q]. *)
Lemma keeps_save env m fault manfs m' r files walfs :
  Man.save fault (fe_manfs env) m = (manfs, m', r) →
  m_current_generation m = m_current_generation (fe_manifest env) →
  (Q (m_closed_periods (fe_manifest env)) → Q (m_closed_periods m)) →
  keeps env (MkFlushEnv files manfs m' walfs).
Proof.
  intros E Hg HQ. pose proof (Close.save_closed _ _ _ _ _ _ E) as Hc.
  assert (m_current_generation m ≤ m_current_generation m') as Hmono.
  { unfold Man.save in E. destruct (mjson_to m); [|by simplify_eq]. destruct fault as [[k n]|]; repeat case_match; simplify_eq; cbn; lia. }
  split; [cbn; lia|]. cbn [fe_manifest]. intros Hmax (H1 & H2 & H3). specialize (HQ H2).
  split; [cbn; lia|]. cbn [fe_manifest fe_manfs]. rewrite Hc. split; [done|].
  destruct (mjson_total m) as [json Hj]. destruct fault as [[k n]|].
  - pose proof (Man.save_failed_mixed (fe_manfs env) m json k n Hj ltac:(lia)) as Hmix. rewrite E in Hmix.
    unfold Man.save in E. rewrite Hj in E.
    assert (m' = m) as -> by (repeat case_match; by simplify_eq).
    apply (disk_has_mixed False (Man.mf_dir (fe_manfs env)) _ m json); try done; [by rewrite Hg|lia].
  - destruct (Man.save_then_load None (fe_manfs env) m) as (fs' & E' & _); [lia|].
    rewrite E in E'. injection E' as -> -> ->. cbn.
    apply (disk_has_saved (fe_manfs env) m fs' _ E); [lia|done|].
    intros x m0 Hx. apply (proj2 (proj2 H3) x m0). lia.
Qed.

Lemma attempt_flush_keeps draws sfault env es id env' r :
  Flush.attempt_flush draws sfault env es id = (env', r) → keeps env env'.
Proof.
  unfold Flush.attempt_flush. intros E.
  destruct (Flush.flush_buckets _ _ _ _ _ _) as [files [[metas paths]|f|]].
  - destruct (Man.save _ _ _) as [[manfs m] res] eqn:Es.
    assert (keeps env (MkFlushEnv (fe_files env') manfs m (fe_walfs env'))) as K.
    { eapply keeps_save; [exact Es|..]; unfold Flush.commit_manifest; cbv zeta; by destruct (_ <? _). }
    destruct res; by injection E as <- _.
  - injection E as <- _. apply keeps_same.
  - injection E as <- _. apply keeps_same.
Qed.

Lemma flush_next_keeps now draws sfault st : keeps (as_env st) (as_env (flush_next now draws sfault st)).
Proof.
  unfold flush_next. destruct (as_queue st) as [|msg q]; [done|]. unfold Shut.flush_head, Flush.handle_message.
  destruct (bool_decide _); [done|].
  destruct (Flush.attempt_flush _ _ _ _ _) as [env' [u|f|]] eqn:E; by eapply attempt_flush_keeps.
Qed.

Lemma run_one_plan_keeps draw sfault env plan now env' r :
  Compact.run_one_plan draw sfault env plan now = (env', r) → keeps env env'.
Proof.
  unfold Compact.run_one_plan, Compact.set_env_files. intros E.
  destruct (Compact.read_segments _ _) as [events|e|]; [|by injection E as <- _..].
  destruct (bool_decide _); [by injection E as <- _|].
  destruct (bool_decide _); [by injection E as <- _|].
  destruct (bool_decide _); [injection E as <- _; apply keeps_same|].
  destruct (seg_write _) as [[[bs n] cs]|e|]; [|injection E as <- _; apply keeps_same..].
  destruct (negb _); [injection E as <- _; apply keeps_same|].
  destruct (Man.save _ _ _) as [[manfs m] res] eqn:Es.
  assert (keeps env (MkFlushEnv (fe_files env') manfs m (fe_walfs env'))) as K by by eapply keeps_save.
  destruct res; by injection E as <- _.
Qed.

Lemma run_plans_keeps draws sfaults i env plans now :
  keeps env (Compact.run_plans draws sfaults i env plans now).1.
Proof.
  revert i env. induction plans as [|plan plans IH]; intros i env; [done|]. cbn [Compact.run_plans].
  destruct (Compact.run_one_plan _ _ _ _ _) as [env1 r] eqn:E. apply run_one_plan_keeps in E.
  rewrite E. specialize (IH (S i) env1). destruct r as [[]| |]; try done.
  by destruct (Compact.run_plans _ _ _ _ _ _).
Qed.

Lemma compact_once_keeps now sweep_fault draws sfaults st :
  keeps (as_env st) (as_env (compact_once now sweep_fault draws sfaults st)).
Proof.
  unfold compact_once. cbn [set_env as_env]. unfold Compact.tick.
  destruct (Compact.sweep_pending_deletions _ _ _ _) as [env1 r] eqn:E.
  assert (keeps (as_env st) env1) as K.
  { unfold Compact.sweep_pending_deletions in E. destruct (bool_decide _); [by injection E as <- _|].
    destruct (Man.save _ _ _) as [[manfs m] res] eqn:Es.
    assert (keeps (as_env st) (MkFlushEnv (fe_files env1) manfs m (fe_walfs env1))) as K by by eapply keeps_save.
    destruct res; by injection E as <- _. }
  destruct r; [|done..]. rewrite K.
  pose proof (run_plans_keeps draws sfaults 0 env1
    (Compact.plan_compaction (compaction_max_small_segments (as_config st)) (m_raw_segments (fe_manifest env1))) now) as K2.
  by destruct (Compact.run_plans _ _ _ _ _ _).
Qed.

Lemma drain_keeps bud fsync_ok open_ok st : keeps (as_env st) (as_env (drain_and_rotate bud fsync_ok open_ok st).1).
Proof.
  unfold drain_and_rotate. destruct (Mem.drain_all _) as [es mt].
  destruct (WalOps.rotate _ _ _ _ _) as [[fs w] [id|e|]]; apply keeps_same.
Qed.

Lemma rollup_keeps reads draws sfault rot now st :
  keeps (as_env st) (as_env (RW.tick_with reads draws sfault rot now st).1).
Proof.
  unfold RW.tick_with. destruct (RW.in_flight _); [done|]. destruct (RW.needs_force_drain _ _ _).
  - unfold RW.force_drain_memtable. destruct (Mem.is_empty _); [done|].
    pose proof (drain_keeps rot.1.1 rot.1.2 rot.2 st) as K.
    by destruct (drain_and_rotate _ _ _ _) as [st1 [msg|e|]].
  - destruct (_ <=? _); [done|]. destruct (RW.roll_hours _ _ _ _ _ _ _ _) as [files [new|e|]]; [|apply keeps_same..].
    unfold RW.commit_rollups. destruct (Man.save _ _ _) as [[manfs m] res] eqn:Es.
    destruct res; by eapply keeps_save.
Qed.

Lemma send_keeps receiver i st : keeps (as_env st) (as_env (send receiver i st)).
Proof. unfold send. by destruct (as_sending st !! i). Qed.

Lemma complete_ingest_keeps io clk st request :
  keeps (as_env st) (as_env (complete_ingest io clk st request).1).
Proof.
  unfold complete_ingest, Ing.ingest_critical_section. destruct (Ing.screen _ _ _) as [[new dup] conf].
  destruct (Ing.write_ahead _ _ _ _ _) as [[fs w] [u|e|]]; [|apply keeps_same..].
  destruct (Ing.commit_all _ _ _ _ _ _) as [d m]. set (st1 := MkAppState _ _ _ _ _ _ _).
  assert (keeps (as_env st) (as_env st1)) as K by apply keeps_same.
  destruct (_ <? _); [|exact K]. rewrite K.
  pose proof (drain_keeps (ii_rotate io).1.1 (ii_rotate io).1.2 (ii_rotate io).2 st1) as K2.
  destruct (drain_and_rotate _ _ _ _) as [st2 [msg|e|]]; done.
Qed.
End kept.

(** ** One closed period *)
Section sealed.
Context {MJok : ManifestJsonOk} {CHok : ChronoOk}.
Context (account : string) (year month from_ms to_ms : Z) (entry : ClosedPeriod).
Context (Hyear : 0 ≤ year < 2 ^ 16) (Hmonth : 1 ≤ month ≤ 12).
Context (Hbounds : Per.period_bounds year month = Ok (from_ms, to_ms)).

Abbreviation still_closed := (λ l : list ClosedPeriod, find (Per.matches_period account year month) l = Some entry).

Definition usage_of (e : UsageEvent) : Prop :=
  ev_kind e = Usage ∧ ev_account_id e = account ∧ from_ms ≤ ev_timestamp_ms e < to_ms.

Definition clean (request : nat * list Classified) : Prop := Forall (λ c, ¬ usage_of (cl_event c)) request.2.

(** The instants of the period carry its key at ingest. *)
Lemma instant_key ts : from_ms ≤ ts < to_ms → Per.period_for_ts ts = Some (year, month).
Proof.
  intros Hts. pose proof Hbounds as Hb. unfold Per.period_bounds in Hb. rewrite Per.period_bounds_next in Hb.
  destruct (month_start year month) as [s|] eqn:Es; [|done]. cbn [ok_or mbind outcome_bind] in Hb.
  destruct (month_start _ _) as [e|] eqn:Ee in Hb; [|done]. cbn in Hb. injection Hb as -> ->.
  unfold Per.period_for_ts. rewrite (proj2 (month_of year month from_ms to_ms ts Es Ee) Hts).
  cbn [mbind option_bind]. unfold wrapu. by rewrite !Z.mod_small by lia.
Qed.

Lemma validated_clean now closed events : still_closed closed → clean (Ing.validate_batch now closed events).
Proof.
  intros Hc. unfold clean. rewrite (proj1 (Ing.validate_batch_spec now closed events)).
  apply Forall_fmap, Forall_forall. intros e He. unfold Ing.stamped in He.
  apply list_elem_of_fmap in He as (e0 & -> & [Ha _]%list_elem_of_filter).
  change (¬ usage_of (set_ingested_at now e0)). intros (Hk & Hacc & Hts). cbn in Hk, Hacc, Hts. unfold Ing.admissible in Ha.
  destruct (Ing.validate_event e0); [|done..]. unfold Ing.in_closed_period in Ha.
  rewrite Hk, (instant_key _ Hts), Hacc in Ha. apply negb_true_iff in Ha.
  apply find_some in Hc as [Hin Hm]. assert (existsb (Per.matches_period account year month) closed = true) as Hx
    by (apply existsb_exists; eauto). congruence.
Qed.

Lemma screen_sub dedupe seen cs c : c ∈ (Ing.screen dedupe seen cs).1.1 → c ∈ cs.
Proof.
  revert seen. induction cs as [|x cs IH]; intros seen; [done|]. cbn [Ing.screen].
  assert (∀ seen', c ∈ (Ing.screen dedupe seen' cs).1.1 → c ∈ x :: cs) as Hsub
    by (intros seen' Hin; apply elem_of_cons; right; by eapply IH).
  destruct (seen !! _) as [prior|]; [|destruct (Hot.classify _ _ _)].
  - specialize (Hsub seen). destruct (Ing.screen _ _ _) as [[new dup] conf]. by destruct (prior =? _).
  - specialize (Hsub (<[cl_id_hash x := cl_payload_hash x]> seen)). destruct (Ing.screen _ _ _) as [[new dup] conf].
    intros [->|Hin]%elem_of_cons; [by left|]. by apply Hsub.
  - specialize (Hsub seen). by destruct (Ing.screen _ _ _) as [[new dup] conf].
  - specialize (Hsub seen). by destruct (Ing.screen _ _ _) as [[new dup] conf].
Qed.

Lemma close_commit_keeps sfault now a y m frozen st :
  keeps still_closed (as_env st) (as_env (Close.close_commit sfault now a y m frozen st).1).
Proof.
  unfold Close.close_commit. destruct (existsb _ _); [done|].
  destruct (Man.save _ _ _) as [[manfs m'] res] eqn:Es.
  destruct res; (eapply keeps_save; [exact Es|done|]); cbn; intros Hc;
    rewrite Close.find_app; unfold as_manifest; by rewrite Hc.
Qed.

Lemma close_keeps sfault now st a period :
  keeps still_closed (as_env st) (as_env (Close.handle_close_period sfault now st a period).1).
Proof.
  unfold Close.handle_close_period. destruct (Close.parsed_period _) as [[y m]| |]; [|done..].
  destruct (Per.find_closed _ _ _ _); [done|].
  destruct (mbind _ _) as [frozen| |]; [|done..]. apply close_commit_keeps.
Qed.

Lemma reopen_keeps sfault st a period :
  ¬ (a = account ∧ Per.parse_period period = Ok (year, month)) →
  keeps still_closed (as_env st) (as_env (Close.handle_reopen_period sfault st a period).1).
Proof.
  intros Hne. unfold Close.handle_reopen_period, Close.parsed_period.
  destruct (Per.parse_period period) as [[y m]| |] eqn:Ep; [|done..]. cbv zeta. set (kept := filter _ _).
  assert (still_closed (m_closed_periods (as_manifest st)) → still_closed kept) as Hk.
  { intros Hc. unfold kept. rewrite Close.find_filter_other; [done|]. intros p Hp.
    apply Close.matches_period_iff in Hp as (<- & <- & <-). apply not_true_is_false.
    intros (<- & <- & <-)%Close.matches_period_iff. by apply Hne. }
  destruct (_ <? _)%nat.
  - destruct (Man.save _ _ _) as [[manfs m'] res] eqn:Es. destruct res; (eapply keeps_save; [exact Es|done|done]).
  - split; [done|]. intros _ (H1 & H2 & H3). split; [done|]. split; [by apply Hk|done].
Qed.

Lemma restart_has now clk walfs w :
  generation (restart now clk walfs w) < u64_max → has still_closed (as_env (w_state w)) →
  has still_closed (as_env (w_state (restart now clk walfs w))).
Proof.
  unfold restart, generation. intros Hg Hh. destruct (Rec.startup _ _ _ _ _ _ _ _ _) as [st| |] eqn:E; [|done..].
  cbn [w_state] in *. destruct Hh as (H1 & H2 & H3).
  destruct (load_has still_closed None _ _ H1 H3) as (m & Hl & Hm1 & Hm2 & Hm3).
  unfold Rec.startup, Rec.run_startup_recovery in E. rewrite Hl in E.
  change (default manifest_default (Some m)) with m in E.
  destruct (Rec.replay_events _ _ _ _ _) as [d mt]. destruct (Rec.rebuild_dedupe _ _ _ _) as [d'| |]; [|done..].
  cbn [mbind outcome_bind rec_manifest] in E.
  destruct (m_bucket_count m =? 0).
  - destruct (Man.save _ _ _) as [[manfs m'] res] eqn:Es.
    destruct res as [[]| |]; cbn [mbind outcome_bind] in E; [|discriminate E..].
    destruct (WalOps.open _ _) as [walfs' wal]. injection E as <-.
    assert (keeps still_closed (MkFlushEnv (as_files (w_state w)) (fe_manfs (as_env (w_state w))) m walfs)
              (MkFlushEnv (as_files (w_state w)) manfs m' walfs')) as [_ K] by by eapply keeps_save.
    apply K; [done|]. split; [cbn; lia|done].
  - cbn [mbind outcome_bind] in E. destruct (WalOps.open _ _) as [walfs' wal]. injection E as <-.
    split; [cbn; lia|done].
Qed.

(** What is true of the world while the period stays closed. *)
Definition sealed (before : list UsageEvent) (w : World) : Prop :=
  has still_closed (as_env (w_state w))
  ∧ Forall clean (w_requests w)
  ∧ ∀ e, e ∈ w_added w → e ∈ before ∨ ¬ usage_of e.

Lemma apply_op_has o w :
  ¬ reopens account year month o → generation (apply_op o w) < u64_max →
  has still_closed (as_env (w_state w)) → has still_closed (as_env (w_state (apply_op o w))).
Proof.
  intros Hn Hg Hh. destruct o; cbn [apply_op] in *.
  - exact Hh.
  - destruct (w_requests w !! request) as [r|]; [|done]. by apply (complete_ingest_keeps still_closed io clk (w_state w) r).
  - by apply (send_keeps still_closed receiver i (w_state w)).
  - by apply (flush_next_keeps still_closed now draws sfault (w_state w)).
  - by apply (rollup_keeps still_closed reads draws sfault rot now (w_state w)).
  - by apply (compact_once_keeps still_closed now sweep_fault draws sfaults (w_state w)).
  - by apply (close_keeps sfault now (w_state w) account_id period).
  - by apply (close_commit_keeps sfault now account_id year0 month0 frozen (w_state w)).
  - by apply (reopen_keeps sfault (w_state w) account_id period).
  - by apply restart_has.
Qed.

Lemma requests_clean o w :
  has still_closed (as_env (w_state w)) → Forall clean (w_requests w) → Forall clean (w_requests (apply_op o w)).
Proof.
  intros (_ & Hc & _) Hr. destruct o; cbn [apply_op on_state w_requests]; try done.
  - apply Forall_app. split; [done|]. apply Forall_singleton. by apply validated_clean.
  - destruct (w_requests w !! request); [|done]. cbn. by apply Forall_delete.
  - unfold restart. destruct (Rec.startup _ _ _ _ _ _ _ _ _); [constructor|done..].
Qed.

Lemma step_sealed before w w' :
  step account year month w w' → sealed before w → sealed before w'.
Proof.
  intros (o & Hn & -> & Hg) (Hh & Hr & Ha). split; [by apply apply_op_has|]. split; [by apply requests_clean|].
  intros e He. destruct o; cbn [apply_op on_state w_added] in He; try by apply Ha.
  - destruct (w_requests w !! request) as [r|] eqn:Er; [|by apply Ha]. cbn in He.
    apply elem_of_app in He as [He|He]; [by apply Ha|]. right.
    apply list_elem_of_fmap in He as (c & -> & Hc%screen_sub). rewrite Forall_forall in Hr.
    pose proof (Hr r (list_elem_of_lookup_2 _ _ _ Er)) as Hcl. unfold clean in Hcl. rewrite Forall_forall in Hcl.
    by apply Hcl.
  - unfold restart in He. destruct (Rec.startup _ _ _ _ _ _ _ _ _); by apply Ha.
Qed.

Lemma steps_sealed before w w' :
  rtc (step account year month) w w' → sealed before w → sealed before w'.
Proof. induction 1 as [|x y z Hs _ IH]; intros Hi; [done|]. by eapply IH, step_sealed. Qed.
End sealed.

(** What a successful close leaves behind, whatever it froze. *)
Lemma closed_has `{!ManifestJsonOk} st account period y m from_ms to_ms now st1 watermark frozen :
  Per.parse_period period = Ok (y, m) → Per.period_bounds y m = Ok (from_ms, to_ms) →
  0 ≤ m_current_generation (as_manifest st) < u64_max →
  (∀ x, m_current_generation (as_manifest st) + 1 < x ≤ u64_max →
     Man.gen_valid (Man.mf_dir (fe_manfs (as_env st))) x = None) →
  Close.handle_close_period None now st account period = (st1, Ok (NowClosed now watermark frozen)) →
  ∃ entry, Per.find_closed (as_manifest st1) account y m = Some entry ∧ Close.frozen_json entry = frozen
    ∧ cp_closed_at_ms entry = now ∧ cp_watermark_at_close_ms entry = Some watermark
    ∧ has (λ l, find (Per.matches_period account y m) l = Some entry) (as_env st1).
Proof.
  intros Hp Hb Hg Hx E. unfold Close.handle_close_period in E.
  rewrite (Close.parsed_ok _ _ _ Hp) in E. destruct (Per.find_closed (as_manifest st) account y m) eqn:Hc; [done|].
  rewrite (Close.bounds_ok _ _ _ _ Hb) in E. cbn [mbind outcome_bind] in E.
  destruct (Close.snapshot_period_totals _ _ _ _) as [fr| |]; [|done..]. unfold Close.close_commit in E.
  unfold Per.find_closed in Hc. rewrite (proj1 (Close.find_existsb _ _) Hc) in E.
  set (entry := MkClosedPeriod _ _ _ _ _ _ _) in E.
  set (m0 := set_closed_periods _ _) in E.
  destruct (Man.save None (fe_manfs (as_env st)) m0) as [[manfs m'] res] eqn:Es.
  destruct res as [[]| |]; [|done..]. injection E as <- <- <-. exists entry.
  pose proof (Close.save_closed _ _ _ _ _ _ Es) as Hcl.
  assert (find (Per.matches_period account y m) (m_closed_periods m0) = Some entry) as Hfind.
  { apply Close.find_closed_appended; [exact Hc|]. by apply Close.matches_period_iff. }
  assert (m_current_generation m' = m_current_generation m0 + 1) as Hgen.
  { destruct (Man.save_then_load None (fe_manfs (as_env st)) m0) as (fs' & E' & _); [done|].
    rewrite Es in E'. by injection E' as -> ->. }
  unfold Per.find_closed. cbn [Close.set_manifest as_manifest set_env as_env fe_manifest].
  split; [by rewrite Hcl|]. split; [done|]. split; [done|]. split; [done|].
  split; [cbn; rewrite Hgen; cbn; lia|]. cbn [fe_manifest fe_manfs]. split; [by rewrite Hcl|]. rewrite Hgen.
  apply (disk_has_saved _ (fe_manfs (as_env st)) m0 manfs m'); [done|done|done|].
  intros x mx Hxr Hv. by rewrite (Hx x Hxr) in Hv.
Qed.

(** C19: a closed period stays closed and takes no more usage: once a close has
    succeeded with no request of the period in flight, then through any
    interleaving of ingests, sends, flushes, rollups, compactions, other
    closes     and reopens, failed saves and restarts, short of reopening this
    period, its     entry with the frozen totals is unchanged in memory and in
    what a restart     would load, and no request takes in a usage event of
    the account in the     month. *)
Theorem closed_period_sealed `{!ManifestJsonOk} `{!ChronoOk}
    st account period y m from_ms to_ms now st1 watermark frozen requests added w :
  Per.parse_period period = Ok (y, m) → Per.period_bounds y m = Ok (from_ms, to_ms) →
  0 ≤ m_current_generation (as_manifest st) < u64_max →
  (∀ x, m_current_generation (as_manifest st) + 1 < x ≤ u64_max →
     Man.gen_valid (Man.mf_dir (fe_manfs (as_env st))) x = None) →
  Close.handle_close_period None now st account period = (st1, Ok (NowClosed now watermark frozen)) →
  Forall (clean account from_ms to_ms) requests →
  rtc (step account y m) (MkWorld st1 requests added) w →
  ∃ entry, Close.frozen_json entry = frozen ∧ cp_closed_at_ms entry = now
    ∧ cp_watermark_at_close_ms entry = Some watermark
    ∧ Per.find_closed (as_manifest (w_state w)) account y m = Some entry
    ∧ (∃ m0, Man.load None (fe_manfs (as_env (w_state w))) = (fe_manfs (as_env (w_state w)), Ok (Some m0))
             ∧ Per.find_closed m0 account y m = Some entry)
    ∧ ∀ e, e ∈ w_added w → e ∈ added ∨ ¬ usage_of account from_ms to_ms e.
Proof.
  intros Hp Hb Hg Hx E Hr Hs. destruct (Per.parse_period_range _ _ _ Hp) as [Hy Hm].
  destruct (closed_has st account period y m from_ms to_ms now st1 watermark frozen Hp Hb Hg Hx E)
    as (entry & Hc & Hf & Hn & Hw & Hh).
  destruct (steps_sealed account y m from_ms to_ms entry Hy Hm Hb added _ w Hs) as ((H1 & H2 & H3) & _ & Ha).
  { split; [exact Hh|]. split; [exact Hr|]. by left. }
  exists entry. split; [done|]. split; [done|]. split; [done|]. split; [exact H2|]. split; [|exact Ha].
  destruct (load_has _ None _ _ H1 H3) as (m0 & Hl & _ & Hm0 & _). by exists m0.
Qed.
End life.
End Life.

Module LifeExample.
#[local] Existing Instances poly_digest code_bincode stored_codecs poly_digest_ok code_bincode_ok stored_codecs_ok.
#[local] Existing Instances Files.file_segments Files.file_segments_ok QueryExample.code_dims QueryExample.code_dims_parse.
#[local] Existing Instances ManExample.text_manifest ManExample.text_manifest_ok.
#[local] Existing Instances text_json CloseExample.hour_calendar CloseExample.hour_calendar_ok.

(** A usage event of the closed month and one of the next. *)
Definition late : UsageEvent := sample_event "late" "acct_1" 3900000 11.
Definition fresh : UsageEvent := sample_event "fresh" "acct_1" 7300000 13.
Definition clk (i : nat) : Z * Z * Z := (9100, 9100, 9100).

Definition closing := Close.handle_close_period None 9000 CloseExample.st "acct_1" "0000-02".
Definition closed : AppState := closing.1.
Definition w0 : World := MkWorld closed [] [].
Definition w1 : World := Life.apply_op 200 (OpValidate 9100 [late; fresh]) w0.
Definition w2 : World := Life.apply_op 200 (OpIngest 0 no_faults clk) w1.

Lemma taken : w_added w2 = [set_ingested_at 9100 fresh].
Proof. vm_compute. reflexivity. Qed.

Lemma closing_ok : closing = (closed, Ok (NowClosed 9000 0 (Some (3, 2)))).
Proof. unfold closed. apply injective_projections; cbn [fst snd]; [reflexivity|]. vm_compute. reflexivity. Qed.

Lemma run : rtc (Life.step 200 "acct_1" 0 2) w0 w2.
Proof.
  apply (rtc_l _ _ w1); [|apply rtc_once].
  - exists (OpValidate 9100 [late; fresh]). split; [by intros []|]. split; [done|]. by vm_compute.
  - exists (OpIngest 0 no_faults clk). split; [by intros []|]. split; [done|]. by vm_compute.
Qed.

Lemma closed_period_sealed_witness :
  ∃ entry, Per.find_closed (as_manifest (w_state w2)) "acct_1" 0 2 = Some entry ∧ cp_closed_at_ms entry = 9000.
Proof.
  destruct (Life.closed_period_sealed 200 CloseExample.st "acct_1" "0000-02" 0 2 3600000 7200000 9000 closed 0
    (Some (3, 2)) [] [] w2 CloseExample.period_ok CloseExample.bounds_are CloseExample.generation_fits)
    as (entry & _ & Hn & _ & Hc & _).
  - intros x _. reflexivity.
  - exact closing_ok.
  - apply Forall_nil_2.
  - exact run.
  - exists entry. split; [exact Hc|exact Hn].
Defined.

(** The window the code accepts: a request validated before the close and
    committed after it puts a usage event into the closed month, on top of
    the frozen total. *)
Theorem close_race_admits_usage :
  let w := Life.apply_op 200 (OpIngest 0 no_faults clk)
             (Life.apply_op 200 (OpClose None 9000 "acct_1" "0000-02")
                (Life.apply_op 200 (OpValidate 8900 [late]) (MkWorld CloseExample.st [] []))) in
  Per.is_period_closed (as_manifest (w_state w)) "acct_1" 0 2 = true
  ∧ w_added w = [set_ingested_at 8900 late]
  ∧ Life.usage_of "acct_1" 3600000 7200000 (set_ingested_at 8900 late).
Proof. cbv zeta. split; [vm_compute; reflexivity|]. split; [vm_compute; reflexivity|]. split_and!; [done|done|..]; by vm_compute. Qed.
End LifeExample.
