(* ===== verification/Admin.v ===== *)
(** * Admin commands and export

    [src/admin.rs], the collection and column building of
    [src/export/parquet.rs], and [BlockMeta] of [src/storage/columns.rs].  A
    command's text output is kept as the values it prints.  The Parquet file
    format is the parquet crate's; what this code hands to it is modelled. *)

From Stdlib Require Import Ascii.
From stdpp Require Import sorting numbers strings base gmap list.
From S2P Require Import Prelude Model Instances Encoding Segment SegmentSpec DedupeIndex SegmentApi.
From S2P Require Import Memtable Dedupe Wal Manifest Period Flusher Compaction State Ingest Rollup RollupWorker.
From S2P Require Import Query Sql Api.

(** ** [BlockMeta] *)
Record BlockMeta := MkBlockMeta {
  bm_row_start : Z;
  bm_row_count : Z;
  bm_min_timestamp_ms : Z;
  bm_max_timestamp_ms : Z;
  bm_min_account_id : string;
  bm_max_account_id : string;
  bm_product_ids : gset string;
  bm_meter_ids : gset string;
  bm_offset : Z;
  bm_len : Z;
}.

Module Block.
Definition might_contain (b : BlockMeta) (account_id product_id : option string) (min_time max_time : Z) : bool :=
  match account_id with
  | Some acc => negb (str_ltb acc (bm_min_account_id b) || str_ltb (bm_max_account_id b) acc)
  | None => true
  end
  && match product_id with Some prod => bool_decide (prod ∈ bm_product_ids b) | None => true end
  && negb ((bm_max_timestamp_ms b <? min_time) || (max_time <? bm_min_timestamp_ms b)).

(** The block describes a row. *)
Definition describes (b : BlockMeta) (e : UsageEvent) : Prop :=
  str_ltb (ev_account_id e) (bm_min_account_id b) = false ∧ str_ltb (bm_max_account_id b) (ev_account_id e) = false
  ∧ ev_product_id e ∈ bm_product_ids b
  ∧ bm_min_timestamp_ms b ≤ ev_timestamp_ms e ≤ bm_max_timestamp_ms b.

(** Block pruning never drops a row that is asked for. *)
Lemma might_contain_sound b e account_id product_id min_time max_time :
  describes b e →
  (∀ a, account_id = Some a → ev_account_id e = a) → (∀ p, product_id = Some p → ev_product_id e = p) →
  min_time ≤ ev_timestamp_ms e ≤ max_time →
  might_contain b account_id product_id min_time max_time = true.
Proof.
  intros (H1 & H2 & H3 & H4) Ha Hp Ht. unfold might_contain. rewrite !andb_true_iff. split_and!.
  - destruct account_id as [a|]; [|done]. rewrite <- (Ha a eq_refl), H1, H2. done.
  - destruct product_id as [p|]; [|done]. apply bool_decide_eq_true. by rewrite <- (Hp p eq_refl).
  - destruct (Z.ltb_spec (bm_max_timestamp_ms b) min_time), (Z.ltb_spec max_time (bm_min_timestamp_ms b)); [lia..|done].
Qed.
End Block.

(** ** Export *)
Record ExportStats := MkExportStats { xs_events_exported : Z; xs_segments_read : nat }.

(** The arrays of the record batch, a column each. *)
Record Columns := MkColumns {
  co_event_id : list string;
  co_kind : list string;
  co_correction_original : list (option string);
  co_correction_reason : list (option string);
  co_account_id : list string;
  co_subscription_id : list (option string);
  co_product_id : list string;
  co_meter_id : list string;
  co_model_id : list (option string);
  co_timestamp_ms : list Z;
  co_quantity : list Z;
  co_unit : list string;
  co_source : list string;
  co_dimensions_canonical : list string;
  co_ingested_at_ms : list Z;
}.

(** Arrow's types and arrays, as far as the export uses them. *)
Inductive DataType := Utf8 | Int64 | Decimal128 (precision scale : Z).
Record Field := MkField { fd_name : string; fd_type : DataType; fd_nullable : bool }.
Inductive ArrowArray :=
| StringArray (values : list (option string))
| Int64Array (values : list Z)
| Decimal128Array (precision scale : Z) (values : list Z).

#[export] Instance DataType_eq_dec : EqDecision DataType.
Proof. solve_decision. Defined.

(** [RecordBatch::try_new], a [File] and the [ArrowWriter]: the file, or an
    error. *)
Class ParquetWriter := parquet_write : list Field → list ArrowArray → option bytes.

Inductive export_error := ExportRead (e : seg_error) | ExportWrite.

Module Parquet.
Section export.
Context {RS : RawSegments} {DJ : DimJson} {PW : ParquetWriter}.

Definition columns_of (events : list UsageEvent) : Columns :=
  MkColumns (ev_event_id <$> events) ((λ e, Exec.kind_name (ev_kind e)) <$> events)
    ((λ e, original_event_id <$> ev_correction_ref e) <$> events) ((λ e, reason <$> ev_correction_ref e) <$> events)
    (ev_account_id <$> events) (ev_subscription_id <$> events) (ev_product_id <$> events) (ev_meter_id <$> events)
    (ev_model_id <$> events) (ev_timestamp_ms <$> events) (ev_quantity <$> events) (ev_unit <$> events)
    (ev_source <$> events) ((λ e, default "" (dim_json (ev_dimensions e))) <$> events) (ev_ingested_at_ms <$> events).

Definition parquet_schema : list Field :=
  [MkField "event_id" Utf8 false; MkField "kind" Utf8 false;
   MkField "correction_original_event_id" Utf8 true; MkField "correction_reason" Utf8 true;
   MkField "account_id" Utf8 false; MkField "subscription_id" Utf8 true;
   MkField "product_id" Utf8 false; MkField "meter_id" Utf8 false; MkField "model_id" Utf8 true;
   MkField "timestamp_ms" Int64 false; MkField "quantity" (Decimal128 38 0) false;
   MkField "unit" Utf8 false; MkField "source" Utf8 false; MkField "dimensions_canonical" Utf8 false;
   MkField "ingested_at_ms" Int64 false].

Definition arrays_of (c : Columns) : list ArrowArray :=
  [StringArray (Some <$> co_event_id c); StringArray (Some <$> co_kind c);
   StringArray (co_correction_original c); StringArray (co_correction_reason c);
   StringArray (Some <$> co_account_id c); StringArray (co_subscription_id c);
   StringArray (Some <$> co_product_id c); StringArray (Some <$> co_meter_id c); StringArray (co_model_id c);
   Int64Array (co_timestamp_ms c); Decimal128Array 38 0 (co_quantity c);
   StringArray (Some <$> co_unit c); StringArray (Some <$> co_source c);
   StringArray (Some <$> co_dimensions_canonical c); Int64Array (co_ingested_at_ms c)].

(** A record batch that means what its schema says: as many arrays as fields,
    of the field's type, equally long, without a null in a field that is not
    nullable, and every decimal within the precision of its type. *)
Definition array_type (a : ArrowArray) : DataType :=
  match a with StringArray _ => Utf8 | Int64Array _ => Int64 | Decimal128Array p s _ => Decimal128 p s end.
Definition array_len (a : ArrowArray) : nat :=
  match a with StringArray l => length l | Int64Array l => length l | Decimal128Array _ _ l => length l end.
Definition has_null (a : ArrowArray) : Prop := match a with StringArray l => None ∈ l | _ => False end.
Definition in_precision (a : ArrowArray) : Prop :=
  match a with Decimal128Array p _ l => Forall (λ v, Z.abs v < 10 ^ p) l | _ => True end.
Definition conforms (schema : list Field) (arrays : list ArrowArray) (n : nat) : Prop :=
  Forall2 (λ f a, array_type a = fd_type f ∧ array_len a = n ∧ (fd_nullable f = false → ¬ has_null a)
                  ∧ in_precision a) schema arrays.

(** The segment loop: a missing file is skipped, a file that does not read
    ends the export before anything is written. *)
Fixpoint read_all (files : gmap string bytes) (segs : list SegmentMeta) (all_events : list UsageEvent)
    (segments_read : nat) : outcome export_error (list UsageEvent * nat) :=
  match segs with
  | [] => Ok (all_events, segments_read)
  | s :: segs =>
      match files !! seg_path (sm_segment_id s) with
      | None => read_all files segs all_events segments_read
      | Some bs =>
          match seg_read_all bs with
          | Ok es => read_all files segs (all_events ++ es) (S segments_read)
          | Err e => Err (ExportRead e)
          | Panic => Panic
          end
      end
  end.

Definition write_parquet (events : list UsageEvent) : outcome export_error bytes :=
  ok_or ExportWrite (parquet_write parquet_schema (arrays_of (columns_of events))).

Definition export_raw_segments (st : AppState) : outcome export_error (bytes * ExportStats) :=
  '(all_events, segments_read) ← read_all (as_files st) (m_raw_segments (as_manifest st)) [] 0;
  file ← write_parquet all_events;
  Ok (file, MkExportStats (Z.of_nat (length all_events)) segments_read).

(** A reader of a record batch, row by row: every field is looked up by the
    name of its column in the schema. *)
Definition kind_of_name (s : string) : option EventKind :=
  if String.eqb s "Usage" then Some Usage
  else if String.eqb s "Correction" then Some Correction
  else if String.eqb s "Retraction" then Some Retraction
  else None.

Definition ref_of (original why : option string) : option CorrectionRef :=
  match original, why with Some o, Some w => Some (MkCorrectionRef o w) | _, _ => None end.

Definition column_named (schema : list Field) (arrays : list ArrowArray) (name : string) : option ArrowArray :=
  snd <$> find (λ fa, String.eqb (fd_name fa.1) name) (zip schema arrays).

Definition text_cell (a : option ArrowArray) (i : nat) : option (option string) :=
  match a with Some (StringArray l) => l !! i | _ => None end.
Definition number_cell (a : option ArrowArray) (i : nat) : option Z :=
  match a with Some (Int64Array l) | Some (Decimal128Array _ 0 l) => l !! i | _ => None end.

Definition event_at `{!DimParse} (schema : list Field) (arrays : list ArrowArray) (i : nat) : option UsageEvent :=
  let text name := text_cell (column_named schema arrays name) i in
  let number name := number_cell (column_named schema arrays name) i in
  id ← mjoin (text "event_id"); kind ← mjoin (text "kind") ≫= kind_of_name;
  original ← text "correction_original_event_id"; why ← text "correction_reason";
  account ← mjoin (text "account_id"); subscription ← text "subscription_id";
  product ← mjoin (text "product_id"); meter ← mjoin (text "meter_id"); model ← text "model_id";
  ts ← number "timestamp_ms"; quantity ← number "quantity"; unit ← mjoin (text "unit"); source ← mjoin (text "source");
  dims ← mjoin (text "dimensions_canonical") ≫= dim_parse; ingested ← number "ingested_at_ms";
  Some (MkUsageEvent id kind (ref_of original why) account subscription product meter ts quantity unit source model
          dims ingested).

Lemma event_at_arrays `{!DimParse, !DimJsonOk} es i :
  event_at parquet_schema (arrays_of (columns_of es)) i = es !! i.
Proof.
  unfold event_at, column_named, parquet_schema, arrays_of, columns_of.
  cbn [zip zip_with find fd_name fst snd String.eqb Ascii.eqb Bool.eqb fmap option_fmap option_map text_cell number_cell
    co_event_id co_kind co_correction_original co_correction_reason co_account_id
    co_subscription_id co_product_id co_meter_id co_model_id co_timestamp_ms co_quantity co_unit co_source
    co_dimensions_canonical co_ingested_at_ms]. rewrite !list_lookup_fmap.
  destruct (es !! i) as [e|]; [|done]. cbn [fmap option_fmap option_map mbind option_bind mjoin option_join].
  assert (kind_of_name (Exec.kind_name (ev_kind e)) = Some (ev_kind e)) as -> by (by destruct (ev_kind e)).
  destruct (dim_total (ev_dimensions e)) as [s Hs]. rewrite Hs. cbn [default from_option mbind option_bind].
  unfold id. rewrite (dim_roundtrip _ _ Hs). cbn [mbind option_bind].
  by destruct e as [? ? [[]|] ? ? ? ? ? ? ? ? ? ? ?].
Qed.

Lemma no_null (l : list string) : None ∉ (Some <$> l).
Proof. by intros (x & ? & _)%list_elem_of_fmap. Qed.

Lemma arrays_conform es :
  Forall (λ e, Z.abs (ev_quantity e) < 10 ^ 38) es →
  conforms parquet_schema (arrays_of (columns_of es)) (length es).
Proof.
  intros Hq.
  unfold conforms, parquet_schema, arrays_of, columns_of. cbn.
  repeat (apply Forall2_cons; split); [..|by apply Forall2_nil];
    (split; [done|]); (split; [cbn [array_len]; by rewrite ?length_fmap|]);
    (split; [cbn [fd_nullable has_null]; intros Hn; try discriminate Hn; first [apply no_null|tauto]|]); cbn [in_precision]; try done.
  by apply Forall_fmap.
Qed.

Lemma read_all_spec files segs acc n :
  Forall (λ s, ∀ bs, files !! seg_path (sm_segment_id s) = Some bs → ∃ es, seg_read_all bs = Ok es) segs →
  read_all files segs acc n
  = Ok (acc ++ Flush.stored files segs,
        n + length (filter (λ s, is_Some (files !! seg_path (sm_segment_id s))) segs))%nat.
Proof.
  intros H. revert acc n. induction H as [|s segs Hs _ IH]; intros acc n.
  - cbn. by rewrite app_nil_r, Nat.add_0_r.
  - cbn [read_all]. rewrite filter_cons. unfold Flush.stored in *. rewrite fmap_cons. cbn [mjoin list_join].
    unfold Flush.seg_events at 1. destruct (files !! seg_path (sm_segment_id s)) as [bs|] eqn:E.
    + destruct (Hs bs eq_refl) as [es ->]. rewrite IH, decide_True by (by eexists). rewrite <- app_assoc.
      cbn [length]. do 2 f_equal. lia.
    + rewrite IH, decide_False by (by intros [? ?]). done.
Qed.

(** C34: an export holds the events of the listed segments, all of them and
    nothing else: with every segment file that exists readable (a missing one
    is skipped by the code, and events not yet flushed are in no segment), the
    batch handed to the Parquet writer has one row per stored event, in
    storage order, and reading its row [i] back, each field from the array in
    the position of the schema's column of that name, gives event [i]; the
    statistics are the number of rows and of files read; and the batch
    conforms to the schema (types, equal lengths, no null in a required
    column) if every quantity has at most the 38 digits of its decimal type.
    The writer is a parameter: that it stores the batch it is handed is
    Parquet's promise, and a writer that fails is no export. *)
Theorem export_exact `{!DimParse, !DimJsonOk} st file :
  Forall (λ s, ∀ bs, as_files st !! seg_path (sm_segment_id s) = Some bs → ∃ es, seg_read_all bs = Ok es)
    (m_raw_segments (as_manifest st)) →
  let stored := Flush.stored (as_files st) (m_raw_segments (as_manifest st)) in
  let batch := arrays_of (columns_of stored) in
  parquet_write parquet_schema batch = Some file →
  export_raw_segments st
  = Ok (file, MkExportStats (Z.of_nat (length stored))
                (length (filter (λ s, is_Some (as_files st !! seg_path (sm_segment_id s)))
                   (m_raw_segments (as_manifest st)))))
  ∧ (∀ i, event_at parquet_schema batch i = stored !! i)
  ∧ (Forall (λ e, Z.abs (ev_quantity e) < 10 ^ 38) stored → conforms parquet_schema batch (length stored)).
Proof.
  intros Hr stored batch Hw. split; [|split; [intros i; apply event_at_arrays|apply arrays_conform]].
  unfold export_raw_segments. rewrite (read_all_spec _ _ _ _ Hr). cbn [mbind outcome_bind app].
  fold stored. unfold write_parquet. fold batch. by rewrite Hw.
Qed.
End export.
End Parquet.

(** ** Commands *)
Inductive admin_error :=
| DbLocked (e : lock_error)
| AdminWal
| NoManifest
| AdminLoad (e : Man.man_error)
| AdminTime (e : api_error)
| SegmentsFailed (n : nat)
| SegmentNotFound
| SegmentMissing
| AdminSegment (e : seg_error)
| AdminTick (e : tick_error)
| AdminExport (e : export_error).

(** What [check] prints of the manifest. *)
Record CheckSummary := MkSummary {
  ck_generation : Z;
  ck_bucket_count : Z;
  ck_raw_segments : nat;
  ck_rollup_segments : nat;
  ck_watermark : Z;
  ck_last_sealed_wal : Z;
  ck_pending_replacements : nat;
}.

(** What [inspect-segment] prints: the metadata and up to five rows. *)
Record Inspection := MkInspection { in_meta : SegmentMeta; in_rows : option (list UsageEvent) }.

Module Admin.
Section admin.
Context {BL : Blake3} {BN : Bincode} {RS : RawSegments} {MJ : ManifestJson} {DJ : DimJson} {DP : DimParse} {RF : Rfc3339}.

(** [lock] is what [DbLock::acquire] answered.  No replay: the memtable is
    empty and the cache minimal. *)
Definition open_state_for_admin (lock : outcome lock_error unit) (mfault : Man.save_fault) (wal_ok : bool) (cfg : Config)
    (manfs : Man.ManFs) (files : gmap string bytes) (walfs : WalFs) : Man.ManFs * outcome admin_error AppState :=
  match lock with
  | Err e => (manfs, Err (DbLocked e))
  | Panic => (manfs, Panic)
  | Ok _ =>
      match Man.load mfault manfs with
      | (manfs, Ok (Some manifest)) =>
          if wal_ok then
            let '(walfs, wal) := WalOps.open walfs (m_last_sealed_wal_id manifest) in
            (manfs, Ok (MkAppState (MkFlushEnv files manfs manifest walfs) wal Mem.new (Hot.new 1) [] [] cfg))
          else (manfs, Err AdminWal)
      | (manfs, Ok None) => (manfs, Err NoManifest)
      | (manfs, Err e) => (manfs, Err (AdminLoad e))
      | (manfs, Panic) => (manfs, Panic)
      end
  end.

(** Opening a file is all the verification there is: [Some true] it opens,
    [Some false] an error, [None] the reader panics. *)
Definition verify_raw_segment (files : gmap string bytes) (id : string) : option bool :=
  match files !! seg_path id with
  | None => Some false
  | Some bs => match seg_open bs with Ok _ => Some true | Err _ => Some false | Panic => None end
  end.

Definition verify_rollup_segment (files : gmap string bytes) (id : string) (expected_checksum : Z) : option bool :=
  match files !! rseg_path id with
  | None => Some false
  | Some bs => match Roll.rollup_open bs expected_checksum with Ok _ => Some true | Err _ => Some false | Panic => None end
  end.

Definition verify_segment (files : gmap string bytes) (meta : SegmentMeta) : option bool :=
  match sm_kind meta with
  | RawKind => verify_raw_segment files (sm_segment_id meta)
  | RollupKind => verify_rollup_segment files (sm_segment_id meta) (sm_checksum meta)
  end.

(** The lines of the report so far and the errors counted. *)
Fixpoint verify_segments (files : gmap string bytes) (metas : list SegmentMeta) (out : list (string * bool)) (errors : nat)
    : option (list (string * bool) * nat) :=
  match metas with
  | [] => Some (out, errors)
  | meta :: metas =>
      ok ← verify_segment files meta;
      verify_segments files metas (out ++ [(sm_segment_id meta, ok)]) (if ok : bool then errors else S errors)
  end.

Definition summary (m : Manifest) : CheckSummary :=
  MkSummary (m_current_generation m) (m_bucket_count m) (length (m_raw_segments m)) (length (m_rollup_segments m))
    (m_hourly_rollup_ms m) (m_last_sealed_wal_id m) (length (m_compacted_replacements m)).

(** The summary, and with [deep] a line per segment. *)
Definition cmd_check (st : AppState) (deep : bool) : outcome admin_error (CheckSummary * list (string * bool)) :=
  let head := summary (as_manifest st) in
  if deep then
    match verify_segments (as_files st) (m_raw_segments (as_manifest st) ++ m_rollup_segments (as_manifest st)) [] 0 with
    | None => Panic
    | Some (out, errors) => if (0 <? errors)%nat then Err (SegmentsFailed errors) else Ok (head, out)
    end
  else Ok (head, []).

Definition admin_range (from to : string) : outcome admin_error (Z * Z) :=
  match Api.time_range from to with Ok p => Ok p | Err e => Err (AdminTime e) | Panic => Panic end.

Definition cmd_rebuild_rollups (sfault : Man.save_fault) (st : AppState) (from to : string)
    : AppState * outcome admin_error nat :=
  match admin_range from to with
  | Ok (from_ms, to_ms) =>
      match RW.rebuild_rollups sfault from_ms to_ms (as_env st) with
      | (env, Ok dropped) => (set_env env st, Ok dropped)
      | (env, Err e) => (set_env env st, Err (AdminTick e))
      | (env, Panic) => (set_env env st, Panic)
      end
  | Err e => (st, Err e)
  | Panic => (st, Panic)
  end.

(** The row loop stops at the sixth row; an unreadable row before it fails
    the command. *)
Definition first_rows (bs : bytes) : outcome admin_error (list UsageEvent) :=
  match seg_open bs with
  | Ok (es, ended) =>
      if (5 <? length es)%nat then Ok (take 5 es)
      else match ended with Ok _ => Ok es | Err e => Err (AdminSegment e) | Panic => Panic end
  | Err e => Err (AdminSegment e)
  | Panic => Panic
  end.

Definition cmd_inspect_segment (st : AppState) (segment_id : string) : outcome admin_error Inspection :=
  let named s := bool_decide (sm_segment_id s = segment_id) in
  match (match find named (m_raw_segments (as_manifest st)) with
         | Some s => Some s
         | None => find named (m_rollup_segments (as_manifest st))
         end) with
  | None => Err SegmentNotFound
  | Some meta =>
      match sm_kind meta with
      | RawKind =>
          match as_files st !! seg_path segment_id with
          | None => Err SegmentMissing
          | Some bs => rows ← first_rows bs; Ok (MkInspection meta (Some rows))
          end
      | RollupKind => Ok (MkInspection meta None)
      end
  end.

Definition extract_sum (result : list QRow) : Z := default 0 (head (omap Api.row_quantity result)).

Definition cmd_verify_period (st : AppState) (account from to : string) : outcome admin_error VerifyResponse :=
  '(from_ms, to_ms) ← admin_range from to;
  match Exec.execute_plan st (Api.total_plan RawEvents account from_ms to_ms),
        Exec.execute_plan st (Exec.set_source RollupHourly (Api.total_plan RawEvents account from_ms to_ms)) with
  | Some raw_result, Some rollup_result =>
      let raw_total := extract_sum raw_result in
      let rollup_total := extract_sum rollup_result in
      let drift := sat_sub_i128 raw_total rollup_total in
      let watermark_ms := m_hourly_rollup_ms (as_manifest st) in
      Ok (MkVerify watermark_ms (to_ms <=? watermark_ms) raw_total rollup_total drift (drift =? 0))
  | _, _ => Panic
  end.

Definition cmd_export_parquet `{!ParquetWriter} (st : AppState) : outcome admin_error (bytes * ExportStats) :=
  match Parquet.export_raw_segments st with Ok x => Ok x | Err e => Err (AdminExport e) | Panic => Panic end.

(** ** Checking *)
Lemma verify_segments_spec files metas out errors oks :
  Forall2 (λ m ok, verify_segment files m = Some ok) metas oks →
  verify_segments files metas out errors
  = Some (out ++ zip (sm_segment_id <$> metas) oks, errors + length (filter (λ b, b = false) oks))%nat.
Proof.
  intros H. revert out errors. induction H as [|m ok metas oks Hm _ IH]; intros out errors.
  - cbn. by rewrite app_nil_r, Nat.add_0_r.
  - cbn [verify_segments]. rewrite Hm. cbn [mbind option_bind]. rewrite IH, <- app_assoc, fmap_cons, filter_cons.
    destruct ok; [rewrite decide_False by done|rewrite decide_True by done]; cbn [app length zip]; do 2 f_equal; cbn; lia.
Qed.

Lemma verify_segments_panic files metas out errors :
  verify_segments files metas out errors = None → ∃ m, m ∈ metas ∧ verify_segment files m = None.
Proof.
  revert out errors. induction metas as [|m metas IH]; intros out errors; [done|]. cbn [verify_segments].
  destruct (verify_segment files m) as [ok|] eqn:E; [|intros _; exists m; split; [by left|done]].
  intros (m' & Hm & He)%IH. exists m'. split; [by right|done].
Qed.

Lemma verify_segments_total files metas out errors r :
  verify_segments files metas out errors = Some r →
  ∃ oks, Forall2 (λ m ok, verify_segment files m = Some ok) metas oks.
Proof.
  revert out errors. induction metas as [|m metas IH]; intros out errors; [by eexists|]. cbn [verify_segments].
  destruct (verify_segment files m) as [ok|] eqn:E; [|done]. intros (oks & Hoks)%IH. exists (ok :: oks). by constructor.
Qed.

(** A segment the readers can use. *)
Definition opens (files : gmap string bytes) (s : SegmentMeta) : Prop :=
  match sm_kind s with
  | RawKind => ∃ bs x, files !! seg_path (sm_segment_id s) = Some bs ∧ seg_open bs = Ok x
  | RollupKind => ∃ bs r, files !! rseg_path (sm_segment_id s) = Some bs ∧ Roll.rollup_open bs (sm_checksum s) = Ok r
  end.

Lemma verify_segment_opens files s : verify_segment files s = Some true ↔ opens files s.
Proof.
  unfold verify_segment, opens, verify_raw_segment, verify_rollup_segment. destruct (sm_kind s).
  - destruct (files !! _) as [bs|]; [|split; [done|by intros (? & ? & ? & _)]].
    destruct (seg_open bs) eqn:E; split; try done.
    + intros _. by eexists _, _.
    + intros (? & ? & [= <-] & Hx). rewrite E in Hx. discriminate Hx.
    + intros (? & ? & [= <-] & Hx). rewrite E in Hx. discriminate Hx.
  - destruct (files !! _) as [bs|]; [|split; [done|by intros (? & ? & ? & _)]].
    destruct (Roll.rollup_open bs _) eqn:E; split; try done.
    + intros _. by eexists _, _.
    + intros (? & ? & [= <-] & Hx). rewrite E in Hx. discriminate Hx.
    + intros (? & ? & [= <-] & Hx). rewrite E in Hx. discriminate Hx.
Qed.

Lemma none_failed oks : length (filter (λ b, b = false) oks) = 0%nat ↔ Forall (λ b, b = true) oks.
Proof.
  split.
  - intros H%nil_length_inv. apply Forall_forall. intros [] Hb; [done|].
    assert (false ∈ filter (λ b, b = false) oks) as Hf by by apply list_elem_of_filter.
    rewrite H in Hf. by apply not_elem_of_nil in Hf.
  - induction 1 as [|b oks -> _ IH]; [done|]. by rewrite filter_cons_False.
Qed.

#[export] Instance opens_dec files s : Decision (opens files s).
Proof.
  refine (cast_if (decide (verify_segment files s = Some true))); by rewrite <- verify_segment_opens.
Defined.

(** The errors counted are the segments that do not open. *)
Lemma failed_count files metas oks :
  Forall2 (λ m ok, verify_segment files m = Some ok) metas oks →
  length (filter (λ b, b = false) oks) = length (filter (λ s, ¬ opens files s) metas).
Proof.
  induction 1 as [|m ok metas oks Hm _ IH]; [done|]. rewrite !filter_cons. destruct ok.
  - rewrite decide_False by done. rewrite decide_False by (intros H; by apply H, verify_segment_opens). done.
  - rewrite decide_True by done. rewrite decide_True by (rewrite <- verify_segment_opens, Hm; done). cbn [length]. by rewrite IH.
Qed.

(** C33: the deep check passes exactly on a database all of whose listed
    segments open, with one line per segment, and otherwise reports the
    number of listed segments that do not open, counted as often as they are
    listed; unless a reader panics on a listed segment, it always comes to
    one of the two. *)
Theorem deep_check_exact st :
  let segs := m_raw_segments (as_manifest st) ++ m_rollup_segments (as_manifest st) in
  let bad := filter (λ s, ¬ opens (as_files st) s) segs in
  match cmd_check st true with
  | Ok (head, out) => bad = [] ∧ out = (λ s, (sm_segment_id s, true)) <$> segs ∧ head = summary (as_manifest st)
  | Err e => e = SegmentsFailed (length bad) ∧ bad ≠ []
  | Panic => ∃ s, s ∈ segs ∧ verify_segment (as_files st) s = None
  end.
Proof.
  cbv zeta. unfold cmd_check. set (segs := _ ++ _). destruct (verify_segments _ segs _ _) as [[out errors]|] eqn:E;
    [|by apply verify_segments_panic in E].
  destruct (verify_segments_total _ _ _ _ _ E) as (oks & Hoks). rewrite (verify_segments_spec _ _ _ _ _ Hoks) in E.
  injection E as <- <-. cbn [app Nat.add]. pose proof (failed_count _ _ _ Hoks) as Hc.
  destruct (Nat.ltb_spec 0 (length (filter (λ b, b = false) oks))) as [Hlt|Hle].
  - rewrite Hc in *. split; [done|]. intros E. rewrite E in Hlt. cbn in Hlt. lia.
  - assert (length (filter (λ b, b = false) oks) = 0%nat) as Hz by lia. split; [|split; [|done]].
    { apply nil_length_inv. congruence. }
    apply none_failed in Hz. clear Hle Hc. clearbody segs.
    induction Hoks as [|m ok metas oks Hm _ IH]; [done|]. apply Forall_cons in Hz as [-> Hz].
    rewrite !fmap_cons. cbn [zip zip_with]. f_equal. by apply IH.
Qed.

(** The command runs the same queries as the endpoint. *)
Lemma verify_period_same st account from to r :
  Api.handle_verify st account from to = Ok r → cmd_verify_period st account from to = Ok r.
Proof.
  unfold Api.handle_verify, cmd_verify_period, admin_range, Api.run_plan.
  destruct (Api.time_range from to) as [[from_ms to_ms]| |]; [|done..]. cbn [mbind outcome_bind].
  change (Exec.set_source RollupHourly (Api.total_plan RawEvents account from_ms to_ms))
    with (Api.total_plan RollupHourly account from_ms to_ms).
  destruct (Exec.execute_plan st (Api.total_plan RawEvents account from_ms to_ms)) as [raw|],
    (Exec.execute_plan st (Api.total_plan RollupHourly account from_ms to_ms)) as [rolled|]; cbn [mbind outcome_bind];
    [|discriminate..].
  intros H. injection H as <-. reflexivity.
Qed.

(** ** Rebuilding *)

(** Rollup segments cover one hour each. *)
Definition hourly (s : SegmentMeta) : Prop :=
  (HOUR_MS | sm_min_timestamp_ms s) ∧ sm_max_timestamp_ms s = sm_min_timestamp_ms s + HOUR_MS - 1.

Definition kept_by (from_ms to_ms : Z) (s : SegmentMeta) : bool :=
  negb ((sm_min_timestamp_ms s <? to_ms) && (from_ms <=? sm_max_timestamp_ms s)).

Lemma rolled_row st es r :
  RW.rollups_of st es → r ∈ RW.rolled (as_files st) (m_rollup_segments (as_manifest st)) → 1 ≤ rr_event_count r.
Proof.
  intros [_ _ Hrows] (rows & Hx & (s & -> & Hs)%list_elem_of_fmap)%list_elem_of_join.
  rewrite Forall_forall in Hrows. specialize (Hrows s Hs). unfold RW.placed in Hrows.
  rewrite Forall_forall in Hrows. by destruct (Hrows r Hx) as [? _].
Qed.

Lemma rolled_below st es r :
  RW.rollups_of st es → 0 ≤ m_hourly_rollup_ms (as_manifest st) →
  r ∈ RW.rolled (as_files st) (m_rollup_segments (as_manifest st)) →
  rr_hour_start_ms r < m_hourly_rollup_ms (as_manifest st).
Proof.
  intros Hs H0 Hr. destruct (Z.lt_ge_cases (rr_hour_start_ms r) (m_hourly_rollup_ms (as_manifest st)))
    as [|Hge]; [done|]. exfalso. set (wm := m_hourly_rollup_ms (as_manifest st)) in *.
  destruct (RW.ro_totals _ _ Hs (λ k, wm <=? rk_hour_start_ms k)) as [_ He]. cbv zeta in He. fold wm in He.
  assert (RW.raw_events (λ k, wm <=? rk_hour_start_ms k) 0 wm es = 0) as Hz.
  { unfold RW.raw_events. apply sumZ_zero. intros e _. unfold RW.in_window.
    destruct (Z.leb_spec 0 (ev_timestamp_ms e)), (Z.ltb_spec (ev_timestamp_ms e) wm); cbn [andb]; try done.
    cbn [Roll.event_key rk_hour_start_ms]. pose proof (Exec.floor_hour_bounds (ev_timestamp_ms e) ltac:(done)).
    rewrite (proj2 (Z.leb_gt _ _)) by lia. done. }
  assert (0 < RW.row_events (λ k, wm <=? rk_hour_start_ms k)
                (RW.rolled (as_files st) (m_rollup_segments (as_manifest st)))) as Hpos.
  { unfold RW.row_events. apply sumZ_pos.
    - intros x Hx%(rolled_row st es); [|done]. case_match; lia.
    - exists r. split; [done|]. cbn [Roll.record_key rk_hour_start_ms]. rewrite (proj2 (Z.leb_le _ _)) by done.
      apply (rolled_row st es) in Hr; [lia|done]. }
  lia.
Qed.

(** Cutting at an hour on the row side is cutting at it on the event side. *)
Definition cut (from_ms : Z) (sel : HourlyRollupKey → bool) (k : HourlyRollupKey) : bool :=
  sel k && (rk_hour_start_ms k <? from_ms).

Lemma cut_events (f : UsageEvent → Z) (sel : HourlyRollupKey → bool) from_ms wm es :
  (HOUR_MS | from_ms) → from_ms ≤ wm →
  sumZ (λ e, if RW.in_window 0 wm e then (if cut from_ms sel (Roll.event_key e) then f e else 0) else 0) es
  = sumZ (λ e, if RW.in_window 0 from_ms e then (if sel (Roll.event_key e) then f e else 0) else 0) es.
Proof.
  intros Hal Hle. apply sumZ_ext. intros e _. unfold RW.in_window, cut. cbn [Roll.event_key rk_hour_start_ms].
  destruct (Z.leb_spec 0 (ev_timestamp_ms e)) as [H0|]; [|done].
  pose proof (Exec.floor_hour_le_iff from_ms (ev_timestamp_ms e) H0 Hal) as Hiff.
  destruct (Z.ltb_spec (floor_hour (ev_timestamp_ms e)) from_ms), (Z.ltb_spec (ev_timestamp_ms e) from_ms),
    (Z.ltb_spec (ev_timestamp_ms e) wm); cbn [andb]; try lia; rewrite ?andb_true_r, ?andb_false_r; done.
Qed.

Lemma cut_rows (f : HourlyRollupRecord → Z) (sel : HourlyRollupKey → bool) from_ms to_ms st es :
  RW.rollups_of st es → 0 ≤ m_hourly_rollup_ms (as_manifest st) ≤ to_ms → (HOUR_MS | from_ms) →
  Forall hourly (m_rollup_segments (as_manifest st)) →
  sumZ (λ r, if sel (Roll.record_key r) then f r else 0)
    (RW.rolled (as_files st) (filter (λ s, kept_by from_ms to_ms s = true) (m_rollup_segments (as_manifest st))))
  = sumZ (λ r, if cut from_ms sel (Roll.record_key r) then f r else 0)
      (RW.rolled (as_files st) (m_rollup_segments (as_manifest st))).
Proof.
  intros Hs [H0 Hto] [k Hk] Hh.
  assert (∀ r, r ∈ RW.rolled (as_files st) (m_rollup_segments (as_manifest st)) →
            rr_hour_start_ms r < m_hourly_rollup_ms (as_manifest st)) as Hb by (intros r; by apply (rolled_below st es)).
  pose proof (RW.ro_rows _ _ Hs) as Hrows. unfold RW.rolled in *. rewrite !sumZ_mjoin.
  induction (m_rollup_segments (as_manifest st)) as [|s segs IH]; [done|].
  apply Forall_cons in Hh as [[[j Hj] Hmax] Hh]. apply Forall_cons in Hrows as [Hp Hrows].
  unfold RW.placed in Hp. rewrite Forall_forall in Hp.
  rewrite filter_cons, fmap_cons, sumZ_cons, <- IH; [|done| |done].
  2:{ intros r Hr. apply Hb. rewrite fmap_cons. cbn. apply elem_of_app. by right. }
  assert (∀ r, r ∈ RW.rollup_rows (as_files st) s → rr_hour_start_ms r < m_hourly_rollup_ms (as_manifest st)) as Hbs.
  { intros r Hr. apply Hb. rewrite fmap_cons. cbn. apply elem_of_app. by left. }
  unfold kept_by at 1. unfold HOUR_MS in *.
  destruct (decide _) as [Hkp|Hkp]; rewrite ?fmap_cons, ?sumZ_cons.
  - f_equal. apply sumZ_ext. intros r Hr. destruct (Hp r Hr) as (_ & Hr' & _). specialize (Hbs r Hr).
    unfold cut. cbn [Roll.record_key rk_hour_start_ms]. rewrite (proj2 (Z.ltb_lt (rr_hour_start_ms r) from_ms));
      [by rewrite andb_true_r|].
    destruct (Z.ltb_spec (sm_min_timestamp_ms s) to_ms), (Z.leb_spec from_ms (sm_max_timestamp_ms s)); try done; lia.
  - rewrite (sumZ_zero _ (RW.rollup_rows (as_files st) s)); [lia|]. intros r Hr. destruct (Hp r Hr) as (_ & Hr' & _).
    unfold cut. cbn [Roll.record_key rk_hour_start_ms]. rewrite (proj2 (Z.ltb_ge (rr_hour_start_ms r) from_ms));
      [by rewrite andb_false_r|].
    destruct (Z.ltb_spec (sm_min_timestamp_ms s) to_ms), (Z.leb_spec from_ms (sm_max_timestamp_ms s));
      try (by destruct Hkp); lia.
Qed.

(** What a rebuild on the hour that reaches the watermark does: what is left
    is the rollup of the same events below the new watermark. *)
Lemma rebuild_exact `{!ManifestJsonOk} st es from to from_ms to_ms :
  RW.rollups_of st es → Forall hourly (m_rollup_segments (as_manifest st)) →
  rfc3339_ms from = Some from_ms → rfc3339_ms to = Some to_ms →
  (HOUR_MS | from_ms) → 0 ≤ from_ms → from_ms < m_hourly_rollup_ms (as_manifest st) ≤ to_ms →
  0 ≤ m_current_generation (as_manifest st) < u64_max →
  ∃ st' dropped, cmd_rebuild_rollups None st from to = (st', Ok dropped)
    ∧ m_hourly_rollup_ms (as_manifest st') = from_ms
    ∧ RW.rollups_of st' es
    ∧ Exec.db_events st' = Exec.db_events st
    ∧ st' = set_env (as_env st') st ∧ as_files st' = as_files st
    ∧ m_raw_segments (as_manifest st') = m_raw_segments (as_manifest st)
    ∧ m_rollup_segments (as_manifest st')
      = filter (λ s, kept_by from_ms to_ms s = true) (m_rollup_segments (as_manifest st))
    ∧ Man.load None (fe_manfs (as_env st')) = (fe_manfs (as_env st'), Ok (Some (as_manifest st'))).
Proof.
  intros Hs Hh Hf Ht Hal H0 Hw Hg. unfold cmd_rebuild_rollups, admin_range, Api.time_range. rewrite Hf, Ht.
  cbn [ok_or mbind outcome_bind]. unfold RW.rebuild_rollups.
  change (fe_manifest (as_env st)) with (as_manifest st).
  cbn [m_hourly_rollup_ms set_rollup_segments]. rewrite (proj2 (Z.ltb_lt _ _)) by lia.
  match goal with |- context [Man.save None _ ?m] =>
    destruct (Man.save_then_load None (fe_manfs (as_env st)) m) as (manfs & -> & Hl); [done|] end.
  eexists _, _. split; [reflexivity|]. split; [done|]. split; [|split; [done|split; [done|split; [done|split; [done|split; [done|exact Hl]]]]]].
  pose proof (cut_rows rr_quantity_sum) as Hq. pose proof (cut_rows rr_event_count) as He. split.
  - exact Hal.
  - intros sel. cbn. change (fe_files (as_env st)) with (as_files st). unfold RW.row_total, RW.row_events.
    destruct (RW.ro_totals _ _ Hs (cut from_ms sel)) as [E1 E2]. split.
    + etransitivity; [exact (Hq sel from_ms to_ms st es Hs ltac:(lia) Hal Hh)|]. etransitivity; [exact E1|].
      apply (cut_events ev_quantity); [done|lia].
    + etransitivity; [exact (He sel from_ms to_ms st es Hs ltac:(lia) Hal Hh)|]. etransitivity; [exact E2|].
      apply (cut_events (λ _, 1)); [done|lia].
  - cbn. pose proof (RW.ro_rows _ _ Hs) as Hrows. rewrite Forall_forall in Hrows. apply Forall_forall.
    intros s [_ Hin]%list_elem_of_filter. by apply Hrows.
Qed.

(** Rebuilding on the hour is safe: when the range starts on an hour at or
    below the watermark and reaches it, the rollups that are left are exactly
    the rollup of the stored events below the new watermark, so every query is
    as exact as before while the next ticks refill the range. *)
Theorem rebuild_keeps_rollups_exact `{!ManifestJsonOk} st from to from_ms to_ms :
  RW.rollups_sound st → Forall hourly (m_rollup_segments (as_manifest st)) →
  rfc3339_ms from = Some from_ms → rfc3339_ms to = Some to_ms →
  (HOUR_MS | from_ms) → 0 ≤ from_ms → from_ms < m_hourly_rollup_ms (as_manifest st) ≤ to_ms →
  0 ≤ m_current_generation (as_manifest st) < u64_max →
  ∃ st' dropped, cmd_rebuild_rollups None st from to = (st', Ok dropped)
    ∧ m_hourly_rollup_ms (as_manifest st') = from_ms
    ∧ RW.rollups_sound st'
    ∧ Exec.db_events st' = Exec.db_events st
    ∧ Man.load None (fe_manfs (as_env st')) = (fe_manfs (as_env st'), Ok (Some (as_manifest st'))).
Proof.
  intros [Hs Ho] Hh Hf Ht Hal H0 Hw Hg.
  destruct (rebuild_exact st _ from to from_ms to_ms Hs) as (st' & n & E & Hw' & Hs' & Hd & Est & Ef & Er & _ & Hl); [done..|].
  exists st', n. split; [done|]. split; [done|]. split; [|done]. split; [by rewrite Ef, Er|].
  rewrite Hw', Est. cbn [set_env as_memtable]. eapply Forall_impl; [exact Ho|]. cbn. lia.
Qed.
End admin.
End Admin.

Module AdminExample.
#[local] Existing Instances poly_digest code_bincode stored_codecs poly_digest_ok code_bincode_ok stored_codecs_ok.
#[local] Existing Instances Files.file_segments Files.file_segments_ok QueryExample.code_dims QueryExample.code_dims_parse.
#[local] Existing Instances QueryExample.code_dims_ok ManExample.text_manifest ManExample.text_manifest_ok ApiExample.millis.

(** A writer that keeps the event ids. *)
Definition ids_only : ParquetWriter := λ _ arrays,
  match arrays with StringArray ids :: _ => Some (str_bytes (String.concat "," (omap id ids))) | _ => None end.
#[local] Existing Instance ids_only.

Lemma stored_events :
  Flush.stored (as_files QueryExample.st) (m_raw_segments (as_manifest QueryExample.st)) = [QueryExample.ev].
Proof.
  change (m_raw_segments (as_manifest QueryExample.st)) with [QueryExample.raw_meta].
  unfold Flush.stored. cbn [fmap list_fmap mjoin list_join].
  by rewrite (Flush.seg_at_events _ _ _ QueryExample.query_raw_at).
Qed.

Lemma export_exact_witness :
  Parquet.export_raw_segments QueryExample.st = Ok (str_bytes "a", MkExportStats 1 1).
Proof.
  refine (eq_trans (proj1 (Parquet.export_exact QueryExample.st (str_bytes "a") _ _)) _).
  - apply Forall_singleton. intros bs Hbs. destruct QueryExample.query_raw_at as (bs' & Hbs' & Hr).
    exists [QueryExample.ev]. rewrite Hbs' in Hbs. by injection Hbs as <-.
  - rewrite stored_events. reflexivity.
  - rewrite stored_events. vm_compute. reflexivity.
Defined.

Lemma rebuild_keeps_rollups_exact_witness :
  ∃ st' dropped, Admin.cmd_rebuild_rollups None QueryExample.st "3600000" "7200000" = (st', Ok dropped)
    ∧ RW.rollups_sound st'.
Proof.
  destruct (Admin.rebuild_keeps_rollups_exact QueryExample.st "3600000" "7200000" 3600000 7200000 QueryExample.rollups)
    as (st' & dropped & E & _ & Hs & _).
  - apply Forall_singleton. split; [by exists 1|reflexivity].
  - reflexivity.
  - reflexivity.
  - by exists 1.
  - lia.
  - change (3600000 < 7200000 ≤ 7200000). lia.
  - by vm_compute.
  - exists st', dropped. split; [exact E|exact Hs].
Defined.
End AdminExample.
