(* ===== verification/Billing.v ===== *)
(** * End to end

    What the server does to its data when no call on a file fails, in one step
    relation: the write path of [System], rollup ticks with whatever they
    read, compactions of segments without a repeated event id, sweeps, and the
    closing, reopening and rebuilding requests.  The invariant
    carries what the readers need, so that the read endpoints can be stated in
    terms of the events clients were told were accepted. *)

From Stdlib Require Import Ascii.
From stdpp Require Import sorting numbers strings base gmap list.
From S2P Require Import Prelude Model Instances Encoding Segment SegmentSpec DedupeIndex SegmentApi.
From S2P Require Import Memtable Dedupe Wal Manifest Period Flusher Compaction State Ingest Recovery System.
From S2P Require Import Rollup RollupWorker Query Sql Api Periods Admin.

#[local] Existing Instance Api.requested_dec.

Module Bill.
Section bill.
Context {BL : Blake3} {BN : Bincode} {SJ : SerdeJson} {RS : RawSegments} {MJ : ManifestJson} {CH : Chrono}.
Context {DJ : DimJson} {DP : DimParse} {RF : Rfc3339}.
Context (size_of_event : Z).

(** Drawn segment names repeat no name in use or waiting for deletion. *)
Definition names_fresh (m m' : Manifest) : Prop :=
  NoDup (sm_segment_id <$> m_raw_segments m')
  ∧ ∀ r id, r ∈ m_compacted_replacements m → id ∈ rp_old_segments r → id ∉ sm_segment_id <$> m_raw_segments m'.

Definition counter_fits (st : AppState) : Prop := 0 ≤ m_current_generation (as_manifest st) < u64_max.

(** A merge that can be written and has no event id twice among its inputs:
    of two rows with one id the merge keeps the first. *)
Definition mergeable (draw : string * option wb_fault) (plan : CompactionPlan) (st : AppState) : Prop :=
  ("compacted_" +:+ draw.1 ∉ sm_segment_id <$> m_raw_segments (as_manifest st))
  ∧ (∀ r, r ∈ m_compacted_replacements (as_manifest st) → ("compacted_" +:+ draw.1) ∉ rp_old_segments r)
  ∧ (draw.2 = None ∨ draw.2 = Some FaultSidecar)
  ∧ (∀ segs, pl_segment_ids plan = sm_segment_id <$> segs → segs ⊆ m_raw_segments (as_manifest st) →
       Flush.stored (as_files st) segs ≠ []
       ∧ seg_fits (Compact.sort_and_dedupe (Flush.stored (as_files st) segs))
       ∧ NoDup (ev_event_id <$> Flush.stored (as_files st) segs)).

Inductive step : AppState * list UsageEvent → AppState * list UsageEvent → Prop :=
| step_write x y :
    Sys.step size_of_event x y → names_fresh (as_manifest x.1) (as_manifest y.1) → step x y
| step_tick reads draws rot now st st' stats acked :
    RW.tick_with reads draws None rot now st = (st', Ok stats) → counter_fits st → active_id (as_wal st) < u64_max →
    step (st, acked) (st', acked)
| step_compact draw plan maxs now st env committed acked :
    Compact.run_one_plan draw None (as_env st) plan now = (env, Ok committed) → counter_fits st →
    plan ∈ Compact.plan_compaction maxs (m_raw_segments (as_manifest st)) → mergeable draw plan st →
    step (st, acked) (set_env env st, acked)
| step_sweep grace now st env n acked :
    Compact.sweep_pending_deletions grace now None (as_env st) = (env, Ok n) → counter_fits st →
    step (st, acked) (set_env env st, acked)
| step_close now account period st st' r acked :
    Close.handle_close_period None now st account period = (st', Ok r) → counter_fits st →
    step (st, acked) (st', acked)
| step_reopen account period st st' b acked :
    Close.handle_reopen_period None st account period = (st', Ok b) → counter_fits st →
    step (st, acked) (st', acked)
| step_rebuild from to st st' n acked :
    Admin.cmd_rebuild_rollups None st from to = (st', Ok n) → counter_fits st →
    step (st, acked) (st', acked).

(** ** The invariant *)
Record intact (st : AppState) (acked : list UsageEvent) : Prop := {
  in_system : Sys.sys_inv st acked;
  in_sound : Exec.segs_sound st;
  in_names : NoDup (sm_segment_id <$> m_raw_segments (as_manifest st));
  in_pending : Compact.pending_disjoint (as_manifest st);
}.

(** What leaves the raw data alone. *)
Record raw_frame (env env' : FlushEnv) : Prop := {
  rf_segments : m_raw_segments (fe_manifest env') = m_raw_segments (fe_manifest env);
  rf_pending : m_compacted_replacements (fe_manifest env') = m_compacted_replacements (fe_manifest env);
  rf_buckets : m_bucket_count (fe_manifest env') = m_bucket_count (fe_manifest env);
  rf_sealed : m_last_sealed_wal_id (fe_manifest env') = m_last_sealed_wal_id (fe_manifest env);
  rf_walfs : fe_walfs env' = fe_walfs env;
  rf_loads : Man.load None (fe_manfs env') = (fe_manfs env', Ok (Some (fe_manifest env')));
  rf_files s : s ∈ m_raw_segments (fe_manifest env) →
    fe_files env' !! seg_path (sm_segment_id s) = fe_files env !! seg_path (sm_segment_id s);
}.

Lemma seg_events_same files files' s :
  files' !! seg_path (sm_segment_id s) = files !! seg_path (sm_segment_id s) →
  Flush.seg_events files' s = Flush.seg_events files s.
Proof. intros E. unfold Flush.seg_events. by rewrite E. Qed.

(** A sound segment stays sound while its file does. *)
Lemma sound_same bc files files' s :
  files' !! seg_path (sm_segment_id s) = files !! seg_path (sm_segment_id s) →
  Flush.seg_at files s (Flush.seg_events files s) ∧ Flush.meta_sound bc files s →
  Flush.seg_at files' s (Flush.seg_events files' s) ∧ Flush.meta_sound bc files' s.
Proof. intros E. unfold Flush.seg_at, Flush.meta_sound. by rewrite (seg_events_same _ _ _ E), E. Qed.

(** A change of the directory and the manifest that keeps the stored events,
    the log and what the readers rely on. *)
Lemma intact_env st env acked :
  intact st acked →
  fe_walfs env = as_walfs st → m_last_sealed_wal_id (fe_manifest env) = m_last_sealed_wal_id (as_manifest st) →
  m_bucket_count (fe_manifest env) = m_bucket_count (as_manifest st) →
  Man.load None (fe_manfs env) = (fe_manfs env, Ok (Some (fe_manifest env))) →
  Flush.stored (fe_files env) (m_raw_segments (fe_manifest env))
    ≡ₚ Flush.stored (as_files st) (m_raw_segments (as_manifest st)) →
  Forall (λ s, Flush.seg_at (fe_files env) s (Flush.seg_events (fe_files env) s)
               ∧ Flush.meta_sound (Z.max (m_bucket_count (as_manifest st)) 1) (fe_files env) s)
    (m_raw_segments (fe_manifest env)) →
  NoDup (sm_segment_id <$> m_raw_segments (fe_manifest env)) → Compact.pending_disjoint (fe_manifest env) →
  intact (set_env env st) acked.
Proof.
  intros [[Hl Hm Hse Hb Hsg Hmode Hack] _ _ _] Hw Hls Hbc Hload Hst Hall Hn Hp. split; [|by rewrite <- Hbc in Hall|done|done].
  split; unfold as_manifest, as_files, set_env; cbn [as_env as_config]; try done.
  - destruct Hl as (chunks & cur & es & Hd & Hq & Hmt & Hf & Hbuf & Hlast). exists chunks, cur, es.
    unfold Sys.logged, as_walfs, as_manifest. cbn [as_env as_wal as_queue as_memtable]. by rewrite Hw, Hls.
  - by rewrite Hls.
  - by rewrite Hbc.
  - eapply Forall_impl; [exact Hall|]. by intros s [? _].
  - rewrite Hst. exact Hack.
Qed.

Lemma sound_files st files :
  Exec.segs_sound st →
  (∀ s, s ∈ m_raw_segments (as_manifest st) →
     files !! seg_path (sm_segment_id s) = as_files st !! seg_path (sm_segment_id s)) →
  Forall (λ s, Flush.seg_at files s (Flush.seg_events files s)
               ∧ Flush.meta_sound (Z.max (m_bucket_count (as_manifest st)) 1) files s) (m_raw_segments (as_manifest st)).
Proof.
  intros Hs Hf. unfold Exec.segs_sound in Hs. rewrite Forall_forall in Hs. apply Forall_forall.
  intros s Hin. eapply sound_same; [by apply Hf|by apply Hs].
Qed.

Lemma frame_keeps st env acked : intact st acked → raw_frame (as_env st) env → intact (set_env env st) acked.
Proof.
  intros Hi [F1 F2 F3 F4 F5 F6 F7]. pose proof Hi as [_ Hs Hn Hp].
  change (fe_manifest (as_env st)) with (as_manifest st) in *. change (fe_files (as_env st)) with (as_files st) in *.
  apply intact_env; try done; rewrite ?F1; try done.
  - by rewrite (Flush.stored_same (as_files st) (fe_files env)).
  - by apply sound_files.
  - unfold Compact.pending_disjoint. by rewrite F1, F2.
Qed.

Context {SJok : SerdeJsonOk} {RSok : RawSegmentsOk} {MJok : ManifestJsonOk}.

(** ** The write path *)
Lemma drain_frame bud fsync_ok open_ok st st' r :
  drain_and_rotate bud fsync_ok open_ok st = (st', r) → as_manifest st' = as_manifest st ∧ as_files st' = as_files st.
Proof.
  unfold drain_and_rotate. destruct (Mem.drain_all _) as [es mt].
  destruct (WalOps.rotate _ _ _ _ _) as [[fs w] [id|e|]]; intros H; injection H as <- _; done.
Qed.

Lemma ingest_frame io now clk st events st' r :
  Ing.handle_ingest size_of_event io now clk st events = (st', r) →
  as_manifest st' = as_manifest st ∧ as_files st' = as_files st.
Proof.
  unfold Ing.handle_ingest. destruct (Ing.validate_batch _ _ _) as [rejected cs].
  unfold Ing.ingest_critical_section. destruct (Ing.screen _ _ _) as [[new dup] conf].
  destruct (Ing.write_ahead _ _ _ _ _) as [[fs w] [u|e|]]; [|intros H; by injection H as <- _..].
  destruct (Ing.commit_all _ _ _ _ _) as [d m]. destruct (_ <? _); [|intros H; by injection H as <- _].
  destruct (drain_and_rotate _ _ _ _) as [st2 [msg|e|]] eqn:E; apply drain_frame in E; intros H; injection H as <- _;
    done.
Qed.

Lemma flush_sound now draws msg q st :
  Exec.segs_sound st → Flush.good_draws draws → Flush.fresh_for draws (as_manifest st) →
  Forall (λ p, seg_fits (sort_events_canonical p.2)) (Flush.flush_groups (as_env st) (fm_events msg)) →
  counter_fits st → Exec.segs_sound (Sys.flush_one size_of_event now draws msg q st).
Proof.
  intros Hs Hd Hf Hfit Hg. unfold Sys.flush_one, Flush.handle_message. case_bool_decide; [exact Hs|].
  destruct (Flush.flush_effect draws (as_env st) (fm_events msg) (fm_sealed_wal_id msg) Hd Hf Hfit Hg)
    as (env & -> & _ & Hm & _ & _ & _ & Hbc & Hsegs & Hold).
  unfold Exec.segs_sound in *. unfold as_manifest, as_files in *. cbn [as_env]. rewrite Hbc.
  rewrite Forall_forall in Hs. apply Forall_forall. intros s Hin. destruct (Hm s Hin) as [Ho|Hso].
  - eapply sound_same; [by apply Hold|by apply Hs].
  - split; [|done]. destruct (Hsegs s Hin) as [(Ho & _ & Hk)|?]; [|done]. apply Hk. by apply Hs.
Qed.

Lemma sound_frame st st' :
  as_manifest st' = as_manifest st → as_files st' = as_files st → Exec.segs_sound st → Exec.segs_sound st'.
Proof. unfold Exec.segs_sound. by intros -> ->. Qed.

Lemma flush_pending now draws msg q st :
  m_compacted_replacements (as_manifest (Sys.flush_one size_of_event now draws msg q st))
  = m_compacted_replacements (as_manifest st).
Proof.
  unfold Sys.flush_one, Flush.handle_message. case_bool_decide; [done|].
  destruct (Flush.attempt_flush _ _ _ _ _) as [env r] eqn:E.
  assert (m_compacted_replacements (fe_manifest env) = m_compacted_replacements (as_manifest st)) as Hr; [|by destruct r].
  unfold Flush.attempt_flush in E. destruct (Flush.flush_buckets _ _ _ _ _ _) as [files [[metas paths]|f|]];
    [|by injection E as <- _..].
  destruct (Man.save _ _ _) as [[manfs m] res] eqn:Es.
  assert (m_compacted_replacements m = m_compacted_replacements (as_manifest st)) as Hm; [|by destruct res; injection E as <- _].
  unfold Man.save in Es. unfold Flush.commit_manifest in Es. cbv zeta in Es.
  destruct (_ <? _) in Es; repeat case_match; by simplify_eq.
Qed.

Lemma write_sound x y : Sys.step size_of_event x y → Sys.sys_inv x.1 x.2 → Exec.segs_sound x.1 →
  Exec.segs_sound y.1 ∧ m_compacted_replacements (as_manifest y.1) = m_compacted_replacements (as_manifest x.1).
Proof.
  intros Hstep Hi Hs. destruct Hstep; cbn [fst snd] in *.
  - apply ingest_frame in H as [E1 E2]. split; [by eapply sound_frame|by rewrite E1].
  - apply drain_frame in H as [E1 E2]. split; [by eapply sound_frame; [| |exact Hs]|].
    change (as_manifest (hand_over msg st')) with (as_manifest st'). by rewrite E1.
  - destruct (Sys.send_same 0 st) as (E & _). unfold as_manifest. rewrite E. split; [|done].
    by eapply sound_frame; [| |exact Hs]; unfold as_manifest, as_files; rewrite E.
  - split; [by apply flush_sound|apply flush_pending].
  - destruct (Sys.inv_crash size_of_event now clk st acked fs' Hi H) as (st1 & E & _ & _ & Em & Ef & _).
    rewrite H0 in E. injection E as <-. split; [by eapply sound_frame|by rewrite Em].
Qed.

Lemma inv_write x y :
  Sys.step size_of_event x y → names_fresh (as_manifest x.1) (as_manifest y.1) → intact x.1 x.2 → intact y.1 y.2.
Proof.
  intros Hstep [Hn Hp] [Hi Hs _ _]. destruct (write_sound x y Hstep Hi Hs) as [Hs' Hr].
  split; [by eapply Sys.step_inv|done|done|]. intros r id. rewrite Hr. apply Hp.
Qed.

(** ** The workers *)
Lemma write_rollup_other fault files uuid records bucket hs he inputs name :
  name ≠ rseg_path ("rollup_" +:+ uuid) →
  (RW.write_rollup_segment fault files uuid records bucket hs he inputs).1 !! name = files !! name.
Proof.
  intros Hn. unfold RW.write_rollup_segment. destruct (Roll.write_rollup_file records) as [[[bs n] cs]|e|], fault as [[|k]|];
    cbn [fst]; rewrite ?lookup_insert_ne by done; done.
Qed.

Lemma write_groups_other draws i files hour hour_end groups acc name :
  (∀ j, name ≠ rseg_path (RW.rdraw_id draws j)) →
  (RW.write_groups draws i files hour hour_end groups acc).1.1 !! name = files !! name.
Proof.
  intros Hn. revert i files acc. induction groups as [|[bucket items] groups IH]; intros i files acc; [done|].
  cbn [RW.write_groups]. destruct (bool_decide _); [apply IH|].
  pose proof (write_rollup_other (draws i).2 files (draws i).1 (Roll.finalize (Roll.build items.*2)) bucket hour hour_end
    (RW.input_ids items) name (Hn i)) as Hw.
  destruct (RW.write_rollup_segment _ _ _ _ _ _ _ _) as [files' [seg|e|]]; cbn [fst] in *; [by rewrite IH|done..].
Qed.

(** Ticks write the rollup files whose names they draw. *)
Lemma roll_hours_other draws i files bc al segs hours acc name :
  (∀ j, name ≠ rseg_path (RW.rdraw_id draws j)) →
  (RW.roll_hours draws i files bc al segs hours acc).1 !! name = files !! name.
Proof.
  intros Hn. revert i files acc. induction hours as [|hour hours IH]; intros i files acc; [done|]. cbn [RW.roll_hours].
  destruct (RW.scan_hour _ _ _ _ _ _) as [items|e|]; [|done..].
  pose proof (write_groups_other draws i files hour (hour + HOUR_MS)
    (group_by_key (λ it : string * UsageEvent, Flush.bucket_of bc it.2) items) acc name Hn) as Hw.
  destruct (RW.write_groups _ _ _ _ _ _ _) as [[files' i'] [new|e|]]; cbn [fst] in *; [by rewrite IH|done..].
Qed.

Lemma roll_hours_raw draws i files bc al segs hours acc id :
  (RW.roll_hours draws i files bc al segs hours acc).1 !! seg_path id = files !! seg_path id.
Proof. apply roll_hours_other. intros j. apply RW.seg_path_not_rseg. Qed.

Lemma tick_files reads draws sfault rot now st st' stats name :
  RW.tick_with reads draws sfault rot now st = (st', Ok stats) → (∀ j, name ≠ rseg_path (RW.rdraw_id draws j)) →
  as_files st' !! name = as_files st !! name.
Proof.
  intros E Hn. unfold RW.tick_with in E. destruct (RW.in_flight _); [by injection E as <- _|].
  destruct (RW.needs_force_drain _ _ _).
  { unfold RW.force_drain_memtable in E. destruct (Mem.is_empty _); [by injection E as <- _|].
    destruct (drain_and_rotate _ _ _ _) as [st1 [msg|e|]] eqn:Ed; [|done..]. injection E as <- _.
    apply drain_frame in Ed as [_ E2]. change (as_files (hand_over msg st1)) with (as_files st1). by rewrite E2. }
  destruct (_ <=? _); [by injection E as <- _|].
  pose proof (roll_hours_other draws 0 (as_files st) (Z.max (m_bucket_count (RW.tr_manifest reads)) 1)
    (RW.already_rolled (RW.tr_manifest reads)) (m_raw_segments (RW.tr_manifest reads))
    (RW.hours_between (RW.start_watermark (RW.tr_manifest reads))
       (RW.target_hour (rollup_safety_lag_ms (as_config st)) now reads)) [] name Hn) as Hr.
  destruct (RW.roll_hours _ _ _ _ _ _ _ _) as [files [new|e|]]; [|done..]. cbn [fst] in Hr.
  unfold RW.commit_rollups in E. destruct (Man.save _ _ _) as [[manfs m] res].
  destruct res as [[]| |]; [|done..]. by injection E as <- _.
Qed.

Lemma save_frame env m manfs m' files :
  Man.save None (fe_manfs env) m = (manfs, m', Ok tt) → 0 ≤ m_current_generation m < u64_max →
  m_raw_segments m = m_raw_segments (fe_manifest env) →
  m_compacted_replacements m = m_compacted_replacements (fe_manifest env) →
  m_bucket_count m = m_bucket_count (fe_manifest env) →
  m_last_sealed_wal_id m = m_last_sealed_wal_id (fe_manifest env) →
  (∀ id, files !! seg_path id = fe_files env !! seg_path id) →
  raw_frame env (MkFlushEnv files manfs m' (fe_walfs env)).
Proof.
  intros E Hg H1 H2 H3 H4 Hf. destruct (Man.save_then_load None (fe_manfs env) m Hg) as (fs' & E' & Hl).
  rewrite E in E'. injection E' as -> ->. by split.
Qed.

(** What a request leaves when it ends with at most one save. *)
Definition reframed (st st' : AppState) : Prop := ∃ env, st' = set_env env st ∧ raw_frame (as_env st) env.

Lemma reframed_refl st acked : intact st acked → reframed st st.
Proof.
  intros Hi. exists (as_env st). split; [by destruct st|]. pose proof (Sys.si_manifest _ _ (in_system _ _ Hi)). by split.
Qed.

Lemma reframed_keeps st st' acked : intact st acked → reframed st st' → intact st' acked.
Proof. intros Hi (env & -> & Hf). by apply frame_keeps. Qed.

Lemma tick_frame reads draws rot now st st' stats acked :
  RW.tick_with reads draws None rot now st = (st', Ok stats) → forced_flush stats = false → counter_fits st →
  intact st acked → reframed st st'.
Proof.
  intros E Hff Hg Hi. pose proof (reframed_refl _ _ Hi) as Hrefl. unfold RW.tick_with in E.
  destruct (RW.in_flight reads); [by injection E as <- _|]. destruct (RW.needs_force_drain _ _ _).
  { destruct (RW.force_drain_memtable _ _ _ _) as [st1 [u|e|]]; [|done..]. by injection E as <- <-. }
  destruct (_ <=? _); [by injection E as <- _|].
  pose proof (roll_hours_raw draws 0 (as_files st) (Z.max (m_bucket_count (RW.tr_manifest reads)) 1)
    (RW.already_rolled (RW.tr_manifest reads)) (m_raw_segments (RW.tr_manifest reads))
    (RW.hours_between (RW.start_watermark (RW.tr_manifest reads))
       (RW.target_hour (rollup_safety_lag_ms (as_config st)) now reads)) []) as Hraw.
  destruct (RW.roll_hours _ _ _ _ _ _ _ _) as [files [new|e|]]; [|done..]. cbn [fst] in Hraw.
  unfold RW.commit_rollups in E. destruct (Man.save _ _ _) as [[manfs m] res] eqn:Es.
  destruct res as [[]| |]; [|done..]. injection E as <- _. eexists. split; [reflexivity|]. by eapply save_frame.
Qed.

Lemma inv_tick reads draws rot now st st' stats acked :
  RW.tick_with reads draws None rot now st = (st', Ok stats) → counter_fits st → active_id (as_wal st) < u64_max →
  intact st acked → intact st' acked.
Proof.
  intros E Hg Hmax Hi. destruct (forced_flush stats) eqn:Hff; [|by eapply reframed_keeps, tick_frame].
  unfold RW.tick_with in E. destruct (RW.in_flight _); [by injection E as <- _|].
  destruct (RW.needs_force_drain _ _ _).
  - unfold RW.force_drain_memtable in E. destruct (Mem.is_empty _); [by injection E as <- _|].
    destruct (drain_and_rotate _ _ _ _) as [st1 [msg|e|]] eqn:Ed; [|done..]. injection E as <- _.
    pose proof (drain_frame _ _ _ _ _ _ Ed) as [E1 E2]. destruct Hi as [Hi Hs Hn Hp].
    split; [by eapply Sys.inv_drain|by apply (sound_frame st)|..];
      change (as_manifest (hand_over msg st1)) with (as_manifest st1); by rewrite E1.
  - destruct (_ <=? _); [by injection E as _ <-|]. destruct (RW.roll_hours _ _ _ _ _ _ _ _) as [files [new|e|]]; [|done..].
    destruct (RW.commit_rollups _ _ _ _ _) as [env [u|e|]]; [|done..]. by injection E as _ <-.
Qed.

(** Everything a compaction of an intact database does. *)
Lemma compact_commits draw plan maxs now st env committed acked :
  Compact.run_one_plan draw None (as_env st) plan now = (env, Ok committed) → counter_fits st →
  plan ∈ Compact.plan_compaction maxs (m_raw_segments (as_manifest st)) → mergeable draw plan st →
  intact st acked →
  ∃ segs rest meta cs,
    m_raw_segments (as_manifest st) ≡ₚ segs ++ rest
    ∧ pl_segment_ids plan = sm_segment_id <$> segs
    ∧ meta = build_segment_meta ("compacted_" +:+ draw.1)
               (Compact.sort_and_dedupe (Flush.stored (as_files st) segs)) (pl_bucket plan) cs
    ∧ fe_manifest env = set_generation (m_current_generation (as_manifest st) + 1)
                          (Compact.swap_segments (as_manifest st) plan meta now)
    ∧ Flush.stored (fe_files env) (m_raw_segments (fe_manifest env))
      ≡ₚ Flush.stored (as_files st) (m_raw_segments (as_manifest st))
    ∧ Forall (λ s, Flush.seg_at (fe_files env) s (Flush.seg_events (fe_files env) s)
                   ∧ Flush.meta_sound (Z.max (m_bucket_count (as_manifest st)) 1) (fe_files env) s)
        (m_raw_segments (fe_manifest env))
    ∧ (∀ s, s ∈ m_raw_segments (as_manifest st) →
            fe_files env !! seg_path (sm_segment_id s) = as_files st !! seg_path (sm_segment_id s))
    ∧ Man.load None (fe_manfs env) = (fe_manfs env, Ok (Some (fe_manifest env)))
    ∧ fe_walfs env = as_walfs st.
Proof.
  intros E Hg Hplan (Hf1 & Hf2 & Hd & Hfit) [_ Hs Hn _].
  unfold Exec.segs_sound in Hs. rewrite Forall_forall in Hs.
  destruct (Compact.compaction_effect draw (as_env st) plan maxs now) as
    (env' & segs & rest & E' & Hperm & Hids & _ & Hst & Hsound & Hold & Hload & Hw & _ & _ & Hat & meta & Hid & Hman & cs & Hmeta);
    try done.
  { intros s Hin. eexists. by apply Hs. }
  { intros s Hin. by apply Hs. }
  { intros segs Hids Hsub. by destruct (Hfit segs Hids Hsub) as (? & ? & _). }
  rewrite E in E'. assert (env' = env) as -> by congruence.
  exists segs, rest, meta, cs. split; [done|]. split; [done|]. split; [done|]. split; [done|]. split.
  { apply Hst, Hfit; [done|]. intros s Hin. rewrite Hperm. apply elem_of_app. by left. }
  split; [|done]. apply Forall_forall. intros s Hin. split; [by apply Hat|by apply Hsound].
Qed.

Lemma inv_compact draw plan maxs now st env committed acked :
  Compact.run_one_plan draw None (as_env st) plan now = (env, Ok committed) → counter_fits st →
  plan ∈ Compact.plan_compaction maxs (m_raw_segments (as_manifest st)) → mergeable draw plan st →
  intact st acked → intact (set_env env st) acked.
Proof.
  intros E Hg Hplan Hm Hi. pose proof Hi as [_ _ Hn Hp].
  destruct (compact_commits draw plan maxs now st env committed acked E Hg Hplan Hm Hi)
    as (segs & rest & meta & cs & Hperm & Hids & Hmeta & Hman & Hst & Hsound & _ & Hload & Hw).
  destruct Hm as (Hf1 & Hf2 & _). assert (sm_segment_id meta = "compacted_" +:+ draw.1) as Hid by (by rewrite Hmeta).
  apply intact_env; try done.
  - by rewrite Hman.
  - by rewrite Hman.
  - rewrite Hman. cbn. rewrite fmap_app. apply NoDup_app.
    split; [|split; [|apply NoDup_singleton]].
    + eapply sublist_NoDup; [exact Hn|]. apply fmap_sublist, sublist_filter.
    + intros id (s & -> & [_ Hin]%list_elem_of_filter)%list_elem_of_fmap Hx%list_elem_of_singleton.
      apply Hf1. rewrite <- Hid, <- Hx. by apply list_elem_of_fmap_2.
  - rewrite Hman. apply (Compact.swap_pending (as_manifest st) plan meta now Hp).
    + rewrite Hid, Hids. intros (s & Hx & Hin)%list_elem_of_fmap. apply Hf1. rewrite Hx. apply list_elem_of_fmap_2.
      rewrite Hperm. apply elem_of_app. by left.
    + intros r Hr. rewrite Hid. by apply Hf2.
Qed.

Lemma inv_sweep grace now st env n acked :
  Compact.sweep_pending_deletions grace now None (as_env st) = (env, Ok n) → counter_fits st →
  intact st acked → intact (set_env env st) acked.
Proof.
  intros E Hg Hi. pose proof Hi as [[_ Hm _ _ _ _ _] Hs Hn Hp].
  destruct (Compact.sweep_effect (as_env st) grace now Hp Hg)
    as (env' & n' & E' & Hraw & Hst & Hp' & _ & _ & Hf & Hload & Hw & Hls & Hbc).
  rewrite E in E'. assert (env' = env) as -> by congruence. clear E'.
  change (fe_manifest (as_env st)) with (as_manifest st) in *. change (fe_files (as_env st)) with (as_files st) in *.
  apply intact_env; try done; [by apply Hload|by rewrite Hst| |]; rewrite Hraw; [by apply sound_files|done].
Qed.

(** ** Requests on the manifest *)
Lemma close_frame now account period st st' r acked :
  Close.handle_close_period None now st account period = (st', Ok r) → counter_fits st →
  intact st acked → reframed st st'.
Proof.
  intros E Hg Hi. pose proof (reframed_refl _ _ Hi) as Hrefl. unfold Close.handle_close_period in E.
  destruct (Close.parsed_period _) as [[y m]| |]; [|done..].
  destruct (Per.find_closed _ _ _ _); [by injection E as <- _|]. destruct (mbind _ _) as [frozen| |]; [|done..].
  unfold Close.close_commit in E. destruct (existsb _ _); [by injection E as <- _|].
  destruct (Man.save _ _ _) as [[manfs m'] res] eqn:Es. destruct res as [[]| |]; [|done..]. injection E as <- _.
  eexists. split; [reflexivity|]. by eapply save_frame.
Qed.

Lemma reopen_frame account period st st' b acked :
  Close.handle_reopen_period None st account period = (st', Ok b) → counter_fits st →
  intact st acked → reframed st st'.
Proof.
  intros E Hg Hi. unfold Close.handle_reopen_period in E. destruct (Close.parsed_period _) as [[y m]| |]; [|done..].
  cbv zeta in E. set (kept := filter _ _) in E. destruct (Nat.ltb_spec 0 (length (m_closed_periods (as_manifest st)) - length kept)).
  - destruct (Man.save _ _ _) as [[manfs m'] res] eqn:Es. destruct res as [[]| |]; [|done..]. injection E as <- _.
    eexists. split; [reflexivity|]. by eapply save_frame.
  - injection E as <- _. assert (kept = m_closed_periods (as_manifest st)) as ->.
    { apply filter_full. fold kept. lia. }
    apply reframed_refl in Hi. destruct st as [[] ? ? ? ? ? ?]. unfold Close.set_manifest, set_env, as_manifest, as_files, as_walfs. cbn.
    by destruct fe_manifest.
Qed.

Lemma rebuild_frame from to st st' n acked :
  Admin.cmd_rebuild_rollups None st from to = (st', Ok n) → counter_fits st → intact st acked → reframed st st'.
Proof.
  intros E Hg Hi. unfold Admin.cmd_rebuild_rollups in E. destruct (Admin.admin_range _ _) as [[from_ms to_ms]| |]; [|done..].
  unfold RW.rebuild_rollups in E. cbv zeta in E. destruct (Man.save _ _ _) as [[manfs m] res] eqn:Es.
  destruct res as [[]| |]; [|done..]. injection E as <- _. eexists. split; [reflexivity|].
  eapply save_frame; [exact Es|..]; by destruct (_ <? _).
Qed.

Lemma step_intact x y : step x y → intact x.1 x.2 → intact y.1 y.2.
Proof.
  destruct 1; cbn [fst snd].
  - by apply inv_write.
  - by eapply inv_tick.
  - by eapply inv_compact.
  - by eapply inv_sweep.
  - intros Hi. by eapply reframed_keeps, close_frame.
  - intros Hi. by eapply reframed_keeps, reopen_frame.
  - intros Hi. by eapply reframed_keeps, rebuild_frame.
Qed.

Lemma steps_intact x y : rtc step x y → intact x.1 x.2 → intact y.1 y.2.
Proof. induction 1 as [|x y z Hs _ IH]; intros Hi; [done|]. by eapply IH, step_intact. Qed.

Lemma fresh_intact cfg now clk :
  durability_mode cfg = Strict → default_bucket_count cfg ≠ 0 →
  ∃ st, Sys.fresh_start size_of_event cfg now clk = Ok st ∧ intact st [].
Proof.
  intros Hmode Hb. destruct (Sys.fresh_inv size_of_event cfg now clk Hmode Hb) as (st & E & Hi & Hr & Hc & _).
  exists st. split; [exact E|]. split; [exact Hi|..].
  - unfold Exec.segs_sound. rewrite Hr. apply Forall_nil_2.
  - rewrite Hr. apply NoDup_nil_2.
  - intros r id Hin. rewrite Hc in Hin. by apply not_elem_of_nil in Hin.
Qed.

(** ** Well-formed events *)

(** Fields within their machine types, and what an event must have. *)
Definition well_typed (e : UsageEvent) : Prop :=
  event_wf e
  ∧ ev_event_id e ≠ "" ∧ ev_account_id e ≠ "" ∧ ev_product_id e ≠ "" ∧ ev_meter_id e ≠ ""
  ∧ 0 < ev_timestamp_ms e ∧ (size (inner (ev_dimensions e)) ≤ 16)%nat
  ∧ (ev_kind e ≠ Usage → is_Some (ev_correction_ref e)).

Lemma admitted_typed st now events :
  ins 64 now → Forall event_wf events → Forall well_typed (Ing.admitted st now events).
Proof.
  intros Hn Hwf. pose proof (Ing.admitted_wf now st events Hn Hwf) as Hw. rewrite Forall_forall in Hw. apply Forall_forall.
  intros e He. split; [by apply Hw|].
  by destruct (Ing.ingest_admits_only_valid now st events e He) as (? & ? & ? & ? & ? & ? & ? & _).
Qed.

Lemma step_typed x y : step x y → Forall well_typed x.2 → Forall well_typed y.2.
Proof.
  destruct 1 as [x y Hs _| | | | | |]; cbn [fst snd]; try done. destruct Hs; cbn [fst snd]; try done.
  intros Ha. apply Forall_app. split; [done|]. by apply admitted_typed.
Qed.

Lemma steps_typed x y : rtc step x y → Forall well_typed x.2 → Forall well_typed y.2.
Proof. induction 1 as [|x y z Hs _ IH]; intros Hi; [done|]. by eapply IH, step_typed. Qed.

(** C24: Only well-formed events exist: in every state the server reaches from
    an empty database in strict mode, without a failing call on a file, with
    drained messages sent in the order of their drains, new segment names,
    rows that fit the format and counters within u64 and no compaction of two
    rows with one event id, every event of every segment, of the messages on
    their way to the flusher and of the memtable has its fields within their
    machine types, event, account, product and meter ids that are not empty, a
    positive timestamp, at most sixteen dimensions, and a reference if it is a
    correction or a retraction. *)
Theorem stored_events_typed cfg now clk st0 st acked :
  durability_mode cfg = Strict → default_bucket_count cfg ≠ 0 →
  Sys.fresh_start size_of_event cfg now clk = Ok st0 →
  rtc step (st0, []) (st, acked) →
  Forall well_typed (Flush.stored (as_files st) (m_raw_segments (as_manifest st)) ++ Ing.buffered st).
Proof.
  intros Hmode Hb H0 Hr. destruct (fresh_intact cfg now clk Hmode Hb) as (st1 & E & Hi). rewrite H0 in E. injection E as <-.
  apply (steps_intact _ _ Hr) in Hi. cbn [fst snd] in Hi. rewrite <- (Sys.si_acked _ _ (in_system _ _ Hi)).
  apply (steps_typed _ _ Hr). constructor.
Qed.

(** The events a query can see: all but the ones on their way to the flusher. *)
Lemma intact_visible st acked :
  intact st acked → acked ≡ₚ Exec.db_events st ++ mjoin (fm_events <$> pending st).
Proof.
  intros [Hi _ _ _]. rewrite (Sys.si_acked _ _ Hi). unfold Exec.db_events, Ing.buffered.
  rewrite <- app_assoc. apply Permutation_app; [done|]. apply Permutation_app_comm.
Qed.

End bill.
End Bill.

(** A request, its flush, and the close of the month it falls in. *)
Module BillExample.
#[local] Existing Instances poly_digest code_bincode stored_codecs poly_digest_ok code_bincode_ok stored_codecs_ok.
#[local] Existing Instances Files.file_segments Files.file_segments_ok text_json text_json_ok.
#[local] Existing Instances ManExample.text_manifest ManExample.text_manifest_ok Per.flat_calendar.
#[local] Existing Instances QueryExample.code_dims QueryExample.code_dims_parse ApiExample.millis.

Definition closing := Close.handle_close_period None 3000 SystemExample.st2 "acct_1" "0002-10".
Definition closed : AppState := closing.1.

Lemma one_month : closing = (closed, Ok (NowClosed 3000 0 (Some (5, 1)))).
Proof. unfold closed. apply injective_projections; cbn [fst snd]; [reflexivity|]. vm_compute. reflexivity. Qed.

Lemma no_segments m m' :
  m_raw_segments m' = [] ∨ (∃ s, m_raw_segments m' = [s]) → m_compacted_replacements m = [] → Bill.names_fresh m m'.
Proof.
  intros Hr Hc. split.
  - destruct Hr as [->|[s ->]]; [apply NoDup_nil_2|apply NoDup_singleton].
  - intros r id Hin. rewrite Hc in Hin. by apply not_elem_of_nil in Hin.
Qed.

Lemma reach_sent : rtc (Bill.step 200) (SystemExample.st0, []) (SystemExample.st1, SystemExample.acked).
Proof.
  eapply rtc_l; [apply (Bill.step_write _ _ _ SystemExample.ingest_step), no_segments; [left|]; vm_compute; reflexivity|].
  apply rtc_once, (Bill.step_write _ _ _ SystemExample.send_step), no_segments; [left|]; vm_compute; reflexivity.
Qed.

Lemma reach : rtc (Bill.step 200) (SystemExample.st0, []) (closed, SystemExample.acked).
Proof.
  etrans; [exact reach_sent|].
  eapply rtc_l.
  { apply (Bill.step_write _ _ _ SystemExample.flush_step), no_segments; [right; eexists|]; vm_compute; reflexivity. }
  apply rtc_once. apply (Bill.step_close _ 3000 "acct_1" "0002-10" _ _ (NowClosed 3000 0 (Some (5, 1)))); [exact one_month|].
  by vm_compute.
Qed.

Definition params : EventsQueryParams := MkEventsParams "0" "7200000" None None.


Lemma stored_events_typed_witness :
  Forall Bill.well_typed (Flush.stored (as_files closed) (m_raw_segments (as_manifest closed)) ++ Ing.buffered closed)
  ∧ SystemExample.acked ≠ [].
Proof.
  split; [|by vm_compute].
  apply (Bill.stored_events_typed 200 SystemExample.cfg 0 (λ _, 0) SystemExample.st0 closed SystemExample.acked).
  - reflexivity.
  - discriminate.
  - exact SystemExample.fresh_ok.
  - exact reach.
Defined.
End BillExample.
