(* ===== verification/Late.v ===== *)
(** * What the rollups account for

    The server's histories with events that arrive late, after the watermark
    has passed their hour: the rollups do not have them, the raw tail of a
    query starts above them, and a rebuild brings them in.  A history carries
    the late events as a list beside the state.  A tick sees the state it read
    ([RollupWorker::tick] without the race of [RW.tick_race_passes_drained])
    and a rebuild starts on the hour and reaches the watermark; requests,
    flushes, crashes, compactions, sweeps, closes and reopens are those of
    [Billing], in any order. *)

From Stdlib Require Import Ascii.
From stdpp Require Import sorting numbers strings base gmap list.
From S2P Require Import Prelude Model Instances Encoding Segment SegmentSpec DedupeIndex SegmentApi.
From S2P Require Import Memtable Dedupe Wal Manifest Period Flusher Compaction State Ingest Recovery System.
From S2P Require Import Rollup RollupWorker Query Sql Api Periods Admin Billing.

Module Late.
Section late.
Context {BL : Blake3} {BN : Bincode} {SJ : SerdeJson} {RS : RawSegments} {MJ : ManifestJson} {CH : Chrono}.
Context {DJ : DimJson} {DP : DimParse} {RF : Rfc3339}.
Context (size_of_event : Z).

Definition watermark (st : AppState) : Z := m_hourly_rollup_ms (as_manifest st).
Definition stored (st : AppState) : list UsageEvent := Flush.stored (as_files st) (m_raw_segments (as_manifest st)).
Definition rollups (st : AppState) : list HourlyRollupRecord :=
  RW.rolled (as_files st) (m_rollup_segments (as_manifest st)).

Definition below (mark : Z) (es : list UsageEvent) : list UsageEvent := filter (λ e, ev_timestamp_ms e < mark) es.
Definition above (mark : Z) (es : list UsageEvent) : list UsageEvent := filter (λ e, mark ≤ ev_timestamp_ms e) es.
Definition on_time (from_ms : Z) (es : list UsageEvent) : Prop := Forall (λ e, from_ms ≤ ev_timestamp_ms e) es.

#[export] Instance on_time_perm from_ms : Proper ((≡ₚ) ==> iff) (on_time from_ms).
Proof. intros l k Hp. unfold on_time. by rewrite Hp. Qed.

(** The visible events the rollup path leaves out: the ones that were stored
    below the watermark, and the buffered ones that are below it. *)
Definition missing (st : AppState) (late : list UsageEvent) : list UsageEvent :=
  late ++ below (watermark st) (mt_events (as_memtable st)).

(** Quantities and rows within their formats, and new file names. *)
Definition rollable (draws : nat → string * option rw_fault) (st : AppState) : Prop :=
  Roll.abs_total (stored st) ≤ i128_max
  ∧ (∀ l, l ⊆+ stored st → Forall Roll.row_fits (Roll.finalize (Roll.build l)))
  ∧ RW.good_rdraws draws
  ∧ (∀ s i, s ∈ m_rollup_segments (as_manifest st) → sm_segment_id s ≠ RW.rdraw_id draws i).

(** The last component collects the late events: a step of the write path
    that moves [new] into segments adds the ones below the watermark, and a
    rebuild takes out the ones it starts below. *)
Abbreviation config := (AppState * list UsageEvent * list UsageEvent)%type.

Inductive step : config → config → Prop :=
| step_write x y new late :
    Sys.step size_of_event x y → Bill.names_fresh (as_manifest x.1) (as_manifest y.1) →
    stored y.1 ≡ₚ stored x.1 ++ new →
    step (x, late) (y, late ++ below (watermark x.1) new)
| step_tick draws rot now st st' stats acked late :
    RW.tick draws None rot now st = (st', Ok stats) → Bill.counter_fits st → active_id (as_wal st) < u64_max →
    rollable draws st → step (st, acked, late) (st', acked, late)
| step_compact draw plan maxs now st env committed acked late :
    Compact.run_one_plan draw None (as_env st) plan now = (env, Ok committed) → Bill.counter_fits st →
    plan ∈ Compact.plan_compaction maxs (m_raw_segments (as_manifest st)) → Bill.mergeable draw plan st →
    step (st, acked, late) (set_env env st, acked, late)
| step_sweep grace now st env n acked late :
    Compact.sweep_pending_deletions grace now None (as_env st) = (env, Ok n) → Bill.counter_fits st →
    step (st, acked, late) (set_env env st, acked, late)
| step_close now account period st st' r acked late :
    Close.handle_close_period None now st account period = (st', Ok r) → Bill.counter_fits st →
    step (st, acked, late) (st', acked, late)
| step_reopen account period st st' b acked late :
    Close.handle_reopen_period None st account period = (st', Ok b) → Bill.counter_fits st →
    step (st, acked, late) (st', acked, late)
| step_rebuild from to from_ms to_ms st st' n acked late :
    Admin.cmd_rebuild_rollups None st from to = (st', Ok n) → Bill.counter_fits st →
    rfc3339_ms from = Some from_ms → rfc3339_ms to = Some to_ms →
    (HOUR_MS | from_ms) → 0 ≤ from_ms → watermark st ≤ to_ms →
    step (st, acked, late) (st', acked, below from_ms late).

Lemma late_is_step x y : step x y → Bill.step size_of_event x.1 y.1.
Proof. destruct 1; [by econstructor|by eapply Bill.step_tick|by econstructor..]. Qed.

(** ** The invariant *)
Record accounted (st : AppState) (acked late : list UsageEvent) : Prop := {
  ac_intact : Bill.intact st acked;
  ac_typed : Forall Bill.well_typed acked;
  ac_watermark : 0 ≤ watermark st;
  ac_late : Forall (λ e, ev_timestamp_ms e < watermark st) late;
  ac_rollups : ∃ kept, stored st ≡ₚ kept ++ late ∧ RW.rollups_of st kept;
  ac_hours : Forall (λ s, Admin.hourly s ∧ 0 ≤ sm_min_timestamp_ms s < watermark st)
               (m_rollup_segments (as_manifest st));
  ac_mins : Forall (λ s, 0 ≤ sm_min_timestamp_ms s) (m_raw_segments (as_manifest st));
  ac_abs sel : RW.row_abs sel (rollups st) ≤ RW.raw_abs sel 0 (watermark st) (stored st);
}.

(** What leaves the rollups alone. *)
Record rollup_frame (st st' : AppState) : Prop := {
  rl_segments : m_rollup_segments (as_manifest st') = m_rollup_segments (as_manifest st);
  rl_watermark : watermark st' = watermark st;
  rl_buckets : m_bucket_count (as_manifest st') = m_bucket_count (as_manifest st);
  rl_files s : s ∈ m_rollup_segments (as_manifest st) →
    as_files st' !! rseg_path (sm_segment_id s) = as_files st !! rseg_path (sm_segment_id s);
}.

Lemma frame_rollups st st' : rollup_frame st st' → rollups st' = rollups st.
Proof. intros [E _ _ Hf]. unfold rollups. rewrite E. by apply RW.rolled_same. Qed.

Lemma split_at mark (es : list UsageEvent) : es ≡ₚ above mark es ++ below mark es.
Proof.
  unfold above, below. induction es as [|e es IH]; [done|]. rewrite !filter_cons.
  destruct (decide (mark ≤ ev_timestamp_ms e)), (decide (ev_timestamp_ms e < mark)); try lia; cbn; [by f_equiv|].
  rewrite <- Permutation_middle. by f_equiv.
Qed.

Lemma above_le mark es : Forall (λ e, mark ≤ ev_timestamp_ms e) (above mark es).
Proof. apply Forall_forall. by intros e [? _]%list_elem_of_filter. Qed.

Lemma below_lt mark es : Forall (λ e, ev_timestamp_ms e < mark) (below mark es).
Proof. apply Forall_forall. by intros e [? _]%list_elem_of_filter. Qed.

Lemma below_none mark es : on_time mark es → below mark es = [].
Proof. intros H. apply filter_none. eapply Forall_impl; [exact H|]. cbn. lia. Qed.

Lemma raw_abs_grows sel from to es es' new :
  es' ≡ₚ es ++ new → RW.raw_abs sel from to es ≤ RW.raw_abs sel from to es'.
Proof.
  intros ->. apply sumZ_app_le. intros e. repeat case_match; lia.
Qed.

(** What is stored below the watermark, with the rollups left alone, is late. *)
Lemma frame_split st st' kept late new :
  rollup_frame st st' → stored st ≡ₚ kept ++ late → RW.rollups_of st kept → stored st' ≡ₚ stored st ++ new →
  ∃ kept', stored st' ≡ₚ kept' ++ late ++ below (watermark st) new ∧ RW.rollups_of st' kept'.
Proof.
  intros Hf Hk Hro Hst. pose proof (frame_rollups _ _ Hf) as Hr. destruct Hf as [Hs Hw Hb Hfi].
  exists (kept ++ above (watermark st) new). split.
  { rewrite Hst, Hk, (split_at (watermark st) new) at 1. rewrite <- !app_assoc. f_equiv.
    rewrite !app_assoc. f_equiv. apply Permutation_app_comm. }
  apply (RW.rollups_of_above _ kept _ (above (watermark st) new)); [|done|fold (watermark st'); rewrite Hw; apply above_le].
  destruct Hro as [Hal Htot Hrows]. fold (watermark st) in *. split; fold (watermark st').
  - by rewrite Hw.
  - intros sel. cbv zeta. rewrite Hw. fold (rollups st'). rewrite Hr. apply Htot.
  - rewrite Hb, Hs. rewrite Forall_forall in Hrows. apply Forall_forall. intros s Hin.
    rewrite (RW.rollup_rows_same (as_files st)) by (by apply Hfi). by apply Hrows.
Qed.

(** A step that leaves the rollups alone. *)
Lemma frame_accounted st st' acked acked' late new :
  accounted st acked late → Bill.intact st' acked' → Forall Bill.well_typed acked' → rollup_frame st st' →
  stored st' ≡ₚ stored st ++ new →
  Forall (λ s, 0 ≤ sm_min_timestamp_ms s) (m_raw_segments (as_manifest st')) →
  accounted st' acked' (late ++ below (watermark st) new).
Proof.
  intros [Hi Hty H0 Hl (kept & Hk & Hro) Hh Hm Habs] Hi' Hty' Hf Hst Hmins.
  pose proof (frame_rollups _ _ Hf) as Hr. pose proof (frame_split _ _ _ _ _ Hf Hk Hro Hst) as Hkept.
  destruct Hf as [Hs Hw Hb Hfi]. split; try done; rewrite ?Hw; try done.
  - apply Forall_app. split; [done|apply below_lt].
  - by rewrite Hs.
  - intros sel. rewrite Hr. etrans; [apply Habs|]. by eapply raw_abs_grows.
Qed.

Lemma frame_quiet st st' acked late :
  accounted st acked late → Bill.intact st' acked → rollup_frame st st' → stored st' ≡ₚ stored st →
  Forall (λ s, 0 ≤ sm_min_timestamp_ms s) (m_raw_segments (as_manifest st')) → accounted st' acked late.
Proof.
  intros Ht Hi Hf Hst Hm. rewrite <- (app_nil_r late).
  apply (frame_accounted st st' acked acked late []); try done; [apply Ht|by rewrite app_nil_r].
Qed.

(** ** Names and metadata *)
Lemma rseg_not_idx a b : rseg_path a ≠ Idx.index_path b.
Proof.
  intros E. apply (f_equal (str_strip_suffix ".rseg")) in E. unfold rseg_path, Idx.index_path in E.
  rewrite str_strip_suffix_app in E. unfold str_strip_suffix in E.
  rewrite list_ascii_append, reverse_app in E. discriminate E.
Qed.

Lemma meta_fold_min a batch :
  0 ≤ ma_min_ts a → on_time 0 batch → 0 ≤ ma_min_ts (foldl meta_step a batch).
Proof.
  revert a. induction batch as [|e batch IH]; intros a Ha H; [done|]. apply Forall_cons in H as [He H].
  apply IH; [|done]. cbn. by destruct (_ <? _).
Qed.

Lemma built_min id batch bucket cs : on_time 0 batch → 0 ≤ sm_min_timestamp_ms (build_segment_meta id batch bucket cs).
Proof. intros H. cbn. destruct (_ =? _); [done|]. by apply meta_fold_min. Qed.

Lemma typed_times es : Forall Bill.well_typed es → on_time 0 es.
Proof. intros H. eapply Forall_impl; [exact H|]. intros e (_ & _ & _ & _ & _ & Ht & _). cbn. lia. Qed.

Lemma stored_times st acked late : accounted st acked late → on_time 0 (stored st) ∧ on_time 0 (Ing.buffered st).
Proof.
  intros Ht. pose proof (typed_times _ (ac_typed _ _ _ Ht)) as H.
  rewrite (Sys.si_acked _ _ (Bill.in_system _ _ (ac_intact _ _ _ Ht))) in H. by apply Forall_app in H.
Qed.

Context {SJok : SerdeJsonOk} {RSok : RawSegmentsOk} {MJok : ManifestJsonOk}.

(** ** The write path *)

(** A step that keeps the manifest and the directory. *)
Lemma same_frame st st' :
  as_manifest st' = as_manifest st → as_files st' = as_files st → rollup_frame st st'.
Proof. intros Em Ef. split; unfold watermark; rewrite ?Em, ?Ef; done. Qed.

Lemma same_data st st' acked late :
  accounted st acked late → Bill.intact st' acked → as_manifest st' = as_manifest st → as_files st' = as_files st →
  accounted st' acked late.
Proof.
  intros Ht Hi Em Ef. apply (frame_quiet st); [done|done|by apply same_frame| |].
  - unfold stored. by rewrite Em, Ef.
  - rewrite Em. apply (ac_mins _ _ _ Ht).
Qed.

Lemma flush_frame now draws msg q st acked late :
  accounted st acked late → Flush.good_draws draws → Flush.fresh_for draws (as_manifest st) →
  Forall (λ p, seg_fits (sort_events_canonical p.2)) (Flush.flush_groups (as_env st) (fm_events msg)) →
  Bill.counter_fits st → on_time 0 (fm_events msg) →
  let st' := Sys.flush_one size_of_event now draws msg q st in
  rollup_frame st st'
  ∧ Forall (λ s, 0 ≤ sm_min_timestamp_ms s) (m_raw_segments (as_manifest st')).
Proof.
  intros Ht Hd Hfr Hfit Hg Hts. unfold Sys.flush_one, Flush.handle_message. case_bool_decide as He; cbv zeta.
  { split; [by split|apply (ac_mins _ _ _ Ht)]. }
  destruct (Flush.flush_effect draws (as_env st) (fm_events msg) (fm_sealed_wal_id msg) Hd Hfr Hfit Hg)
    as (env & E & Hst & _ & _ & _ & _ & Hbc & _).
  destruct (Flush.flush_success draws (as_env st) (fm_events msg) (fm_sealed_wal_id msg) Hd Hfr Hfit Hg)
    as (env2 & new & E2 & Hraw & Hw & Hsame & Hm & _).
  rewrite E2 in E. injection E as <-. rewrite E2. unfold stored, watermark, as_manifest, as_files. cbn [as_env].
  split.
  - split; unfold watermark, as_manifest, as_files; cbn [as_env]; [|..|done|].
    + rewrite Hm. unfold Flush.commit_manifest. cbv zeta. by destruct (_ <? _).
    + rewrite Hm. unfold Flush.commit_manifest. cbv zeta. by destruct (_ <? _).
    + intros s _. apply Hsame. intros j. split; [apply not_eq_sym, RW.seg_path_not_rseg|apply rseg_not_idx].
  - rewrite Hraw. apply Forall_app. split; [apply (ac_mins _ _ _ Ht)|].
    apply Forall_forall. intros s Hs. apply list_elem_of_lookup in Hs as (i & Hi).
    destruct (Forall2_lookup_r _ _ _ _ _ Hw Hi) as (p & Hp & _ & cs & ->). apply built_min.
    unfold on_time, sort_events_canonical. rewrite sort_by_perm. apply Forall_forall. intros e Hep.
    unfold on_time in Hts. rewrite Forall_forall in Hts. apply Hts.
    rewrite <- (group_by_key_perm (Flush.bucket_of (Z.max (m_bucket_count (fe_manifest (as_env st))) 1)) (fm_events msg)).
    apply list_elem_of_join. exists p.2. split; [done|]. apply list_elem_of_fmap_2. by eapply list_elem_of_lookup_2.
Qed.

Lemma write_frame x y late :
  Sys.step size_of_event x y → accounted x.1 x.2 late →
  rollup_frame x.1 y.1 ∧ Forall (λ s, 0 ≤ sm_min_timestamp_ms s) (m_raw_segments (as_manifest y.1)).
Proof.
  assert (∀ st st', as_manifest st' = as_manifest st → as_files st' = as_files st → accounted st x.2 late →
    rollup_frame st st' ∧ Forall (λ s, 0 ≤ sm_min_timestamp_ms s) (m_raw_segments (as_manifest st'))) as Hsame.
  { intros st st' Em Ef Ht. split; [by apply same_frame|]. rewrite Em. apply (ac_mins _ _ _ Ht). }
  intros Hstep Ht. destruct Hstep; cbn [fst snd] in *.
  - apply Bill.ingest_frame in H as [E1 E2]. by apply Hsame.
  - apply Bill.drain_frame in H as [E1 E2]. by apply (Hsame st).
  - destruct (Sys.send_same 0 st) as (E & _). apply (Hsame st); [..|exact Ht]; unfold as_manifest, as_files; by rewrite E.
  - apply (flush_frame now draws msg q st acked late); try done.
    pose proof (proj2 (stored_times _ _ _ Ht)) as Hb. unfold Ing.buffered in Hb. rewrite (Sys.pending_head _ _ _ H), fmap_cons in Hb.
    by apply Forall_app in Hb as [[? _]%Forall_app _].
  - destruct (Sys.inv_crash size_of_event now clk st acked fs' (Bill.in_system _ _ (ac_intact _ _ _ Ht)) H)
      as (st1 & E & _ & _ & Em & Ef & _). rewrite H0 in E. injection E as <-. by apply (Hsame st).
Qed.

(** ** Ticks *)

(** Every queued message has a sealed log file behind the last flushed one:
    when nothing is in flight the queue is empty. *)
Lemma idle_queue st acked : Sys.sys_inv st acked → RW.in_flight (RW.reads_of st) = false → pending st = [].
Proof.
  intros Hi Hf. destruct (Sys.si_logged _ _ Hi) as (chunks & cur & es & Hd & Hq & _ & _ & _ & Hlast).
  destruct Hq as [|msg ch q chunks [_ (ch' & es' & ->)] _]; [done|]. exfalso.
  unfold RW.in_flight in Hf. cbn [RW.reads_of RW.tr_manifest RW.tr_active_wal_id] in Hf. zbool.
  change (mjoin ((ch' ++ [(fm_sealed_wal_id msg, es')]) :: chunks))
    with ((ch' ++ [(fm_sealed_wal_id msg, es')]) ++ mjoin chunks) in Hd, Hlast.
  pose proof (Sys.dl_sorted _ _ Hd) as Hs. rewrite !app_assoc in Hs. apply Sys.sorted_last_max in Hs.
  rewrite <- !app_assoc in Hs, Hlast. apply Forall_app in Hs as [_ Hs]. apply Forall_app in Hlast as [_ Hl].
  apply Forall_cons in Hs as [Hs _]. apply Forall_cons in Hl as [Hl _]. cbn [fst] in *. lia.
Qed.

Lemma start_facts st acked late :
  accounted st acked late →
  0 ≤ RW.start_watermark (as_manifest st) ∧ (HOUR_MS | RW.start_watermark (as_manifest st))
  ∧ Forall (λ s, sm_min_timestamp_ms s < RW.start_watermark (as_manifest st)) (m_rollup_segments (as_manifest st)).
Proof.
  intros [_ _ H0 _ (kept & _ & [Hal _ _]) Hh Hm _]. unfold RW.start_watermark, watermark in *. case_match eqn:Ew; cycle 1.
  { split; [done|]. split; [done|]. eapply Forall_impl; [exact Hh|]. cbn. lia. }
  zbool. split; [|split; [apply RW.floor_hour_divides|]].
  - apply Z.mul_nonneg_nonneg; [|done]. apply Z.quot_pos; [|done].
    destruct (sm_min_timestamp_ms <$> m_raw_segments (as_manifest st)) as [|x l] eqn:El; [done|]. cbn.
    destruct (Mem.foldl_min_spec x l) as (_ & _ & Hin). rewrite <- El in Hin.
    apply list_elem_of_fmap in Hin as (s & -> & Hs). rewrite Forall_forall in Hm. by apply Hm.
  - eapply Forall_impl; [exact Hh|]. cbn. intros s [_ Hs]. exfalso. lia.
Qed.

Lemma late_ready draws st acked late : accounted st acked late → Bill.counter_fits st → rollable draws st → RW.rollup_ready draws st.
Proof.
  intros Ht Hg (Hr & Hfit & Hd & Hf). destruct (start_facts st acked late Ht) as (_ & Hal & Hro).
  split; try done. eapply Forall_impl; [exact (Bill.in_sound _ _ (ac_intact _ _ _ Ht))|].
  intros s [Hat [_ Hms]]. split; [done|]. intros e He. by destruct (Hms e He) as [[? _] _].
Qed.

Context {BLok : Blake3Ok} {BNok : BincodeOk}.

Lemma advancing_tick draws rot now st acked late :
  accounted st acked late → Bill.counter_fits st → rollable draws st →
  RW.in_flight (RW.reads_of st) = false →
  RW.needs_force_drain (memtable_max_age_ms (as_config st)) now (RW.reads_of st) = false →
  RW.start_watermark (as_manifest st) < RW.target_hour (rollup_safety_lag_ms (as_config st)) now (RW.reads_of st) →
  ∃ st' stats, RW.tick draws None rot now st = (st', Ok stats) ∧ (Bill.intact st' acked → accounted st' acked late).
Proof.
  intros Ht Hg Hro Hif Hfd Hlt. pose proof Ht as [Hi Hty H0 Hl (kept & Hk & Hs) Hh Hm Habs].
  destruct (start_facts st acked late Ht) as (Hs0 & Hal & _). destruct (stored_times _ _ _ Ht) as [Hts Hb].
  pose proof (late_ready draws st acked late Ht Hg Hro) as Hready. pose proof (idle_queue _ _ (Bill.in_system _ _ Hi) Hif) as Hq.
  unfold Ing.buffered in Hb. rewrite Hq in Hb.
  destruct (RW.tick_exact draws rot now st kept late Hready Hs Hk Hl Hif Hfd Hb Hts H0 Hs0 Hlt)
    as (st' & stats & E & Hw & Hs' & _ & Hst & _ & _ & Hraw & Hwm & Hsegs & Habs').
  exists st', stats. split; [exact E|]. intros Hi'. fold (watermark st) in Hw. fold (watermark st') in Hw, Hwm, Hsegs, Habs'.
  fold (stored st) (stored st') in Hst. split; try done.
  - lia.
  - eapply Forall_impl; [exact Hl|]. cbn. lia.
  - exists kept. by rewrite Hst.
  - eapply Forall_impl; [exact Hsegs|]. intros s [Hin|[(k & Hk' & Hlt')%RW.hours_between_elem Hmax]].
    + rewrite Forall_forall in Hh. destruct (Hh s Hin) as [? ?]. split; [done|lia].
    + split; [split|]; [|done|unfold HOUR_MS in *; lia]. rewrite Hk'. apply Z.divide_add_r; [done|]. apply Z.divide_factor_l.
  - by rewrite Hraw.
  - intros sel. rewrite Hst. etrans; [apply Habs'|]. fold (rollups st) (stored st). specialize (Habs sel).
    pose proof (RW.totals_extend (λ e, if sel (Roll.event_key e) then Z.abs (ev_quantity e) else 0) st (watermark st') (stored st)
      (RW.ready_segments _ _ Hready) H0 ltac:(lia) Hts (λ e He, He)) as Hx.
    unfold RW.raw_abs in *. fold (watermark st) in Hx. lia.
Qed.

Lemma late_tick draws rot now st st' stats acked late :
  RW.tick draws None rot now st = (st', Ok stats) → Bill.counter_fits st → rollable draws st →
  Bill.intact st' acked → accounted st acked late → accounted st' acked late.
Proof.
  intros E Hg Hro Hi' Ht. pose proof E as E0. unfold RW.tick, RW.tick_with in E0.
  destruct (RW.in_flight _) eqn:Hif; [by injection E0 as <- _|].
  destruct (RW.needs_force_drain _ _ _) eqn:Hfd.
  - unfold RW.force_drain_memtable in E0. destruct (Mem.is_empty _); [by injection E0 as <- _|].
    destruct (drain_and_rotate _ _ _ _) as [st1 [msg|e|]] eqn:Ed; [|done..]. injection E0 as <- _.
    apply Bill.drain_frame in Ed as [E1 E2]. by apply (same_data st).
  - destruct (Z.leb_spec (RW.target_hour (rollup_safety_lag_ms (as_config st)) now (RW.reads_of st))
      (RW.start_watermark (as_manifest st))) as [Hle|Hlt].
    { cbn [RW.reads_of RW.tr_manifest] in E0. rewrite (proj2 (Z.leb_le _ _)) in E0 by done. by injection E0 as <- _. }
    destruct (advancing_tick draws rot now st acked late Ht Hg Hro Hif Hfd Hlt) as (st1 & stats1 & E1 & H).
    rewrite E in E1. injection E1 as <- _. by apply H.
Qed.

(** ** Compaction *)
Lemma compact_rseg draw sfault env plan now env' r id :
  Compact.run_one_plan draw sfault env plan now = (env', r) →
  fe_files env' !! rseg_path id = fe_files env !! rseg_path id.
Proof.
  intros E. eapply Compact.run_one_plan_other; [exact E|apply not_eq_sym, RW.seg_path_not_rseg|apply rseg_not_idx].
Qed.

Lemma late_compact draw plan maxs now st env committed acked late :
  Compact.run_one_plan draw None (as_env st) plan now = (env, Ok committed) → Bill.counter_fits st →
  plan ∈ Compact.plan_compaction maxs (m_raw_segments (as_manifest st)) → Bill.mergeable draw plan st →
  Bill.intact (set_env env st) acked → accounted st acked late → accounted (set_env env st) acked late.
Proof.
  intros E Hg Hplan Hmg Hi' Ht.
  destruct (Bill.compact_commits draw plan maxs now st env committed acked E Hg Hplan Hmg (ac_intact _ _ _ Ht))
    as (segs & rest & meta & cs & Hperm & _ & Hmeta & Hman & Hst & _).
  apply (frame_quiet st); try done.
  - split; unfold watermark, as_manifest, as_files; cbn [as_env set_env]; [by rewrite Hman..|].
    intros s _. by eapply compact_rseg.
  - change (as_manifest (set_env env st)) with (fe_manifest env). rewrite Hman. cbn. apply Forall_app. split.
    + pose proof (ac_mins _ _ _ Ht) as Hm. rewrite Forall_forall in Hm. apply Forall_forall.
      intros s [_ Hin]%list_elem_of_filter. by apply Hm.
    + apply Forall_singleton. rewrite Hmeta. apply built_min. unfold on_time.
      pose proof (proj1 (stored_times _ _ _ Ht)) as Hts. unfold on_time, stored in Hts.
      rewrite (Compact.stored_perm (as_files st) _ _ Hperm), Flush.stored_app in Hts. apply Forall_app in Hts as [Hts _].
      rewrite Forall_forall in Hts. apply Forall_forall. intros e He. apply Hts.
      rewrite <- (sort_by_perm canonical_cmp). eapply elem_of_sublist; [exact He|]. apply dedup_by_sublist.
Qed.

Lemma late_sweep grace now st env n acked late :
  Compact.sweep_pending_deletions grace now None (as_env st) = (env, Ok n) → Bill.counter_fits st →
  Bill.intact (set_env env st) acked → accounted st acked late → accounted (set_env env st) acked late.
Proof.
  intros E Hg Hi' Ht. pose proof (ac_intact _ _ _ Ht) as [_ _ _ Hp].
  destruct (Compact.sweep_effect (as_env st) grace now Hp Hg) as (env' & n' & E' & Hraw & Hst & _ & _ & Hf & _ & _ & _ & _ & Hbc).
  rewrite E in E'. assert (env' = env) as -> by congruence. clear E'.
  apply (frame_quiet st); try done.
  - assert (m_rollup_segments (fe_manifest env) = m_rollup_segments (as_manifest st)
            ∧ m_hourly_rollup_ms (fe_manifest env) = m_hourly_rollup_ms (as_manifest st)) as [H1 H2].
    { unfold Compact.sweep_pending_deletions in E. case_bool_decide; [by injection E as <- _|].
      destruct (Man.save_then_load None (fe_manfs (as_env st)) (set_replacements
        (filter (λ r, (rp_committed_at_ms r, rp_old_segments r) ∉ ((λ x, (rp_committed_at_ms x, rp_old_segments x)) <$>
           filter (λ r, Compact.finalizable (now - grace) r = true) (m_compacted_replacements (fe_manifest (as_env st)))))
           (m_compacted_replacements (fe_manifest (as_env st)))) (fe_manifest (as_env st)))) as (manfs & Es & _); [exact Hg|].
      rewrite Es in E. by injection E as <- _. }
    split; [done|done|done|]. intros s _. change (as_files (set_env env st)) with (fe_files env). rewrite Hf.
    rewrite decide_False; [done|]. intros (id & Heq & _)%list_elem_of_fmap. symmetry in Heq. by apply RW.seg_path_not_rseg in Heq.
  - unfold stored, as_files, as_manifest. cbn [as_env set_env]. by rewrite Hst.
  - change (as_manifest (set_env env st)) with (fe_manifest env). rewrite Hraw. apply (ac_mins _ _ _ Ht).
Qed.

(** ** Requests on the manifest *)
Lemma saved_manifest fs m manfs m' :
  Man.save None fs m = (manfs, m', Ok tt) → 0 ≤ m_current_generation m < u64_max →
  m' = set_generation (m_current_generation m + 1) m.
Proof. intros E Hg. destruct (Man.save_then_load None fs m Hg) as (fs' & E' & _). rewrite E in E'. by injection E'. Qed.

(** A manifest with the same segments and watermark. *)
Lemma manifest_accounted st m manfs acked late :
  m_rollup_segments m = m_rollup_segments (as_manifest st) → m_hourly_rollup_ms m = watermark st →
  m_bucket_count m = m_bucket_count (as_manifest st) → m_raw_segments m = m_raw_segments (as_manifest st) →
  Bill.intact (Close.set_manifest m manfs st) acked → accounted st acked late → accounted (Close.set_manifest m manfs st) acked late.
Proof.
  intros H1 H2 H3 H4 Hi Ht. apply (frame_quiet st); [done|done|by split| |].
  - unfold stored, Close.set_manifest, as_files, as_manifest. cbn. by rewrite H4.
  - change (as_manifest (Close.set_manifest m manfs st)) with m. rewrite H4. apply (ac_mins _ _ _ Ht).
Qed.

Lemma late_close now account period st st' r acked late :
  Close.handle_close_period None now st account period = (st', Ok r) → Bill.counter_fits st →
  Bill.intact st' acked → accounted st acked late → accounted st' acked late.
Proof.
  intros E Hg Hi Ht. unfold Close.handle_close_period in E. destruct (Close.parsed_period _) as [[y m]| |]; [|done..].
  destruct (Per.find_closed _ _ _ _); [by injection E as <- _|]. destruct (mbind _ _) as [frozen| |]; [|done..].
  unfold Close.close_commit in E. destruct (existsb _ _); [by injection E as <- _|].
  destruct (Man.save _ _ _) as [[manfs m'] res] eqn:Es. destruct res as [[]| |]; [|done..]. injection E as <- _.
  apply saved_manifest in Es as ->; [|exact Hg]. by apply manifest_accounted.
Qed.

Lemma late_reopen account period st st' b acked late :
  Close.handle_reopen_period None st account period = (st', Ok b) → Bill.counter_fits st →
  Bill.intact st' acked → accounted st acked late → accounted st' acked late.
Proof.
  intros E Hg Hi Ht. unfold Close.handle_reopen_period in E. destruct (Close.parsed_period _) as [[y m]| |]; [|done..].
  cbv zeta in E. destruct (_ <? _)%nat; [|injection E as <- _; by apply manifest_accounted].
  destruct (Man.save _ _ _) as [[manfs m'] res] eqn:Es. destruct res as [[]| |]; [|done..]. injection E as <- _.
  apply saved_manifest in Es as ->; [|exact Hg]. by apply manifest_accounted.
Qed.

Lemma rebuild_behind from to from_ms to_ms st st' n acked late :
  Admin.cmd_rebuild_rollups None st from to = (st', Ok n) → Bill.counter_fits st →
  rfc3339_ms from = Some from_ms → rfc3339_ms to = Some to_ms → watermark st ≤ from_ms →
  Bill.intact st' acked → accounted st acked late → accounted st' acked late.
Proof.
  intros E Hg Hf Hto Hge Hi Ht. pose proof Ht as [_ _ _ _ (kept & _ & [[k Hk] _ _]) Hh _ _].
  unfold Admin.cmd_rebuild_rollups, Admin.admin_range, Api.time_range in E. rewrite Hf, Hto in E.
  cbn [ok_or mbind outcome_bind] in E. unfold RW.rebuild_rollups in E. cbv zeta in E.
  change (fe_manifest (as_env st)) with (as_manifest st) in E. rewrite filter_all in E; cycle 1.
  { eapply Forall_impl; [exact Hh|]. intros s [[[j Hj] Hmax] Hr]. rewrite (proj2 (Z.leb_gt from_ms (sm_max_timestamp_ms s)));
      [by rewrite andb_false_r|]. unfold watermark, HOUR_MS in *. lia. }
  cbn [m_hourly_rollup_ms set_rollup_segments] in E. rewrite (proj2 (Z.ltb_ge _ _)) in E by done.
  destruct (Man.save _ _ _) as [[manfs m'] res] eqn:Es. destruct res as [[]| |]; [|done..]. injection E as <- _.
  apply saved_manifest in Es as ->; [|exact Hg]. by apply manifest_accounted.
Qed.

(** A rebuild behind the watermark drops nothing; one that starts below it
    leaves exact rollups up to where it starts, and late events from there on
    are in the raw tail again. *)
Lemma late_rebuild from to from_ms to_ms st st' n acked late :
  Admin.cmd_rebuild_rollups None st from to = (st', Ok n) → Bill.counter_fits st →
  rfc3339_ms from = Some from_ms → rfc3339_ms to = Some to_ms → (HOUR_MS | from_ms) → 0 ≤ from_ms → watermark st ≤ to_ms →
  Bill.intact st' acked → accounted st acked late → accounted st' acked (below from_ms late).
Proof.
  intros E Hg Hf Hto Hal H0 Hw Hi Ht. destruct (Z.lt_ge_cases from_ms (watermark st)) as [Hlt|Hge]; cycle 1.
  { unfold below. rewrite filter_all; [by eapply rebuild_behind|].
    eapply Forall_impl; [exact (ac_late _ _ _ Ht)|]. cbn. lia. }
  pose proof Ht as [_ Hty Hwm Hl (kept & Hk & Hs) Hh Hm Habs].
  assert (Forall Admin.hourly (m_rollup_segments (as_manifest st))) as Hhr.
  { eapply Forall_impl; [exact Hh|]. by intros s [? _]. }
  destruct (Admin.rebuild_exact st kept from to from_ms to_ms) as (st1 & n1 & E1 & Hw1 & Hs1 & _ & _ & Ef & Er & Ek & _); try done.
  rewrite E in E1. injection E1 as <- _. fold (watermark st') in Hw1.
  assert (stored st' = stored st) as Est' by (unfold stored; by rewrite Ef, Er).
  split; try done; rewrite ?Hw1; try done.
  - apply below_lt.
  - exists (kept ++ above from_ms late). split.
    + rewrite Est', Hk, <- app_assoc. f_equiv. apply split_at.
    + eapply RW.rollups_of_above; [exact Hs1|done|]. fold (watermark st'). rewrite Hw1. apply above_le.
  - rewrite Ek. rewrite Forall_forall in Hh. apply Forall_forall. intros s [Hkp Hin]%list_elem_of_filter.
    destruct (Hh s Hin) as [[Hd Hmax] Hr]. split; [by split|]. unfold Admin.kept_by in Hkp.
    destruct (Z.ltb_spec (sm_min_timestamp_ms s) to_ms), (Z.leb_spec from_ms (sm_max_timestamp_ms s)); try done;
      unfold HOUR_MS in *; lia.
  - by rewrite Er.
  - intros sel. rewrite Est'. unfold rollups. rewrite Ef, Ek. unfold RW.row_abs, RW.raw_abs.
    rewrite (Admin.cut_rows (λ r, Z.abs (rr_quantity_sum r)) sel from_ms to_ms st kept Hs ltac:(unfold watermark in *; lia) Hal Hhr).
    rewrite <- (Admin.cut_events (λ e, Z.abs (ev_quantity e)) sel from_ms (watermark st)) by (done || lia).
    exact (Habs (Admin.cut from_ms sel)).
Qed.

(** ** All steps *)
Lemma step_accounted x y : step x y → accounted x.1.1 x.1.2 x.2 → accounted y.1.1 y.1.2 y.2.
Proof.
  intros Hstep Ht. pose proof (Bill.step_intact _ _ _ (late_is_step _ _ Hstep) (ac_intact _ _ _ Ht)) as Hi.
  pose proof (Bill.step_typed _ _ _ (late_is_step _ _ Hstep) (ac_typed _ _ _ Ht)) as Hty.
  destruct Hstep; cbn [fst snd] in *.
  - destruct (write_frame x y late H Ht) as [Hf Hm]. by eapply frame_accounted.
  - by eapply late_tick.
  - by eapply late_compact.
  - by eapply late_sweep.
  - by eapply late_close.
  - by eapply late_reopen.
  - by eapply late_rebuild.
Qed.

Lemma steps_accounted x y : rtc step x y → accounted x.1.1 x.1.2 x.2 → accounted y.1.1 y.1.2 y.2.
Proof. induction 1 as [|x y z Hs _ IH]; intros Hi; [done|]. by eapply IH, step_accounted. Qed.

Lemma fresh_accounted cfg now clk :
  durability_mode cfg = Strict → default_bucket_count cfg ≠ 0 →
  ∃ st, Sys.fresh_start size_of_event cfg now clk = Ok st ∧ accounted st [] [].
Proof.
  intros Hmode Hb. destruct (Bill.fresh_intact size_of_event cfg now clk Hmode Hb) as (st & E & Hi).
  destruct (Sys.fresh_inv size_of_event cfg now clk Hmode Hb) as (st1 & E1 & Hs & Hr & _ & Hro & Hw).
  rewrite E in E1. injection E1 as <-. exists st. split; [exact E|].
  pose proof (Sys.si_acked _ _ Hs) as Ha. symmetry in Ha. apply Permutation_nil_r, app_eq_nil in Ha as [Hst Hbu].
  split; unfold watermark, rollups, stored; rewrite ?Hro, ?Hw, ?Hst, ?Hr; try done.
  exists []. split; [done|]. split; rewrite ?Hro, ?Hw; [apply Z.divide_0_r|done|constructor].
Qed.

Lemma sum_all (f : UsageEvent → Z) wm es :
  (∀ e, 0 ≤ f e) → sumZ (λ e, if RW.in_window 0 wm e then f e else 0) es ≤ sumZ f es.
Proof. intros H. apply sumZ_mono. intros e _. specialize (H e). by destruct (RW.in_window 0 wm e). Qed.

(** The rollup path accounts for all visible events but the missing ones, and
    within half of i128 the totals it computes are exact. *)
Lemma visible_fits st kept late :
  Exec.segs_sound st → stored st ≡ₚ kept ++ late → RW.rollups_of st kept →
  Forall (λ e, ev_timestamp_ms e < watermark st) late → on_time 0 (stored st) → on_time 0 (mt_events (as_memtable st)) →
  (∀ sel, RW.row_abs sel (rollups st) ≤ RW.raw_abs sel 0 (watermark st) (stored st)) →
  2 * Roll.abs_total (Exec.db_events st) ≤ i128_max →
  ∃ prompt, Exec.db_events st ≡ₚ prompt ++ missing st late ∧ Api.path_fit st prompt.
Proof.
  intros Hs Hk Hro Hl Hts Hbt Habs Hb. exists (kept ++ above (watermark st) (mt_events (as_memtable st))).
  assert (Exec.db_events st ≡ₚ (kept ++ above (watermark st) (mt_events (as_memtable st))) ++ missing st late) as Hdb.
  { unfold Exec.db_events, missing. fold (stored st). rewrite Hk, (split_at (watermark st) (mt_events (as_memtable st))) at 1.
    rewrite <- !app_assoc. f_equiv. rewrite !app_assoc. f_equiv. apply Permutation_app_comm. }
  split; [exact Hdb|]. split; [done|split| |].
  - eapply RW.rollups_of_above; [exact Hro|done|apply above_le].
  - unfold Exec.db_events. fold (stored st). rewrite Hk, !filter_app. fold (watermark st). rewrite (filter_none _ late).
    + rewrite app_nil_r. f_equiv. unfold above. by rewrite list_filter_filter_l.
    + eapply Forall_impl; [exact Hl|]. cbn. lia.
  - rewrite Hk in Hts. apply Forall_app in Hts as [Hts _]. apply Forall_app. split; [done|].
    apply Forall_forall. intros e [_ He]%list_elem_of_filter. unfold on_time in Hbt. rewrite Forall_forall in Hbt. by apply Hbt.
  - specialize (Habs (λ _, true)). unfold RW.row_abs, RW.raw_abs in Habs.
    pose proof (sum_all (λ e, Z.abs (ev_quantity e)) (watermark st) (stored st) ltac:(lia)).
    unfold rollups in Habs. unfold Roll.abs_total, Exec.db_events in *. fold (stored st) in *. rewrite sumZ_app in Hb |- *.
    pose proof (sumZ_nonneg_in (λ e, Z.abs (ev_quantity e)) (mt_events (as_memtable st)) ltac:(intros; lia)). lia.
  - unfold Roll.abs_total. rewrite Hdb. apply sumZ_app_le. intros e. lia.
Qed.

Lemma accounted_fits st acked late :
  accounted st acked late → 2 * Roll.abs_total acked ≤ i128_max →
  ∃ prompt, Exec.db_events st ≡ₚ prompt ++ missing st late ∧ Api.path_fit st prompt.
Proof.
  intros Ht Hb. pose proof Ht as [Hi _ _ Hl (kept & Hk & Hro) _ _ Habs]. pose proof (Bill.intact_visible _ _ Hi) as Hv.
  destruct (stored_times _ _ _ Ht) as [Hts [_ Hbt]%Forall_app].
  apply (visible_fits st kept late); try done; [apply (Bill.in_sound _ _ Hi)|].
  assert (Roll.abs_total (Exec.db_events st) ≤ Roll.abs_total acked); [|lia].
  unfold Roll.abs_total. rewrite Hv. apply sumZ_app_le. intros e. lia.
Qed.

Context {DJok : DimJsonOk}.

(** Sums over the visible events split into the prompt and the missing ones. *)
Lemma owned_split account from_ms to_ms (es prompt miss : list UsageEvent) :
  es ≡ₚ prompt ++ miss →
  sumZ ev_quantity (Api.owned account from_ms to_ms es)
  = sumZ ev_quantity (Api.owned account from_ms to_ms prompt) + sumZ ev_quantity (Api.owned account from_ms to_ms miss).
Proof. intros Hp. unfold Api.owned. by rewrite Hp, filter_app, sumZ_app. Qed.

Lemma reach_accounted cfg now clk st0 st acked late :
  durability_mode cfg = Strict → default_bucket_count cfg ≠ 0 →
  Sys.fresh_start size_of_event cfg now clk = Ok st0 →
  rtc step (st0, [], []) (st, acked, late) → accounted st acked late.
Proof.
  intros Hmode Hb H0 Hr. destruct (fresh_accounted cfg now clk Hmode Hb) as (st1 & E & Ht). rewrite H0 in E. injection E as <-.
  exact (steps_accounted _ _ Hr Ht).
Qed.

(** What verify answers when the rollup path accounts for [prompt]. *)
Lemma verify_missing st prompt miss account from to from_ms to_ms :
  Exec.db_events st ≡ₚ prompt ++ miss → Api.path_fit st prompt →
  rfc3339_ms from = Some from_ms → rfc3339_ms to = Some to_ms → (HOUR_MS | from_ms) → (HOUR_MS | to_ms) →
  ∃ r, Api.handle_verify st account from to = Ok r
    ∧ vr_raw_total r = sumZ ev_quantity (Api.account_events st account from_ms to_ms)
    ∧ vr_rollup_total r = sumZ ev_quantity (Api.owned account from_ms to_ms prompt)
    ∧ vr_drift r = sumZ ev_quantity (Api.owned account from_ms to_ms miss)
    ∧ (vr_matches r = true ↔ vr_drift r = 0).
Proof.
  intros Hp Hfit Hf Hto H1 H2. pose proof (Api.path_range _ _ Hfit) as [_ Hdb].
  destruct (Api.verify_spec st account from to from_ms to_ms (Api.pf_segments _ _ Hfit) Hf Hto Hdb) as (r & E & Hr & Hm & Hd & Hro).
  specialize (Hro prompt Hfit H1 H2). exists r. split; [done|]. split; [done|]. split; [done|].
  unfold Api.account_events in *. pose proof (owned_split account from_ms to_ms _ _ _ Hp) as Hs.
  assert (Z.abs (sumZ ev_quantity (Api.owned account from_ms to_ms miss)) ≤ i128_max) as Hb.
  { etrans; [apply Api.sum_abs_bound|]. etrans; [apply Api.filter_abs_bound|]. etrans; [|exact Hdb].
    unfold Roll.abs_total. rewrite Hp, (Permutation_app_comm prompt). apply sumZ_app_le. intros e. lia. }
  assert (vr_drift r = sumZ ev_quantity (Api.owned account from_ms to_ms miss)) as Hdrift.
  { rewrite Hd, Hr, Hro, Hs. unfold sat_sub_i128, i128_min, i128_max in *. lia. }
  split; [done|]. rewrite Hm, Hdrift, Hro, Hs. lia.
Qed.


End late.
End Late.

(** A batch, its flush, the tick that rolls it up, then an event for the hour
    that is already rolled up. *)
Module LateExample.
#[local] Existing Instances poly_digest code_bincode stored_codecs poly_digest_ok code_bincode_ok stored_codecs_ok.
#[local] Existing Instances Files.file_segments Files.file_segments_ok text_json text_json_ok.
#[local] Existing Instances ManExample.text_manifest ManExample.text_manifest_ok Per.flat_calendar.
#[local] Existing Instances QueryExample.code_dims QueryExample.code_dims_parse QueryExample.code_dims_ok ApiExample.millis.

Definition tick_ms : Z := 10900000.
Definition ticked := RW.tick RollupExample.draws None (None, true, true) tick_ms SystemExample.st2.
Definition st3 : AppState := ticked.1.
Definition stats : RollupTickStats := match ticked.2 with Ok s => s | _ => MkTickStats 0 0 0 false false end.

Lemma ticked_ok : ticked = (st3, Ok stats).
Proof.
  apply injective_projections; cbn [fst snd]; [done|].
  assert (match ticked.2 with Ok _ => true | _ => false end = true) as E by (vm_compute; reflexivity).
  unfold stats. by destruct ticked.2.
Qed.

Lemma advanced : Late.watermark st3 = 10800000 ∧ segments_written stats = 1%nat.
Proof. split; vm_compute; reflexivity. Qed.

Lemma stored2 : Late.stored SystemExample.st2 = SystemExample.acked.
Proof. vm_compute. reflexivity. Qed.

Lemma rollable2 : Late.rollable RollupExample.draws SystemExample.st2.
Proof.
  unfold Late.rollable. rewrite stored2. split; [by vm_compute|]. split; [|split].
  - intros l Hl. apply submseteq_Permutation in Hl as [k Hp].
    set (ev := set_ingested_at 2000 IngestExample.ev). change SystemExample.acked with [ev] in Hp.
    assert (l = [] ∨ l = [ev]) as [->| ->]; [|constructor|].
    { destruct l as [|x [|y l]]; [by left| |by apply Permutation_length in Hp].
      right. apply Permutation_length in Hp as Hlen. destruct k; [|discriminate Hlen].
      rewrite app_nil_r in Hp. by apply Permutation_singleton_l in Hp as ->. }
    apply Forall_singleton. split; [by vm_compute|]. intros data E. vm_compute in E. by injection E as <-.
  - split; [done|]. intros i j. apply FlushExample.uuid_of_inj.
  - intros s i Hs. exfalso. assert (m_rollup_segments (as_manifest SystemExample.st2) = []) as E by (vm_compute; reflexivity).
    rewrite E in Hs. by apply not_elem_of_nil in Hs.
Qed.


Definition late_event : UsageEvent := sample_event "late" "acct_1" 2000 7.
Definition arrived := Ing.handle_ingest 200 no_faults 2000 IngestExample.clk st3 [late_event].
Definition handed4 : AppState := arrived.1.
Definition st4 : AppState := send true 0 handed4.
Definition acked4 : list UsageEvent := SystemExample.acked ++ Ing.admitted st3 2000 [late_event].

Definition draws4 (i : nat) : string * option wb_fault := FlushExample.good (i + 5).
Definition msg4 : FlushMessage := MkFlushMessage [set_ingested_at 2000 late_event] 2.
Definition st5 : AppState := Sys.flush_one 200 2500 draws4 msg4 [] st4.

Lemma queue4 : as_queue st4 = [msg4].
Proof. vm_compute. reflexivity. Qed.

Lemma arrived_ok : arrived = (handed4, Ok (MkIngestResponse 1 0 0 0)).
Proof.
  assert (arrived.2 = Ok (MkIngestResponse 1 0 0 0)) as E by (vm_compute; reflexivity).
  unfold handed4. by destruct arrived as [s r]; cbn in *; subst.
Qed.

Lemma arrive_step : Sys.step 200 (st3, SystemExample.acked) (handed4, acked4).
Proof.
  unfold acked4. apply (Sys.step_ingest 200 no_faults 2000 IngestExample.clk [late_event] st3 handed4 (MkIngestResponse 1 0 0 0) SystemExample.acked).
  - exact arrived_ok.
  - by vm_compute.
  - refine (bool_decide_unpack _ _). by vm_compute.
  - by vm_compute.
Qed.

Lemma names4 : sm_segment_id <$> m_raw_segments (as_manifest st4) = ["raw_"].
Proof. vm_compute. reflexivity. Qed.

Lemma draws4_good : Flush.good_draws draws4.
Proof. split; [by left|]. intros i j E%FlushExample.uuid_of_inj. lia. Qed.

Lemma draws4_fresh : Flush.fresh_for draws4 (as_manifest st4).
Proof.
  intros i meta Hin E. apply (list_elem_of_fmap_2 sm_segment_id) in Hin. rewrite names4 in Hin.
  apply list_elem_of_singleton in Hin. rewrite E in Hin. unfold Flush.draw_id, draws4, FlushExample.good in Hin. cbn [fst] in Hin.
  change "raw_" with ("raw_" +:+ FlushExample.uuid_of 0) in Hin. apply append_inj_r, FlushExample.uuid_of_inj in Hin. lia.
Qed.

Lemma fits4 : Forall (λ p, seg_fits (sort_events_canonical p.2)) (Flush.flush_groups (as_env st4) (fm_events msg4)).
Proof.
  set (ev := set_ingested_at 2000 late_event).
  assert (Flush.flush_groups (as_env st4) (fm_events msg4) = [(bucket_for_account "acct_1" 4, [ev])]) as ->;
    [vm_compute; reflexivity|].
  apply Forall_singleton. change (sort_events_canonical _) with [ev]. split; [|by vm_compute].
  apply Forall_singleton. by vm_compute.
Qed.

Lemma late_flush_step : Sys.step 200 (st4, acked4) (st5, acked4).
Proof. apply Sys.step_flush; [exact queue4|exact draws4_good|exact draws4_fresh|exact fits4|by vm_compute]. Qed.

Definition late5 : list UsageEvent := [set_ingested_at 2000 late_event].

Lemma write_to x y new late late' :
  Sys.step 200 x y → Bill.names_fresh (as_manifest x.1) (as_manifest y.1) →
  Late.stored y.1 = Late.stored x.1 ++ new → late ++ Late.below (Late.watermark x.1) new = late' →
  Late.step 200 (x, late) (y, late').
Proof. intros Hs Hn Hst <-. apply Late.step_write; [exact Hs|exact Hn|by rewrite Hst]. Qed.

Lemma step1 : rtc (Late.step 200) (SystemExample.st0, [], []) (SystemExample.st1, SystemExample.acked, []).
Proof.
  eapply rtc_l; [apply (write_to _ _ [] _ [] SystemExample.ingest_step); [|vm_compute; reflexivity..]|apply rtc_once,
    (write_to _ _ [] _ _ SystemExample.send_step); [|vm_compute; reflexivity..]];
    apply BillExample.no_segments; [left| |left|]; vm_compute; reflexivity.
Qed.

Lemma step2 : Late.step 200 (SystemExample.st1, SystemExample.acked, []) (SystemExample.st2, SystemExample.acked, []).
Proof.
  apply (write_to _ _ SystemExample.acked _ _ SystemExample.flush_step); [|vm_compute; reflexivity..].
  apply BillExample.no_segments; [right; eexists|]; vm_compute; reflexivity.
Qed.

Lemma step3 : Late.step 200 (SystemExample.st2, SystemExample.acked, []) (st3, SystemExample.acked, []).
Proof.
  apply (Late.step_tick 200 RollupExample.draws (None, true, true) tick_ms SystemExample.st2 st3 stats);
    [exact ticked_ok|by vm_compute|by vm_compute|exact rollable2].
Qed.

Lemma sent_step : Sys.step 200 (handed4, acked4) (st4, acked4).
Proof. apply Sys.step_send. vm_compute. reflexivity. Qed.

Lemma step4 : rtc (Late.step 200) (st3, SystemExample.acked, []) (st4, acked4, []).
Proof.
  eapply rtc_l; [apply (write_to _ _ [] _ [] arrive_step); [|vm_compute; reflexivity..]|apply rtc_once,
    (write_to _ _ [] _ _ sent_step); [|vm_compute; reflexivity..]];
    apply BillExample.no_segments; [right; eexists| |right; eexists|]; vm_compute; reflexivity.
Qed.

Lemma fresh5 : Bill.names_fresh (as_manifest st4) (as_manifest st5).
Proof.
  split; [refine (bool_decide_unpack _ _); by vm_compute|].
  assert (m_compacted_replacements (as_manifest st4) = []) as E by (vm_compute; reflexivity).
  intros r id Hin. exfalso. rewrite E in Hin. exact (not_elem_of_nil r Hin).
Qed.

Lemma step5 : Late.step 200 (st4, acked4, []) (st5, acked4, late5).
Proof. apply (write_to _ _ late5 _ _ late_flush_step fresh5); vm_compute; reflexivity. Qed.

Lemma late_reach : rtc (Late.step 200) (SystemExample.st0, [], []) (st5, acked4, late5).
Proof.
  etrans; [exact step1|]. eapply rtc_l; [exact step2|]. eapply rtc_l; [exact step3|]. etrans; [exact step4|exact (rtc_once _ _ step5)].
Qed.


End LateExample.
