(* ===== verification/Kill.v ===== *)
(** * Dying in the middle of the work

    The process may end between any two changes it makes to the directory: in
    the middle of writing files, between two calls of [Manifest::save]
    ([src/storage/manifest.rs]), while old generations are pruned, or while
    the sealed log files are deleted.  Every job of the server has this shape:
    [FlusherWorker::attempt_flush] ([src/ingest/flusher.rs]),
    [RollupWorker::tick] ([src/rollup/worker.rs]),
    [CompactionWorker::run_one_plan] and [sweep_pending_deletions]
    ([src/compact/worker.rs]), closing and reopening a period
    ([src/api/http_server.rs]) and the rebuild command ([src/admin.rs]).
    Whatever is left, a restart finds every accepted event once.

    The writers call [sync_all] on a segment before its job goes on, and the
    entry of the file in the database directory is taken to be on disk with it:
    nothing in the code syncs that directory, and [KillExample] shows what is
    at stake. *)

From Stdlib Require Import Ascii.
From stdpp Require Import sorting numbers strings base gmap list.
From S2P Require Import Prelude Model Instances Encoding Segment SegmentSpec DedupeIndex SegmentApi.
From S2P Require Import Memtable Dedupe Wal Manifest Period Flusher Compaction State Ingest Recovery System.
From S2P Require Import Rollup RollupWorker Query Sql Api Periods Admin Billing.

Module Kill.
Section kill.
Context {BL : Blake3} {BN : Bincode} {SJ : SerdeJson} {RS : RawSegments} {MJ : ManifestJson} {CH : Chrono}.
Context {DJ : DimJson} {DP : DimParse} {RF : Rfc3339}.
Context (size_of_event : Z).

(** ** The images of a job *)

(** The files a job writes or deletes may hold anything, or be gone. *)
Definition but_touched (touched : string → Prop) (files files' : gmap string bytes) : Prop :=
  ∀ name, ¬ touched name → files' !! name = files !! name.

(** A job changes its files and then saves the manifest: [env] is what it
    leaves when it completes. *)
Inductive save_image (st : AppState) (touched : string → Prop) (env : FlushEnv) : gmap string bytes → Man.ManFs → Prop :=
| image_writing files :
    but_touched touched (as_files st) files → save_image st touched env files (fe_manfs (as_env st))
| image_saving m manfs :
    m_current_generation m = m_current_generation (as_manifest st) →
    fe_manifest env = set_generation (m_current_generation m + 1) m →
    Man.interrupted (fe_manfs (as_env st)) m manfs →
    save_image st touched env (fe_files env) manfs
| image_pruning m json gone :
    m_current_generation m = m_current_generation (as_manifest st) →
    fe_manifest env = set_generation (m_current_generation m + 1) m → mjson_to m = Some json →
    let g := m_current_generation m + 1 in
    save_image st touched env (fe_files env)
      (Man.MkManFs (Man.partly_pruned gone g (Man.run_ops (Man.mf_dir (fe_manfs (as_env st))) (Man.save_steps g json)))
         (Man.mf_legacy (fe_manfs (as_env st)))).

Definition segment_files (id : string) (name : string) : Prop := name = seg_path id ∨ name = Idx.index_path id.

(** The jobs that leave the log alone, with the files they change. *)
Inductive job (st : AppState) : (string → Prop) → FlushEnv → Prop :=
| job_tick reads draws rot now stats env :
    RW.tick_with reads draws None rot now st = (set_env env st, Ok stats) → forced_flush stats = false →
    job st (λ name, ∃ i, name = rseg_path ("rollup_" +:+ (draws i : string * option rw_fault).1)) env
| job_compact draw plan maxs now env :
    Compact.run_one_plan draw None (as_env st) plan now = (env, Ok true) →
    plan ∈ Compact.plan_compaction maxs (m_raw_segments (as_manifest st)) → Bill.mergeable draw plan st →
    job st (segment_files ("compacted_" +:+ draw.1)) env
| job_sweep grace now env n :
    Compact.sweep_pending_deletions grace now None (as_env st) = (env, Ok n) →
    job st (λ name, name ∈ Compact.expired_paths (now - grace) (as_manifest st)) env
| job_close now account period env r :
    Close.handle_close_period None now st account period = (set_env env st, Ok r) → job st (λ _, False) env
| job_reopen account period env b :
    Close.handle_reopen_period None st account period = (set_env env st, Ok b) → job st (λ _, False) env
| job_rebuild from to env n :
    Admin.cmd_rebuild_rollups None st from to = (set_env env st, Ok n) → job st (λ _, False) env.

(** A message that can be flushed: new file names, rows within their format. *)
Record flushable (draws : nat → string * option wb_fault) (st : AppState) (msg : FlushMessage) (q : list FlushMessage)
    : Prop := {
  fl_queue : as_queue st = msg :: q;
  fl_events : fm_events msg ≠ [];
  fl_draws : Flush.good_draws draws;
  fl_fresh : Flush.fresh_for draws (as_manifest st);
  fl_fits : Forall (λ p, seg_fits (sort_events_canonical p.2)) (Flush.flush_groups (as_env st) (fm_events msg));
  fl_counter : Bill.counter_fits st;
  fl_names : Bill.names_fresh (as_manifest st) (as_manifest (Sys.flush_one size_of_event 0 draws msg q st));
}.

(** What a process that dies at work can leave. *)
Inductive death (st : AppState) : gmap string bytes → Man.ManFs → WalFs → Prop :=
| death_flush draws msg q env files manfs :
    flushable draws st msg q →
    Flush.attempt_flush draws None (as_env st) (fm_events msg) (fm_sealed_wal_id msg) = (env, Ok tt) →
    save_image st (λ name, ∃ i, segment_files (Flush.draw_id draws i) name) env files manfs →
    death st files manfs (as_walfs st)
| death_deleting draws msg q env walfs :
    flushable draws st msg q →
    Flush.attempt_flush draws None (as_env st) (fm_events msg) (fm_sealed_wal_id msg) = (env, Ok tt) →
    Sys.deleting (fm_sealed_wal_id msg) (as_walfs st) walfs →
    death st (fe_files env) (fe_manfs env) walfs
| death_job touched env files manfs :
    Bill.counter_fits st → job st touched env → save_image st touched env files manfs →
    death st files manfs (as_walfs st).

Context {SJok : SerdeJsonOk} {RSok : RawSegmentsOk} {MJok : ManifestJsonOk}.

(** ** The state an image belongs to *)
Definition left_by (st : AppState) (acked : list UsageEvent) (files : gmap string bytes) (manfs : Man.ManFs) (walfs : WalFs)
    : Prop :=
  ∃ st', Bill.intact st' acked ∧ manfs = fe_manfs (as_env st') ∧ files = as_files st' ∧ Sys.rests st' walfs
    ∧ as_config st' = as_config st.

Definition keeps_live (st : AppState) (files : gmap string bytes) : Prop :=
  ∀ s, s ∈ m_raw_segments (as_manifest st) →
    files !! seg_path (sm_segment_id s) = as_files st !! seg_path (sm_segment_id s).

(** A death inside a job leaves the old manifest or the new one, with the
    live segments as the job found them. *)
Lemma save_image_cases st acked touched env files manfs :
  Bill.intact st acked → Bill.counter_fits st → keeps_live st (fe_files env) →
  (∀ s, s ∈ m_raw_segments (as_manifest st) → ¬ touched (seg_path (sm_segment_id s))) →
  save_image st touched env files manfs →
  Man.load None manfs = (manfs, Ok (Some (as_manifest st))) ∧ keeps_live st files
  ∨ Man.load None manfs = (manfs, Ok (Some (fe_manifest env))) ∧ files = fe_files env.
Proof.
  intros Hi Hg Hk Ht Him. pose proof (Sys.si_manifest _ _ (Bill.in_system _ _ Hi)) as Hload.
  destruct Him as [files Hf|m manfs Hgen Hm Hint|m json gone Hgen Hm Hj g].
  - left. split; [done|]. intros s Hs. by apply Hf, Ht.
  - destruct (Man.interrupted_load _ _ _ _ Hload Hgen ltac:(by rewrite Hgen) Hint) as (m' & Hl & [->| ->]); [by left|right].
    by rewrite Hm.
  - right. split; [|done]. rewrite Hm. by apply Man.partly_pruned_load; [|rewrite Hgen].
Qed.

(** Before the commit: the old manifest, and files nobody refers to. *)
Lemma before_commit st acked files manfs walfs :
  Bill.intact st acked → Man.load None manfs = (manfs, Ok (Some (as_manifest st))) → keeps_live st files →
  Sys.crashed (as_walfs st) walfs → left_by st acked files manfs walfs.
Proof.
  intros Hi Hl Hf Hc.
  assert (Bill.intact (set_env (MkFlushEnv files manfs (as_manifest st) (as_walfs st)) st) acked) as Hi'.
  { apply Bill.frame_keeps; [done|]. by split. }
  eexists. split; [exact Hi'|]. split; [done|]. split; [done|]. split; [|done].
  apply (Sys.crash_rests _ acked); [apply (Bill.in_system _ _ Hi')|exact Hc].
Qed.

(** After the commit: the new manifest, and log files nobody needs. *)
Lemma after_commit draws st acked msg q env manfs walfs0 walfs :
  flushable draws st msg q → Bill.intact st acked →
  Flush.attempt_flush draws None (as_env st) (fm_events msg) (fm_sealed_wal_id msg) = (env, Ok tt) →
  Man.load None manfs = (manfs, Ok (Some (fe_manifest env))) →
  Sys.deleting (fm_sealed_wal_id msg) (as_walfs st) walfs0 → Sys.crashed walfs0 walfs →
  left_by st acked (fe_files env) manfs walfs.
Proof.
  intros [Hq He Hd Hfr Hfit Hg Hn] Hi E Hl Hdel Hc.
  destruct (Flush.flush_effect draws (as_env st) (fm_events msg) (fm_sealed_wal_id msg) Hd Hfr Hfit Hg)
    as (env' & E' & _ & _ & _ & Hls & _). rewrite E in E'. injection E' as <-.
  assert (Sys.flush_one size_of_event 0 draws msg q st
          = MkAppState env (as_wal st) (as_memtable st) (as_dedupe st) q (as_sending st) (as_config st)) as Ef.
  { unfold Sys.flush_one, Flush.handle_message. by rewrite bool_decide_eq_false_2, E. }
  pose proof (Bill.inv_write size_of_event (st, acked) (_, acked) (Sys.step_flush size_of_event 0 draws msg q st acked Hq Hd Hfr Hfit Hg) Hn Hi)
    as Hi1. cbn [fst snd] in Hi1. rewrite Ef in Hi1.
  assert (Bill.intact (MkAppState (MkFlushEnv (fe_files env) manfs (fe_manifest env) (fe_walfs env)) (as_wal st) (as_memtable st)
    (as_dedupe st) q (as_sending st) (as_config st)) acked) as Hi2.
  { apply (Bill.frame_keeps _ (MkFlushEnv (fe_files env) manfs (fe_manifest env) (fe_walfs env)) _ Hi1). by split. }
  eexists. split; [exact Hi2|]. split; [done|]. split; [done|]. split; [|done].
  by eapply (Sys.flushed_rests st acked msg q); [apply (Bill.in_system _ _ Hi)| | | | | | |].
Qed.

Lemma deleting_none up fs : Sys.deleting up fs fs.
Proof. split; [done|]. by left. Qed.

(** What a completed job leaves of the live segments. *)
Lemma job_effect st acked touched env :
  Bill.intact st acked → Bill.counter_fits st → job st touched env →
  Bill.intact (set_env env st) acked ∧ fe_walfs env = as_walfs st ∧ keeps_live st (fe_files env)
  ∧ ∀ s, s ∈ m_raw_segments (as_manifest st) → ¬ touched (seg_path (sm_segment_id s)).
Proof.
  intros Hi Hg Hjob.
  assert (∀ st', Bill.reframed st st' → st' = set_env env st →
    Bill.intact (set_env env st) acked ∧ fe_walfs env = as_walfs st ∧ keeps_live st (fe_files env)) as Hframe.
  { intros st' Hre ->. pose proof (Bill.reframed_keeps _ _ _ Hi Hre). destruct Hre as (env' & E & Hf).
    apply (f_equal as_env) in E. cbn in E. subst env'. by destruct Hf. }
  destruct Hjob as [reads draws rot now stats env E Hff|draw plan maxs now env E Hp Hm|grace now env n E
    |now account period env r E|account period env b E|from to env n E].
  - destruct (Hframe _ (Bill.tick_frame _ _ _ _ _ _ _ _ E Hff Hg Hi)) as (H1 & H2 & H3); [done|].
    split; [done|]. split; [done|]. split; [done|]. intros s _ [i Eq]. by apply RW.seg_path_not_rseg in Eq.
  - split; [by eapply Bill.inv_compact|].
    destruct (Bill.compact_commits draw plan maxs now st env true acked E Hg Hp Hm Hi)
      as (_ & _ & _ & _ & _ & _ & _ & _ & _ & _ & Hold & _ & Hw). split; [done|]. split; [exact Hold|].
    destruct Hm as (Hf1 & _).
    intros s Hin [Eq%seg_path_inj|Eq%seg_path_not_idx]; [|done]. apply Hf1. rewrite <- Eq. by apply list_elem_of_fmap_2.
  - split; [by eapply Bill.inv_sweep|]. pose proof (Bill.in_pending _ _ Hi) as Hp.
    destruct (Compact.sweep_effect (as_env st) grace now Hp Hg) as (env' & n' & E' & _ & _ & _ & _ & _ & Hf & _ & Hw & _).
    rewrite E in E'. assert (env' = env) as -> by congruence. split; [done|]. split; [exact Hf|].
    intros s Hin. by apply Compact.expired_dead.
  - destruct (Hframe _ (Bill.close_frame _ _ _ _ _ _ _ E Hg Hi)) as (H1 & H2 & H3); [done|]. exact (conj H1 (conj H2 (conj H3 (λ _ _ no, no)))).
  - destruct (Hframe _ (Bill.reopen_frame _ _ _ _ _ _ E Hg Hi)) as (H1 & H2 & H3); [done|]. exact (conj H1 (conj H2 (conj H3 (λ _ _ no, no)))).
  - destruct (Hframe _ (Bill.rebuild_frame _ _ _ _ _ _ E Hg Hi)) as (H1 & H2 & H3); [done|]. exact (conj H1 (conj H2 (conj H3 (λ _ _ no, no)))).
Qed.

Lemma job_left st acked touched env files manfs walfs :
  Bill.intact st acked → Bill.counter_fits st → job st touched env → save_image st touched env files manfs →
  Sys.crashed (as_walfs st) walfs → left_by st acked files manfs walfs.
Proof.
  intros Hi Hg Hjob Him Hc. destruct (job_effect st acked touched env Hi Hg Hjob) as (Hi1 & Hw & Hk & Ht).
  destruct (save_image_cases st acked touched env files manfs Hi Hg Hk Ht Him) as [[Hl Hf]|[Hl ->]]; [by apply before_commit|].
  assert (Bill.intact (set_env (MkFlushEnv (fe_files env) manfs (fe_manifest env) (fe_walfs env)) st) acked) as Hi2.
  { apply (Bill.frame_keeps _ (MkFlushEnv (fe_files env) manfs (fe_manifest env) (fe_walfs env)) _ Hi1). by split. }
  eexists. split; [exact Hi2|]. split; [done|]. split; [done|]. split; [|done].
  apply (Sys.crash_rests _ acked); [apply (Bill.in_system _ _ Hi2)|]. unfold as_walfs, set_env. cbn. by rewrite Hw.
Qed.

(** Whatever a death leaves, it is a directory at rest. *)
Lemma death_left st acked files manfs walfs0 walfs :
  Bill.intact st acked → death st files manfs walfs0 → Sys.crashed walfs0 walfs → left_by st acked files manfs walfs.
Proof.
  intros Hi Hd Hc. destruct Hd as [draws msg q env files manfs Hfl E Him|draws msg q env walfs0 Hfl E Hdel|]; [| |by eapply job_left].
  all: pose proof Hfl as [Hq He Hd Hfr Hfit Hg Hn];
    destruct (Flush.flush_effect draws (as_env st) (fm_events msg) (fm_sealed_wal_id msg) Hd Hfr Hfit Hg)
      as (env' & E' & _ & _ & Hl & _ & _ & _ & _ & Hold); rewrite E in E'; injection E' as <-.
  - edestruct (save_image_cases st acked) as [[Hl' Hf]|[Hl' ->]]; [exact Hi|exact Hg|exact Hold| |exact Him|..].
    + intros s Hs (i & [Eq%seg_path_inj|Eq%seg_path_not_idx]); [|done]. by eapply Hfr.
    + by apply before_commit.
    + by eapply (after_commit draws st acked msg q env manfs _ walfs Hfl Hi E); [|apply deleting_none|].
  - by eapply (after_commit draws st acked msg q env (fe_manfs env) walfs0 walfs Hfl Hi E).
Qed.

End kill.
End Kill.

(** The server dies after the new generation is in place and before [CURRENT]
    points to it. *)
Module KillExample.
#[local] Existing Instances poly_digest code_bincode stored_codecs poly_digest_ok code_bincode_ok stored_codecs_ok.
#[local] Existing Instances Files.file_segments Files.file_segments_ok text_json text_json_ok.
#[local] Existing Instances ManExample.text_manifest ManExample.text_manifest_ok Per.flat_calendar.
#[local] Existing Instances QueryExample.code_dims QueryExample.code_dims_parse ApiExample.millis.

Lemma flushable1 : Kill.flushable 200 FlushExample.good SystemExample.st1 SystemExample.msg [].
Proof.
  split.
  - exact SystemExample.queue1.
  - intros E. apply (f_equal length) in E. vm_compute in E. discriminate E.
  - apply FlushExample.good_draws_good.
  - exact SystemExample.fresh1.
  - exact SystemExample.fits1.
  - exact SystemExample.generation1.
  - apply BillExample.no_segments; [right; eexists|]; vm_compute; reflexivity.
Qed.

Definition flushed :=
  Flush.attempt_flush FlushExample.good None (as_env SystemExample.st1) (fm_events SystemExample.msg)
    (fm_sealed_wal_id SystemExample.msg).
Definition before : Manifest := set_generation (m_current_generation (as_manifest SystemExample.st1)) (fe_manifest flushed.1).
Definition json : bytes := default [] (mjson_to before).
Definition manfs : Man.ManFs :=
  Man.MkManFs (Man.crash_image 7 0 (replicate 9 true) (Man.mf_dir (fe_manfs (as_env SystemExample.st1)))
    (Man.save_steps (m_current_generation before + 1) json)) (Man.mf_legacy (fe_manfs (as_env SystemExample.st1))).

Lemma flushed_ok : flushed = (flushed.1, Ok tt).
Proof.
  destruct flushable1 as [_ _ Hd Hfr Hfit Hg _].
  destruct (Flush.flush_effect FlushExample.good _ _ (fm_sealed_wal_id SystemExample.msg) Hd Hfr Hfit Hg) as (env & E & _).
  unfold flushed. rewrite E. reflexivity.
Qed.

Lemma dies : Kill.death 200 SystemExample.st1 (fe_files flushed.1) manfs (as_walfs SystemExample.st1).
Proof.
  apply (Kill.death_flush _ _ _ _ _ flushed.1 _ _ flushable1 flushed_ok).
  apply (Kill.image_saving _ _ _ before); [reflexivity|vm_compute; reflexivity|].
  exists json, 7%nat, 0%nat, (replicate 9 true). split; [|split; [reflexivity|split; [by left|reflexivity]]].
  destruct (mjson_total before) as [j E]. unfold json. rewrite E. reflexivity.
Qed.

Lemma killed_reach : rtc (Bill.step 200) (SystemExample.st0, []) (SystemExample.st1, SystemExample.acked).
Proof. exact BillExample.reach_sent. Qed.


(** When the machine fails after the flush and the entry of the new segment is
    not on disk, the manifest is, the log file is deleted, and a start succeeds
    without the event. *)
Lemma unsynced_entry_loses_event :
  SystemExample.acked ≠ []
  ∧ match Rec.startup 200 (as_config SystemExample.st1) None None 3000 (λ _, 3000) (fe_manfs flushed.1)
            (delete (seg_path (Flush.draw_id FlushExample.good 0)) (fe_files flushed.1)) (fe_walfs flushed.1) with
    | Ok st' =>
        m_raw_segments (as_manifest st') ≠ []
        ∧ Flush.stored (as_files st') (m_raw_segments (as_manifest st')) ++ mt_events (as_memtable st') = []
    | _ => False
    end.
Proof. vm_compute. split; [discriminate|]. split; [discriminate|reflexivity]. Qed.
End KillExample.
