(* ===== verification/Snapshot.v ===== *)
(** * Queries that overlap other work

    [collect_raw_events] and [collect_rollup_then_raw_tail] of
    [src/query/executor.rs] hold no lock across their steps: they copy what
    they need of the manifest, read segment files one after the other, and look
    at the memtable at the end, while requests, flushes, ticks, compactions and
    sweeps go on.  Here every such read happens in a state of its own. *)

From Stdlib Require Import Ascii.
From stdpp Require Import sorting numbers strings base gmap list.
From S2P Require Import Prelude Model Instances Encoding Segment SegmentSpec DedupeIndex SegmentApi.
From S2P Require Import Memtable Dedupe Wal Manifest Period Flusher Compaction State Ingest Recovery System.
From S2P Require Import Rollup RollupWorker Query Sql Api Periods Admin Billing Late.

(** What a scan of the raw data reads: the manifest, then the i-th segment in
    the directory as it is by then, then the memtable. *)
Record RawReads := MkRawReads {
  rd_manifest : Manifest;
  rd_files : nat → gmap string bytes;
  rd_memtable : Memtable;
}.

(** The rollup path reads the manifest and the rollup files before that. *)
Record RollupReads := MkRollupReads {
  rq_manifest : Manifest;
  rq_files : nat → gmap string bytes;
  rq_tail : RawReads;
}.

Module Snap.
Section snap.
Context {BL : Blake3} {BN : Bincode} {SJ : SerdeJson} {RS : RawSegments} {MJ : ManifestJson} {CH : Chrono}.
Context {DJ : DimJson} {DP : DimParse} {RF : Rfc3339}.
Context (size_of_event : Z).

(** ** The executor, read by read *)
Fixpoint scan_files (files : nat → gmap string bytes) (i : nat) (segs : list SegmentMeta) : option (list UsageEvent) :=
  match segs with
  | [] => Some []
  | s :: segs =>
      es ← Exec.scan_file (files i) (sm_segment_id s);
      rest ← scan_files files (S i) segs;
      Some (es ++ rest)
  end.

Definition collect_raw_events (r : RawReads) (plan : QueryPlan) (from_ms to_ms : Z) : option (list UsageEvent) :=
  let bc := Z.max (m_bucket_count (rd_manifest r)) 1 in
  let segs := filter (λ s, Exec.segment_overlaps_plan s plan from_ms to_ms bc = true) (m_raw_segments (rd_manifest r)) in
  scanned ← scan_files (rd_files r) 0 segs;
  Some (filter (λ e, Exec.in_range from_ms to_ms e = true) scanned
        ++ filter (λ e, Exec.in_range from_ms to_ms e = true) (Mem.snapshot (rd_memtable r))).

Fixpoint rolled (files : nat → gmap string bytes) (i : nat) (segs : list SegmentMeta) : list HourlyRollupRecord :=
  match segs with
  | [] => []
  | s :: segs => RW.rollup_rows (files i) s ++ rolled files (S i) segs
  end.

Definition collect_rollup_then_raw_tail (r : RollupReads) (plan : QueryPlan) : option (list UsageEvent) :=
  let m := rq_manifest r in
  let wm := m_hourly_rollup_ms m in
  let rollup_upper := Z.min (qp_to_ms plan) wm in
  let segs := filter (λ s, Exec.rollup_selected m plan rollup_upper s = true) (m_rollup_segments m) in
  let rows := filter (λ r, negb ((rr_hour_start_ms r <? qp_from_ms plan)
                                 || (rollup_upper <=? rr_hour_start_ms r)) = true) (rolled (rq_files r) 0 segs) in
  let events := Exec.rollup_record_to_event <$> rows in
  if wm <? qp_to_ms plan
  then tail ← collect_raw_events (rq_tail r) plan (Z.max (qp_from_ms plan) wm) (qp_to_ms plan); Some (events ++ tail)
  else Some events.

(** [collect_events]: only the rollup path looks at the first reads. *)
Definition collect_events (r : RollupReads) (plan : QueryPlan) : option (list UsageEvent) :=
  match qp_source plan with
  | RawEvents => collect_raw_events (rq_tail r) plan (qp_from_ms plan) (qp_to_ms plan)
  | RollupHourly => collect_rollup_then_raw_tail r plan
  end.

Definition execute_plan (r : RollupReads) (plan : QueryPlan) : option (list QRow) :=
  events ← collect_events r plan; Some (Exec.aggregate plan events).

(** ** What goes on meanwhile *)

Abbreviation config := (AppState * list UsageEvent * list UsageEvent)%type.

(** The events of the messages a step drained. *)
Definition drained_by (st st' : AppState) : list UsageEvent :=
  mjoin (fm_events <$> drop (length (pending st)) (pending st')).

(** The work of the server since a query took its snapshot [m] at [t]: names
    are drawn anew, the clock of a compaction is not behind [t], and a sweep
    runs less than its grace period after [t].  The last component collects
    what leaves the memtable. *)
Inductive during (t : Z) (m : Manifest) : config → config → Prop :=
| during_ingest io now clk events st st' r acked gone :
    Ing.handle_ingest size_of_event io now clk st events = (st', Ok r) →
    ins 64 now → Forall event_wf events → active_id (as_wal st) < u64_max →
    during t m (st, acked, gone) (st', acked ++ Ing.admitted st now events, gone ++ drained_by st st')
| during_send st acked gone :
    can_send st = true → during t m (st, acked, gone) (send true 0 st, acked, gone)
| during_flush now draws msg q st acked gone :
    as_queue st = msg :: q → Flush.good_draws draws → Flush.fresh_for draws (as_manifest st) → Flush.fresh_for draws m →
    Forall (λ p, seg_fits (sort_events_canonical p.2)) (Flush.flush_groups (as_env st) (fm_events msg)) →
    Bill.counter_fits st →
    Bill.names_fresh (as_manifest st) (as_manifest (Sys.flush_one size_of_event now draws msg q st)) →
    during t m (st, acked, gone) (Sys.flush_one size_of_event now draws msg q st, acked, gone)
| during_tick reads draws rot now st st' stats acked gone :
    RW.tick_with reads draws None rot now st = (st', Ok stats) → Bill.counter_fits st → active_id (as_wal st) < u64_max →
    (∀ s i, s ∈ m_rollup_segments m → sm_segment_id s ≠ RW.rdraw_id draws i) →
    during t m (st, acked, gone) (st', acked, gone ++ drained_by st st')
| during_compact draw plan maxs now st env committed acked gone :
    Compact.run_one_plan draw None (as_env st) plan now = (env, Ok committed) → Bill.counter_fits st →
    plan ∈ Compact.plan_compaction maxs (m_raw_segments (as_manifest st)) → Bill.mergeable draw plan st →
    t ≤ now → "compacted_" +:+ draw.1 ∉ sm_segment_id <$> m_raw_segments m →
    during t m (st, acked, gone) (set_env env st, acked, gone)
| during_sweep grace now st env n acked gone :
    Compact.sweep_pending_deletions grace now None (as_env st) = (env, Ok n) → Bill.counter_fits st →
    now - grace < t →
    during t m (st, acked, gone) (set_env env st, acked, gone)
| during_close now account period st st' r acked gone :
    Close.handle_close_period None now st account period = (st', Ok r) → Bill.counter_fits st →
    during t m (st, acked, gone) (st', acked, gone)
| during_reopen account period st st' b acked gone :
    Close.handle_reopen_period None st account period = (st', Ok b) → Bill.counter_fits st →
    during t m (st, acked, gone) (st', acked, gone).

(** The reads of a raw scan between [x], where it copies the manifest, and
    [y], where it looks at the memtable. *)
Definition raw_reads (t : Z) (x y : config) (r : RawReads) : Prop :=
  rtc (during t (as_manifest x.1.1)) x y
  ∧ rd_manifest r = as_manifest x.1.1
  ∧ (∀ i, ∃ z, rtc (during t (as_manifest x.1.1)) x z ∧ rtc (during t (as_manifest x.1.1)) z y ∧ rd_files r i = as_files z.1.1)
  ∧ rd_memtable r = as_memtable y.1.1.

(** The rollup path: the rollup files between [w] and [x], then a raw scan. *)
Definition rollup_reads (t : Z) (w x y : config) (r : RollupReads) : Prop :=
  rtc (during t (as_manifest w.1.1)) w x
  ∧ rq_manifest r = as_manifest w.1.1
  ∧ (∀ i, ∃ z, rtc (during t (as_manifest w.1.1)) w z ∧ rtc (during t (as_manifest w.1.1)) z x ∧ rq_files r i = as_files z.1.1)
  ∧ raw_reads t (x.1, []) y (rq_tail r).

Definition queued (st : AppState) : list UsageEvent := mjoin (fm_events <$> pending st).

Context {SJok : SerdeJsonOk} {RSok : RawSegmentsOk} {MJok : ManifestJsonOk}.

(** ** What a snapshot can rely on *)

(** [st0] is the state of the snapshot, [st] a later one: the files of the
    snapshot are as they were, nothing that waits for deletion since before
    [t] is among them, and what has left the memtable is accounted for. *)
Record kept (t : Z) (st0 : AppState) (gone0 : list UsageEvent) (st : AppState) (acked gone : list UsageEvent) : Prop := {
  kp_intact : Bill.intact st acked;
  kp_typed : Forall Bill.well_typed acked;
  kp_raw s : s ∈ m_raw_segments (as_manifest st0) →
    as_files st !! seg_path (sm_segment_id s) = as_files st0 !! seg_path (sm_segment_id s);
  kp_rollups s : s ∈ m_rollup_segments (as_manifest st0) →
    as_files st !! rseg_path (sm_segment_id s) = as_files st0 !! rseg_path (sm_segment_id s);
  kp_pending r s : r ∈ m_compacted_replacements (as_manifest st) → s ∈ m_raw_segments (as_manifest st0) →
    sm_segment_id s ∈ rp_old_segments r → t ≤ rp_committed_at_ms r;
  kp_buckets : m_bucket_count (as_manifest st) = m_bucket_count (as_manifest st0);
  kp_grown : ∃ new, Late.stored st ≡ₚ Late.stored st0 ++ new;
  kp_moved : (Late.stored st ++ queued st) ++ gone0 ≡ₚ (Late.stored st0 ++ queued st0) ++ gone;
}.

Lemma kept_refl t st acked gone : Bill.intact st acked → Forall Bill.well_typed acked → kept t st gone st acked gone.
Proof.
  intros Hi Ht. split; try done; [|exists []; by rewrite app_nil_r].
  intros r s Hr Hs Hin. exfalso. eapply (Bill.in_pending _ _ Hi); [exact Hr|exact Hin|]. by apply list_elem_of_fmap_2.
Qed.

(** What a step has to leave of the snapshot. *)
Lemma kept_step t st0 gone0 st st' acked acked' gone more new :
  kept t st0 gone0 st acked gone → Bill.intact st' acked' → Forall Bill.well_typed acked' →
  (∀ s, s ∈ m_raw_segments (as_manifest st0) →
     as_files st' !! seg_path (sm_segment_id s) = as_files st !! seg_path (sm_segment_id s)) →
  (∀ s, s ∈ m_rollup_segments (as_manifest st0) →
     as_files st' !! rseg_path (sm_segment_id s) = as_files st !! rseg_path (sm_segment_id s)) →
  (∀ r, r ∈ m_compacted_replacements (as_manifest st') →
     r ∈ m_compacted_replacements (as_manifest st) ∨ t ≤ rp_committed_at_ms r) →
  m_bucket_count (as_manifest st') = m_bucket_count (as_manifest st) →
  Late.stored st' ≡ₚ Late.stored st ++ new →
  Late.stored st' ++ queued st' ≡ₚ (Late.stored st ++ queued st) ++ more →
  kept t st0 gone0 st' acked' (gone ++ more).
Proof.
  intros [_ _ Hr Hro Hp Hb [new0 Hg] Hm] Hi Hty Hr' Hro' Hp' Hb' Hg' Hm'. split; try done.
  - intros s Hs. by rewrite Hr', Hr.
  - intros s Hs. by rewrite Hro', Hro.
  - intros r s Hin Hs Hid. destruct (Hp' r Hin) as [Hin'|]; [by eapply Hp|done].
  - by rewrite Hb'.
  - exists (new0 ++ new). by rewrite Hg', Hg, app_assoc.
  - rewrite Hm', <- (app_assoc _ more), (Permutation_app_comm more), app_assoc, Hm, <- app_assoc. done.
Qed.

(** A step that changes neither manifest nor files. *)
Lemma kept_memory t st0 gone0 st st' acked acked' gone more :
  kept t st0 gone0 st acked gone → Bill.intact st' acked' → Forall Bill.well_typed acked' →
  as_manifest st' = as_manifest st → as_files st' = as_files st →
  queued st' = queued st ++ more → kept t st0 gone0 st' acked' (gone ++ more).
Proof.
  intros Hk Hi Hty Em Ef Eq. apply (kept_step t st0 gone0 st st' acked acked' gone more []); try done; rewrite ?Em, ?Ef; try done; [by left|..];
    unfold Late.stored; rewrite Em, Ef; [by rewrite app_nil_r|]. by rewrite Eq, app_assoc.
Qed.

(** A step that leaves the raw data alone. *)
Lemma kept_reframed t st0 gone0 st st' acked gone :
  kept t st0 gone0 st acked gone → Bill.reframed st st' →
  (∀ s, s ∈ m_raw_segments (as_manifest st0) →
     as_files st' !! seg_path (sm_segment_id s) = as_files st !! seg_path (sm_segment_id s)) →
  (∀ s, s ∈ m_rollup_segments (as_manifest st0) →
     as_files st' !! rseg_path (sm_segment_id s) = as_files st !! rseg_path (sm_segment_id s)) →
  pending st' = pending st ∧ kept t st0 gone0 st' acked gone.
Proof.
  intros Hk Hre H1 H2. pose proof (kp_typed _ _ _ _ _ _ Hk) as Hty. pose proof (Bill.reframed_keeps _ _ _ (kp_intact _ _ _ _ _ _ Hk) Hre) as Hi.
  destruct Hre as (env & -> & [F1 F2 F3 _ _ _ F7]). split; [done|]. rewrite <- (app_nil_r gone).
  assert (Late.stored (set_env env st) = Late.stored st) as Hst.
  { unfold Late.stored, as_manifest, as_files. cbn [as_env set_env]. rewrite F1. by apply Flush.stored_same. }
  apply (kept_step t st0 gone0 st _ acked acked gone [] []); try done; rewrite ?Hst, ?app_nil_r; try done.
  intros r Hr. left. unfold as_manifest in *. cbn [as_env set_env] in Hr. by rewrite <- F2.
Qed.

Lemma queue_grows st st' msgs :
  pending st' = pending st ++ msgs → queued st' = queued st ++ drained_by st st'.
Proof. intros E. unfold queued, drained_by. by rewrite E, drop_app_length, fmap_app, join_app. Qed.

Lemma same_names st acked m' :
  Bill.intact st acked → m' = as_manifest st → Bill.names_fresh (as_manifest st) m'.
Proof. intros Hi ->. split; [apply (Bill.in_names _ _ Hi)|apply (Bill.in_pending _ _ Hi)]. Qed.

Lemma kept_ingest t st0 gone0 io now clk events st st' r acked gone :
  Ing.handle_ingest size_of_event io now clk st events = (st', Ok r) →
  ins 64 now → Forall event_wf events → active_id (as_wal st) < u64_max →
  kept t st0 gone0 st acked gone → kept t st0 gone0 st' (acked ++ Ing.admitted st now events) (gone ++ drained_by st st').
Proof.
  intros E Hn Hwf Hmax Hk. pose proof (Bill.ingest_frame _ _ _ _ _ _ _ _ E) as [Em Ef].
  pose proof Hk as [Hi Hty _ _ _ _ _ _]. apply (kept_memory t st0 gone0 st _ acked); try done; [|apply Forall_app; split; [done|by apply Bill.admitted_typed]|].
  - apply (Bill.inv_write size_of_event (st, acked) (st', _) (Sys.step_ingest _ _ _ _ _ _ _ _ _ E Hn Hwf Hmax)); [|done].
    by eapply same_names.
  - pose proof (Ing.handle_ingest_ok _ _ _ _ _ _ _ _ E) as Hok. cbv zeta in Hok.
    destruct (Ing.committed _ _ _ _) as [d m]. destruct Hok as [_ (fs & w & _ & [->|(fs2 & w2 & sealed & _ & ->)])].
    + apply (queue_grows st _ []). by rewrite app_nil_r.
    + eapply (queue_grows st). unfold pending. cbn. by rewrite app_assoc.
Qed.

Lemma kept_drain t st0 gone0 bud fsync_ok open_ok st st1 msg acked gone :
  drain_and_rotate bud fsync_ok open_ok st = (st1, Ok msg) → active_id (as_wal st) < u64_max →
  kept t st0 gone0 st acked gone → kept t st0 gone0 (hand_over msg st1) acked (gone ++ drained_by st (hand_over msg st1)).
Proof.
  intros E Hmax Hk. pose proof (Bill.drain_frame _ _ _ _ _ _ E) as [Em Ef]. pose proof Hk as [Hi Hty _ _ _ _ _ _].
  apply (kept_memory t st0 gone0 st _ acked); try done.
  - apply (Bill.inv_write size_of_event (st, acked) (hand_over msg st1, acked) (Sys.step_drain _ _ _ _ _ _ _ _ E Hmax)); [|done].
    by eapply same_names.
  - apply (queue_grows st _ [msg]). rewrite hand_over_pending. f_equal. unfold drain_and_rotate in E.
    destruct (Mem.drain_all _) as [es mt]. destruct (WalOps.rotate _ _ _ _ _) as [[fs w] [id|e|]]; by simplify_eq/=.
Qed.

Lemma kept_send t st0 gone0 st acked gone :
  kept t st0 gone0 st acked gone → can_send st = true → kept t st0 gone0 (send true 0 st) acked gone.
Proof.
  intros Hk Hcs. destruct (Sys.send_same 0 st) as (He & _). pose proof Hk as [Hi Hty _ _ _ _ _ _].
  assert (as_manifest (send true 0 st) = as_manifest st) as Em by (unfold as_manifest; by rewrite He).
  rewrite <- (app_nil_r gone). apply (kept_memory t st0 gone0 st _ acked); try done.
  - apply (Bill.inv_write size_of_event (st, acked) (send true 0 st, acked) (Sys.step_send _ _ _ Hcs)); [|done]. by eapply same_names.
  - unfold as_files. by rewrite He.
  - unfold queued. by rewrite send_first_pending, app_nil_r.
Qed.

Lemma kept_flush t st0 gone0 now draws msg q st acked gone :
  as_queue st = msg :: q → Flush.good_draws draws → Flush.fresh_for draws (as_manifest st) →
  Flush.fresh_for draws (as_manifest st0) →
  Forall (λ p, seg_fits (sort_events_canonical p.2)) (Flush.flush_groups (as_env st) (fm_events msg)) →
  Bill.counter_fits st →
  Bill.names_fresh (as_manifest st) (as_manifest (Sys.flush_one size_of_event now draws msg q st)) →
  kept t st0 gone0 st acked gone → kept t st0 gone0 (Sys.flush_one size_of_event now draws msg q st) acked gone.
Proof.
  intros Hq Hd Hfr Hfr0 Hfit Hg Hn Hk. pose proof Hk as [Hi Hty _ _ _ _ _ _].
  pose proof (Bill.inv_write size_of_event (st, acked) (_, acked)
    (Sys.step_flush size_of_event now draws msg q st acked Hq Hd Hfr Hfit Hg) Hn Hi) as Hi'. cbn [fst snd] in Hi'.
  clear Hn. unfold Sys.flush_one, Flush.handle_message in *. case_bool_decide as He.
  { rewrite <- (app_nil_r gone). apply (kept_memory t st0 gone0 st _ acked); try done.
    unfold queued. by rewrite (Sys.pending_head _ _ _ Hq), fmap_cons, He, app_nil_r. }
  destruct (Flush.flush_effect draws (as_env st) (fm_events msg) (fm_sealed_wal_id msg) Hd Hfr Hfit Hg)
    as (env & E & Hst & _ & _ & _ & _ & Hbc & _).
  destruct (Flush.flush_success draws (as_env st) (fm_events msg) (fm_sealed_wal_id msg) Hd Hfr Hfit Hg)
    as (env2 & new & E2 & _ & _ & Hsame & Hm & _). rewrite E2 in E. injection E as <-. rewrite E2 in *.
  rewrite <- (app_nil_r gone). apply (kept_step t st0 gone0 st _ acked acked gone [] (fm_events msg)); try done;
    unfold as_files, as_manifest; cbn [as_env].
  - intros s Hs. apply Hsame. intros j. split; [intros Eq%seg_path_inj; by eapply Hfr0|apply seg_path_not_idx].
  - intros s Hs. apply Hsame. intros j. split; [apply not_eq_sym, RW.seg_path_not_rseg|apply Late.rseg_not_idx].
  - intros r Hr. left. rewrite Hm in Hr. unfold Flush.commit_manifest in Hr. by destruct (_ <? _) in Hr.
  - unfold Late.stored, queued, as_files, as_manifest. cbn [as_env]. rewrite Hst, (Sys.pending_head _ _ _ Hq), fmap_cons, app_nil_r.
    change (mjoin (?x :: ?l)) with (x ++ mjoin l). by rewrite app_assoc.
Qed.

(** A tick either rolls hours up or drains the memtable. *)
Lemma tick_cases reads draws rot now st st' stats acked :
  RW.tick_with reads draws None rot now st = (st', Ok stats) → Bill.counter_fits st → Bill.intact st acked →
  Bill.reframed st st' ∨ ∃ bud fsync_ok open_ok st1 msg,
    drain_and_rotate bud fsync_ok open_ok st = (st1, Ok msg) ∧ st' = hand_over msg st1.
Proof.
  intros E Hg Hi. destruct (forced_flush stats) eqn:Hff; [|left; by eapply Bill.tick_frame].
  unfold RW.tick_with in E. destruct (RW.in_flight _); [by injection E as _ <-|].
  destruct (RW.needs_force_drain _ _ _).
  - unfold RW.force_drain_memtable in E. destruct (Mem.is_empty _).
    { left. injection E as <- _. by eapply Bill.reframed_refl. }
    destruct (drain_and_rotate _ _ _ _) as [st1 [msg|e|]] eqn:Ed; [|done..]. injection E as <- _. right. by eexists _, _, _, _, _.
  - destruct (_ <=? _); [by injection E as _ <-|]. destruct (RW.roll_hours _ _ _ _ _ _ _ _) as [files [new|e|]]; [|done..].
    destruct (RW.commit_rollups _ _ _ _ _) as [env [u|e|]]; [|done..]. by injection E as _ <-.
Qed.

Lemma same_queue_drained st st' : pending st' = pending st → drained_by st st' = [].
Proof. intros E. unfold drained_by. rewrite E. rewrite drop_ge by lia. done. Qed.

Lemma kept_tick t st0 gone0 reads draws rot now st st' stats acked gone :
  RW.tick_with reads draws None rot now st = (st', Ok stats) → Bill.counter_fits st → active_id (as_wal st) < u64_max →
  (∀ s i, s ∈ m_rollup_segments (as_manifest st0) → sm_segment_id s ≠ RW.rdraw_id draws i) →
  kept t st0 gone0 st acked gone → kept t st0 gone0 st' acked (gone ++ drained_by st st').
Proof.
  intros E Hg Hmax Hfr Hk.
  destruct (tick_cases _ _ _ _ _ _ _ _ E Hg (kp_intact _ _ _ _ _ _ Hk)) as [Hre|(bud & f & o & st1 & msg & Ed & ->)];
    [|by eapply kept_drain].
  destruct (kept_reframed t st0 gone0 st st' acked gone Hk Hre) as [Hq Hk'].
  - intros s _. eapply Bill.tick_files; [exact E|]. intros j. apply RW.seg_path_not_rseg.
  - intros s Hs. eapply Bill.tick_files; [exact E|]. intros j Eq%RW.rseg_path_inj. by eapply Hfr.
  - by rewrite (same_queue_drained _ _ Hq), app_nil_r.
Qed.

Lemma kept_compact t st0 gone0 draw plan maxs now st env committed acked gone :
  Compact.run_one_plan draw None (as_env st) plan now = (env, Ok committed) → Bill.counter_fits st →
  plan ∈ Compact.plan_compaction maxs (m_raw_segments (as_manifest st)) → Bill.mergeable draw plan st →
  t ≤ now → "compacted_" +:+ draw.1 ∉ sm_segment_id <$> m_raw_segments (as_manifest st0) →
  kept t st0 gone0 st acked gone → kept t st0 gone0 (set_env env st) acked gone.
Proof.
  intros E Hg Hplan Hm Ht Hout Hk. pose proof (kp_intact _ _ _ _ _ _ Hk) as Hi.
  destruct (Bill.compact_commits draw plan maxs now st env committed acked E Hg Hplan Hm Hi)
    as (segs & rest & meta & cs & _ & _ & _ & Hman & Hst & _).
  rewrite <- (app_nil_r gone). apply (kept_step t st0 gone0 st _ acked acked gone [] []); try done.
  - by eapply Bill.inv_compact.
  - apply (kp_typed _ _ _ _ _ _ Hk).
  - intros s Hs. eapply Compact.run_one_plan_other; [exact E| |apply seg_path_not_idx].
    intros Eq%seg_path_inj. apply Hout. rewrite <- Eq. by apply list_elem_of_fmap_2.
  - intros s _. by eapply Late.compact_rseg.
  - intros r Hr. unfold as_manifest in Hr. cbn [as_env set_env] in Hr. rewrite Hman in Hr. cbn in Hr.
    apply elem_of_app in Hr as [Hr|Hr]; [by left|right]. by apply list_elem_of_singleton in Hr as ->.
  - unfold as_manifest. cbn [as_env set_env]. by rewrite Hman.
  - rewrite app_nil_r. exact Hst.
  - rewrite app_nil_r. apply Permutation_app; [exact Hst|done].
Qed.

(** A sweep takes files that were replaced before the snapshot. *)
Lemma kept_sweep t st0 gone0 grace now st env n acked gone :
  Compact.sweep_pending_deletions grace now None (as_env st) = (env, Ok n) → Bill.counter_fits st →
  now - grace < t → kept t st0 gone0 st acked gone → kept t st0 gone0 (set_env env st) acked gone.
Proof.
  intros E Hg Ht Hk. pose proof (kp_intact _ _ _ _ _ _ Hk) as Hi.
  destruct (Compact.sweep_effect (as_env st) grace now (Bill.in_pending _ _ Hi) Hg)
    as (env' & n' & E' & _ & Hst & _ & _ & Hf & _ & _ & _ & _ & Hbc).
  rewrite E in E'. assert (env' = env) as -> by congruence. clear E'.
  rewrite <- (app_nil_r gone). apply (kept_step t st0 gone0 st _ acked acked gone [] []); try done.
  - by eapply Bill.inv_sweep.
  - apply (kp_typed _ _ _ _ _ _ Hk).
  - intros s Hs. unfold as_files. cbn [as_env set_env]. rewrite Hf, decide_False; [done|].
    intros (id & Eq%seg_path_inj & Hin)%list_elem_of_fmap. subst id.
    apply list_elem_of_join in Hin as (ids & Hin & (r & -> & Hr)%list_elem_of_fmap). apply list_elem_of_filter in Hr as [Hx Hr].
    pose proof (kp_pending _ _ _ _ _ _ Hk r s Hr Hs Hin). unfold Compact.finalizable in Hx. zbool. lia.
  - intros s _. unfold as_files. cbn [as_env set_env]. rewrite Hf, decide_False; [done|].
    intros (id & Eq & _)%list_elem_of_fmap. symmetry in Eq. by apply RW.seg_path_not_rseg in Eq.
  - intros r Hr. left. unfold as_manifest in *. cbn [as_env set_env] in Hr.
    unfold Compact.sweep_pending_deletions in E. case_bool_decide; [by injection E as <- _|].
    match type of E with context [Man.save None ?fs ?m] =>
      destruct (Man.save_then_load None fs m) as (manfs & Es & _); [exact Hg|] end.
    rewrite Es in E. injection E as <- _. cbn in Hr. by apply list_elem_of_filter in Hr as [_ Hr].
  - rewrite app_nil_r. apply reflexive_eq. exact Hst.
  - rewrite app_nil_r. apply reflexive_eq. f_equal. exact Hst.
Qed.

Lemma close_files now account period st st' r :
  Close.handle_close_period None now st account period = (st', Ok r) → as_files st' = as_files st.
Proof.
  intros E. unfold Close.handle_close_period in E. destruct (Close.parsed_period _) as [[y m]| |]; [|done..].
  destruct (Per.find_closed _ _ _ _); [by injection E as <- _|]. destruct (mbind _ _) as [frozen| |]; [|done..].
  unfold Close.close_commit in E. destruct (existsb _ _); [by injection E as <- _|].
  destruct (Man.save _ _ _) as [[manfs m'] res]. destruct res as [u| |]; [|done..]. by injection E as <- _.
Qed.

Lemma reopen_files account period st st' b :
  Close.handle_reopen_period None st account period = (st', Ok b) → as_files st' = as_files st.
Proof.
  intros E. unfold Close.handle_reopen_period in E. destruct (Close.parsed_period _) as [[y m]| |]; [|done..].
  cbv zeta in E. destruct (_ <? _)%nat; [|by injection E as <- _].
  destruct (Man.save _ _ _) as [[manfs m'] res]. destruct res as [u| |]; [|done..]. by injection E as <- _.
Qed.

Lemma kept_during t st0 gone0 x y :
  during t (as_manifest st0) x y → kept t st0 gone0 x.1.1 x.1.2 x.2 → kept t st0 gone0 y.1.1 y.1.2 y.2.
Proof.
  destruct 1; cbn [fst snd]; intros Hk.
  - by eapply kept_ingest.
  - by apply kept_send.
  - by apply kept_flush.
  - by eapply kept_tick.
  - by eapply kept_compact.
  - by eapply kept_sweep.
  - eapply kept_reframed; [done|by eapply Bill.close_frame; [..|apply (kp_intact _ _ _ _ _ _ Hk)]|..];
      intros s _; by rewrite (close_files _ _ _ _ _ _ H).
  - eapply kept_reframed; [done|by eapply Bill.reopen_frame; [..|apply (kp_intact _ _ _ _ _ _ Hk)]|..];
      intros s _; by rewrite (reopen_files _ _ _ _ _ H).
Qed.

Lemma kept_runs t st0 gone0 x y :
  rtc (during t (as_manifest st0)) x y → kept t st0 gone0 x.1.1 x.1.2 x.2 → kept t st0 gone0 y.1.1 y.1.2 y.2.
Proof. induction 1 as [|x y z Hs _ IH]; intros Hk; [done|]. by eapply IH, kept_during. Qed.

(** ** What the query answers *)
Lemma scan_files_same files files0 i segs :
  (∀ j s, s ∈ segs → files j !! seg_path (sm_segment_id s) = files0 !! seg_path (sm_segment_id s)) →
  scan_files files i segs = (l ← mapM (λ s, Exec.scan_file files0 (sm_segment_id s)) segs; Some (mjoin l)).
Proof.
  revert i. induction segs as [|s segs IH]; intros i H; [done|]. cbn [scan_files mapM].
  unfold Exec.scan_file at 1. rewrite H by (by left). fold (Exec.scan_file files0 (sm_segment_id s)).
  destruct (Exec.scan_file _ _) as [es|]; [|done]. cbn. rewrite IH by (intros; apply H; by right).
  by destruct (mapM _ segs).
Qed.

Lemma rolled_at_same files files0 i segs :
  (∀ j s, s ∈ segs → files j !! rseg_path (sm_segment_id s) = files0 !! rseg_path (sm_segment_id s)) →
  rolled files i segs = RW.rolled files0 segs.
Proof.
  revert i. induction segs as [|s segs IH]; intros i H; [done|]. cbn [rolled].
  rewrite IH by (intros; apply H; by right). rewrite (RW.rollup_rows_same files0) by (apply H; by left). done.
Qed.

(** The state a query sees: the directory of [st] under a manifest and a
    memtable of their own. *)
Definition view (m : Manifest) (memtable : Memtable) (st : AppState) : AppState :=
  MkAppState (MkFlushEnv (as_files st) (fe_manfs (as_env st)) m (as_walfs st)) (as_wal st) memtable
    (as_dedupe st) (as_queue st) (as_sending st) (as_config st).

(** The raw segments of [m] with the rollups and the watermark of [m0]. *)
Definition with_rollups_of (m0 m : Manifest) : Manifest :=
  set_watermark (m_hourly_rollup_ms m0) (set_rollup_segments (m_rollup_segments m0) m).

Lemma raw_reads_view t x y r plan from_ms to_ms m :
  Bill.intact x.1.1 x.1.2 → Forall Bill.well_typed x.1.2 → raw_reads t x y r →
  m_raw_segments m = m_raw_segments (as_manifest x.1.1) → m_bucket_count m = m_bucket_count (as_manifest x.1.1) →
  collect_raw_events r plan from_ms to_ms = Exec.collect_raw_events (view m (as_memtable y.1.1) x.1.1) plan from_ms to_ms.
Proof.
  intros Hi Hty (_ & Hm & Hf & Hmt) Eraw Ebc. unfold collect_raw_events, Exec.collect_raw_events.
  change (as_manifest (view _ _ _)) with m. rewrite Hm, Hmt, Eraw, Ebc.
  rewrite (scan_files_same _ (as_files x.1.1)).
  - change (as_files (view _ _ _)) with (as_files x.1.1). by destruct (mapM _ _).
  - intros j s [_ Hs]%list_elem_of_filter. destruct (Hf j) as (z & Hr & _ & ->).
    by apply (kp_raw _ _ _ _ _ _ (kept_runs t _ _ _ _ Hr (kept_refl _ _ _ _ Hi Hty))).
Qed.

(** An overlapping query answers like one that runs alone in its view. *)
Lemma rollup_reads_view t w x y r plan :
  Bill.intact w.1.1 w.1.2 → Forall Bill.well_typed w.1.2 → rollup_reads t w x y r →
  execute_plan r plan
  = Exec.execute_plan (view (with_rollups_of (as_manifest w.1.1) (as_manifest x.1.1)) (as_memtable y.1.1) x.1.1) plan.
Proof.
  intros Hi Hty (Hwx & Hm & Hf & Htail). pose proof (kept_runs t _ _ _ _ Hwx (kept_refl _ _ _ _ Hi Hty)) as Hk.
  set (v := view _ _ _). assert (∀ from_ms to_ms, collect_raw_events (rq_tail r) plan from_ms to_ms
      = Exec.collect_raw_events v plan from_ms to_ms) as Hraw.
  { intros from_ms to_ms. by apply (raw_reads_view t (x.1, []) y); [apply (kp_intact _ _ _ _ _ _ Hk)|apply (kp_typed _ _ _ _ _ _ Hk)|..]. }
  unfold execute_plan, Exec.execute_plan, collect_events, Exec.collect_events. destruct (qp_source plan); [by rewrite Hraw|].
  unfold collect_rollup_then_raw_tail, Exec.collect_rollup_then_raw_tail.
  change (as_manifest v) with (with_rollups_of (as_manifest w.1.1) (as_manifest x.1.1)). rewrite Hm. cbv zeta.
  change (m_hourly_rollup_ms (with_rollups_of ?a ?b)) with (m_hourly_rollup_ms a).
  change (m_rollup_segments (with_rollups_of ?a ?b)) with (m_rollup_segments a). rewrite Hraw.
  assert (∀ upper s, Exec.rollup_selected (with_rollups_of (as_manifest w.1.1) (as_manifest x.1.1)) plan upper s
    = Exec.rollup_selected (as_manifest w.1.1) plan upper s) as Hsel.
  { intros upper s. unfold Exec.rollup_selected. change (m_bucket_count (with_rollups_of ?a ?b)) with (m_bucket_count b).
    by rewrite (kp_buckets _ _ _ _ _ _ Hk). }
  rewrite (rolled_at_same _ (as_files v)).
  - rewrite (list_filter_iff _ (λ s, Exec.rollup_selected (with_rollups_of (as_manifest w.1.1) (as_manifest x.1.1)) plan
      (Z.min (qp_to_ms plan) (m_hourly_rollup_ms (as_manifest w.1.1))) s = true)); [done|]. intros s. by rewrite Hsel.
  - intros j s [_ Hs]%list_elem_of_filter. destruct (Hf j) as (z & Hr & _ & ->).
    change (as_files v) with (as_files x.1.1). rewrite (kp_rollups _ _ _ _ _ _ Hk s Hs).
    by apply (kp_rollups _ _ _ _ _ _ (kept_runs t _ _ _ _ Hr (kept_refl _ _ _ _ Hi Hty))).
Qed.

(** What a query that started in [x] can see, and what is on its way. *)
Lemma overlap_accounts t x y :
  Bill.intact x.1.1 x.1.2 → Forall Bill.well_typed x.1.2 → x.2 = [] → rtc (during t (as_manifest x.1.1)) x y →
  y.1.2 ≡ₚ (Late.stored x.1.1 ++ mt_events (as_memtable y.1.1)) ++ (queued x.1.1 ++ y.2)
  ∧ Forall Bill.well_typed y.1.2.
Proof.
  intros Hi Hty E Hr. pose proof (kept_runs t _ _ _ _ Hr (kept_refl _ _ _ _ Hi Hty)) as Hk. rewrite E in Hk.
  pose proof (kp_moved _ _ _ _ _ _ Hk) as Hm. rewrite app_nil_r in Hm. split; [|apply (kp_typed _ _ _ _ _ _ Hk)].
  rewrite (Sys.si_acked _ _ (Bill.in_system _ _ (kp_intact _ _ _ _ _ _ Hk))). unfold Ing.buffered.
  fold (Late.stored y.1.1) (queued y.1.1). rewrite app_assoc, Hm, <- !app_assoc. f_equiv.
  rewrite (app_assoc (queued x.1.1)). apply Permutation_app_comm.
Qed.


Context {BLok : Blake3Ok} {BNok : BincodeOk} {DJok : DimJsonOk}.

(** The same for a query over rollups. *)
Lemma rollup_view_fits t st acked late x y :
  Late.accounted st acked late → rtc (during t (as_manifest st)) (st, acked, []) x → rtc (during t (as_manifest x.1.1)) (x.1, []) y →
  2 * Roll.abs_total y.1.2 ≤ i128_max →
  let v := view (with_rollups_of (as_manifest st) (as_manifest x.1.1)) (as_memtable y.1.1) x.1.1 in
  ∃ prompt missed, Exec.db_events v ≡ₚ prompt ++ missed ∧ Forall (λ e, ev_timestamp_ms e < Late.watermark st) missed
    ∧ Api.path_fit v prompt.
Proof.
  intros [Hi Hty H0 Hl (kept0 & Hk0 & Hro) _ _ Habs] Hwx Hxy Ha v.
  pose proof (kept_runs t _ _ _ _ Hwx (kept_refl _ _ _ _ Hi Hty)) as Hk. cbn [fst snd] in Hk.
  destruct (overlap_accounts t (x.1, []) y (kp_intact _ _ _ _ _ _ Hk) (kp_typed _ _ _ _ _ _ Hk) eq_refl Hxy) as [Hacc Hty'].
  cbn [fst snd] in Hacc. destruct (kp_grown _ _ _ _ _ _ Hk) as [new Hg].
  assert (Late.rollup_frame st v) as Hf.
  { split; [done|done|apply (kp_buckets _ _ _ _ _ _ Hk)|]. intros s Hs. apply (kp_rollups _ _ _ _ _ _ Hk s Hs). }
  destruct (Late.frame_split st v kept0 late new Hf Hk0 Hro Hg) as (kept1 & Hk1 & Hro1).
  apply Late.typed_times in Hty'. unfold Late.on_time in Hty'. rewrite Hacc in Hty'.
  apply Forall_app in Hty' as [[Hts Hmt]%Forall_app _].
  destruct (Late.visible_fits v kept1 (late ++ Late.below (Late.watermark st) new)) as (prompt & Hp & Hfit); try done.
  - pose proof (Bill.in_sound _ _ (kp_intact _ _ _ _ _ _ Hk)) as Hs. exact Hs.
  - apply Forall_app. split; [exact Hl|apply Late.below_lt].
  - intros sel. rewrite (Late.frame_rollups _ _ Hf). etrans; [apply Habs|]. by eapply Late.raw_abs_grows.
  - assert (Roll.abs_total (Exec.db_events v) ≤ Roll.abs_total y.1.2); [|lia].
    unfold Roll.abs_total. rewrite Hacc. apply sumZ_app_le. intros e. lia.
  - exists prompt, (Late.missing v (late ++ Late.below (Late.watermark st) new)). split; [done|]. split; [|done].
    apply Forall_app. split; [|apply Late.below_lt]. apply Forall_app. split; [exact Hl|apply Late.below_lt].
Qed.

End snap.
End Snap.

(** A query that takes the manifest while a message is queued and looks at the
    memtable after the flush; one that takes the rollups before a late event
    arrives, the segments of the tail before it is stored, and the memtable
    after that. *)
Module SnapExample.
#[local] Existing Instances poly_digest code_bincode stored_codecs poly_digest_ok code_bincode_ok stored_codecs_ok.
#[local] Existing Instances Files.file_segments Files.file_segments_ok text_json text_json_ok.
#[local] Existing Instances ManExample.text_manifest ManExample.text_manifest_ok Per.flat_calendar.
#[local] Existing Instances QueryExample.code_dims QueryExample.code_dims_parse QueryExample.code_dims_ok ApiExample.millis.

Definition reads1 : RawReads :=
  MkRawReads (as_manifest SystemExample.st1) (λ _, as_files SystemExample.st2) (as_memtable SystemExample.st2).
Definition query1 : RollupReads := MkRollupReads (as_manifest SystemExample.st1) (λ _, as_files SystemExample.st1) reads1.
Definition sum_plan (source : QuerySource) : QueryPlan :=
  MkQueryPlan source None 0 14400000 [] [] {["total" := Sum]} None.

Lemma flush_meanwhile :
  Snap.during 200 0 (as_manifest SystemExample.st1) (SystemExample.st1, SystemExample.acked, []) (SystemExample.st2, SystemExample.acked, []).
Proof.
  apply Snap.during_flush.
  - exact SystemExample.queue1.
  - apply FlushExample.good_draws_good.
  - exact SystemExample.fresh1.
  - exact SystemExample.fresh1.
  - exact SystemExample.fits1.
  - exact SystemExample.generation1.
  - apply BillExample.no_segments; [right; eexists|]; vm_compute; reflexivity.
Qed.

(** Reads before, or after, the one step that happens meanwhile. *)
Lemma reads_before t st acked gone st' acked' gone' :
  Snap.during 200 t (as_manifest st) (st, acked, gone) (st', acked', gone') →
  Snap.raw_reads 200 t (st, acked, gone) (st', acked', gone') (MkRawReads (as_manifest st) (λ _, as_files st) (as_memtable st')).
Proof.
  intros H. split; [by apply rtc_once|]. split; [done|]. split; [|done].
  intros i. exists (st, acked, gone). split; [done|]. split; [by apply rtc_once|done].
Qed.

Lemma reads_after t st acked gone st' acked' gone' :
  Snap.during 200 t (as_manifest st) (st, acked, gone) (st', acked', gone') →
  Snap.raw_reads 200 t (st, acked, gone) (st', acked', gone') (MkRawReads (as_manifest st) (λ _, as_files st') (as_memtable st')).
Proof.
  intros H. split; [by apply rtc_once|]. split; [done|]. split; [|done].
  intros i. exists (st', acked', gone'). split; [by apply rtc_once|]. done.
Qed.

Lemma rollup_reads_before t st acked st1 acked1 gone1 y tail :
  rtc (Snap.during 200 t (as_manifest st)) (st, acked, []) (st1, acked1, gone1) → Snap.raw_reads 200 t (st1, acked1, []) y tail →
  Snap.rollup_reads 200 t (st, acked, []) (st1, acked1, gone1) y (MkRollupReads (as_manifest st) (λ _, as_files st) tail).
Proof.
  intros H Ht. split; [exact H|]. split; [done|]. split; [|exact Ht].
  intros i. exists (st, acked, []). split; [done|]. split; [exact H|done].
Qed.

Lemma during_to t m x st' acked' gone' gone :
  Snap.during 200 t m x (st', acked', gone') → gone' = gone → Snap.during 200 t m x (st', acked', gone).
Proof. by intros H <-. Qed.

Lemma raw_reads1 :
  Snap.raw_reads 200 0 (SystemExample.st1, SystemExample.acked, []) (SystemExample.st2, SystemExample.acked, []) reads1.
Proof. exact (reads_after _ _ _ _ _ _ _ flush_meanwhile). Qed.

Lemma snap_reach : rtc (Bill.step 200) (SystemExample.st0, []) (SystemExample.st1, SystemExample.acked).
Proof. exact BillExample.reach_sent. Qed.


(** The rollups of [st3], the segments of [st4], the memtable of [st5]. *)
Definition reads2 : RawReads :=
  MkRawReads (as_manifest LateExample.st4) (λ _, as_files LateExample.st4) (as_memtable LateExample.st5).
Definition query2 : RollupReads := MkRollupReads (as_manifest LateExample.st3) (λ _, as_files LateExample.st3) reads2.

Lemma arrive_meanwhile :
  rtc (Snap.during 200 0 (as_manifest LateExample.st3)) (LateExample.st3, SystemExample.acked, [])
    (LateExample.st4, LateExample.acked4, LateExample.late5).
Proof.
  eapply rtc_l; [|apply rtc_once, Snap.during_send; vm_compute; reflexivity].
  unfold LateExample.acked4. eapply during_to.
  - apply (Snap.during_ingest 200 0 (as_manifest LateExample.st3) no_faults 2000 IngestExample.clk [LateExample.late_event]
      LateExample.st3 LateExample.handed4 (MkIngestResponse 1 0 0 0) SystemExample.acked []).
    + exact LateExample.arrived_ok.
    + by vm_compute.
    + refine (bool_decide_unpack _ _). by vm_compute.
    + by vm_compute.
  - vm_compute. reflexivity.
Qed.

Lemma store_meanwhile :
  Snap.during 200 0 (as_manifest LateExample.st4) (LateExample.st4, LateExample.acked4, []) (LateExample.st5, LateExample.acked4, []).
Proof.
  apply Snap.during_flush; [exact LateExample.queue4|exact LateExample.draws4_good|exact LateExample.draws4_fresh
    |exact LateExample.draws4_fresh|exact LateExample.fits4|by vm_compute|exact LateExample.fresh5].
Qed.

Lemma rollup_reads2 :
  Snap.rollup_reads 200 0 (LateExample.st3, SystemExample.acked, []) (LateExample.st4, LateExample.acked4, LateExample.late5)
    (LateExample.st5, LateExample.acked4, []) query2.
Proof. exact (rollup_reads_before _ _ _ _ _ _ _ _ arrive_meanwhile (reads_before _ _ _ _ _ _ _ store_meanwhile)). Qed.

End SnapExample.
