(* ===== verification/Process.v ===== *)
(** * Processes on one database directory

    [main] of [src/main.rs]: the server and the admin commands as processes
    that share a directory and exclude each other by [src/runtime/lock.rs],
    the start of [run_server] with the clean-up of [tmp/]
    ([src/runtime/recovery.rs]), and the opening of the database by the admin
    commands ([open_state_for_admin] of [src/admin.rs]).  What a process holds
    in memory is apart from the directory, so that a second process would be
    a second manifest over the same files. *)

From Stdlib Require Import Ascii.
From stdpp Require Import sorting numbers strings base gmap list.
From S2P Require Import Prelude Model Instances Encoding Segment SegmentSpec DedupeIndex SegmentApi.
From S2P Require Import Memtable Dedupe Wal Manifest Period Flusher Compaction State Ingest Recovery System.
From S2P Require Import Rollup RollupWorker Query Sql Api Periods Admin Billing Kill.

(** An entry of [tmp/]: its name, and whether it is a file. *)
Abbreviation TmpDir := (list (string * bool)).

Record Disk := MkDisk {
  dk_manfs : Man.ManFs;
  dk_files : gmap string bytes;
  dk_walfs : WalFs;
  dk_tmp : TmpDir;
}.

(** What a running server holds in memory. *)
Record Server := MkServer {
  sv_manifest : Manifest;
  sv_wal : Wal;
  sv_memtable : Memtable;
  sv_dedupe : HotDedupe;
  sv_queue : list FlushMessage;
  sv_sending : list FlushMessage;
  sv_config : Config;
}.

Record World := MkWorld {
  w_disk : Disk;
  w_lock : option nat;
  w_procs : gmap nat Server;
}.

Inductive Command :=
| Serve
| Check (deep : bool)
| RebuildRollups (from to : string)
| InspectSegment (segment_id : string)
| VerifyPeriod (account from to : string)
| ExportParquet.

Inductive Output :=
| Serving
| OutCheck (summary : CheckSummary) (segments : list (string * bool))
| OutRebuilt (dropped : nat)
| OutInspected (i : Inspection)
| OutVerified (v : VerifyResponse)
| OutExported (file : bytes) (stats : ExportStats).

Inductive exit_error :=
| ExitLock (e : lock_error)
| ExitRecovery (e : Man.man_error)
| ExitAdmin (e : admin_error).

(** What the environment does to one command: the lock call, the removal of
    [tmp/] (the entry at which listing fails, names that cannot be removed),
    the manifest migration and saves, the log directory, the clock. *)
Record CmdIo := MkCmdIo {
  ci_lock : option lock_fault;
  ci_tmp_fail : option nat;
  ci_tmp_stuck : gset string;
  ci_migrate : Man.save_fault;
  ci_save : Man.save_fault;
  ci_wal_ok : bool;
  ci_now : Z;
  ci_clk : nat → Z;
}.

Module Proc.

(** ** Step 2 of recovery *)
Fixpoint remove_tmp_files (fail_at : option nat) (stuck : gset string) (entries : TmpDir) : TmpDir * bool :=
  match entries with
  | [] => ([], true)
  | (name, is_file) :: rest =>
      match fail_at with
      | Some O => (entries, false)
      | _ =>
          let '(kept, ok) := remove_tmp_files (Nat.pred <$> fail_at) stuck rest in
          (if is_file && negb (bool_decide (name ∈ stuck)) then kept else (name, is_file) :: kept, ok)
      end
  end.

Section process.
Context {BL : Blake3} {BN : Bincode} {SJ : SerdeJson} {RS : RawSegments} {MJ : ManifestJson} {CH : Chrono}.
Context {DJ : DimJson} {DP : DimParse} {RF : Rfc3339} {PW : ParquetWriter}.
Context (size_of_event : Z).

(** ** Memory and directory *)
Definition attach (d : Disk) (p : Server) : AppState :=
  MkAppState (MkFlushEnv (dk_files d) (dk_manfs d) (sv_manifest p) (dk_walfs d))
    (sv_wal p) (sv_memtable p) (sv_dedupe p) (sv_queue p) (sv_sending p) (sv_config p).

Definition disk_of (tmp : TmpDir) (st : AppState) : Disk :=
  MkDisk (fe_manfs (as_env st)) (as_files st) (as_walfs st) tmp.

Definition memory_of (st : AppState) : Server :=
  MkServer (as_manifest st) (as_wal st) (as_memtable st) (as_dedupe st) (as_queue st) (as_sending st) (as_config st).

(** ** Starting the server *)

(** The manifest is loaded before [tmp/] is listed; a listing that fails ends
    recovery there. *)
Definition recover (io : CmdIo) (cfg : Config) (d : Disk) : Disk * outcome Man.man_error RecoveryResult :=
  match Man.load (ci_migrate io) (dk_manfs d) with
  | (manfs, Ok _) =>
      match remove_tmp_files (ci_tmp_fail io) (ci_tmp_stuck io) (dk_tmp d) with
      | (tmp, true) =>
          match Rec.run_startup_recovery size_of_event (dedupe_capacity cfg) (ci_migrate io) (ci_now io) (ci_clk io)
                  (dk_manfs d) (dk_files d) (dk_walfs d) with
          | (manfs, walfs, r) => (MkDisk manfs (dk_files d) walfs tmp, r)
          end
      | (tmp, false) => (MkDisk manfs (dk_files d) (dk_walfs d) tmp, Err Man.ManIo)
      end
  | (manfs, Err e) => (MkDisk manfs (dk_files d) (dk_walfs d) (dk_tmp d), Err e)
  | (manfs, Panic) => (MkDisk manfs (dk_files d) (dk_walfs d) (dk_tmp d), Panic)
  end.

Definition start_state (io : CmdIo) (cfg : Config) (d : Disk) : Disk * outcome Man.man_error AppState :=
  match recover io cfg d with
  | (d, Ok r) =>
      match (if m_bucket_count (rec_manifest r) =? 0
             then Man.save (ci_save io) (dk_manfs d) (Rec.set_bucket_count (default_bucket_count cfg) (rec_manifest r))
             else (dk_manfs d, rec_manifest r, Ok tt)) with
      | (manfs, manifest, Ok _) =>
          if ci_wal_ok io then
            let '(walfs, wal) := WalOps.open (dk_walfs d) (m_last_sealed_wal_id manifest) in
            let st := MkAppState (MkFlushEnv (dk_files d) manfs manifest walfs) wal
                        (rec_memtable r) (rec_dedupe r) [] [] cfg in
            (disk_of (dk_tmp d) st, Ok st)
          else (MkDisk manfs (dk_files d) (dk_walfs d) (dk_tmp d), Err Man.ManIo)
      | (manfs, _, Err e) => (MkDisk manfs (dk_files d) (dk_walfs d) (dk_tmp d), Err e)
      | (manfs, _, Panic) => (MkDisk manfs (dk_files d) (dk_walfs d) (dk_tmp d), Panic)
      end
  | (d, Err e) => (d, Err e)
  | (d, Panic) => (d, Panic)
  end.

Definition run_server (io : CmdIo) (cfg : Config) (pid : nat) (w : World) : World * outcome exit_error Output :=
  match Lock.acquire (ci_lock io) pid (w_lock w) with
  | (lock, Ok _) =>
      match start_state io cfg (w_disk w) with
      | (d, Ok st) => (MkWorld d lock (<[pid := memory_of st]> (w_procs w)), Ok Serving)
      | (d, Err e) => (MkWorld d (Lock.release pid lock) (w_procs w), Err (ExitRecovery e))
      | (d, Panic) => (MkWorld d (Lock.release pid lock) (w_procs w), Panic)
      end
  | (lock, Err e) => (MkWorld (w_disk w) lock (w_procs w), Err (ExitLock e))
  | (lock, Panic) => (MkWorld (w_disk w) lock (w_procs w), Panic)
  end.

(** ** The admin commands *)
Definition lift_out {A} (f : A → Output) (r : outcome admin_error A) : outcome exit_error Output :=
  match r with Ok a => Ok (f a) | Err e => Err (ExitAdmin e) | Panic => Panic end.

Definition run_command (sfault : Man.save_fault) (cmd : Command) (st : AppState) : AppState * outcome exit_error Output :=
  match cmd with
  | Serve => (st, Ok Serving)
  | Check deep => (st, lift_out (λ p, OutCheck p.1 p.2) (Admin.cmd_check st deep))
  | RebuildRollups from to => let '(st, r) := Admin.cmd_rebuild_rollups sfault st from to in (st, lift_out OutRebuilt r)
  | InspectSegment id => (st, lift_out OutInspected (Admin.cmd_inspect_segment st id))
  | VerifyPeriod account from to => (st, lift_out OutVerified (Admin.cmd_verify_period st account from to))
  | ExportParquet => (st, lift_out (λ p, OutExported p.1 p.2) (Admin.cmd_export_parquet st))
  end.

(** A command holds the lock until it has printed its output. *)
Definition run_admin (io : CmdIo) (cfg : Config) (pid : nat) (cmd : Command) (w : World)
    : World * outcome exit_error Output :=
  let d := w_disk w in
  let '(lock, locked) := Lock.acquire (ci_lock io) pid (w_lock w) in
  match Admin.open_state_for_admin locked (ci_migrate io) (ci_wal_ok io) cfg (dk_manfs d) (dk_files d) (dk_walfs d) with
  | (manfs, Ok st) =>
      let '(st, r) := run_command (ci_save io) cmd st in
      (MkWorld (disk_of (dk_tmp d) st) (Lock.release pid lock) (w_procs w), r)
  | (manfs, Err e) =>
      (MkWorld (MkDisk manfs (dk_files d) (dk_walfs d) (dk_tmp d)) (Lock.release pid lock) (w_procs w), Err (ExitAdmin e))
  | (manfs, Panic) =>
      (MkWorld (MkDisk manfs (dk_files d) (dk_walfs d) (dk_tmp d)) (Lock.release pid lock) (w_procs w), Panic)
  end.

Definition main (io : CmdIo) (cfg : Config) (pid : nat) (cmd : Command) (w : World) : World * outcome exit_error Output :=
  match cmd with
  | Serve => run_server io cfg pid w
  | _ => run_admin io cfg pid cmd w
  end.

(** ** Steps

    A process is started with any command, a server works, and a server
    stops: it exits, is killed or the machine fails, between two of its
    operations or anywhere inside a flush, and its lock goes with it.  The
    second component collects what clients were told was accepted. *)
Context (cfg : Config).

Definition saves_fit (d : Disk) : Prop :=
  ∀ m, (Man.load None (dk_manfs d)).2 = Ok (Some m) → 0 ≤ m_current_generation m < u64_max.

Inductive step : World * list UsageEvent → World * list UsageEvent → Prop :=
| step_main io pid cmd w w' r acked :
    main io cfg pid cmd w = (w', r) → w_procs w !! pid = None →
    ci_migrate io = None → ci_save io = None → saves_fit (w_disk w) →
    step (w, acked) (w', acked)
| step_work pid p st acked acked' w :
    w_procs w !! pid = Some p → Bill.step size_of_event (attach (w_disk w) p, acked) (st, acked') →
    step (w, acked)
      (MkWorld (disk_of (dk_tmp (w_disk w)) st) (w_lock w) (<[pid := memory_of st]> (w_procs w)), acked')
| step_stop pid p walfs acked w :
    w_procs w !! pid = Some p → Sys.crashed (dk_walfs (w_disk w)) walfs →
    step (w, acked)
      (MkWorld (MkDisk (dk_manfs (w_disk w)) (dk_files (w_disk w)) walfs (dk_tmp (w_disk w)))
         (Lock.release pid (w_lock w)) (delete pid (w_procs w)), acked)
| step_die pid p files manfs walfs0 walfs acked w :
    w_procs w !! pid = Some p → Kill.death size_of_event (attach (w_disk w) p) files manfs walfs0 → Sys.crashed walfs0 walfs →
    step (w, acked)
      (MkWorld (MkDisk manfs files walfs (dk_tmp (w_disk w))) (Lock.release pid (w_lock w)) (delete pid (w_procs w)), acked).

Definition no_process : World := MkWorld (MkDisk (Man.MkManFs ∅ None) ∅ (MkWalFs ∅ ∅) []) None ∅.

(** ** The invariant *)
Definition virgin (d : Disk) : Prop :=
  dk_manfs d = Man.MkManFs ∅ None ∧ dk_files d = ∅ ∧ dk_walfs d = MkWalFs ∅ ∅.

(** A directory no process works on. *)
Definition at_rest (d : Disk) (acked : list UsageEvent) : Prop :=
  virgin d ∧ acked = []
  ∨ ∃ st, Bill.intact st acked ∧ dk_manfs d = fe_manfs (as_env st) ∧ dk_files d = as_files st
      ∧ Sys.rests st (dk_walfs d).

Inductive world_ok (w : World) (acked : list UsageEvent) : Prop :=
| ok_up pid p : w_lock w = Some pid → w_procs w = {[pid := p]} → Bill.intact (attach (w_disk w) p) acked → world_ok w acked
| ok_down : w_lock w = None → w_procs w = ∅ → at_rest (w_disk w) acked → world_ok w acked.

Lemma attach_memory tmp st : attach (disk_of tmp st) (memory_of st) = st.
Proof. by destruct st as [[] ? ? ? ? ? ?]. Qed.

Context {SJok : SerdeJsonOk} {RSok : RawSegmentsOk} {MJok : ManifestJsonOk}.

Lemma intact_open c st acked fs d m :
  Bill.intact st acked → Sys.rests_after [] st fs → durability_mode c = Strict → mt_events m = Ing.buffered st →
  let '(walfs, wal) := WalOps.open fs (m_last_sealed_wal_id (as_manifest st)) in
  Bill.intact (MkAppState (MkFlushEnv (as_files st) (fe_manfs (as_env st)) (as_manifest st) walfs) wal m d [] [] c) acked.
Proof.
  intros [Hi Hs Hn Hp] Hr Hc Hm. pose proof (Sys.opened_inv c st acked fs d m Hi Hr Hc Hm) as Ho.
  destruct (WalOps.open _ _) as [walfs wal]. by split.
Qed.

Lemma recovery_virgin capacity now clk :
  Rec.run_startup_recovery size_of_event capacity None now clk (Man.MkManFs ∅ None) ∅ (MkWalFs ∅ ∅)
  = (Man.MkManFs ∅ None, MkWalFs ∅ ∅, Ok (MkRecoveryResult manifest_default (Hot.new capacity) Mem.new)).
Proof.
  unfold Rec.run_startup_recovery. change (Man.load None (Man.MkManFs ∅ None)) with (Man.MkManFs ∅ None, @Ok Man.man_error _ (@None Manifest)).
  cbn [default from_option id m_last_sealed_wal_id manifest_default]. change (0 <? 0) with false. cbn match.
  by rewrite (Sys.unsealed_log _ _ 0 Sys.empty_dir_log).
Qed.

Lemma fresh_buffered st : Bill.intact st [] → Ing.buffered st = [].
Proof.
  intros [Hi _ _ _]. pose proof (Sys.si_acked _ _ Hi) as Ha. symmetry in Ha. by apply Permutation_nil_r, app_eq_nil in Ha as [_ ?].
Qed.

Lemma remove_all_ok stuck entries : (remove_tmp_files None stuck entries).2 = true.
Proof.
  induction entries as [|[name is_file] rest IH]; [done|]. cbn [remove_tmp_files fmap option_fmap option_map].
  by destruct (remove_tmp_files None stuck rest).
Qed.

(** Only directories and names that cannot be removed are left. *)
Lemma remove_all_spec stuck entries :
  (remove_tmp_files None stuck entries).1 = filter (λ p : string * bool, p.2 = false ∨ p.1 ∈ stuck) entries.
Proof.
  induction entries as [|[name is_file] rest IH]; [done|]. rewrite filter_cons.
  cbn [remove_tmp_files fmap option_fmap option_map fst snd]. rewrite <- IH.
  destruct (remove_tmp_files None stuck rest) as [kept ok]. cbn [fst]. destruct is_file; cbn [andb].
  - case_bool_decide; [rewrite decide_True by auto|rewrite decide_False by (intros [?|?]; done)]; done.
  - by rewrite decide_True by auto.
Qed.

Lemma remove_stopped fail_at stuck entries tmp : remove_tmp_files fail_at stuck entries = (tmp, false) → fail_at ≠ None.
Proof. intros E ->. pose proof (remove_all_ok stuck entries) as H. by rewrite E in H. Qed.

Section started.
Context (Hstrict : durability_mode cfg = Strict) (Hbuckets : default_bucket_count cfg ≠ 0).

Definition started (io : CmdIo) (tmp : TmpDir) (acked : list UsageEvent) (r : Disk * outcome Man.man_error AppState) : Prop :=
  match r with
  | (d, Ok st) =>
      d = disk_of (remove_tmp_files (ci_tmp_fail io) (ci_tmp_stuck io) tmp).1 st
      ∧ Bill.intact st acked ∧ pending st = []
  | (d, Err _) => at_rest d acked ∧ (ci_tmp_fail io ≠ None ∨ ci_wal_ok io = false)
  | (_, Panic) => False
  end.

Lemma start_intact io d st acked :
  ci_migrate io = None → Bill.intact st acked → dk_manfs d = fe_manfs (as_env st) → dk_files d = as_files st →
  Sys.rests st (dk_walfs d) → started io (dk_tmp d) acked (start_state io cfg d).
Proof.
  intros Hmig Hi Em Ef Hr. pose proof (Bill.in_system _ _ Hi) as Hsys.
  assert (∀ tmp, at_rest (MkDisk (fe_manfs (as_env st)) (as_files st) (dk_walfs d) tmp) acked) as Hrest
    by (intros tmp; right; by exists st).
  unfold start_state, recover. rewrite Hmig, Em, Ef, (Sys.si_manifest _ _ Hsys).
  unfold started.
  destruct (remove_tmp_files _ _ _) as [tmp []] eqn:Et; [|split; [by apply Hrest|left; by eapply remove_stopped]].
  destruct (Sys.recovery_rests size_of_event (dedupe_capacity cfg) (ci_now io) (ci_clk io) st acked (dk_walfs d) Hsys Hr)
    as (dd & m & fs2 & -> & Hm & Hr2).
  cbn [rec_manifest rec_memtable rec_dedupe dk_manfs dk_walfs dk_files dk_tmp].
  rewrite (proj2 (Z.eqb_neq _ _)) by apply (Sys.si_buckets _ _ Hsys).
  destruct (ci_wal_ok io); [|split; [right; exists st; by eauto using Sys.clean_rests|by right]].
  pose proof (intact_open cfg st acked fs2 dd m Hi Hr2 Hstrict Hm) as Ho.
  destruct (WalOps.open _ _) as [walfs wal]. done.
Qed.

Lemma start_virgin io d :
  ci_migrate io = None → ci_save io = None → virgin d → started io (dk_tmp d) [] (start_state io cfg d).
Proof.
  intros Hmig Hsv (Em & Ef & Ew). unfold start_state, recover. rewrite Hmig, Hsv, Em, Ef, Ew.
  change (Man.load None (Man.MkManFs ∅ None)) with (Man.MkManFs ∅ None, @Ok Man.man_error _ (@None Manifest)).
  unfold started. destruct (remove_tmp_files _ _ _) as [tmp []] eqn:Et; [|split; [by left|left; by eapply remove_stopped]].
  rewrite recovery_virgin. cbn [rec_manifest rec_memtable rec_dedupe dk_manfs dk_walfs dk_files dk_tmp].
  change (m_bucket_count manifest_default =? 0) with true. cbn match.
  destruct (Bill.fresh_intact size_of_event cfg (ci_now io) (ci_clk io) Hstrict Hbuckets) as (st & E & Hi).
  unfold Sys.fresh_start, Rec.startup in E. rewrite recovery_virgin in E. cbn [rec_manifest rec_memtable rec_dedupe] in E.
  change (m_bucket_count manifest_default =? 0) with true in E. cbn match in E.
  destruct (Man.save _ _ _) as [[manfs m] [u|e|]]; [|done..]. cbn [mbind outcome_bind] in E.
  destruct (WalOps.open _ _) as [walfs wal] eqn:Eo. injection E as <-. destruct (ci_wal_ok io); [by split|].
  split; [right|by right]. eexists. split; [exact Hi|]. split; [done|]. split; [done|]. apply Sys.clean_rests.
  exists []. split; [apply Sys.empty_dir_log|]. split; [by rewrite fresh_buffered|constructor].
Qed.

Lemma start_at_rest io d acked :
  ci_migrate io = None → ci_save io = None → at_rest d acked → started io (dk_tmp d) acked (start_state io cfg d).
Proof.
  intros Hmig Hsv [[Hv ->]|(st & Hi & Em & Ef & Hr)]; [by apply start_virgin|by eapply start_intact].
Qed.

(** ** Admin commands on a directory at rest *)

Lemma rebuild_walfs from_ms to_ms walfs env :
  RW.rebuild_rollups None from_ms to_ms (set_walfs walfs env)
  = (set_walfs walfs (RW.rebuild_rollups None from_ms to_ms env).1, (RW.rebuild_rollups None from_ms to_ms env).2).
Proof.
  unfold RW.rebuild_rollups. cbv zeta. cbn [set_walfs fe_manifest fe_manfs fe_files fe_walfs].
  by destruct (Man.save _ _ _) as [[manfs m] [u|e|]].
Qed.

Lemma rebuild_total from_ms to_ms env :
  0 ≤ m_current_generation (fe_manifest env) < u64_max →
  ∃ env' n, RW.rebuild_rollups None from_ms to_ms env = (env', Ok n) ∧ fe_walfs env' = fe_walfs env
    ∧ fe_files env' = fe_files env ∧ m_last_sealed_wal_id (fe_manifest env') = m_last_sealed_wal_id (fe_manifest env).
Proof.
  intros Hg. unfold RW.rebuild_rollups. cbv zeta. destruct (Man.save _ _ _) as [[manfs m] res] eqn:Es.
  match type of Es with Man.save None ?fs ?m0 = _ =>
    destruct (Man.save_then_load None fs m0) as (fs' & E' & _); [by destruct (_ <? _)|rewrite Es in E'; injection E' as -> -> ->] end.
  eexists _, _. split; [reflexivity|]. split; [done|]. split; [done|]. cbn. by destruct (_ <? _).
Qed.

(** A command sees only the manifest and the segment files: what it leaves is
    what it would leave of any state over them. *)
Lemma command_intact cmd st a a' r acked :
  run_command None cmd a = (a', r) → set_walfs (as_walfs st) (as_env a) = as_env st →
  Bill.counter_fits st → Bill.intact st acked →
  Bill.intact (set_env (set_walfs (as_walfs st) (as_env a')) st) acked ∧ as_walfs a' = as_walfs a
  ∧ m_last_sealed_wal_id (as_manifest a') = m_last_sealed_wal_id (as_manifest st).
Proof.
  intros E Ee Hg Hi. assert (as_manifest a = as_manifest st) as Em by (unfold as_manifest; by rewrite <- Ee).
  assert (a' = a → Bill.intact (set_env (set_walfs (as_walfs st) (as_env a')) st) acked ∧ as_walfs a' = as_walfs a
    ∧ m_last_sealed_wal_id (as_manifest a') = m_last_sealed_wal_id (as_manifest st)) as Hsame.
  { intros ->. rewrite Ee, Em. split; [|done]. by destruct st as [[] ? ? ? ? ? ?]. }
  destruct cmd; cbn [run_command] in E; try (by apply Hsame; injection E as <- _).
  unfold Admin.cmd_rebuild_rollups in E. destruct (Admin.admin_range from to) as [[from_ms to_ms]|e|] eqn:Ea;
    [|by apply Hsame; injection E as <- _..].
  destruct (rebuild_total from_ms to_ms (as_env a)) as (env & n & Er & Ew & _ & El); [by change (fe_manifest (as_env a)) with (as_manifest a); rewrite Em|].
  rewrite Er in E. injection E as <- _. split; [|by rewrite <- Em].
  apply (Bill.reframed_keeps st); [done|]. apply (Bill.rebuild_frame from to st _ n acked); [|done|done].
  unfold Admin.cmd_rebuild_rollups. rewrite Ea, <- Ee, rebuild_walfs, Er. done.
Qed.

Lemma admin_at_rest io pid cmd w acked w' r :
  ci_migrate io = None → ci_save io = None → saves_fit (w_disk w) → w_lock w = None → at_rest (w_disk w) acked →
  run_admin io cfg pid cmd w = (w', r) →
  at_rest (w_disk w') acked ∧ w_lock w' = None ∧ w_procs w' = w_procs w.
Proof.
  intros Hmig Hsv Hfit Hl Hr E. unfold run_admin in E. rewrite Hl, Hmig, Hsv in E.
  destruct (Lock.acquire (ci_lock io) pid None) as [lock locked] eqn:Ea.
  assert (Lock.release pid lock = None) as Hrel.
  { unfold Lock.acquire in Ea. unfold Lock.release. destruct (ci_lock io) as [[]|]; injection Ea as <- <-; [done..|].
    by rewrite bool_decide_eq_true_2. }
  rewrite Hrel in E. unfold Admin.open_state_for_admin in E. destruct locked as [[]|e|];
    [|injection E as <- _; by destruct w as [[] ? ?]..].
  destruct Hr as [[(Em & Ef & Ew) ->]|(st & Hi & Em & Ef & Hrest)].
  - rewrite Em in E. change (Man.load None (Man.MkManFs ∅ None)) with (Man.MkManFs ∅ None, @Ok Man.man_error _ (@None Manifest)) in E.
    injection E as <- _. split; [|done]. by left.
  - pose proof (Sys.si_manifest _ _ (Bill.in_system _ _ Hi)) as Hman.
    unfold saves_fit in Hfit. rewrite Em in E, Hfit. rewrite Hman in E, Hfit. rewrite Ef in E.
    destruct (ci_wal_ok io); [|injection E as <- _; split; [|done]; right; by exists st].
    pose proof (Sys.open_rests st acked (dk_walfs (w_disk w)) (Bill.in_system _ _ Hi) Hrest) as Ho.
    destruct (WalOps.open _ _) as [walfs wal]. cbn [fst] in Ho.
    destruct (run_command None cmd _) as [a' res] eqn:Ec. injection E as <- _. split; [|done].
    destruct (command_intact cmd st _ _ _ acked Ec) as (Hi' & Ew & El); [by destruct st as [[] ? ? ? ? ? ?]|by apply (Hfit _ eq_refl)|done|].
    right. eexists. split; [exact Hi'|]. split; [done|]. split; [done|]. change (Sys.rests (set_env (set_walfs (as_walfs st) (as_env a')) st) (as_walfs a')). rewrite Ew.
    unfold Sys.rests, Sys.rests_after, as_manifest in Ho |- *. cbn [set_env set_walfs as_env fe_manifest].
    unfold as_manifest in El. rewrite El. exact Ho.
Qed.

(** A process that finds the lock taken changes nothing. *)
Lemma locked_out io pid pid' cmd w :
  w_lock w = Some pid → pid' ≠ pid → ∃ e, main io cfg pid' cmd w = (w, Err e).
Proof.
  intros Hl Hn. assert (∃ e, Lock.acquire (ci_lock io) pid' (w_lock w) = (w_lock w, Err e)) as [e Ea].
  { unfold Lock.acquire. rewrite Hl. destruct (ci_lock io) as [[]|]; by eexists. }
  assert (Lock.release pid' (w_lock w) = w_lock w) as Hrel.
  { unfold Lock.release. rewrite Hl. rewrite bool_decide_eq_false_2; [done|congruence]. }
  unfold main, run_server, run_admin. destruct cmd; rewrite Ea; cbn [Admin.open_state_for_admin]; rewrite ?Hrel;
    destruct w as [[] ? ?]; by eexists.
Qed.

(** ** The lock alone

    Whatever a running server does to its memory and the directory, and with
    whatever failures. *)
Inductive lock_step : World → World → Prop :=
| lock_main io pid cmd w w' r :
    main io cfg pid cmd w = (w', r) → w_procs w !! pid = None → lock_step w w'
| lock_work pid p p' d w :
    w_procs w !! pid = Some p → lock_step w (MkWorld d (w_lock w) (<[pid := p']> (w_procs w)))
| lock_stop pid p d w :
    w_procs w !! pid = Some p → lock_step w (MkWorld d (Lock.release pid (w_lock w)) (delete pid (w_procs w))).

Definition exclusive (w : World) : Prop :=
  (∃ pid p, w_lock w = Some pid ∧ w_procs w = {[pid := p]}) ∨ w_lock w = None ∧ w_procs w = ∅.

Lemma release_own pid : Lock.release pid (Some pid) = None.
Proof. unfold Lock.release. by rewrite bool_decide_eq_true_2. Qed.

Lemma main_exclusive io pid cmd w w' r :
  main io cfg pid cmd w = (w', r) → w_lock w = None → w_procs w = ∅ → exclusive w'.
Proof.
  intros E Hl Hp. unfold main in E.
  assert (∀ cmd, run_admin io cfg pid cmd w = (w', r) → exclusive w') as Hadmin.
  { intros c Er. right. unfold run_admin in Er. rewrite Hl in Er.
    destruct (Lock.acquire _ _ _) as [lock locked] eqn:Ea.
    assert (Lock.release pid lock = None) as Hrel.
    { unfold Lock.acquire in Ea. destruct (ci_lock io) as [[]|]; injection Ea as <- <-; [done..|apply release_own]. }
    rewrite Hrel in Er. destruct (Admin.open_state_for_admin _ _ _ _ _ _ _) as [manfs [st|e|]]; [|by injection Er as <- _..].
    destruct (run_command _ _ _). by injection Er as <- _. }
  destruct cmd; try by eapply Hadmin. unfold run_server in E. rewrite Hl in E.
  destruct (ci_lock io) as [[]|]; cbn [Lock.acquire] in E; [injection E as <- _; by right..|].
  destruct (start_state _ _ _) as [d [st|e|]]; injection E as <- _; [left|right; by rewrite release_own..].
  exists pid, (memory_of st). cbn. by rewrite Hp.
Qed.

Lemma lock_step_exclusive w w' : lock_step w w' → exclusive w → exclusive w'.
Proof.
  destruct 1 as [io pid cmd w w' r E Hpid|pid p p' d w Hpid|pid p d w Hpid]; intros [(pid0 & p0 & Hl & Hp)|[Hl Hp]].
  - destruct (locked_out io pid0 pid cmd w Hl) as [e E']; [intros ->; by rewrite Hp, lookup_singleton_eq in Hpid|].
    rewrite E in E'. injection E' as -> _. left. by exists pid0, p0.
  - by eapply main_exclusive.
  - left. rewrite Hp in Hpid. apply lookup_singleton_Some in Hpid as [<- <-]. exists pid0, p'. cbn. by rewrite Hp, insert_singleton_eq.
  - by rewrite Hp, lookup_empty in Hpid.
  - right. rewrite Hp in Hpid. apply lookup_singleton_Some in Hpid as [<- <-]. cbn. by rewrite Hl, Hp, release_own, delete_singleton_eq.
  - by rewrite Hp, lookup_empty in Hpid.
Qed.

(** C12: one process at a time: in every history of servers and admin
    commands on one directory, started in any order, with any failure of the
    lock call or of any other call, and whatever the running server does to
    its memory and to the directory before it stops, at most one server runs;
    it holds the lock, and every other command that is started meanwhile is
    refused and leaves memory and directory as they were. *)
Theorem one_process_at_a_time d w pid p :
  rtc lock_step (MkWorld d None ∅) w → w_procs w !! pid = Some p →
  w_lock w = Some pid
  ∧ (∀ pid', is_Some (w_procs w !! pid') → pid' = pid)
  ∧ ∀ io cmd pid', w_procs w !! pid' = None → ∃ e, main io cfg pid' cmd w = (w, Err e).
Proof.
  intros Hr Hpid.
  assert (exclusive w) as [(pid0 & p0 & Hl & Hp)|[_ Hp]]; [|..|by rewrite Hp, lookup_empty in Hpid].
  { assert (exclusive (MkWorld d None ∅)) as H0 by (by right). revert H0.
    induction Hr as [|a b c Hs _ IH]; [done|]. intros Ha. by eapply IH, lock_step_exclusive. }
  rewrite Hp in Hpid |- *. apply lookup_singleton_Some in Hpid as [<- <-]. split; [done|]. split.
  - intros pid' [p' [<- _]%lookup_singleton_Some]. done.
  - intros io cmd pid' Hn. apply (locked_out io pid0); [done|]. intros ->. by rewrite lookup_singleton_eq in Hn.
Qed.

(** A server that is gone leaves its lock and, if that, a directory at rest. *)
Lemma stopped_world pid0 p0 pid p w d acked :
  w_lock w = Some pid0 → w_procs w = {[pid0 := p0]} → w_procs w !! pid = Some p →
  (p = p0 → at_rest d acked) → world_ok (MkWorld d (Lock.release pid (w_lock w)) (delete pid (w_procs w))) acked.
Proof.
  intros Hl Hp Hpid Hr. rewrite Hp in Hpid. apply lookup_singleton_Some in Hpid as [<- <-].
  apply ok_down; cbn [w_lock w_procs w_disk]; [|rewrite Hp; apply delete_singleton_eq|by apply Hr].
  unfold Lock.release. rewrite Hl. by rewrite bool_decide_eq_true_2.
Qed.

Lemma step_world x y : step x y → world_ok x.1 x.2 → world_ok y.1 y.2.
Proof.
  destruct 1 as [io pid cmd w w' r acked E Hpid Hmig Hsv Hfit|pid p st acked acked' w Hpid Hstep|pid p walfs acked w Hpid Hc|
    pid p files manfs walfs0 walfs acked w Hpid Hdie Hc];
    cbn [fst snd]; intros [pid0 p0 Hl Hp Hi|Hl Hp Hr].
  - destruct (locked_out io pid0 pid cmd w Hl) as [e E']; [intros ->; by rewrite Hp, lookup_singleton_eq in Hpid|].
    rewrite E in E'. injection E' as -> _. by eapply ok_up.
  - destruct cmd; cbn [main] in E; try (destruct (admin_at_rest _ _ _ _ acked _ _ Hmig Hsv Hfit Hl Hr E) as (H1 & H2 & H3);
      apply ok_down; [done|by rewrite H3|done]).
    unfold run_server in E. rewrite Hl in E. destruct (ci_lock io) as [[]|]; cbn [Lock.acquire] in E;
      [injection E as <- _; by apply ok_down..|].
    pose proof (start_at_rest io (w_disk w) acked Hmig Hsv Hr) as Hs.
    destruct (start_state io cfg (w_disk w)) as [d [st|e|]]; cbn [started] in Hs; [|..|done]; injection E as <- _.
    + destruct Hs as (-> & Hi & _). apply (ok_up _ _ pid (memory_of st)); cbn; [done|by rewrite Hp|by rewrite attach_memory].
    + destruct Hs as [Hs _]. apply ok_down; cbn; [|done|done]. unfold Lock.release. by rewrite bool_decide_eq_true_2.
  - rewrite Hp in Hpid. apply lookup_singleton_Some in Hpid as [<- <-].
    apply (Bill.step_intact _ _ _ Hstep) in Hi. apply (ok_up _ _ pid0 (memory_of st)); cbn [w_lock w_procs w_disk].
    + done.
    + rewrite Hp. apply insert_singleton_eq.
    + by rewrite attach_memory.
  - by rewrite Hp, lookup_empty in Hpid.
  - apply (stopped_world pid0 p0 pid p); [done..|]. intros ->. right. exists (attach (w_disk w) p0).
    split; [done|]. split; [done|]. split; [done|].
    by apply (Sys.crash_rests _ acked); [apply (Bill.in_system _ _ Hi)|].
  - by rewrite Hp, lookup_empty in Hpid.
  - apply (stopped_world pid0 p0 pid p); [done..|]. intros ->.
    destruct (Kill.death_left size_of_event _ _ _ _ _ _ Hi Hdie Hc) as (st' & Hi' & Em & Ef & Hrest & _).
    right. by exists st'.
  - by rewrite Hp, lookup_empty in Hpid.
Qed.

Lemma steps_world x y : rtc step x y → world_ok x.1 x.2 → world_ok y.1 y.2.
Proof. induction 1 as [|x y z Hs _ IH]; intros Hi; [done|]. by eapply IH, step_world. Qed.

Lemma reach_world w acked : rtc step (no_process, []) (w, acked) → world_ok w acked.
Proof. intros Hr. apply (steps_world _ _ Hr). apply ok_down; [done..|]. left. by repeat split. Qed.

(** C11: The database comes back after servers and admin commands: in strict
    mode, after a history of commands started in any order, of servers that
    work without a failing call on a file, with drained messages sent in the
    order of their drains, new segment names, rows that fit the format and
    counters within u64 and no compaction of two rows with one event id, and
    that stop between two operations or die inside a flush, a tick, a
    compaction, a close or a rebuild, with the entries of synced files kept,
    when no process runs then starting the server without a fault succeeds,
    and its segments and memtable hold exactly the accepted events; of [tmp/]
    only directories and names that cannot be removed are left. *)
Theorem server_comes_back io pid w acked :
  rtc step (no_process, []) (w, acked) → w_procs w = ∅ →
  ci_migrate io = None → ci_save io = None → ci_lock io = None → ci_tmp_fail io = None → ci_wal_ok io = true →
  ∃ w' p, main io cfg pid Serve w = (w', Ok Serving) ∧ w_procs w' = {[pid := p]} ∧ w_lock w' = Some pid
    ∧ acked ≡ₚ Flush.stored (dk_files (w_disk w')) (m_raw_segments (sv_manifest p)) ++ mt_events (sv_memtable p)
    ∧ dk_tmp (w_disk w') = filter (λ p, p.2 = false ∨ p.1 ∈ ci_tmp_stuck io) (dk_tmp (w_disk w)).
Proof.
  intros Hr He Hmig Hsv Hlk Ht Hw. destruct (reach_world w acked Hr) as [pid0 p0 _ Hp _|Hl Hp Hrest].
  { exfalso. rewrite He in Hp. by apply (map_non_empty_singleton pid0 p0). }
  pose proof (start_at_rest io (w_disk w) acked Hmig Hsv Hrest) as Hs. unfold main, run_server. rewrite Hlk, Hl. cbn [Lock.acquire].
  destruct (start_state io cfg (w_disk w)) as [d [st|e|]]; cbn [started] in Hs; [|by destruct Hs as [_ [?|?]]; congruence|done].
  destruct Hs as (-> & Hi & Hq). eexists _, _. split; [reflexivity|]. cbn. rewrite Hp. split; [done|]. split; [done|]. split.
  - rewrite (Sys.si_acked _ _ (Bill.in_system _ _ Hi)). unfold Ing.buffered. by rewrite Hq.
  - rewrite Ht. apply remove_all_spec.
Qed.
End started.
End process.
End Proc.

(** A server takes a batch, dies, the files are checked, and it comes back. *)
Module ProcessExample.
#[local] Existing Instances poly_digest code_bincode stored_codecs poly_digest_ok code_bincode_ok stored_codecs_ok.
#[local] Existing Instances Files.file_segments Files.file_segments_ok text_json text_json_ok.
#[local] Existing Instances ManExample.text_manifest ManExample.text_manifest_ok Per.flat_calendar.
#[local] Existing Instances QueryExample.code_dims QueryExample.code_dims_parse ApiExample.millis.
#[local] Instance no_parquet : ParquetWriter := λ _ _, None.

Definition io : CmdIo := MkCmdIo None None ∅ None None true 0 (λ _, 0).
Definition cfg : Config := SystemExample.cfg.

Definition w1 : World :=
  MkWorld (Proc.disk_of [] SystemExample.st0) (Some 1%nat) {[1%nat := Proc.memory_of SystemExample.st0]}.
Definition w2 : World :=
  MkWorld (Proc.disk_of [] SystemExample.st1) (Some 1%nat) {[1%nat := Proc.memory_of SystemExample.st1]}.
Definition d2 : Disk := Proc.disk_of [] SystemExample.st1.
Definition w3 : World := MkWorld (MkDisk (dk_manfs d2) (dk_files d2) SystemExample.after_crash []) None ∅.
Definition w4 : World := (Proc.main 200 io cfg 2 (Check true) w3).1.

Lemma served : Proc.main 200 io cfg 1 Serve Proc.no_process = (w1, Ok Serving).
Proof.
  pose proof SystemExample.fresh_ok as E. unfold w1. generalize dependent SystemExample.st0. intros st E.
  unfold Sys.fresh_start, Rec.startup in E. rewrite (Proc.recovery_virgin 200 (SJok := text_json_ok)) in E.
  unfold Proc.main, Proc.run_server, Proc.start_state, Proc.recover. cbn [io ci_lock ci_migrate ci_save ci_tmp_fail ci_tmp_stuck ci_wal_ok
    ci_now ci_clk Proc.no_process w_lock w_disk w_procs dk_manfs dk_files dk_walfs dk_tmp Lock.acquire Proc.remove_tmp_files].
  change (Man.load None (Man.MkManFs ∅ None)) with (Man.MkManFs ∅ None, @Ok Man.man_error _ (@None Manifest)). cbn match.
  rewrite (Proc.recovery_virgin 200 (SJok := text_json_ok)). cbn [rec_manifest rec_memtable rec_dedupe dk_manfs dk_walfs dk_files dk_tmp] in *.
  change (m_bucket_count manifest_default =? 0) with true in *. cbn match in *.
  change (SystemExample.cfg) with cfg in E. destruct (Man.save _ _ _) as [[manfs m] [u|e|]]; [|discriminate E..].
  cbn [mbind outcome_bind] in E. destruct (WalOps.open _ _) as [walfs wal]. injection E as <-. reflexivity.
Qed.

Lemma work_step st acked st' acked' :
  Bill.step 200 (st, acked) (st', acked') →
  Proc.step 200 cfg (MkWorld (Proc.disk_of [] st) (Some 1%nat) {[1%nat := Proc.memory_of st]}, acked)
    (MkWorld (Proc.disk_of [] st') (Some 1%nat) {[1%nat := Proc.memory_of st']}, acked').
Proof.
  intros Hs. pose proof (Proc.step_work 200 cfg 1 (Proc.memory_of st) st' acked acked'
    (MkWorld (Proc.disk_of [] st) (Some 1%nat) {[1%nat := Proc.memory_of st]})) as H.
  cbn [w_procs w_disk w_lock] in H. rewrite Proc.attach_memory, insert_singleton_eq in H.
  apply H; [apply lookup_singleton_eq|exact Hs].
Qed.

Lemma reach2 : rtc (Proc.step 200 cfg) (Proc.no_process, []) (w2, SystemExample.acked).
Proof.
  eapply rtc_l.
  { apply (Proc.step_main 200 cfg io 1 Serve _ w1 (Ok Serving)); [exact served|done|done|done|].
    intros m H. discriminate H. }
  eapply rtc_l; [apply work_step, (Bill.step_write _ _ _ SystemExample.ingest_step)
                |apply rtc_once, work_step, (Bill.step_write _ _ _ SystemExample.send_step)];
    (apply BillExample.no_segments; [left|]; vm_compute; reflexivity).
Qed.

Lemma one_process_at_a_time_witness :
  w_lock w2 = Some 1%nat ∧ ∃ e, Proc.main 200 io cfg 7 (RebuildRollups "0" "3600000") w2 = (w2, Err e).
Proof.
  destruct (Proc.one_process_at_a_time 200 cfg (w_disk Proc.no_process) w2 1 (Proc.memory_of SystemExample.st1))
    as (Hl & _ & Hout).
  { eapply rtc_l; [apply (Proc.lock_main 200 cfg io 1 Serve _ w1 (Ok Serving)); [exact served|done]|]. apply rtc_once.
    assert (w2 = MkWorld (w_disk w2) (w_lock w1) (<[1%nat := Proc.memory_of SystemExample.st1]> (w_procs w1))) as ->
      by (unfold w2, w1; cbn; by rewrite insert_singleton_eq).
    apply (Proc.lock_work 200 cfg 1 (Proc.memory_of SystemExample.st0)), lookup_singleton_eq. }
  { apply lookup_singleton_eq. }
  split; [exact Hl|]. apply Hout. by apply lookup_singleton_ne.
Defined.

Lemma reach3 : rtc (Proc.step 200 cfg) (Proc.no_process, []) (w3, SystemExample.acked).
Proof.
  eapply rtc_r; [exact reach2|].
  assert (w3 = MkWorld (MkDisk (dk_manfs (w_disk w2)) (dk_files (w_disk w2)) SystemExample.after_crash (dk_tmp (w_disk w2)))
                 (Lock.release 1 (w_lock w2)) (delete 1%nat (w_procs w2))) as ->.
  { unfold w3, w2, d2. cbn [w_disk w_lock w_procs]. by rewrite delete_singleton_eq. }
  apply (Proc.step_stop 200 cfg 1 (Proc.memory_of SystemExample.st1)); [apply lookup_singleton_eq|exact SystemExample.crashed_after].
Qed.

Lemma saves_fit3 : Proc.saves_fit (w_disk w3).
Proof.
  assert (match (Man.load None (dk_manfs (w_disk w3))).2 with
          | Ok (Some m) => (0 <=? m_current_generation m) && (m_current_generation m <? u64_max)
          | _ => true
          end = true) as H by (vm_compute; reflexivity).
  intros m Hm. rewrite Hm in H. apply andb_true_iff in H as [H1 H2]. apply Z.leb_le in H1. apply Z.ltb_lt in H2. by split.
Qed.

Lemma checked : ∃ r, Proc.main 200 io cfg 2 (Check true) w3 = (w4, Ok r).
Proof.
  assert (match (Proc.main 200 io cfg 2 (Check true) w3).2 with Ok _ => true | _ => false end = true) as E by (vm_compute; reflexivity).
  unfold w4. destruct (Proc.main 200 io cfg 2 (Check true) w3) as [w [r|e|]]; cbn in *; [by eexists|done..].
Qed.

Lemma server_comes_back_witness :
  w_procs w4 = ∅
  ∧ ∃ w' p, Proc.main 200 io cfg 3 Serve w4 = (w', Ok Serving) ∧ w_procs w' = {[3%nat := p]}
      ∧ SystemExample.acked
        ≡ₚ Flush.stored (dk_files (w_disk w')) (m_raw_segments (sv_manifest p)) ++ mt_events (sv_memtable p).
Proof.
  assert (w_procs w4 = ∅) as Hp by (vm_compute; reflexivity). split; [exact Hp|].
  assert (rtc (Proc.step 200 cfg) (Proc.no_process, []) (w4, SystemExample.acked)) as Hr.
  { destruct checked as [r E]. eapply rtc_r; [exact reach3|].
    apply (Proc.step_main 200 cfg io 2 (Check true) w3 w4 (Ok r)); [exact E|reflexivity|reflexivity|reflexivity|].
    exact saves_fit3. }
  destruct (Proc.server_comes_back 200 cfg eq_refl ltac:(discriminate) io 3 w4 SystemExample.acked Hr Hp
    eq_refl eq_refl eq_refl eq_refl eq_refl) as (w' & p & Es & Hw & _ & Ha & _).
  exists w', p. split; [exact Es|]. split; [exact Hw|exact Ha].
Defined.
End ProcessExample.
