(* ===== verification/Server.v ===== *)
(** * The HTTP surface

    [build_router], [AppError] and the handlers' error paths of
    [src/api/http_server.rs]: which handler answers a request, and with which
    status.  Decoding a query string or a JSON body is axum's and serde's
    ([Extract]); a path is the list of its decoded segments. *)

From Stdlib Require Import Ascii.
From stdpp Require Import sorting numbers strings base gmap list.
From S2P Require Import Prelude Model Instances Encoding Segment SegmentSpec DedupeIndex SegmentApi.
From S2P Require Import Memtable Dedupe Wal Manifest Period Flusher Compaction State Ingest Recovery System.
From S2P Require Import Rollup RollupWorker Query Sql Api Periods Admin Billing.

Inductive Method := GET | HEAD | POST | OtherMethod.

Record Request := MkRequest {
  rq_method : Method;
  rq_path : list string;
  rq_query : string;
  rq_body : bytes;
}.

(** The extractors: the value, or the status of axum's rejection. *)
Class Extract := {
  x_usage : string → UsageQueryParams + Z;
  x_events : string → EventsQueryParams + Z;
  x_range : string → (string * string) + Z;
  x_batch : bytes → list UsageEvent + Z;
  x_json : bytes → UsageQueryRequest + Z;
  x_sql : bytes → string + Z;
}.

(** Rejections are client errors. *)
Definition rejects {A B} (f : A → B + Z) : Prop := ∀ a s, f a = inr s → 400 ≤ s < 500.

Class ExtractOk `{!Extract} : Prop := {
  x_usage_ok : rejects x_usage;
  x_events_ok : rejects x_events;
  x_range_ok : rejects x_range;
  x_batch_ok : rejects x_batch;
  x_json_ok : rejects x_json;
  x_sql_ok : rejects x_sql;
}.

Inductive Route :=
| RHealth
| RIngest
| RUsage (account_id : string)
| REvents (account_id : string)
| RExplain (account_id : string)
| RVerify (account_id : string)
| RGetPeriod (account_id period : string)
| RClosePeriod (account_id period : string)
| RReopenPeriod (account_id period : string)
| RQueryJson
| RQuerySql.

Inductive AppError := ApiError (e : api_error) | IngestError (e : ingest_error).

Inductive Body :=
| BHealth
| BIngest (r : IngestBatchResponse)
| BUsage (watermark_ms : Z) (rows : list QRow)
| BRows (rows : list QRow)
| BExplain (r : ExplainResponse)
| BVerify (r : VerifyResponse)
| BPeriod (r : PeriodResponse)
| BClosed (r : CloseResponse)
| BReopened (was_closed : bool)
| BError (e : AppError)
| BRejected.

Record Response := MkResponse { rp_status : Z; rp_body : Body }.

(** What the environment does to one request. *)
Record RequestIo := MkRequestIo {
  qi_ingest : IngestIo;
  qi_save : Man.save_fault;
  qi_now : Z;
  qi_clk : nat → Z * Z * Z;
}.

Module Http.

(** ** Routing *)

(** The route of a path with the method it is registered for.  A parameter
    does not match an empty segment, and no literal is empty. *)
Definition match_path (path : list string) : option (Method * Route) :=
  if existsb (String.eqb "") path then None else
  match path with
  | ["health"] => Some (GET, RHealth)
  | ["v1"; "usage"; "batch"] => Some (POST, RIngest)
  | ["v1"; "accounts"; a; "usage"] => Some (GET, RUsage a)
  | ["v1"; "accounts"; a; "usage"; "events"] => Some (GET, REvents a)
  | ["v1"; "accounts"; a; "explain"] => Some (GET, RExplain a)
  | ["v1"; "accounts"; a; "verify"] => Some (GET, RVerify a)
  | ["v1"; "accounts"; a; "periods"; p] => Some (GET, RGetPeriod a p)
  | ["v1"; "accounts"; a; "periods"; p; "close"] => Some (POST, RClosePeriod a p)
  | ["v1"; "accounts"; a; "periods"; p; "reopen"] => Some (POST, RReopenPeriod a p)
  | ["v1"; "query"; "json"] => Some (POST, RQueryJson)
  | ["v1"; "query"; "sql"] => Some (POST, RQuerySql)
  | _ => None
  end.

(** A GET route answers HEAD too. *)
Definition method_ok (registered asked : Method) : bool :=
  match registered, asked with
  | GET, GET | GET, HEAD | POST, POST => true
  | _, _ => false
  end.

(** A response is [None] when the handler panics and the connection is
    dropped. *)
Definition ok (b : Body) : option Response := Some (MkResponse 200 b).

(** [AppError::into_response]. *)
Definition into_response (e : AppError) : option Response := Some (MkResponse 500 (BError e)).

Definition respond {A} (f : A → Body) (r : outcome api_error A) : option Response :=
  match r with Ok a => ok (f a) | Err e => into_response (ApiError e) | Panic => None end.

Definition extracted {A} (x : A + Z) (k : A → option Response) : option Response :=
  match x with inl a => k a | inr status => Some (MkResponse status BRejected) end.

Section http.
Context {BL : Blake3} {BN : Bincode} {SJ : SerdeJson} {RS : RawSegments} {MJ : ManifestJson} {CH : Chrono}.
Context {DJ : DimJson} {DP : DimParse} {RF : Rfc3339} {ST : SqlText} {XT : Extract}.
Context (size_of_event : Z).

(** The routes that only read. *)
Definition read (st : AppState) (req : Request) (route : Route) : option Response :=
  match route with
  | RHealth => ok BHealth
  | RUsage a => extracted (x_usage (rq_query req)) (λ q, respond (λ p, BUsage p.1 p.2) (Api.handle_account_usage st a q))
  | REvents a => extracted (x_events (rq_query req)) (λ q, respond BRows (Api.handle_account_events st a q))
  | RExplain a => extracted (x_range (rq_query req)) (λ q, respond BExplain (Api.handle_explain st a q.1 q.2))
  | RVerify a => extracted (x_range (rq_query req)) (λ q, respond BVerify (Api.handle_verify st a q.1 q.2))
  | RGetPeriod a p => respond BPeriod (Close.handle_get_period st a p)
  | RQueryJson => extracted (x_json (rq_body req)) (λ q, respond BRows (Api.handle_query_json st q))
  | RQuerySql => extracted (x_sql (rq_body req)) (λ q, respond BRows (Api.handle_query_sql st q))
  | _ => None
  end.

Definition handle (io : RequestIo) (st : AppState) (req : Request) (route : Route) : AppState * option Response :=
  match route with
  | RIngest =>
      match x_batch (rq_body req) with
      | inl events =>
          match Ing.handle_ingest size_of_event (qi_ingest io) (qi_now io) (qi_clk io) st events with
          | (st, Ok r) => (st, ok (BIngest r))
          | (st, Err e) => (st, into_response (IngestError e))
          | (st, Panic) => (st, None)
          end
      | inr status => (st, Some (MkResponse status BRejected))
      end
  | RClosePeriod a p =>
      let '(st, r) := Close.handle_close_period (qi_save io) (qi_now io) st a p in (st, respond BClosed r)
  | RReopenPeriod a p =>
      let '(st, r) := Close.handle_reopen_period (qi_save io) st a p in (st, respond BReopened r)
  | _ => (st, read st req route)
  end.

Definition serve (io : RequestIo) (st : AppState) (req : Request) : AppState * option Response :=
  match match_path (rq_path req) with
  | Some (registered, route) =>
      if method_ok registered (rq_method req) then handle io st req route
      else (st, Some (MkResponse 405 BRejected))
  | None => (st, Some (MkResponse 404 BRejected))
  end.

(** ** What a reading request answers *)

(** Errors that are about the parameters of the request. *)
Definition client_error (e : api_error) : Prop := match e with SaveFailed _ => False | _ => True end.

Definition answered {A} (r : outcome api_error A) : Prop :=
  match r with Ok _ => True | Err e => client_error e | Panic => False end.

Definition client_status (resp : Response) : Prop :=
  rp_status resp = 200 ∨ 400 ≤ rp_status resp < 500
  ∨ rp_status resp = 500 ∧ ∃ e, rp_body resp = BError (ApiError e) ∧ client_error e.

Lemma answered_bind {A B} (m : outcome api_error A) (f : A → outcome api_error B) :
  answered m → (∀ a, answered (f a)) → answered (m ≫= f).
Proof. destruct m as [a|e|]; cbn; [by intros _ H; apply H|done|done]. Qed.

Lemma answered_range from to : answered (Api.time_range from to).
Proof. unfold Api.time_range. destruct (rfc3339_ms from), (rfc3339_ms to); done. Qed.

Lemma parse_period_no_panic p : Per.parse_period p ≠ Panic.
Proof. unfold Per.parse_period. no_panic. Qed.

Lemma answered_period p : answered (Close.parsed_period p).
Proof.
  unfold Close.parsed_period. pose proof (parse_period_no_panic p) as H. by destruct (Per.parse_period p).
Qed.

Lemma answered_bounds y m : answered (Close.bounds y m).
Proof.
  unfold Close.bounds, Per.period_bounds. destruct (month_start y m); cbn; [|done].
  destruct (if _ : bool then _ else _); done.
Qed.

Lemma answered_plan st plan : Exec.segs_sound st → answered (Api.run_plan st plan).
Proof. intros Hs. destruct (Api.rollup_path_runs st plan Hs) as (rows & ->). done. Qed.

Lemma respond_answered {A} (f : A → Body) r : answered r → ∃ resp, respond f r = Some resp ∧ client_status resp.
Proof.
  destruct r as [a|e|]; cbn; intros H; [|..|done]; (eexists; split; [reflexivity|]); [by left|right; right].
  split; [done|]. by exists e.
Qed.

Lemma extracted_answered {A B} (x : B → A + Z) b k :
  rejects x → (∀ a, ∃ resp, k a = Some resp ∧ client_status resp) → ∃ resp, extracted (x b) k = Some resp ∧ client_status resp.
Proof.
  intros Hx Hk. unfold extracted. destruct (x b) as [a|s] eqn:E; [apply Hk|]. eexists. split; [reflexivity|]. right. left.
  by eapply Hx.
Qed.

Create HintDb answered discriminated.
#[local] Hint Resolve answered_range answered_period answered_bounds answered_plan : answered.
Ltac answer := repeat first [exact I | solve [auto with answered] | apply answered_bind; [|intros] | case_match].

Definition reads (route : Route) : bool :=
  match route with RIngest | RClosePeriod _ _ | RReopenPeriod _ _ => false | _ => true end.

Context {XTok : ExtractOk}.

Lemma read_answers st req route :
  Exec.segs_sound st → reads route = true → ∃ resp, read st req route = Some resp ∧ client_status resp.
Proof.
  intros Hs Hr. destruct route; try done; cbn [read].
  - eexists. split; [reflexivity|]. by left.
  - apply extracted_answered; [apply x_usage_ok|]. intros q. apply respond_answered. unfold Api.handle_account_usage. answer.
  - apply extracted_answered; [apply x_events_ok|]. intros q. apply respond_answered. unfold Api.handle_account_events. answer.
  - apply extracted_answered; [apply x_range_ok|]. intros q. apply respond_answered. unfold Api.handle_explain. answer.
  - apply extracted_answered; [apply x_range_ok|]. intros q. apply respond_answered. unfold Api.handle_verify. answer.
  - apply respond_answered. unfold Close.handle_get_period. answer.
  - apply extracted_answered; [apply x_json_ok|]. intros q. apply respond_answered. unfold Api.handle_query_json. answer.
  - apply extracted_answered; [apply x_sql_ok|]. intros q. apply respond_answered. unfold Api.handle_query_sql.
    pose proof (Sql.parse_sql_no_panic q). destruct (Sql.parse_sql q); [by apply answered_plan|done|done].
Qed.

Context {SJok : SerdeJsonOk} {RSok : RawSegmentsOk} {MJok : ManifestJsonOk}.

(** C32: reading always gets an answer: in every state the server reaches from
    an     empty database in strict mode, without a failing call on a file,
    with     drained messages sent in the order of their drains, new segment
    names, rows     that fit the format and counters within u64 and no
    compaction of two rows     with one event id, a request that is not for
    one of the three writing     routes, whatever its path, method, parameters
    and body, leaves the database     unchanged and is answered; a status of
    500 only ever reports a malformed     time, period or SQL text of the
    request itself, never the state of the     stored data. *)
Theorem reads_always_answered cfg now clk st0 st acked io req :
  durability_mode cfg = Strict → default_bucket_count cfg ≠ 0 →
  Sys.fresh_start size_of_event cfg now clk = Ok st0 → rtc (Bill.step size_of_event) (st0, []) (st, acked) →
  (∀ m route, match_path (rq_path req) = Some (m, route) → method_ok m (rq_method req) = true → reads route = true) →
  ∃ resp, serve io st req = (st, Some resp) ∧ client_status resp.
Proof.
  intros Hmode Hb H0 Hr Hroute. destruct (Bill.fresh_intact size_of_event cfg now clk Hmode Hb) as (st1 & E & Hi).
  rewrite H0 in E. injection E as <-. apply (Bill.steps_intact _ _ _ Hr) in Hi. cbn [fst snd] in Hi.
  unfold serve. destruct (match_path (rq_path req)) as [[m route]|] eqn:Em; [|eexists; split; [reflexivity|right; left; cbn; lia]].
  destruct (method_ok m (rq_method req)) eqn:Eo; [|eexists; split; [reflexivity|right; left; cbn; lia]].
  specialize (Hroute m route eq_refl Eo).
  destruct (read_answers st req route (Bill.in_sound _ _ Hi) Hroute) as (resp & Er & Hc).
  exists resp. split; [|done]. unfold handle. rewrite Er. by destruct route.
Qed.
End http.
End Http.

Module ServerExample.
#[local] Existing Instances poly_digest code_bincode stored_codecs poly_digest_ok code_bincode_ok stored_codecs_ok.
#[local] Existing Instances Files.file_segments Files.file_segments_ok text_json text_json_ok.
#[local] Existing Instances ManExample.text_manifest ManExample.text_manifest_ok Per.flat_calendar.
#[local] Existing Instances QueryExample.code_dims QueryExample.code_dims_parse ApiExample.millis.
#[local] Instance no_sql : SqlText := λ _, None.

(** Ranges to the given time; other parameters and bodies are refused. *)
#[local] Instance ranges_only : Extract :=
  {| x_usage := λ _, inr 400; x_events := λ _, inr 400; x_range := λ q, inl ("0", q);
     x_batch := λ _, inr 415; x_json := λ _, inr 422; x_sql := λ _, inr 422 |}.

#[local] Instance ranges_only_ok : ExtractOk.
Proof. split; intros a s H; try discriminate H; injection H as <-; lia. Qed.

Definition io : RequestIo := MkRequestIo no_faults None 3000 IngestExample.clk.
Definition req : Request := MkRequest GET ["v1"; "accounts"; "acct_1"; "verify"] "7200000" [].

Lemma reads_always_answered_witness :
  ∃ resp, Http.serve 200 io BillExample.closed req = (BillExample.closed, Some resp) ∧ Http.client_status resp.
Proof.
  apply (Http.reads_always_answered 200 SystemExample.cfg 0 (λ _, 0) SystemExample.st0 BillExample.closed SystemExample.acked).
  - reflexivity.
  - discriminate.
  - exact SystemExample.fresh_ok.
  - exact BillExample.reach.
  - intros m route E _. vm_compute in E. injection E as _ <-. reflexivity.
Defined.
End ServerExample.
